(* ===== verification/_CoqProject ===== *)
-Q . S2P
Prelude.v
Json.v
Parse.v
ParseFacts.v
Wire.v
Instant.v
Store.v
Tx.v
Adapter.v
Events.v
Commands.v
Budget.v
Barrier.v
Hold.v
Submit.v
Dispatch.v
LogicalDelete.v
TranscriptView.v
Read.v
Replay.v
Paging.v
Pages.v
Frames.v
Files.v
TranscriptFacts.v
PagingFacts.v
SafeText.v
SafeTextFacts.v
Capture.v
SafeTextStore.v
DialogView.v
ToolTimeline.v
HistoryReplica.v
HistoryExport.v
Observe.v
Artifacts.v
Actions.v
Recovery.v
Atomic.v
Append.v
Invariant.v
Steering.v
Handlers.v
Keeping.v
Transactions.v
DeleteTx.v
Observing.v
ArchiveFacts.v
WorkerTx.v
WorkerHistory.v
Replicas.v
Reading.v
ArtifactTx.v
Exporting.v
Reach.v
Demo.v
NodeFacts.v
Answers.v
Admission.v
HoldFacts.v
DeleteFacts.v
DispatchFacts.v
ActionFacts.v
RecoveryFacts.v
FilesFacts.v
ReadFacts.v
TimelineFacts.v
ReplicaFacts.v
Auth.v
AuthSystem.v
AuthSections.v
AuthFacts.v
Settings.v
SettingsManager.v
SettingsFacts.v
SettingsValidation.v
Credential.v
CredentialFacts.v
SettingsRuns.v
