(* ===== verification/Prelude.v ===== *)
(** * Verification library for the Harness Cursor node

    The node runs the work of one owner: dialogs of messages, each message one
    request, each request one or more attempts of which the node runs at most
    one at a time.  A coordinator posts commands over HTTP, installs holds that
    stop admission, deletes dialogs, reads pages and event streams, and exports
    the history of a dialog as a hash chain.  A dispatcher starts the head of
    the queue, a worker carries control actions to the adapter of the provider,
    and the adapter's observations come back as events.  All of it meets in one
    SQLite database, under one mutex ([node.mu]).

    ** How the model is put together

    - _Values._  [Json], [Parse] and [ParseFacts] are JSON as the node's
      decoders and serializers see it ([internal/strictjson],
      [contracts/wire/canonical.go]); [Wire] the frozen contract
      ([contracts/wire/validate.go]); [Barrier], [LogicalDelete],
      [TranscriptView] and [HistoryReplica] the other packages of [contracts/];
      [Adapter] the types of [adapters/contract/adapter.go].
    - _Storage._  [Store] is the schema of [runtime/schema.go]: a record of
      tables, a table a list of rows, and one function [Db -> option Db] per
      statement the node executes, [None] when a constraint, a trigger or an
      index of the schema refuses it.  [Files] is the artifact directory.
    - _Handlers._  [Tx] is the monad of a handler: the committed database, the
      transaction's view, the local [durableState] of the handler, the volatile
      fields of the node, and an environment that decides what the handler
      cannot: identities, clock, free space, adapter answers, and which
      statement, commit or file operation fails.  A failure is a value
      ([Return] for an answer, an error for a Go error), and a failing commit
      leaves the caller unable to tell whether it happened, as in the code.
    - _The node._  [Events] ([runtime/events.go]), [Commands]
      ([command_handlers.go], [control_handlers.go]), [Submit] ([command.go]),
      [Hold] ([hold.go]), [Dispatch] ([dispatch.go]), [Budget]
      ([output_budget.go]), [Observe] ([observe.go], [stream_lifecycle.go]),
      [Actions] ([actions.go]), [Recovery] ([recovery.go], [reconcile.go]),
      [SafeText], [Capture] and [SafeTextStore] ([safe_text.go]), [Read],
      [Replay], [Paging] and [Pages] ([read.go], [replay.go], [pages.go]),
      [HistoryExport] ([history_export.go]).  A Go function is the definition
      of the same name; a block of it that the proofs name has a name of its
      own in lower case.
    - _Steps._  [Reach] lists the transactions that can run, one at a time, in
      any order and any environment: the HTTP handlers, both halves of a
      dispatch, the worker's transactions, the observations, the recovery.
      What happens between two transactions of one Go function (the adapter is
      called without the mutex) is any sequence of other steps.

    ** Theories the theorems rest on

    [Frames] says what each statement changes and gives [wp_step], the symbolic
    execution of a handler; [Atomic] proves the commit discipline by walking
    the syntax of a handler; [Append] that the history only grows;
    [Invariant], [Steering], [Handlers], [Keeping], [Transactions],
    [DeleteTx], [Observing], [ArchiveFacts], [WorkerTx], [WorkerHistory] that
    every transaction keeps the node invariant [Inv]; [Replicas] and
    [Exporting] that the export keeps the replica streams well formed;
    [Reading] that reads change nothing.

    ** What the theorems show

    - [NodeFacts]: on every reachable volume the log has no gaps, the queue is
      accounted for, one attempt runs at most, active holds do not overlap, and
      a command has one outcome.
    - [Answers]: handlers answer whatever fails, an answer that says nothing
      was committed is true, and the history is append-only.
    - [Admission], [HoldFacts], [DeleteFacts]: what submitting, holding,
      proving quiescence, releasing and deleting do, exactly-once recording and
      replay, and the admission barrier.
    - [DispatchFacts], [ActionFacts], [RecoveryFacts]: the queue's order, the
      worker as a sequence of the steps of [Reach], its lanes, restarts and
      reconciliation.
    - [ReadFacts], [PagingFacts]: the event stream is the log, the snapshot the
      state, following the cursors shows every row once, a cursor that does not
      belong to the state is refused, nothing of a deleted dialog is shown.
    - [ReplicaFacts]: the streams are hash chains, an export answers a page its
      contract validates, following the pages copies the stream, a complete
      export covers the dialog, and a page pins its records.
    - [TranscriptFacts], [SafeTextFacts], [FilesFacts]: round trips, chunks that
      cover their text within the storage reserve, and the startup cleanup.
    - [AuthFacts]: the provider's login sessions ([providerauth/manager.go]).

    ** Bounds and fuel

    Integers are [Z].  Counters that grow by one per transaction (sequence
    numbers, revisions, generations) are not wrapped: no volume executes 2^63
    transactions.  Sums and conversions that a single input can drive out of
    [int64] keep their width: numbers are read with a range check, and the
    counts of a checkpoint are added with wrap-around
    ([HistoryReplica.wrap64]).

    Recursion is structural but for the parser ([Parse.parse_value]: twice the
    length of the text, enough for every serialized value by [ParseFacts]), the
    cutting of texts and assets ([SafeText.chunk_loop],
    [HistoryExport.byte_parts]: the length of the text, since every part takes a
    byte; [SafeTextFacts.safe_text_chunks_cover]), and the page that shrinks
    until it fits ([HistoryExport.encode_page]: the number of its records).

    ** What is a parameter, and what is not modelled

    SHA-256, UUIDs, the clock, the free space of the disk and the adapter's
    answers are fields of the environment; hypotheses on the hash (its
    digests are 64 hexadecimal digits, or two given inputs do not collide) are
    stated where they are used, and the witnesses instantiate them.  SQLite is
    its documented behaviour: transactions are atomic, constraints hold,
    rowids order the rows of a table.  Not modelled: the ownership checks and
    locks of the data directory, the migrations of older schema versions, HTTP
    routing, goroutines, channels and leases around the transactions (their
    effect on the database is the order of steps), the processes of the
    provider's adapter, the tool sandbox, and logging. *)
From stdpp Require Import base tactics list strings gmap pretty.
From Stdlib Require Import ZArith Lia Ascii String.
From Stdlib Require Import DecimalString DecimalN DecimalZ.
#[export] Set Default Proof Using "Type".

Declare Scope harness_scope.
Delimit Scope harness_scope with harness.
Open Scope Z_scope.

(** ** Record update
    [r <| proj := v |>] replaces one field of a record whose eta expansion is
    registered as an instance of [Eta]; the setter is read off that expansion
    by abstracting the projection, so no setter is written by hand. *)
Class Eta (R : Type) := eta_expand : R -> R.
Class FieldUpd {R T : Type} (proj : R -> T) := field_upd : (T -> T) -> R -> R.
Arguments field_upd {R T} proj {_} _ _.

Ltac derive_field_upd :=
  match goal with
  | |- @FieldUpd ?R ?T ?proj =>
      let inst := constr:(ltac:(typeclasses eauto) : Eta R) in
      let body := eval hnf in inst in
      match eval pattern proj in body with
      | ?abs _ =>
          let abs := eval cbv beta in (fun (f : T -> T) (r : R) => abs (fun x => f (proj x)) r) in
          exact abs
      end
  end.
#[export] Hint Extern 0 (FieldUpd _) => derive_field_upd : typeclass_instances.

Notation "r <| proj := v |>" := (field_upd proj (fun _ => v) r)
  (at level 1, left associativity, proj at level 9, format "r  <| proj  :=  v |>") : harness_scope.
Notation "r <| proj ::= f |>" := (field_upd proj f r)
  (at level 1, left associativity, proj at level 9, format "r  <| proj  ::=  f |>") : harness_scope.
Open Scope harness_scope.


(** ** Boolean reflection hints
    The code's guards are boolean; [simplify_bool] turns the ones a proof has
    in its context into propositions. *)
Create HintDb harness discriminated.
Create Rewrite HintDb table.

Notation "a =s b" := (String.eqb a b) (at level 70, no associativity) : harness_scope.

Lemma str_eqb_refl s : (s =s s) = true.
Proof. apply String.eqb_refl. Qed.

Ltac both_by iff H := apply iff in H; destruct H.
Ltac simplify_bool :=
  repeat match goal with
  | E : (_ && _)%bool = true |- _ => both_by andb_true_iff E
  | E : (_ || _)%bool = false |- _ => both_by orb_false_iff E
  | H : negb _ = true |- _ => apply negb_true_iff in H
  | H : negb _ = false |- _ => apply negb_false_iff in H
  | H : (_ =s _) = true |- _ => apply String.eqb_eq in H
  | H : (_ =s _) = false |- _ => apply String.eqb_neq in H
  | H : (_ =? _) = true |- _ => apply Z.eqb_eq in H
  | H : (_ =? _) = false |- _ => apply Z.eqb_neq in H
  | H : (_ <=? _) = true |- _ => apply Z.leb_le in H
  | H : (_ <=? _) = false |- _ => apply Z.leb_gt in H
  | H : (_ <? _) = true |- _ => apply Z.ltb_lt in H
  | H : (_ <? _) = false |- _ => apply Z.ltb_ge in H
  end.

(** ** Rows and tables
    A table is the list of its rows in rowid order.  The four functions below
    are the shapes of SQL the store uses: [SELECT .. LIMIT 1] in rowid order,
    [UPDATE .. WHERE], [SELECT COUNT( * ) .. WHERE] and [ORDER BY .. LIMIT 1]. *)
Section Tables.
Context {R : Type}.
Implicit Types (p q : R -> bool) (l : list R).

Definition select1 p l : option R := List.find p l.
Definition update_where p (f : R -> R) l : list R :=
  List.map (fun r => if p r then f r else r) l.
Definition count_where p l : Z := Z.of_nat (List.length (List.filter p l)).
Definition exists_where p l : bool := List.existsb p l.

(** [ORDER BY key LIMIT 1]: the first row with the least key. *)
Fixpoint first_by (key : R -> Z) l : option R :=
  match l with
  | [] => None
  | r :: l' =>
      match first_by key l' with
      | None => Some r
      | Some m => if key r <=? key m then Some r else Some m
      end
  end.

(** [ORDER BY key]. *)
Fixpoint insert_by (key : R -> Z) (x : R) l : list R :=
  match l with
  | [] => [x]
  | y :: l' => if key x <=? key y then x :: l else y :: insert_by key x l'
  end.
Fixpoint sort_by (key : R -> Z) l : list R :=
  match l with
  | [] => []
  | x :: l' => insert_by key x (sort_by key l')
  end.

(** [SELECT MAX(key)]: [None] is SQL's NULL. *)
Fixpoint max_by (key : R -> Z) l : option Z :=
  match l with
  | [] => None
  | r :: l' =>
      match max_by key l' with
      | None => Some (key r)
      | Some m => Some (Z.max (key r) m)
      end
  end.

Lemma count_where_nil p : count_where p [] = 0.
Proof. done. Qed.

Lemma count_where_cons p r l :
  count_where p (r :: l) = (if p r then 1 else 0) + count_where p l.
Proof. unfold count_where. simpl. destruct (p r); simpl; lia. Qed.

Lemma count_where_app p l1 l2 :
  count_where p (l1 ++ l2) = count_where p l1 + count_where p l2.
Proof. unfold count_where. rewrite List.filter_app, length_app. lia. Qed.

Lemma count_where_nonneg p l : 0 <= count_where p l.
Proof. unfold count_where. lia. Qed.

Lemma count_where_ext p q l :
  (forall r, r ∈ l -> p r = q r) -> count_where p l = count_where q l.
Proof.
  induction l as [|r l IH]; intros H; [done|].
  rewrite !count_where_cons, (H r), IH; [done| |set_solver].
  intros r' Hr'. apply H. set_solver.
Qed.

(** An update whose rows keep their answer to [q] keeps the count. *)
Lemma count_where_update_same p q f l :
  (forall r, r ∈ l -> p r = true -> q (f r) = q r) ->
  count_where q (update_where p f l) = count_where q l.
Proof.
  induction l as [|r l IH]; intros H; [done|].
  simpl. rewrite !count_where_cons. rewrite IH.
  - destruct (p r) eqn:Hp; [|done]. rewrite H; [done|set_solver|done].
  - intros r' Hr' ?. apply H; [set_solver|done].
Qed.

(** Two different rows that answer a predicate. *)
Lemma count_where_two p l r1 r2 : r1 ∈ l -> r2 ∈ l -> r1 <> r2 -> p r1 = true -> p r2 = true -> ~ count_where p l <= 1.
Proof.
  intros H1 H2 Hne P1 P2 Hle. unfold count_where in Hle.
  assert (forall r, r ∈ l -> p r = true -> r ∈ List.filter p l) as Hin
    by (intros r Hr Hp; apply list_elem_of_In, filter_In; split; [by apply list_elem_of_In|done]).
  pose proof (Hin r1 H1 P1) as F1. pose proof (Hin r2 H2 P2) as F2.
  destruct (List.filter p l) as [|x [|y t]]; [set_solver| |simpl in Hle; lia].
  apply list_elem_of_singleton in F1, F2. congruence.
Qed.

Lemma exists_where_count p l : exists_where p l = negb (count_where p l =? 0).
Proof.
  induction l as [|r l IH]; [done|].
  simpl. rewrite count_where_cons, IH.
  pose proof (count_where_nonneg p l).
  destruct (p r); [|done].
  destruct (Z.eqb_spec (1 + count_where p l) 0); [lia|done].
Qed.

Lemma exists_where_false p l :
  exists_where p l = false <-> forall r, r ∈ l -> p r = false.
Proof.
  induction l as [|r l IH]; simpl; [set_solver|].
  rewrite orb_false_iff, IH. set_solver.
Qed.

Lemma exists_where_true p l :
  exists_where p l = true <-> exists r, r ∈ l /\ p r = true.
Proof.
  unfold exists_where. rewrite List.existsb_exists.
  split; intros (r & Hr & ?); exists r; split; try done; by apply list_elem_of_In.
Qed.

Lemma exists_where_filter p l : exists_where p l = false -> List.filter p l = [].
Proof. induction l as [|r l IH]; simpl; [done|]. destruct (p r); [done|]. apply IH. Qed.

Lemma exists_where_app p l1 l2 :
  exists_where p (l1 ++ l2) = exists_where p l1 || exists_where p l2.
Proof. apply List.existsb_app. Qed.

Lemma select1_Some p l r : select1 p l = Some r -> r ∈ l /\ p r = true.
Proof.
  intros H. apply List.find_some in H as [H1 H2].
  split; [by apply list_elem_of_In|done].
Qed.

Lemma select1_None p l : select1 p l = None -> forall r, r ∈ l -> p r = false.
Proof. intros H r Hr. eapply List.find_none; [done|by apply list_elem_of_In]. Qed.

Lemma select1_app p l1 l2 :
  select1 p (l1 ++ l2) = match select1 p l1 with Some r => Some r | None => select1 p l2 end.
Proof. induction l1 as [|r l1 IH]; simpl; [done|]. by destruct (p r). Qed.

Lemma elem_of_update_where p f l r :
  r ∈ update_where p f l <->
  exists r0, r0 ∈ l /\ r = (if p r0 then f r0 else r0).
Proof.
  unfold update_where. rewrite list_elem_of_In, List.in_map_iff.
  split; intros (r0 & H1 & H2); exists r0; split; try done; by apply list_elem_of_In.
Qed.

Lemma first_by_elem key l r : first_by key l = Some r -> r ∈ l.
Proof.
  revert r; induction l as [|x l IH]; intros r; simpl; [done|].
  destruct (first_by key l) as [m|]; [|intros; simplify_eq; set_solver].
  destruct (key x <=? key m); intros; simplify_eq; [set_solver|].
  apply elem_of_cons. right. by apply IH.
Qed.

Lemma first_by_least key l r r' :
  first_by key l = Some r -> r' ∈ l -> key r <= key r'.
Proof.
  revert r; induction l as [|x l IH]; intros r; simpl; [set_solver|].
  destruct (first_by key l) as [m|] eqn:Hm.
  - destruct (key x <=? key m) eqn:Hle; simplify_bool; intros ? Hin; simplify_eq;
      apply elem_of_cons in Hin as [->|Hin]; try lia; pose proof (IH _ eq_refl Hin); lia.
  - intros ? Hin. simplify_eq. destruct l as [|y l]; [set_solver|].
    simpl in Hm. destruct (first_by key l); [|done]. by destruct (key y <=? _).
Qed.

Lemma first_by_None key l : first_by key l = None <-> l = [].
Proof.
  destruct l as [|x l]; simpl; [done|].
  destruct (first_by key l) as [m|]; [destruct (key x <=? key m)|]; done.
Qed.

Lemma max_by_ge key l m r : max_by key l = Some m -> r ∈ l -> key r <= m.
Proof.
  revert m; induction l as [|x l IH]; intros m; simpl; [set_solver|].
  destruct (max_by key l) as [m'|] eqn:Hm; intros ? Hin; simplify_eq;
    apply elem_of_cons in Hin as [->|Hin]; try lia.
  - pose proof (IH _ eq_refl Hin). lia.
  - destruct l as [|y l]; [set_solver|]. simpl in Hm. by destruct (max_by key l).
Qed.
End Tables.

#[export] Hint Rewrite @count_where_nil @count_where_cons @count_where_app
  @exists_where_app @length_app : table.

Lemma map_update_where {R K} (k : R -> K) p f (l : list R) :
  (forall r, p r = true -> k (f r) = k r) ->
  List.map k (update_where p f l) = List.map k l.
Proof.
  intros H. unfold update_where. rewrite List.map_map. apply List.map_ext.
  intros r. destruct (p r) eqn:?; [by apply H|done].
Qed.

(** An update at a key changes a count by the difference at that one row. *)
Lemma count_where_update_key {R} (k : R -> string) (q : R -> bool) f (l : list R) r :
  NoDup (List.map k l) -> r ∈ l ->
  count_where q (update_where (fun x => k x =s k r) f l)
  = count_where q l - (if q r then 1 else 0) + (if q (f r) then 1 else 0).
Proof.
  induction l as [|x l IH]; [set_solver|]. simpl. intros Hnd Hin.
  apply NoDup_cons in Hnd as [Hx Hnd]. rewrite !count_where_cons.
  apply elem_of_cons in Hin as [->|Hin].
  - rewrite str_eqb_refl.
    rewrite (count_where_update_same _ q); [destruct (q x), (q (f x)); lia|].
    intros y Hy He. simplify_bool. exfalso. apply Hx.
    rewrite <- He. apply list_elem_of_In, List.in_map, list_elem_of_In, Hy.
  - destruct (k x =s k r) eqn:He; simplify_bool.
    + exfalso. apply Hx. rewrite He. apply list_elem_of_In, List.in_map, list_elem_of_In, Hin.
    + rewrite IH by done. lia.
Qed.

Lemma select1_key_unique {R} (k : R -> string) (l : list R) r key :
  NoDup (List.map k l) -> r ∈ l -> k r = key ->
  select1 (fun x => k x =s key) l = Some r.
Proof.
  induction l as [|x l IH]; [set_solver|]. simpl. intros Hnd Hin Hk.
  apply NoDup_cons in Hnd as [Hx Hnd].
  apply elem_of_cons in Hin as [->|Hin].
  - by rewrite Hk, str_eqb_refl.
  - destruct (k x =s key) eqn:He; simplify_bool; [|by apply IH].
    exfalso. apply Hx. rewrite He, <- Hk. apply list_elem_of_In, List.in_map, list_elem_of_In, Hin.
Qed.

(** ** Decimal numerals *)
Definition is_digit (c : ascii) : bool :=
  let n := N_of_ascii c in ((48 <=? n)%N && (n <=? 57)%N)%bool.
Definition digit_value (c : ascii) : Z := Z.of_N (N_of_ascii c) - 48.

Fixpoint parse_digits (acc : Z) (s : string) : option Z :=
  match s with
  | EmptyString => Some acc
  | String c s' => if is_digit c then parse_digits (acc * 10 + digit_value c) s' else None
  end.

(** [strconv.FormatInt(z, 10)]. *)
Definition itoa (z : Z) : string := pretty z.

Lemma parse_digits_char acc n s :
  (n < 10)%N ->
  parse_digits acc (String (pretty_N_char n) s) = parse_digits (acc * 10 + Z.of_N n) s.
Proof.
  intros Hn. destruct n as [|p]; [reflexivity|].
  do 4 (try destruct p as [p|p|]); first [reflexivity | lia].
Qed.

Lemma parse_pretty_N_go x s :
  parse_digits 0 (pretty_N_go x s) = parse_digits (Z.of_N x) s.
Proof.
  revert s. induction (N.lt_wf_0 x) as [x _ IH]; intros s.
  destruct (N.eq_dec x 0) as [->|Hx]; [by rewrite pretty_N_go_0|].
  rewrite pretty_N_go_step by lia.
  rewrite IH by (apply N.div_lt; lia).
  rewrite parse_digits_char by (apply N.mod_lt; lia).
  f_equal. pose proof (N.div_mod x 10). lia.
Qed.

Lemma parse_itoa z : 0 <= z -> parse_digits 0 (itoa z) = Some z.
Proof.
  intros Hz. unfold itoa, pretty, pretty_Z.
  destruct z as [|p|p]; [done| |lia].
  unfold pretty, pretty_positive, pretty, pretty_N.
  rewrite decide_False by done. by rewrite parse_pretty_N_go.
Qed.
