(* ===== verification/Json.v ===== *)
(** * JSON values, strict decoding and the canonical form
    Models [internal/strictjson/strict.go], [contracts/wire/canonical.go] and
    its twin [runtime/canonical.go].  A [json] is what Go's decoder yields with
    [UseNumber]: numbers keep their literal, strings are UTF-8 bytes, objects
    keep the members in document order (so that duplicate keys are visible to
    the strict decoder, as they are to its token loop). *)
From stdpp Require Import base tactics list strings gmap pretty.
From Stdlib Require Import ZArith Lia Ascii String.
From S2P Require Import Prelude.
Open Scope string_scope.
Open Scope list_scope.
Open Scope Z_scope.
Open Scope harness_scope.

Inductive json :=
  | JNull
  | JBool (b : bool)
  | JNum (lit : string)
  | JStr (s : string)
  | JArr (items : list json)
  | JObj (members : list (string * json)).

(** The induction principle that reaches through the nested lists. *)
Section JsonInd.
Variable P : json -> Prop.
Hypothesis Hnull : P JNull.
Hypothesis Hbool : forall b, P (JBool b).
Hypothesis Hnum : forall l, P (JNum l).
Hypothesis Hstr : forall s, P (JStr s).
Hypothesis Harr : forall l, Forall P l -> P (JArr l).
Hypothesis Hobj : forall m, Forall (fun kv => P kv.2) m -> P (JObj m).

Fixpoint json_rec' (v : json) : P v :=
  match v with
  | JNull => Hnull
  | JBool b => Hbool b
  | JNum l => Hnum l
  | JStr s => Hstr s
  | JArr l =>
      Harr l ((fix go l : Forall P l :=
                 match l with
                 | [] => Forall_nil_2 _
                 | x :: l' => Forall_cons_2 _ _ _ (json_rec' x) (go l')
                 end) l)
  | JObj m =>
      Hobj m ((fix go m : Forall (fun kv : string * json => P kv.2) m :=
                 match m with
                 | [] => Forall_nil_2 _
                 | kv :: m' => Forall_cons_2 _ _ _ (json_rec' kv.2) (go m')
                 end) m)
  end.
End JsonInd.

(** ** Access *)
Fixpoint member (key : string) (m : list (string * json)) : option json :=
  match m with
  | [] => None
  | (k, v) :: m' => if k =s key then Some v else member key m'
  end.

Definition field (key : string) (v : json) : option json :=
  match v with JObj m => member key m | _ => None end.

(** ** Number literals *)
Definition int64_min : Z := - 2 ^ 63.
Definition int64_max : Z := 2 ^ 63 - 1.
Definition MaximumSafeInteger : Z := 2 ^ 53 - 1.

(** [strconv.ParseInt(lit, 10, 64)]. *)
Definition parse_int64 (lit : string) : option Z :=
  let unsigned s := match s with EmptyString => None | _ => parse_digits 0 s end in
  let value :=
    match lit with
    | EmptyString => None
    | String c s =>
        if (c =? "-")%char then Z.opp <$> unsigned s
        else if (c =? "+")%char then unsigned s
        else unsigned lit
    end in
  z ← value;
  if (int64_min <=? z) && (z <=? int64_max) then Some z else None.

Fixpoint all_chars (p : ascii -> bool) (s : string) : bool :=
  match s with EmptyString => true | String c s' => p c && all_chars p s' end.

(** [integerPattern]: zero, or digits that do not start with zero. *)
Definition integerPattern (s : string) : bool :=
  match s with
  | EmptyString => false
  | String c s' =>
      if (c =? "0")%char then s' =s "" else is_digit c && all_chars is_digit s'
  end.

(** [jsonInteger]: a number whose literal is a plain unsigned integer. *)
Definition jsonInteger (v : json) : option Z :=
  match v with
  | JNum lit => if integerPattern lit then parse_int64 lit else None
  | _ => None
  end.

Definition JInt (z : Z) : json := JNum (itoa z).

(** ** Canonical serialization *)
Definition hex_digit (n : N) : ascii :=
  if (n <? 10)%N then ascii_of_N (48 + n) else ascii_of_N (87 + n).

Definition quote : ascii := ascii_of_N 34.

Definition canonical_char (c : ascii) (rest : string) : string :=
  let n := N_of_ascii c in
  if (n =? 34)%N then String "\" (String quote rest)
  else if (n =? 92)%N then String "\" (String "\" rest)
  else if (n =? 8)%N then String "\" (String "b" rest)
  else if (n =? 12)%N then String "\" (String "f" rest)
  else if (n =? 10)%N then String "\" (String "n" rest)
  else if (n =? 13)%N then String "\" (String "r" rest)
  else if (n =? 9)%N then String "\" (String "t" rest)
  else if (n <? 32)%N then
    String "\" (String "u" (String "0" (String "0"
      (String (hex_digit (n / 16)%N) (String (hex_digit (n mod 16)%N) rest)))))
  else String c rest.

Fixpoint canonical_chars (s : string) (rest : string) : string :=
  match s with
  | EmptyString => rest
  | String c s' => canonical_char c (canonical_chars s' rest)
  end.

Definition appendJSONString (value : string) : string :=
  String quote (canonical_chars value (String quote "")).

Fixpoint join (sep : string) (l : list string) : string :=
  match l with
  | [] => ""
  | [x] => x
  | x :: l' => x +:+ sep +:+ join sep l'
  end.

(** [sort.Strings] on the keys: byte order. *)
Definition key_le (a b : string) : bool :=
  match String.compare a b with Gt => false | _ => true end.

Section Insertion.
Context {A : Type}.
Fixpoint insert_by_key (x : string * A) (l : list (string * A)) : list (string * A) :=
  match l with
  | [] => [x]
  | y :: l' => if key_le x.1 y.1 then x :: l else y :: insert_by_key x l'
  end.
Fixpoint sort_by_key (l : list (string * A)) : list (string * A) :=
  match l with
  | [] => []
  | x :: l' => insert_by_key x (sort_by_key l')
  end.
End Insertion.

Fixpoint sequence {A} (found : list (option A)) : option (list A) :=
  match found with
  | o :: others => x ← o; xs ← sequence others; Some (x :: xs)
  | [] => Some []
  end.

Definition canonical_number (lit : string) : option string :=
  z ← parse_int64 lit;
  if (z <? 0) || (MaximumSafeInteger <? z) then None else Some lit.

(** [appendCanonical]; [None] is its error. *)
Fixpoint appendCanonical (value : json) : option string :=
  match value with
  | JNull => Some "null"
  | JBool true => Some "true"
  | JBool false => Some "false"
  | JNum lit => canonical_number lit
  | JStr s => Some (appendJSONString s)
  | JArr items =>
      parts ← sequence ((fix go l := match l with [] => [] | x :: l' => appendCanonical x :: go l' end) items);
      Some ("[" +:+ join "," parts +:+ "]")
  | JObj members =>
      let rendered :=
        (fix go m := match m with [] => [] | (k, v) :: m' => (k, appendCanonical v) :: go m' end) members in
      parts ← sequence (List.map (fun '(k, text) => (fun t => appendJSONString k +:+ ":" +:+ t) <$> text)
                          (sort_by_key rendered));
      Some ("{" +:+ join "," parts +:+ "}")
  end.

(** ** [json.Marshal] of a value, for the byte lengths the code compares *)
Fixpoint marshal_chars (s : string) : string :=
  match s with
  | EmptyString => ""
  | String c s' =>
      let n := N_of_ascii c in
      if (n =? 60)%N then "\u003c" +:+ marshal_chars s'
      else if (n =? 62)%N then "\u003e" +:+ marshal_chars s'
      else if (n =? 38)%N then "\u0026" +:+ marshal_chars s'
      else if (n =? 226)%N then
        match s' with
        | String c1 (String c2 s'') =>
            if (N_of_ascii c1 =? 128)%N && (N_of_ascii c2 =? 168)%N then "\u2028" +:+ marshal_chars s''
            else if (N_of_ascii c1 =? 128)%N && (N_of_ascii c2 =? 169)%N then "\u2029" +:+ marshal_chars s''
            else String c (marshal_chars s')
        | _ => String c (marshal_chars s')
        end
      else canonical_char c (marshal_chars s')
  end.

Definition marshal_string (s : string) : string :=
  String quote (marshal_chars s +:+ String quote "").

Fixpoint marshal (value : json) : string :=
  match value with
  | JNull => "null"
  | JBool true => "true"
  | JBool false => "false"
  | JNum lit => lit
  | JStr s => marshal_string s
  | JArr items =>
      "[" +:+ join "," ((fix go l := match l with [] => [] | x :: l' => marshal x :: go l' end) items) +:+ "]"
  | JObj members =>
      "{" +:+ join "," ((fix go m := match m with
                         | [] => []
                         | (k, v) :: m' => (marshal_string k +:+ ":" +:+ marshal v) :: go m'
                         end) members) +:+ "}"
  end.

Definition byte_length (s : string) : Z := Z.of_nat (String.length s).

(** [utf8.ValidString]: the well-formed byte sequences of Unicode, shortest
    forms only, no surrogates. *)
Definition byte_in (lo hi : N) (c : ascii) : bool := ((lo <=? N_of_ascii c) && (N_of_ascii c <=? hi))%N.
Definition continuation : ascii -> bool := byte_in 128 191.
Definition second_byte (first : N) : ascii -> bool :=
  if (first =? 224)%N then byte_in 160 191 else if (first =? 237)%N then byte_in 128 159
  else if (first =? 240)%N then byte_in 144 191 else if (first =? 244)%N then byte_in 128 143 else continuation.
Fixpoint valid_utf8 (s : string) : bool :=
  match s with
  | EmptyString => true
  | String a r1 =>
      let n := N_of_ascii a in
      if (n <? 128)%N then valid_utf8 r1 else
      match r1 with
      | String b r2 =>
          second_byte n b &&
          (if ((194 <=? n) && (n <=? 223))%N then valid_utf8 r2 else
           match r2 with
           | String c r3 =>
               continuation c &&
               (if ((224 <=? n) && (n <=? 239))%N then valid_utf8 r3 else
                match r3 with
                | String d r4 => continuation d && ((240 <=? n) && (n <=? 244))%N && valid_utf8 r4
                | EmptyString => false
                end)
           | EmptyString => false
           end)
      | EmptyString => false
      end
  end.

(** ** strictjson *)
Definition hex_value (c : ascii) : option N :=
  let n := N_of_ascii c in
  if (48 <=? n)%N && (n <=? 57)%N then Some (n - 48)%N
  else if (97 <=? n)%N && (n <=? 102)%N then Some (n - 87)%N
  else if (65 <=? n)%N && (n <=? 70)%N then Some (n - 55)%N
  else None.

Definition hex4 (a b c d : ascii) : option N :=
  a ← hex_value a; b ← hex_value b; c ← hex_value c; d ← hex_value d;
  Some (((a * 16 + b) * 16 + c) * 16 + d)%N.

(** The escape scan of [Valid]: no unpaired UTF-16 surrogate escape.  The code
    runs it on bytes that are already valid JSON, which is why an escape at the
    very end cannot occur; [false] stands for the index panic it would be. *)
Fixpoint scan_surrogates (inString : bool) (data : list ascii) : bool :=
  match data with
  | [] => true
  | c :: data' =>
      if (N_of_ascii c =? 34)%N then scan_surrogates (negb inString) data'
      else if negb inString || negb (N_of_ascii c =? 92)%N then scan_surrogates inString data'
      else
        match data' with
        | [] => false
        | e :: after =>
            if negb (N_of_ascii e =? 117)%N then scan_surrogates inString after
            else
              match after with
              | a :: b :: c :: d :: after' =>
                  let n := default 0%N (hex4 a b c d) in
                  if ((56320 <=? n) && (n <=? 57343))%N then false
                  else if ((55296 <=? n) && (n <=? 56319))%N then
                    match after' with
                    | s :: u :: a' :: b' :: c' :: d' :: after'' =>
                        if (N_of_ascii s =? 92)%N && (N_of_ascii u =? 117)%N then
                          match hex4 a' b' c' d' with
                          | Some low => if ((56320 <=? low) && (low <=? 57343))%N
                                        then scan_surrogates inString after'' else false
                          | None => false
                          end
                        else false
                    | _ => false
                    end
                  else scan_surrogates inString after'
              | _ => false
              end
        end
  end.

Definition no_duplicates (keys : list string) : bool :=
  (fix go seen l := match l with
     | [] => true
     | k :: l' => negb (existsb (String.eqb k) seen) && go (k :: seen) l'
     end) [] keys.

(** [value]: the recursive token walk, which bounds the nesting at 32 and
    refuses a repeated member name. *)
Fixpoint strict_value (depth : nat) (v : json) : bool :=
  (Nat.leb depth 32 &&
   match v with
   | JObj members =>
       (fix go seen m := match m with
          | [] => true
          | (k, x) :: m' =>
              negb (existsb (String.eqb k) seen) && strict_value (S depth) x && go (k :: seen) m'
          end) [] members
   | JArr items =>
       (fix go l := match l with [] => true | x :: l' => strict_value (S depth) x && go l' end) items
   | _ => true
   end)%bool.

(** A wire document: the value its bytes decode to, with their length.  The
    bytes of a document that is not JSON decode to [None]. *)
Record document := mkDocument { doc_length : Z; doc_value : option json }.

Definition strict_document (d : document) : bool :=
  match doc_value d with Some v => strict_value 0 v | None => false end.
