(* ===== verification/ParseFacts.v ===== *)
(** * The parser reads what the serializer writes *)
From stdpp Require Import base tactics list strings gmap pretty.
From Stdlib Require Import ZArith Lia Ascii String.
From S2P Require Import Prelude Json Parse.
Open Scope string_scope.
Open Scope list_scope.
Open Scope Z_scope.
Open Scope harness_scope.

(** ** Strings *)
Lemma append_assoc (a b c : string) : (a +:+ b) +:+ c = a +:+ (b +:+ c).
Proof. induction a as [|x a IH]; [done|]. change (String x ((a +:+ b) +:+ c) = String x (a +:+ (b +:+ c))). by rewrite IH. Qed.
Lemma append_nil_r (a : string) : a +:+ "" = a.
Proof. induction a as [|x a IH]; [done|]. change (String x (a +:+ "") = String x a). by rewrite IH. Qed.
Lemma length_append (a b : string) : String.length (a +:+ b) = (String.length a + String.length b)%nat.
Proof. induction a as [|x a IH]; [done|]. change (S (String.length (a +:+ b)) = S (String.length a + String.length b)). by rewrite IH. Qed.

(** One character, as [marshal] writes it outside the two separators. *)
Definition marshal_char (c : ascii) (rest : string) : string :=
  let n := N_of_ascii c in
  if (n =? 60)%N then "\u003c" +:+ rest else if (n =? 62)%N then "\u003e" +:+ rest
  else if (n =? 38)%N then "\u0026" +:+ rest else canonical_char c rest.
Lemma parse_marshal_char c rest : parse_chars (marshal_char c rest) = prepend (String c) (parse_chars rest).
Proof. destruct c as [[] [] [] [] [] [] [] []]; reflexivity. Qed.

Lemma marshal_char_app c r rest : marshal_char c r +:+ rest = marshal_char c (r +:+ rest).
Proof. unfold marshal_char, canonical_char. cbv zeta. repeat (match goal with |- context [if ?b then _ else _] => destruct b end; [reflexivity|]). reflexivity. Qed.

(** The recursion of [marshal_chars]: a character, or a separator of three bytes. *)
Lemma marshal_chars_step c s :
  (marshal_chars (String c s) = marshal_char c (marshal_chars s))
  \/ exists x s', (x = 168 \/ x = 169)%N /\ c = ascii_of_N 226 /\ s = String (ascii_of_N 128) (String (ascii_of_N x) s')
       /\ marshal_chars (String c s) = (if (x =? 168)%N then "\u2028" else "\u2029") +:+ marshal_chars s'.
Proof.
  cbn [marshal_chars]. unfold marshal_char. destruct (N_of_ascii c =? 60)%N eqn:E1; [by left|]. destruct (N_of_ascii c =? 62)%N eqn:E2; [by left|].
  destruct (N_of_ascii c =? 38)%N eqn:E3; [by left|]. destruct (N_of_ascii c =? 226)%N eqn:E4; [|by left].
  assert (c = ascii_of_N 226) as -> by (apply N.eqb_eq in E4; rewrite <- (ascii_N_embedding c); by rewrite E4).
  destruct s as [|c1 [|c2 s']]; [by left..|].
  destruct ((N_of_ascii c1 =? 128)%N && (N_of_ascii c2 =? 168)%N) eqn:E5.
  2: destruct ((N_of_ascii c1 =? 128)%N && (N_of_ascii c2 =? 169)%N) eqn:E6; [|by left].
  all: right; apply andb_true_iff in E5 || apply andb_true_iff in E6; destruct_and?.
  all: repeat match goal with H : (N_of_ascii ?a =? _)%N = true |- _ => apply N.eqb_eq in H; pose proof (ascii_N_embedding a) as Ha; rewrite H in Ha; subst a; clear H end.
  - exists 168%N, s'. auto.
  - exists 169%N, s'. auto.
Qed.

Lemma parse_marshal_chars s rest : parse_chars (marshal_chars s +:+ String quote rest) = Some (s, rest).
Proof.
  remember (String.length s) as n eqn:Hn. assert (String.length s <= n)%nat as Hle by lia. clear Hn.
  revert s Hle. induction n as [|n IH]; intros s Hle; (destruct s as [|c s]; [reflexivity|]); cbn [String.length] in Hle; [lia|].
  destruct (marshal_chars_step c s) as [->|(x & s' & Hx & -> & -> & ->)].
  - rewrite marshal_char_app, parse_marshal_char, IH by lia. reflexivity.
  - cbn [String.length] in Hle.
    destruct Hx as [->| ->]; cbn [N.eqb Pos.eqb]; rewrite append_assoc;
      match goal with |- parse_chars (?e +:+ ?r) = _ => change (parse_chars (e +:+ r)) with (prepend (cons_rune (match e with String _ (String _ (String a (String b (String c (String d _))))) => default 0%N (hex4 a b c d) | _ => 0%N end)) (parse_chars r)) end;
      rewrite IH by lia; reflexivity.
Qed.

(** ** Numbers *)
(** What may follow a number: nothing that continues it. *)
Definition continues (c : ascii) : bool := is_digit c || is_byte 46 c || is_byte 101 c || is_byte 69 c.
Definition delimited (rest : string) : bool := match rest with String c _ => negb (continues c) | EmptyString => true end.
Definition number_literal (lit : string) : bool := bool_decide (parse_number lit = Some (lit, "")).

Lemma append_cons c a b : String c a +:+ b = String c (a +:+ b).
Proof. reflexivity. Qed.
Section Delimited.
Context (rest : string) (Hrest : delimited rest = true).

Lemma take_digits_app s d r : take_digits s = (d, r) -> take_digits (s +:+ rest) = (d, r +:+ rest).
Proof using Hrest.
  revert d r. induction s as [|c s IH]; intros d r.
  - intros [= <- <-]. change ("" +:+ rest) with rest. destruct rest as [|c rest']; [done|]. cbn in Hrest |- *.
    unfold continues in Hrest. by destruct (is_digit c).
  - rewrite append_cons. cbn [take_digits]. destruct (is_digit c); [|by intros [= <- <-]].
    destruct (take_digits s) as [d' r']. intros [= <- <-]. by rewrite (IH d' r').
Qed.
Lemma take_sign_app signs s d r : s <> "" -> take_sign signs s = (d, r) -> take_sign signs (s +:+ rest) = (d, r +:+ rest).
Proof using.
  destruct s as [|c s]; [done|]. intros _. rewrite append_cons. cbn [take_sign]. by destruct (signs c); intros [= <- <-].
Qed.
Lemma take_integer_app s d r : take_integer s = Some (d, r) -> take_integer (s +:+ rest) = Some (d, r +:+ rest).
Proof using Hrest.
  destruct s as [|c s]; [done|]. rewrite append_cons. cbn [take_integer]. destruct (is_byte 48 c); [by intros [= <- <-]|].
  destruct (is_digit c); [|done]. destruct (take_digits s) as [d' r'] eqn:E. intros [= <- <-]. by rewrite (take_digits_app _ _ _ E).
Qed.
Lemma take_fraction_app s d r : take_fraction s = Some (d, r) -> take_fraction (s +:+ rest) = Some (d, r +:+ rest).
Proof using Hrest.
  destruct s as [|c s].
  - intros [= <- <-]. change ("" +:+ rest) with rest. destruct rest as [|c rest']; [done|]. cbn in Hrest |- *.
    unfold continues in Hrest. destruct (is_byte 46 c); [|done]. by destruct (is_digit c).
  - rewrite append_cons. cbn [take_fraction]. destruct (is_byte 46 c); [|by intros [= <- <-]].
    destruct (take_digits s) as [d' r'] eqn:E. rewrite (take_digits_app _ _ _ E). destruct (d' =s ""); [done|]. by intros [= <- <-].
Qed.
Lemma take_exponent_app s d r : take_exponent s = Some (d, r) -> take_exponent (s +:+ rest) = Some (d, r +:+ rest).
Proof using Hrest.
  destruct s as [|c s].
  - intros [= <- <-]. change ("" +:+ rest) with rest. destruct rest as [|c rest']; [done|]. cbn in Hrest |- *.
    unfold continues in Hrest. destruct (is_byte 101 c), (is_byte 69 c); cbn; try done; by destruct (is_digit c), (is_byte 46 c).
  - rewrite append_cons. cbn [take_exponent]. destruct (is_byte 101 c || is_byte 69 c); [|by intros [= <- <-]].
    destruct s as [|c' s]; [done|]. destruct (take_sign _ (String c' s)) as [sign r1] eqn:Es.
    erewrite take_sign_app; [|done|exact Es]. destruct (take_digits r1) as [d' r'] eqn:E. rewrite (take_digits_app _ _ _ E).
    destruct (d' =s ""); [done|]. by intros [= <- <-].
Qed.
Lemma parse_number_app s d r : parse_number s = Some (d, r) -> parse_number (s +:+ rest) = Some (d, r +:+ rest).
Proof using Hrest.
  destruct s as [|c s]; [done|]. unfold parse_number. destruct (take_sign _ (String c s)) as [sign r0] eqn:E0.
  erewrite take_sign_app; [|done|exact E0]. intros H.
  apply bind_Some in H as ([digits r1] & E1 & H). rewrite (take_integer_app _ _ _ E1). cbn [mbind option_bind].
  apply bind_Some in H as ([fraction r2] & E2 & H). rewrite (take_fraction_app _ _ _ E2). cbn [mbind option_bind].
  apply bind_Some in H as ([exponent r3] & E3 & H). rewrite (take_exponent_app _ _ _ E3). cbn [mbind option_bind].
  by injection H as <- <-.
Qed.
End Delimited.

(** Integers are written as literals of the grammar. *)
(** The ten digits, one by one. *)
Ltac by_digit n := destruct n as [|p]; [|do 4 (try destruct p as [p|p|])]; first [reflexivity | lia].
Lemma is_digit_pretty n : (n < 10)%N -> is_digit (pretty_N_char n) = true.
Proof. intros H. by_digit n. Qed.
Lemma is_zero_pretty n : (0 < n < 10)%N -> is_byte 48 (pretty_N_char n) = false.
Proof. intros H. by_digit n. Qed.
Lemma all_chars_app p a b : all_chars p (a +:+ b) = all_chars p a && all_chars p b.
Proof. induction a as [|c a IH]; [done|]. rewrite append_cons. cbn [all_chars]. rewrite IH. by rewrite andb_assoc. Qed.

(** A positive numeral does not start with zero. *)
Lemma pretty_digits x s : (0 < x)%N -> exists c t,
  pretty_N_go x s = String c (t +:+ s) /\ is_digit c = true /\ is_byte 48 c = false /\ all_chars is_digit t = true.
Proof.
  revert s. induction (N.lt_wf_0 x) as [x _ IH]; intros s Hx. rewrite pretty_N_go_step by lia.
  assert (is_digit (pretty_N_char (x mod 10)) = true) as Hd by (apply is_digit_pretty, N.mod_lt; lia).
  destruct (N.ltb_spec x 10) as [Hs|Hs].
  - rewrite N.div_small by done. rewrite pretty_N_go_0. exists (pretty_N_char (x mod 10)), "". split_and!; [done..| |done].
    rewrite N.mod_small by done. by apply is_zero_pretty.
  - destruct (IH (x / 10)%N ltac:(apply N.div_lt; lia) (String (pretty_N_char (x mod 10)) s)) as (c & t & E & H1 & H2 & H3).
    { apply N.div_str_pos. lia. }
    exists c, (t +:+ String (pretty_N_char (x mod 10)) ""). rewrite E, append_assoc. split_and!; [done..|].
    rewrite all_chars_app, H3. cbn [all_chars]. by rewrite Hd.
Qed.
Lemma take_digits_all t : all_chars is_digit t = true -> take_digits t = (t, "").
Proof.
  induction t as [|c t IH]; [done|]. cbn [all_chars take_digits]. intros [-> H]%andb_true_iff. by rewrite (IH H).
Qed.

Lemma take_integer_pretty x : (0 < x)%N -> take_integer (pretty_N_go x "") = Some (pretty_N_go x "", "").
Proof.
  intros Hx. destruct (pretty_digits x "" Hx) as (c & t & -> & H1 & H2 & H3). cbn [take_integer].
  rewrite H2, H1, append_nil_r. by rewrite (take_digits_all t H3).
Qed.
Lemma parse_number_unsigned s : take_sign (is_byte 45) s = ("", s) -> take_integer s = Some (s, "") -> parse_number s = Some (s, "").
Proof. intros H1 H2. unfold parse_number. rewrite H1, H2. cbn [mbind option_bind take_fraction take_exponent]. by rewrite append_nil_r. Qed.
Lemma digit_no_sign c r : is_digit c = true -> take_sign (is_byte 45) (String c r) = ("", String c r).
Proof.
  intros H. cbn [take_sign]. unfold is_digit, is_byte in *. destruct (N_of_ascii c =? 45)%N eqn:E; [|done].
  apply N.eqb_eq in E. rewrite E in H. done.
Qed.
Lemma number_literal_itoa z : number_literal (itoa z) = true.
Proof.
  apply bool_decide_eq_true. unfold itoa, pretty, pretty_Z. destruct z as [|p|p]; [reflexivity|..];
    unfold pretty, pretty_positive, pretty, pretty_N; rewrite decide_False by done;
    destruct (pretty_digits (N.pos p) "" ltac:(lia)) as (c & t & E & H1 & H2 & H3);
    pose proof (take_integer_pretty (N.pos p) ltac:(lia)) as Hi; rewrite E in Hi |- *.
  - apply parse_number_unsigned; [by apply digit_no_sign|done].
  - assert (forall t, take_integer t = Some (t, "") -> parse_number ("-" +:+ t) = Some ("-" +:+ t, "")) as Hneg; [|by apply Hneg].
    intros u Hu. unfold parse_number. change (take_sign (is_byte 45) ("-" +:+ u)) with ("-", u). cbn iota. rewrite Hu.
    cbn [mbind option_bind take_fraction take_exponent]. by rewrite append_nil_r.
Qed.

(** ** Values *)
Lemma substring_all s : String.substring 0 (String.length s) s = s.
Proof. induction s as [|c s IH]; [done|]. cbn [String.length String.substring]. by rewrite IH. Qed.

(** The literals of a value are numbers of the grammar. *)
Fixpoint json_ok (v : json) : bool :=
  match v with
  | JNum lit => number_literal lit
  | JArr l => (fix go l := match l with [] => true | x :: l' => json_ok x && go l' end) l
  | JObj m => (fix go m := match m with [] => true | kv :: m' => json_ok (snd kv) && go m' end) m
  | _ => true
  end.

Lemma prefix_append w s : String.prefix w (w +:+ s) = true.
Proof. induction w as [|c w IH]; [by destruct s|]. rewrite append_cons. cbn [String.prefix]. by destruct (ascii_dec c c). Qed.
Lemma substring_append w s n : String.substring (String.length w) n (w +:+ s) = String.substring 0 n s.
Proof. induction w as [|c w IH]; [done|]. rewrite append_cons. cbn [String.length String.substring]. done. Qed.
Lemma keyword_append w v s : keyword w v (w +:+ s) = Some (v, s).
Proof.
  unfold keyword. rewrite prefix_append, substring_append, length_append.
  replace (String.length w + String.length s - String.length w)%nat with (String.length s) by lia. by rewrite substring_all.
Qed.

Definition member_text (kv : string * json) : string := marshal_string kv.1 +:+ (":" +:+ marshal kv.2).
Lemma marshal_arr l : marshal (JArr l) = "[" +:+ (join "," (List.map marshal l) +:+ "]").
Proof.
  cbn [marshal]. match goal with |- context [join "," ?x] => assert (x = List.map marshal l) as ->; [|reflexivity] end.
  induction l as [|x l IH]; [done|]. cbn [List.map]. by rewrite <- IH.
Qed.
Lemma marshal_obj m : marshal (JObj m) = "{" +:+ (join "," (List.map member_text m) +:+ "}").
Proof.
  cbn [marshal]. match goal with |- context [join "," ?x] => assert (x = List.map member_text m) as ->; [|reflexivity] end.
  induction m as [|[k v] m IH]; [done|]. cbn [List.map]. by rewrite <- IH.
Qed.

(** The first character of a value. *)
Definition opens (s : string) : Prop := exists c r, s = String c r /\ is_space c = false /\ is_byte 125 c = false /\ is_byte 93 c = false.
Lemma opens_skip s rest : opens s -> skip_space (s +:+ rest) = s +:+ rest.
Proof. intros (c & r & -> & H & _). rewrite append_cons. cbn [skip_space]. by rewrite H. Qed.

Lemma number_opens lit : number_literal lit = true -> exists c r, lit = String c r /\ (is_digit c = true \/ is_byte 45 c = true).
Proof.
  intros H. apply bool_decide_eq_true in H. destruct lit as [|c r]; [done|]. exists c, r. split; [done|].
  unfold parse_number in H. cbn [take_sign] in H. destruct (is_byte 45 c); [by right|]. left. cbn [mbind option_bind take_integer] in H.
  destruct (is_byte 48 c) eqn:E; [|by destruct (is_digit c)]. unfold is_byte in E. apply N.eqb_eq in E. unfold is_digit. by rewrite E.
Qed.
Lemma number_char c : is_digit c = true \/ is_byte 45 c = true ->
  is_space c = false /\ is_byte 125 c = false /\ is_byte 93 c = false /\ is_byte 123 c = false /\ is_byte 91 c = false
  /\ is_byte 34 c = false /\ is_byte 110 c = false /\ is_byte 116 c = false /\ is_byte 102 c = false.
Proof. destruct c as [[] [] [] [] [] [] [] []]; vm_compute; intros [H|H]; try discriminate H; by split_and!. Qed.

Lemma marshal_opens v : json_ok v = true -> opens (marshal v).
Proof.
  destruct v as [|[]|lit|s|l|m]; intros H; try (by eexists _, _).
  - apply number_opens in H as (c & r & -> & Hc). exists c, r. destruct (number_char c Hc) as (? & ? & ? & _). by split_and!.
Qed.

Definition reads (v : json) : Prop := json_ok v = true -> forall f rest,
  (2 * String.length (marshal v) <= f)%nat -> delimited rest = true -> parse_value f (marshal v +:+ rest) = Some (v, rest).
Lemma join_cons sep x y l : join sep (x :: y :: l) = x +:+ (sep +:+ join sep (y :: l)).
Proof. reflexivity. Qed.

Lemma opens_length s : opens s -> (1 <= String.length s)%nat.
Proof. intros (c & r & -> & _). cbn. lia. Qed.

Lemma reads_items l : Forall reads l -> l <> [] -> json_ok (JArr l) = true -> forall f rest,
  (2 * String.length (join "," (List.map marshal l)) + 1 <= f)%nat ->
  parse_items f (join "," (List.map marshal l) +:+ String "]" rest) = Some (l, rest).
Proof.
  induction 1 as [|v l Hv Hl IH]; [done|]. intros _ Hok f rest Hf. cbn [json_ok] in Hok. apply andb_true_iff in Hok as [Hv' Hok].
  destruct f as [|f]; [lia|]. destruct l as [|w l].
  - cbn [List.map join parse_items] in *. rewrite Hv; [|done|lia|done]. reflexivity.
  - cbn [List.map] in *. rewrite join_cons in *. rewrite !append_assoc. rewrite !length_append in Hf. cbn [String.length] in Hf.
    cbn [parse_items]. rewrite Hv; [|done|lia|reflexivity]. cbn [mbind option_bind].
    change (skip_space ("," +:+ ?r)) with ("," +:+ r). rewrite append_cons. change (is_byte 44 ",") with true. cbn iota.
    change ("" +:+ ?r) with r. rewrite IH; [reflexivity|done|done|]. cbn [List.map] in *. lia.
Qed.

Lemma marshal_string_app s rest : marshal_string s +:+ rest = String quote (marshal_chars s +:+ String quote rest).
Proof. unfold marshal_string. rewrite append_cons, append_assoc. reflexivity. Qed.
Lemma parse_string_value s rest : parse_chars (marshal_chars s +:+ String quote rest) = Some (s, rest).
Proof. apply parse_marshal_chars. Qed.

Lemma reads_members m : Forall (fun kv => reads kv.2) m -> m <> [] -> json_ok (JObj m) = true -> forall f rest,
  (2 * String.length (join "," (List.map member_text m)) + 1 <= f)%nat ->
  parse_members f (join "," (List.map member_text m) +:+ String "}" rest) = Some (m, rest).
Proof.
  assert (forall k v f rest, reads v -> json_ok v = true -> (2 * String.length (member_text (k, v)) + 1 <= f)%nat ->
    delimited rest = true -> exists f', f = S f' /\
    parse_members f (member_text (k, v) +:+ rest) =
      match skip_space rest with
      | String c r' => if is_byte 44 c then '(m, rest) ← parse_members f' r'; Some ((k, v) :: m, rest)
                       else if is_byte 125 c then Some ([(k, v)], r') else None
      | EmptyString => None
      end) as Hone.
  { intros k v f rest Hv Hok Hf Hd. destruct f as [|f]; [lia|]. exists f. split; [done|]. unfold member_text in *. cbn [fst snd] in *.
    rewrite !length_append in Hf. cbn [String.length] in Hf. rewrite !append_assoc, marshal_string_app.
    cbn [parse_members]. change (skip_space (String quote ?r)) with (String quote r). cbn iota. change (is_byte 34 quote) with true. cbn [negb].
    rewrite parse_marshal_chars. cbn [mbind option_bind]. change (skip_space (":" +:+ ?r)) with (String ":" r).
    cbn iota. change (is_byte 58 ":") with true. cbn [negb]. rewrite Hv; [|done|lia|done]. reflexivity. }
  induction 1 as [|[k v] m Hv Hm IH]; [done|]. intros _ Hok f rest Hf. cbn [json_ok snd] in Hok. apply andb_true_iff in Hok as [Hv' Hok].
  destruct m as [|kv m].
  - cbn [List.map join] in *. destruct (Hone k v f (String "}" rest) Hv Hv' Hf eq_refl) as (f' & -> & ->). reflexivity.
  - cbn [List.map] in *. rewrite join_cons in *. rewrite !append_assoc. rewrite !length_append in Hf. cbn [String.length] in Hf.
    match goal with |- parse_members f (_ +:+ ?r) = _ => destruct (Hone k v f r Hv Hv' ltac:(lia) eq_refl) as (f' & -> & ->) end.
    change (skip_space ("," +:+ ?r)) with (String "," r). cbn iota. change (is_byte 44 ",") with true. cbn iota.
    rewrite IH; [reflexivity|done|done|]. cbn [List.map] in *. lia.
Qed.

Lemma join_opens l : Forall opens l -> l <> [] -> exists c r, join "," l = String c r /\ is_space c = false /\ is_byte 125 c = false /\ is_byte 93 c = false.
Proof.
  intros H Hne. destruct H as [|x l (c & r & -> & Hc) _]; [done|]. destruct l; [by exists c, r|]. rewrite join_cons, append_cons. by eexists _, _.
Qed.

Lemma marshal_reads v : reads v.
Proof.
  induction v as [|b|lit|s|l IH|m IH] using json_rec'; intros Hok f rest Hf Hd.
  - destruct f; [cbn in Hf; lia|]. apply (keyword_append "null").
  - destruct f; [destruct b; cbn in Hf; lia|]. destruct b; [apply (keyword_append "true")|apply (keyword_append "false")].
  - destruct (number_opens lit Hok) as (c & r & -> & Hc). destruct (number_char c Hc) as (H1 & H2 & H3 & H4 & H5 & H6 & H7 & H8 & H9).
    destruct f; [cbn in Hf; lia|]. cbn [marshal]. apply bool_decide_eq_true in Hok. pose proof (parse_number_app rest Hd _ _ _ Hok) as Hn.
    rewrite append_cons in Hn |- *. cbn [parse_value skip_space]. rewrite H1, H4, H5, H6, H7, H8, H9, Hn. reflexivity.
  - destruct f; [cbn in Hf; lia|]. cbn [marshal]. rewrite marshal_string_app. cbn [parse_value].
    change (skip_space (String quote ?r)) with (String quote r). cbn iota. change (is_byte 34 quote) with true.
    change (is_byte 123 quote) with false. change (is_byte 91 quote) with false. cbn iota. by rewrite parse_marshal_chars.
  - assert (Forall (fun x => json_ok x = true) l) as Hall.
    { clear -Hok. cbn [json_ok] in Hok. induction l as [|x l IHl]; [constructor|]. apply andb_true_iff in Hok as [? ?]. constructor; auto. }
    rewrite marshal_arr in Hf |- *. rewrite !length_append in Hf. cbn [String.length] in Hf. destruct f as [|f]; [lia|].
    rewrite !append_assoc, append_cons. cbn [parse_value]. change (skip_space (String "[" ?r)) with (String "[" r). cbn iota.
    change (is_byte 123 "[") with false. change (is_byte 91 "[") with true. cbn iota.
    destruct l as [|x l]; [reflexivity|].
    destruct (join_opens (List.map marshal (x :: l))) as (c & r & E & H1 & H2 & H3); [|done|].
    { clear -Hall. induction Hall; constructor; [by apply marshal_opens|done]. }
    change ("" +:+ ?t) with t. pose proof (reads_items (x :: l) IH ltac:(done) Hok f rest ltac:(lia)) as Hitems.
    change (String "]" rest) with ("]" +:+ rest) in Hitems. clear -Hitems E H1 H3.
    set (T := join "," (List.map marshal (x :: l)) +:+ ("]" +:+ rest)) in *.
    assert (T = String c (r +:+ ("]" +:+ rest))) as ET by (unfold T; by rewrite E).
    rewrite ET. cbn [skip_space]. rewrite H1, H3, <- ET, Hitems. reflexivity.
  - assert (Forall (fun kv => json_ok kv.2 = true) m) as Hall.
    { clear -Hok. cbn [json_ok] in Hok. induction m as [|x l IHl]; [constructor|]. apply andb_true_iff in Hok as [? ?]. constructor; auto. }
    rewrite marshal_obj in Hf |- *. rewrite !length_append in Hf. cbn [String.length] in Hf. destruct f as [|f]; [lia|].
    rewrite !append_assoc, append_cons. cbn [parse_value]. change (skip_space (String "{" ?r)) with (String "{" r). cbn iota.
    change (is_byte 123 "{") with true. cbn iota. destruct m as [|x m]; [reflexivity|].
    destruct (join_opens (List.map member_text (x :: m))) as (c & r & E & H1 & H2 & H3); [|done|].
    { clear. induction (x :: m) as [|[k v] l IHl]; constructor; [|done]. unfold member_text. cbn [fst]. rewrite marshal_string_app. by eexists _, _. }
    change ("" +:+ ?t) with t. pose proof (reads_members (x :: m) IH ltac:(done) Hok f rest ltac:(lia)) as Hitems.
    change (String "}" rest) with ("}" +:+ rest) in Hitems. clear -Hitems E H1 H2.
    set (T := join "," (List.map member_text (x :: m)) +:+ ("}" +:+ rest)) in *.
    assert (T = String c (r +:+ ("}" +:+ rest))) as ET by (unfold T; by rewrite E).
    rewrite ET. cbn [skip_space]. rewrite H1, H2, <- ET, Hitems. reflexivity.
Qed.

Lemma parse_marshal v : json_ok v = true -> parse_json (marshal v) = Some v.
Proof.
  intros Hok. unfold parse_json. pose proof (marshal_reads v Hok (2 * String.length (marshal v) + 2)%nat "" ltac:(lia) eq_refl) as H.
  rewrite append_nil_r in H. by rewrite H.
Qed.

(** ** What [marshal] writes is strict
    Valid UTF-8 when the strings are, and every escape a scalar value. *)
Definition plain (s : string) : bool := all_chars (fun c => (N_of_ascii c <? 128)%N && negb (is_byte 34 c) && negb (is_byte 92 c)) s.
Fixpoint strings_ok (v : json) : bool :=
  match v with
  | JNum lit => plain lit
  | JStr s => valid_utf8 s
  | JArr l => (fix go l := match l with [] => true | x :: l' => strings_ok x && go l' end) l
  | JObj m => (fix go m := match m with [] => true | kv :: m' => valid_utf8 (fst kv) && strings_ok (snd kv) && go m' end) m
  | _ => true
  end.

Lemma utf8_ascii s rest : all_chars (fun c => (N_of_ascii c <? 128)%N) s = true -> valid_utf8 (s +:+ rest) = valid_utf8 rest.
Proof.
  induction s as [|c s IH]; [done|]. cbn [all_chars]. intros [Hc Hs]%andb_true_iff. rewrite append_cons. cbn [valid_utf8]. rewrite Hc. by apply IH.
Qed.
Lemma utf8_plain s rest : plain s = true -> valid_utf8 (s +:+ rest) = valid_utf8 rest.
Proof.
  intros H. apply utf8_ascii. revert H. unfold plain. induction s as [|c s IH]; [done|]. cbn [all_chars].
  intros [[[-> _]%andb_true_iff _]%andb_true_iff Hs]%andb_true_iff. by apply IH.
Qed.
Lemma marshal_char_ascii c : (N_of_ascii c <? 128)%N = true -> all_chars (fun c => (N_of_ascii c <? 128)%N) (marshal_char c "") = true.
Proof. destruct c as [[] [] [] [] [] [] [] []]; intros H; try discriminate H; reflexivity. Qed.
Lemma marshal_char_high c r : (N_of_ascii c <? 128)%N = false -> marshal_char c r = String c r.
Proof. destruct c as [[] [] [] [] [] [] [] []]; intros H; try discriminate H; reflexivity. Qed.
Lemma marshal_char_split c r : marshal_char c r = marshal_char c "" +:+ r.
Proof. by rewrite marshal_char_app. Qed.

(** Bytes that are not the first of a separator are copied. *)
Lemma marshal_chars_high c s : (N_of_ascii c <? 128)%N = false -> (N_of_ascii c =? 226)%N = false -> marshal_chars (String c s) = String c (marshal_chars s).
Proof.
  intros H1 H2. destruct (marshal_chars_step c s) as [->|(x & s' & _ & -> & _)]; [by apply marshal_char_high|]. by vm_compute in H2.
Qed.
Lemma byte_in_high lo hi c : byte_in lo hi c = true -> (128 <=? lo)%N = true -> (hi <=? 191)%N = true ->
  (N_of_ascii c <? 128)%N = false /\ (N_of_ascii c =? 226)%N = false.
Proof.
  unfold byte_in. intros [H1 H2]%andb_true_iff H3 H4. apply N.leb_le in H1, H2, H3, H4.
  split; [apply N.ltb_ge; lia|apply N.eqb_neq; lia].
Qed.
Lemma second_byte_high n c : second_byte n c = true -> (N_of_ascii c <? 128)%N = false /\ (N_of_ascii c =? 226)%N = false.
Proof. unfold second_byte, continuation. repeat case_match; intros Hc; by eapply byte_in_high. Qed.
Lemma utf8_marshal_chars s rest : valid_utf8 s = true -> valid_utf8 (marshal_chars s +:+ rest) = valid_utf8 rest.
Proof.
  remember (String.length s) as n eqn:Hn. assert (String.length s <= n)%nat as Hle by lia. clear Hn.
  revert s Hle. induction n as [|n IH]; intros s Hle Hv; (destruct s as [|a s]; [done|]); cbn [String.length] in Hle; [lia|].
  destruct (marshal_chars_step a s) as [E|(x & s' & Hx & -> & -> & ->)].
  2: { cbn [String.length] in Hle. destruct Hx as [->| ->]; cbn [N.eqb Pos.eqb]; rewrite append_assoc, utf8_ascii by reflexivity; apply IH; [lia|exact Hv|lia|exact Hv]. }
  rewrite E. cbn [valid_utf8] in Hv. destruct (N_of_ascii a <? 128)%N eqn:Ha.
  { rewrite marshal_char_split, append_assoc, utf8_ascii by (by apply marshal_char_ascii). apply IH; [lia|done]. }
  rewrite marshal_char_high by done. clear E. destruct s as [|b s]; [done|]. apply andb_true_iff in Hv as [Hb Hv].
  cbn [String.length] in Hle. destruct (second_byte_high _ _ Hb) as [B1 B2]. rewrite marshal_chars_high by done.
  rewrite !append_cons. cbn [valid_utf8]. rewrite Ha, Hb. cbn [andb].
  destruct ((194 <=? N_of_ascii a) && (N_of_ascii a <=? 223))%N; [apply IH; [lia|done]|].
  destruct s as [|c s]; [done|]. apply andb_true_iff in Hv as [Hc Hv]. cbn [String.length] in Hle.
  destruct (byte_in_high _ _ _ Hc eq_refl eq_refl) as [C1 C2]. rewrite marshal_chars_high, append_cons by done. cbn [valid_utf8]. rewrite Hc. cbn [andb].
  destruct ((224 <=? N_of_ascii a) && (N_of_ascii a <=? 239))%N; [apply IH; [lia|done]|].
  destruct s as [|d s]; [done|]. apply andb_true_iff in Hv as [Hd Hv]. apply andb_true_iff in Hd as [Hd Hr]. cbn [String.length] in Hle.
  destruct (byte_in_high _ _ _ Hd eq_refl eq_refl) as [D1 D2]. rewrite marshal_chars_high, append_cons by done. cbn [valid_utf8]. rewrite Hd, Hr. cbn [andb].
  apply IH; [lia|done].
Qed.

(** Texts a scan goes through without a trace. *)
Section Passes.
Context {A : Type} (f : string -> A).
Definition passes (s : string) : Prop := forall rest, f (s +:+ rest) = f rest.
Hypothesis Hplain : forall s, plain s = true -> passes s.
Hypothesis Hstring : forall s, valid_utf8 s = true -> passes (marshal_string s).

Lemma passes_app a b : passes a -> passes b -> passes (a +:+ b).
Proof using. intros Ha Hb rest. by rewrite append_assoc, Ha, Hb. Qed.
Lemma passes_join l : Forall passes l -> passes (join "," l).
Proof using Hplain.
  induction 1 as [|x l Hx Hl IH]; [done|]. destruct l; [done|]. rewrite join_cons. apply passes_app; [done|].
  apply passes_app; [by apply Hplain|done].
Qed.
Lemma passes_marshal v : strings_ok v = true -> passes (marshal v).
Proof using Hplain Hstring.
  induction v as [|b|lit|s|l IH|m IH] using json_rec'; intros Hok.
  - by apply Hplain.
  - destruct b; by apply Hplain.
  - by apply Hplain.
  - by apply Hstring.
  - rewrite marshal_arr. apply passes_app; [by apply Hplain|]. apply passes_app; [|by apply Hplain]. apply passes_join.
    cbn [strings_ok] in Hok. induction IH as [|x l Hx Hl IHl]; [constructor|]. apply andb_true_iff in Hok as [H1 H2].
    constructor; [by apply Hx|by apply IHl].
  - rewrite marshal_obj. apply passes_app; [by apply Hplain|]. apply passes_app; [|by apply Hplain]. apply passes_join.
    cbn [strings_ok] in Hok. induction IH as [|[k x] m Hx Hm IHm]; [constructor|]. cbn [fst snd] in *.
    apply andb_true_iff in Hok as [[H0 H1]%andb_true_iff H2]. constructor; [|by apply IHm].
    apply passes_app; [by apply Hstring|]. apply passes_app; [by apply Hplain|by apply Hx].
Qed.
End Passes.

Lemma utf8_string s : valid_utf8 s = true -> passes valid_utf8 (marshal_string s).
Proof.
  intros H rest. rewrite marshal_string_app. change (String quote ?t) with (String quote "" +:+ t) at 1.
  rewrite utf8_ascii by reflexivity. rewrite utf8_marshal_chars by done. by apply (utf8_ascii (String quote "")).
Qed.
Lemma utf8_marshal v : strings_ok v = true -> valid_utf8 (marshal v) = true.
Proof.
  intros H. rewrite <- (append_nil_r (marshal v)). rewrite (passes_marshal valid_utf8); [done|intros s Hs rest; by apply utf8_plain|apply utf8_string|done].
Qed.

(** The scan of the escapes, outside strings. *)
Definition outside (s : string) : bool := scan_surrogates false (list_ascii_of_string s).
Definition inside (s : string) : bool := scan_surrogates true (list_ascii_of_string s).
Lemma scan_plain s : plain s = true -> passes outside s.
Proof.
  intros H rest. induction s as [|c s IH]; [done|]. unfold plain in *. cbn [all_chars] in H.
  apply andb_true_iff in H as [[[_ H]%andb_true_iff _]%andb_true_iff Hs]. rewrite append_cons. unfold outside in *.
  cbn [list_ascii_of_string scan_surrogates]. unfold is_byte in H. apply negb_true_iff in H. rewrite H. cbn [negb orb]. by apply IH.
Qed.
Lemma scan_marshal_char c rest : inside (marshal_char c rest) = inside rest.
Proof. destruct c as [[] [] [] [] [] [] [] []]; reflexivity. Qed.
Lemma scan_marshal_chars s rest : inside (marshal_chars s +:+ rest) = inside rest.
Proof.
  remember (String.length s) as n eqn:Hn. assert (String.length s <= n)%nat as Hle by lia. clear Hn.
  revert s Hle. induction n as [|n IH]; intros s Hle; (destruct s as [|a s]; [done|]); cbn [String.length] in Hle; [lia|].
  destruct (marshal_chars_step a s) as [->|(x & s' & Hx & -> & -> & ->)].
  - rewrite marshal_char_app, scan_marshal_char. apply IH. lia.
  - cbn [String.length] in Hle. destruct Hx as [->| ->]; cbn [N.eqb Pos.eqb]; rewrite append_assoc;
      (etrans; [|apply (IH s'); lia]); reflexivity.
Qed.
Lemma scan_string s : passes outside (marshal_string s).
Proof.
  intros rest. rewrite marshal_string_app. change (outside (String quote ?t)) with (inside t). rewrite scan_marshal_chars. reflexivity.
Qed.
Lemma scan_marshal v : strings_ok v = true -> outside (marshal v) = true.
Proof.
  intros H. rewrite <- (append_nil_r (marshal v)). rewrite (passes_marshal outside); [done|apply scan_plain|intros; apply scan_string|done].
Qed.

Lemma strict_marshal v : json_ok v = true -> strings_ok v = true -> strict_value 0 v = true -> strict_valid (marshal v) = true.
Proof.
  intros H1 H2 H3. unfold strict_valid. rewrite utf8_marshal, parse_marshal by done. change (scan_surrogates false (list_ascii_of_string (marshal v))) with (outside (marshal v)). by rewrite scan_marshal.
Qed.
