(* ===== verification/Wire.v ===== *)
(** * The frozen wire contract, [contracts/wire/validate.go]
    A [check] answers whether the Go check returns nil; the text of its error
    is never read by a caller.  The combinators and the rule tables are those
    of the source, on the values of [Json]. *)
From stdpp Require Import base tactics list strings gmap pretty.
From Stdlib Require Import ZArith Lia Ascii String.
From S2P Require Import Prelude Json.
Open Scope string_scope.
Open Scope list_scope.
Open Scope Z_scope.
Open Scope harness_scope.

Definition ProtocolVersion : Z := 1.
Definition SchemaID : string := "harness-wire-v2".
Definition AdmissionSchemaID : string := "harness-admission-v1".
Definition SchemaSHA256 : string := "5013223c4f77ac7424a486d7223c5321eb7f0e9054fb036e48d6e7748fae1889".
Definition MaximumMessageBytes : Z := 64 * 1024.
Definition MaximumPageSize : Z := 100.
Definition MaximumCursorBytes : Z := 512.
Definition MaximumArtifactBytes : Z := 16 * 1024 * 1024.
Definition MaximumWireBytes : Z := 8 * 1024 * 1024.

(** ** Command kinds *)
Definition CommandDialogCreate := "dialog.create".
Definition CommandDialogDelete := "dialog.delete".
Definition CommandMessageEnqueue := "message.enqueue".
Definition CommandMessageSteer := "message.steer".
Definition CommandRequestCancel := "request.cancel".
Definition CommandAttemptStop := "attempt.stop".
Definition CommandQueueResume := "queue.resume".
Definition CommandAttemptRetry := "attempt.retry".
Definition CommandApprovalRespond := "approval.respond".
Definition CommandInputRespond := "input.respond".

Definition IsAdmissionCommand (kind : string) : bool :=
  (kind =s CommandDialogCreate) || (kind =s CommandMessageEnqueue) || (kind =s CommandAttemptRetry).
Definition IsDrainBlockedCommand (kind : string) : bool :=
  IsAdmissionCommand kind || (kind =s CommandQueueResume).
Definition IsDrainControlCommand (kind : string) : bool :=
  existsb (String.eqb kind)
    [CommandMessageSteer; CommandRequestCancel; CommandAttemptStop; CommandApprovalRespond; CommandInputRespond].

(** ** Patterns *)
Definition char_between (lo hi : ascii) (c : ascii) : bool :=
  ((N_of_ascii lo <=? N_of_ascii c) && (N_of_ascii c <=? N_of_ascii hi))%N.
Definition is_lower_hex (c : ascii) : bool := is_digit c || char_between "a" "f" c.
Definition is_char (d c : ascii) : bool := (d =? c)%char.

(** A sequence of character classes, matched to the end of the string. *)
Fixpoint match_classes (classes : list (ascii -> bool)) (s : string) : option string :=
  match classes, s with
  | [], _ => Some s
  | p :: classes', String c s' => if p c then match_classes classes' s' else None
  | _ :: _, EmptyString => None
  end.
Definition matches (classes : list (ascii -> bool)) (s : string) : bool :=
  match match_classes classes s with Some EmptyString => true | _ => false end.

Definition uuidPattern : string -> bool :=
  let hex n := List.repeat is_lower_hex n in
  matches (hex 8%nat ++ [is_char "-"] ++ hex 4%nat ++ [is_char "-"; char_between "1" "5"] ++ hex 3%nat
           ++ [is_char "-"; fun c => existsb (is_char c) ["8"; "9"; "a"; "b"]%char] ++ hex 3%nat
           ++ [is_char "-"] ++ hex 12%nat).
Definition sha256Pattern : string -> bool := matches (List.repeat is_lower_hex 64).

Definition is_alnum (c : ascii) : bool := is_digit c || char_between "A" "Z" c || char_between "a" "z" c.
Definition is_identity_char (c : ascii) : bool :=
  is_alnum c || existsb (is_char c) ["."; "_"; ":"; "@"; "-"]%char.
(** [actorPattern]; the barrier contract's [operationPattern] is the same. *)
Definition actorPattern (s : string) : bool :=
  match s with
  | EmptyString => false
  | String c s' => is_alnum c && all_chars is_identity_char s' && (byte_length s <=? 128)
  end.

Definition digits (n : nat) : list (ascii -> bool) := List.repeat is_digit n.
Definition date_time : list (ascii -> bool) :=
  digits 4 ++ [is_char "-"] ++ digits 2 ++ [is_char "-"] ++ digits 2 ++ [is_char "T"]
  ++ digits 2 ++ [is_char ":"] ++ digits 2 ++ [is_char ":"] ++ digits 2.

Fixpoint span_digits (s : string) : string * string :=
  match s with
  | String c s' => if is_digit c then let '(d, r) := span_digits s' in (String c d, r) else ("", s)
  | EmptyString => ("", "")
  end.

(** The optional fraction: its digits and what follows. *)
Definition fraction (s : string) : option (string * string) :=
  match s with
  | String c s' =>
      if is_char "." c then
        let '(d, r) := span_digits s' in
        if (1 <=? byte_length d) && (byte_length d <=? 9) then Some (d, r) else None
      else Some ("", s)
  | EmptyString => Some ("", s)
  end.

Definition number_at (s : string) (start len : nat) : Z :=
  default (-1) (parse_digits 0 (String.substring start len s)).

Definition zone (maximum_hour : Z) (s : string) : bool :=
  (s =s "Z") ||
  (matches ([fun c => is_char "+" c || is_char "-" c] ++ digits 2 ++ [is_char ":"] ++ digits 2) s
   && (number_at s 1 2 <=? maximum_hour) && (number_at s 4 2 <=? 59)).

Definition leap (year : Z) : bool :=
  (year mod 4 =? 0) && (negb (year mod 100 =? 0) || (year mod 400 =? 0)).
Definition days_in (month year : Z) : Z :=
  if month =? 2 then if leap year then 29 else 28
  else if existsb (Z.eqb month) [4; 6; 9; 11] then 30 else 31.

(** What [time.Parse(time.RFC3339Nano, s)] demands of the fields. *)
Definition calendar (s : string) : bool :=
  let month := number_at s 5 2 in
  let day := number_at s 8 2 in
  (1 <=? month) && (month <=? 12) && (1 <=? day) && (day <=? days_in month (number_at s 0 4))
  && (number_at s 11 2 <=? 23) && (number_at s 14 2 <=? 59) && (number_at s 17 2 <=? 59).

Definition timestamp_text (s : string) : bool :=
  match match_classes date_time s with
  | Some rest =>
      match fraction rest with
      | Some (_, z) => zone 23 z && calendar s
      | None => false
      end
  | None => false
  end.

(** ** Combinators *)
Definition check := json -> bool.
Record property := mkProperty { property_check : check; property_optional : bool }.
Definition required (c : check) : property := mkProperty c false.
Definition optional (c : check) : property := mkProperty c true.

Definition has_key {A} (key : string) (m : list (string * A)) : bool :=
  existsb (fun kv => kv.1 =s key) m.

Definition object (fields : list (string * property)) : check := fun value =>
  match value with
  | JObj item =>
      forallb (fun kv => has_key kv.1 fields) item
      && forallb (fun '(key, p) =>
           match member key item with
           | None => property_optional p
           | Some v => property_check p v
           end) fields
  | _ => false
  end.

Definition list_check (itemCheck : check) (maximum : Z) : check := fun value =>
  match value with
  | JArr items => (Z.of_nat (List.length items) <=? maximum) && forallb itemCheck items
  | _ => false
  end.

Definition union (checks : list check) : check := fun value =>
  Z.of_nat (List.length (List.filter (fun c : check => c value) checks)) =? 1.

Definition stringCheck (minimum maximum : Z) : check := fun value =>
  match value with
  | JStr item => (minimum <=? byte_length item) && (byte_length item <=? maximum)
  | _ => false
  end.

(** Runes of valid UTF-8: the bytes that are not continuation bytes. *)
Fixpoint rune_count (s : string) : Z :=
  match s with
  | EmptyString => 0
  | String c s' =>
      (if ((128 <=? N_of_ascii c) && (N_of_ascii c <=? 191))%N then 0 else 1) + rune_count s'
  end.

Definition unicodeStringCheck (minimumCodePoints maximumCodePoints maximumBytes : Z) : check := fun value =>
  match value with
  | JStr item => (minimumCodePoints <=? rune_count item) && (rune_count item <=? maximumCodePoints)
                 && (byte_length item <=? maximumBytes)
  | _ => false
  end.

Definition enumCheck (values : list string) : check := fun value =>
  match value with JStr item => existsb (String.eqb item) values | _ => false end.

Definition integerCheck (positive : bool) (maximum : Z) : check := fun value =>
  match jsonInteger value with
  | Some item => negb ((item <? 0) || (maximum <? item) || (positive && (item =? 0)))
  | None => false
  end.

Definition safeInteger : check := integerCheck false MaximumSafeInteger.
Definition positiveInteger : check := integerCheck true MaximumSafeInteger.
Definition booleanCheck : check := fun value => match value with JBool _ => true | _ => false end.
Definition string_matching (p : string -> bool) : check := fun value =>
  match value with JStr item => p item | _ => false end.
Definition uuidCheck : check := string_matching uuidPattern.
Definition sha256Check : check := string_matching sha256Pattern.
Definition schemaSHA256Check : check := string_matching (fun item => item =s SchemaSHA256).
Definition actorCheck : check := string_matching actorPattern.
Definition timestampCheck : check := string_matching timestamp_text.
Definition nullCheck : check := fun value => match value with JNull => true | _ => false end.
Definition nullable (c : check) : check := union [c; nullCheck].

(** ** Commands *)
Definition targetNode : check := object [("nodeId", required uuidCheck)].
Definition targetDialog : check := object [("nodeId", required uuidCheck); ("dialogId", required uuidCheck)].
Definition targetSteer : check :=
  object [("nodeId", required uuidCheck); ("dialogId", required uuidCheck);
          ("attemptId", required uuidCheck); ("messageId", required uuidCheck)].
Definition targetRequest : check := object [("nodeId", required uuidCheck); ("requestId", required uuidCheck)].
Definition targetAttempt : check := object [("nodeId", required uuidCheck); ("attemptId", required uuidCheck)].
Definition targetApproval : check :=
  object [("nodeId", required uuidCheck); ("approvalId", required uuidCheck); ("attemptId", required uuidCheck)].
Definition targetInput : check :=
  object [("nodeId", required uuidCheck); ("inputRequestId", required uuidCheck); ("attemptId", required uuidCheck)].
Definition emptyObject : check := object [].

Definition commandRules (kind : string) : option (check * check * check) :=
  let version name := object [(name, required safeInteger)] in
  let versions a b := object [(a, required safeInteger); (b, required safeInteger)] in
  if kind =s CommandDialogCreate then
    Some (targetNode, version "registryVersion", object [("title", optional (stringCheck 1 200))])
  else if kind =s CommandDialogDelete then Some (targetDialog, version "dialogVersion", emptyObject)
  else if kind =s CommandMessageEnqueue then
    Some (targetDialog, version "dialogVersion", object [("text", required (stringCheck 1 MaximumMessageBytes))])
  else if kind =s CommandMessageSteer then
    Some (targetSteer, versions "attemptGeneration" "messageVersion", emptyObject)
  else if kind =s CommandRequestCancel then Some (targetRequest, version "requestVersion", emptyObject)
  else if kind =s CommandAttemptStop then Some (targetAttempt, version "attemptGeneration", emptyObject)
  else if kind =s CommandQueueResume then Some (targetNode, version "queueVersion", emptyObject)
  else if kind =s CommandAttemptRetry then
    Some (targetAttempt, version "attemptGeneration", object [("acknowledgeKnownEffects", required booleanCheck)])
  else if kind =s CommandApprovalRespond then
    Some (targetApproval, versions "approvalVersion" "attemptGeneration",
          object [("decision", required (enumCheck ["allow_once"; "deny"])); ("actionHash", required sha256Check)])
  else if kind =s CommandInputRespond then
    Some (targetInput, versions "inputVersion" "attemptGeneration",
          object [("text", required (stringCheck 1 MaximumMessageBytes))])
  else None.

Definition receiptReferences (kind : string) : option check :=
  let ids names := object (List.map (fun n => (n, required uuidCheck)) names) in
  if kind =s CommandDialogCreate then Some (ids ["dialogId"])
  else if kind =s CommandDialogDelete then Some (ids ["dialogId"])
  else if kind =s CommandMessageEnqueue then Some (ids ["dialogId"; "messageId"; "requestId"])
  else if kind =s CommandMessageSteer then Some (ids ["dialogId"; "messageId"; "attemptId"])
  else if kind =s CommandRequestCancel then Some (ids ["requestId"])
  else if kind =s CommandAttemptStop then Some (ids ["attemptId"])
  else if kind =s CommandQueueResume then Some (ids ["nodeId"])
  else if kind =s CommandAttemptRetry then Some (ids ["priorAttemptId"; "requestId"])
  else if kind =s CommandApprovalRespond then Some (ids ["approvalId"; "attemptId"])
  else if kind =s CommandInputRespond then Some (ids ["inputRequestId"; "attemptId"; "messageId"])
  else None.

(** ** Shared shapes *)
Definition blockedReasonCheck : check :=
  enumCheck ["engine_unavailable"; "auth_unavailable"; "quota_exhausted"; "policy_unavailable"; "capability_missing";
             "storage_unavailable"; "execution_unknown"; "adapter_protocol"; "operator_pause"].
Definition nodeStateCheck : check :=
  object [("transportAvailability", required (enumCheck ["online"; "stale"; "offline"]));
          ("engineReadiness", required (enumCheck ["ready"; "blocked"; "unknown"]));
          ("occupancy", required (enumCheck ["idle"; "active"; "unknown"]));
          ("queuePaused", required booleanCheck); ("queueVersion", required safeInteger);
          ("pendingCount", required safeInteger);
          ("blockedReasons", required (list_check blockedReasonCheck 16));
          ("activeAttemptId", required (nullable uuidCheck))].
Definition dialogCheck : check :=
  object [("dialogId", required uuidCheck); ("version", required safeInteger);
          ("title", optional (stringCheck 1 200)); ("createdAt", required timestampCheck)].
Definition requestCheck : check :=
  object [("requestId", required uuidCheck); ("dialogId", required uuidCheck); ("inputMessageId", required uuidCheck);
          ("queueSequence", required positiveInteger); ("version", required safeInteger);
          ("status", required (enumCheck ["queued"; "cancelled"; "dispatching"; "active"; "completed"; "failed";
                                          "interrupted"; "unknown"]))].
Definition usageCheck : check :=
  object [("source", required (enumCheck ["per_attempt"; "cumulative_process"])); ("inputTokens", required safeInteger);
          ("outputTokens", required safeInteger); ("totalTokens", required safeInteger)].
Definition effectStatusCheck : check := enumCheck ["none"; "known"; "unknown"].
Definition attemptCheck : check :=
  object [("attemptId", required uuidCheck); ("dialogId", required uuidCheck); ("requestId", required uuidCheck);
          ("generation", required positiveInteger); ("version", required safeInteger);
          ("state", required (enumCheck ["dispatching"; "running"; "waiting_input"; "stopping"; "completed"; "failed";
                                         "interrupted"; "unknown"]));
          ("effectStatus", required effectStatusCheck);
          ("startedAt", optional timestampCheck); ("finishedAt", optional timestampCheck)].
Definition inlineSafeContent : check :=
  object [("kind", required (enumCheck ["inline"])); ("content", required (stringCheck 0 MaximumMessageBytes));
          ("redaction", required (enumCheck ["none"; "applied"])); ("truncated", required booleanCheck)].
Definition artifactSafeContent : check :=
  object [("kind", required (enumCheck ["artifact"])); ("artifactId", required uuidCheck);
          ("sizeBytes", required (integerCheck false MaximumArtifactBytes)); ("sha256", required sha256Check);
          ("redaction", required (enumCheck ["none"; "applied"])); ("truncated", required booleanCheck)].
Definition unavailableSafeContent : check :=
  object [("kind", required (enumCheck ["unavailable"]));
          ("reason", required (enumCheck ["not_observed"; "provider_redacted"; "output_limit"; "unmapped"]));
          ("redaction", required (enumCheck ["none"; "applied"; "unknown"])); ("truncated", required booleanCheck)].
Definition safeContentCheck : check := union [inlineSafeContent; artifactSafeContent; unavailableSafeContent].
Definition attemptOutputCheck : check :=
  union [object [("kind", required (enumCheck ["message"])); ("assistantMessageId", required uuidCheck)];
         object [("kind", required (enumCheck ["empty"]))]].
Definition finishReasonCheck : check := enumCheck ["complete"; "length"; "cancelled"; "error"].
Definition dispositionCheck : check := enumCheck ["queued"; "steer_pending"; "applied"; "cancelled"; "unknown"].
Definition userHistoryCheck : check :=
  object [("messageId", required uuidCheck); ("role", required (enumCheck ["user"])); ("dialogId", required uuidCheck);
          ("sequence", required positiveInteger); ("version", required safeInteger); ("createdAt", required timestampCheck);
          ("text", required (stringCheck 1 MaximumMessageBytes)); ("disposition", required dispositionCheck);
          ("commandId", required uuidCheck); ("requestId", required uuidCheck)].
Definition assistantHistoryCheck : check :=
  object [("messageId", required uuidCheck); ("role", required (enumCheck ["assistant"])); ("dialogId", required uuidCheck);
          ("sequence", required positiveInteger); ("version", required safeInteger); ("createdAt", required timestampCheck);
          ("attemptId", required uuidCheck); ("content", required safeContentCheck);
          ("finishReason", required finishReasonCheck)].
Definition historyCheck : check := union [userHistoryCheck; assistantHistoryCheck].

(** ** Events *)
Definition eventPayloadChecks (type : string) : option check :=
  let generation := ("generation", required positiveInteger) in
  let uuid name := (name, required uuidCheck) in
  if type =s "node.state_changed" then Some nodeStateCheck
  else if type =s "dialog.deleted" then Some (object [uuid "dialogId"])
  else if type =s "queue.changed" then
    Some (object [("queueVersion", required safeInteger); ("pendingCount", required safeInteger);
                  ("activeAttemptId", required (nullable uuidCheck)); ("queuePaused", required booleanCheck)])
  else if type =s "message.accepted" then
    Some (object [uuid "dialogId"; uuid "messageId"; uuid "requestId"; ("sequence", required positiveInteger);
                  ("disposition", required (enumCheck ["queued"]))])
  else if type =s "message.disposition_changed" then
    Some (object [uuid "messageId"; ("from", required dispositionCheck); ("to", required dispositionCheck);
                  ("reasonCode", required (enumCheck ["request_dispatched"; "steer_requested"; "steer_applied";
                     "steer_fallback"; "steer_unknown"; "request_cancelled"; "reconciled"]))])
  else if type =s "attempt.dispatching" then
    Some (object [uuid "requestId"; generation; uuid "contextBoundaryMessageId";
                  ("policyRevision", required (stringCheck 1 200)); ("policyHash", required sha256Check)])
  else if type =s "attempt.started" then Some (object [uuid "requestId"; generation])
  else if type =s "attempt.waiting_input" then
    Some (object [uuid "requestId"; generation; ("waitKind", required (enumCheck ["approval"; "input"]))])
  else if type =s "attempt.stop_requested" then Some (object [generation; uuid "commandId"])
  else if type =s "attempt.completed" then
    Some (object [generation; ("output", required attemptOutputCheck); ("usage", optional usageCheck)])
  else if type =s "attempt.failed" then
    Some (object [generation; ("failureClass", required (enumCheck ["task"; "node"; "policy"; "protocol"]));
                  ("errorCode", required (stringCheck 1 200)); ("safeMessage", required (stringCheck 1 500));
                  ("retryable", required booleanCheck); ("effectStatus", required effectStatusCheck)])
  else if type =s "attempt.interrupted" then
    Some (object [generation; ("reason", required (enumCheck ["owner_stop"; "provider_interrupt"; "process_exit"]));
                  ("effectStatus", required effectStatusCheck)])
  else if type =s "attempt.unknown" then
    Some (object [generation; ("reason", required (enumCheck ["dispatch_uncertain"; "cancel_unconfirmed";
                    "adapter_protocol"; "provider_state"; "unmapped_event"])); ("effectStatus", required effectStatusCheck)])
  else if type =s "assistant.delta" then
    Some (object [uuid "messageId"; ("deltaIndex", required safeInteger); ("content", required safeContentCheck)])
  else if type =s "assistant.message" then
    Some (object [uuid "messageId"; ("content", required safeContentCheck); ("finishReason", required finishReasonCheck)])
  else if type =s "tool.started" then
    Some (object [uuid "callId"; ("toolName", required (stringCheck 1 200)); ("actionHash", required sha256Check);
                  ("input", required safeContentCheck)])
  else if type =s "tool.output" then
    Some (object [uuid "callId"; ("chunkIndex", required safeInteger);
                  ("stream", required (enumCheck ["stdout"; "stderr"; "result"; "diagnostic"]));
                  ("output", required safeContentCheck)])
  else if type =s "tool.completed" then
    Some (object [uuid "callId"; ("status", required (enumCheck ["succeeded"; "failed"; "unknown"]));
                  ("result", required safeContentCheck); ("effectStatus", required effectStatusCheck);
                  ("effectRef", optional (stringCheck 1 200))])
  else if type =s "approval.requested" then
    Some (object [uuid "approvalId"; uuid "callId"; ("actionHash", required sha256Check);
                  ("safePrompt", required (unicodeStringCheck 1 2000 8192)); ("approvalVersion", required safeInteger)])
  else if type =s "approval.resolved" then
    Some (object [uuid "approvalId"; ("decision", required (enumCheck ["allow_once"; "deny"]));
                  ("actorId", required actorCheck); ("approvalVersion", required safeInteger)])
  else if type =s "input.requested" then
    Some (object [uuid "inputRequestId"; ("prompt", required safeContentCheck); ("inputVersion", required safeInteger)])
  else if type =s "input.resolved" then
    Some (object [uuid "inputRequestId"; uuid "messageId"; ("inputVersion", required safeInteger)])
  else if type =s "artifact.available" then
    Some (object [uuid "artifactId"; ("callId", optional uuidCheck); ("name", required (stringCheck 1 200));
                  ("mediaType", required (stringCheck 1 200)); ("sizeBytes", required (integerCheck false MaximumArtifactBytes));
                  ("sha256", required sha256Check); ("redaction", required (enumCheck ["none"; "applied"]));
                  ("truncated", required booleanCheck)])
  else if type =s "history.gap" then
    Some (object [("expectedSeq", required positiveInteger); ("availableFromSeq", required positiveInteger);
                  ("reason", required (enumCheck ["storage_corruption"; "identity_changed"; "unmapped_event"]))])
  else None.

Definition isAttemptScoped (eventType : string) : bool :=
  existsb (fun prefix => String.prefix prefix eventType) ["attempt."; "assistant."; "tool."; "approval."; "input."]
  || (eventType =s "artifact.available").

Definition validatePins (value : json) : bool :=
  match field "protocolVersion" value with
  | Some p =>
      match jsonInteger p with
      | Some protocol => (protocol =? ProtocolVersion)
      | None => false
      end
  | None => false
  end
  && match field "schemaId" value with Some (JStr schema) => schema =s SchemaID | _ => false end.

Definition pins : list (string * property) :=
  [("protocolVersion", required safeInteger); ("schemaId", required (stringCheck 1 100))].

Definition validateCommand (value : json) : bool :=
  validatePins value &&
  match field "kind" value with
  | Some (JStr kind) =>
      match commandRules kind with
      | Some (target, expected, payload) =>
          object (pins ++ [("commandId", required uuidCheck); ("kind", required (enumCheck [kind]));
                           ("target", required target); ("expected", required expected);
                           ("payload", required payload)]) value
      | None => false
      end
  | _ => false
  end.

Definition validateReceipt (value : json) : bool :=
  validatePins value &&
  match field "commandKind" value with
  | Some (JStr kind) =>
      match receiptReferences kind with
      | Some references =>
          let result := if kind =s CommandDialogDelete then enumCheck ["deleted"] else enumCheck ["admitted"; "applied"] in
          object (pins ++ [("commandId", required uuidCheck); ("commandKind", required (enumCheck [kind]));
                           ("receiptId", required uuidCheck); ("acceptedAt", required timestampCheck);
                           ("nodeId", required uuidCheck); ("eventSeq", required positiveInteger);
                           ("result", required result); ("blockingReason", optional blockedReasonCheck);
                           ("references", required references)]) value
      | None => false
      end
  | _ => false
  end.

Definition retryable_code (code : string) : bool :=
  (code =s "queue_full") || (code =s "node_unavailable") || (code =s "not_durable").

Definition validateError (value : json) : bool :=
  validatePins value
  && object (pins ++ [("code", required (enumCheck ["invalid"; "no_session"; "forbidden"; "not_found"; "stale"; "id_conflict";
                        "too_large"; "queue_full"; "node_unavailable"; "not_durable"; "unsupported"; "protocol_mismatch";
                        "schema_mismatch"]));
                      ("safeMessage", required (stringCheck 1 500)); ("retryable", required booleanCheck);
                      ("correlationId", required uuidCheck); ("currentVersion", optional safeInteger);
                      ("currentState", optional (enumCheck ["queued"; "active"; "paused"; "blocked"; "terminal"; "unknown"]))]) value
  && match field "retryable" value, field "code" value with
     | Some (JBool retryable), Some (JStr code) => Bool.eqb retryable (retryable_code code)
     | _, _ => false
     end.

Definition validateEvent (value : json) : bool :=
  validatePins value &&
  match field "type" value with
  | Some (JStr typeName) =>
      match eventPayloadChecks typeName with
      | Some payload =>
          let fields :=
            pins ++ [("nodeId", required uuidCheck); ("seq", required positiveInteger); ("epoch", required positiveInteger);
                     ("type", required (enumCheck [typeName])); ("entityId", required uuidCheck);
                     ("entityVersion", required safeInteger); ("observedAt", required timestampCheck);
                     ("sourceAt", optional timestampCheck); ("completeness", required (enumCheck ["complete"]));
                     ("payload", required payload)] in
          let scope :=
            if isAttemptScoped typeName then [("attemptId", required uuidCheck); ("dialogId", required uuidCheck)]
            else if typeName =s "dialog.deleted" then [("dialogId", required uuidCheck)] else [] in
          object (fields ++ scope) value
      | None => false
      end
  | _ => false
  end.

(** Go's [==] on two decoded scalars. *)
Definition scalar_eqb (a b : option json) : bool :=
  match a, b with
  | Some (JStr x), Some (JStr y) => x =s y
  | Some (JNum x), Some (JNum y) => x =s y
  | Some JNull, Some JNull => true
  | Some (JBool x), Some (JBool y) => Bool.eqb x y
  | None, None => true
  | None, Some JNull | Some JNull, None => true
  | _, _ => false
  end.

(** ** Snapshots and pages *)
Definition json_items (key : string) (value : json) : list json :=
  match field key value with Some (JArr items) => items | _ => [] end.

Definition integer_field (key : string) (value : json) : Z :=
  default 0 (v ← field key value; jsonInteger v).

Definition string_field (key : string) (value : json) : string :=
  match field key value with Some (JStr s) => s | _ => "" end.

(** The FIFO walk over the pending queue of a snapshot. *)
Fixpoint pending_fifo (first : bool) (previous : Z) (requests messages : list string) (sequences : list Z)
    (pending : list json) : bool :=
  match pending with
  | [] => true
  | request :: rest =>
      let requestID := string_field "requestId" request in
      let messageID := string_field "inputMessageId" request in
      let sequence := integer_field "queueSequence" request in
      negb (existsb (String.eqb requestID) requests || existsb (String.eqb messageID) messages
            || existsb (Z.eqb sequence) sequences)
      && negb (negb first && (sequence <=? previous))
      && pending_fifo false sequence (requestID :: requests) (messageID :: messages) (sequence :: sequences) rest
  end.

Definition validateSnapshot (value : json) : bool :=
  let pendingRequestCheck :=
    object [("requestId", required uuidCheck); ("dialogId", required uuidCheck); ("inputMessageId", required uuidCheck);
            ("queueSequence", required positiveInteger); ("version", required safeInteger);
            ("status", required (enumCheck ["queued"]))] in
  validatePins value
  && object (pins ++ [("nodeId", required uuidCheck); ("epoch", required positiveInteger); ("stateVersion", required safeInteger);
                      ("lastEventSeq", required safeInteger); ("capturedAt", required timestampCheck);
                      ("node", required nodeStateCheck); ("pendingQueue", required (list_check pendingRequestCheck MaximumPageSize));
                      ("activeAttempt", required (nullable attemptCheck)); ("completeness", required (enumCheck ["complete"]))]) value
  && let node := default JNull (field "node" value) in
     let pending := json_items "pendingQueue" value in
     (integer_field "pendingCount" node =? Z.of_nat (List.length pending))
     && pending_fifo true 0 [] [] [] pending
     && match field "activeAttempt" value with
        | Some JNull | None => scalar_eqb (field "activeAttemptId" node) (Some JNull)
        | Some active => scalar_eqb (field "activeAttemptId" node) (field "attemptId" active)
        end.

Definition page_fields (scope : list (string * property)) (itemCheck : check) (pageType : string) : check :=
  object (pins ++ [("nodeId", required uuidCheck); ("epoch", required positiveInteger);
                   ("snapshotStateVersion", required safeInteger); ("lastEventSeq", required safeInteger)]
          ++ scope
          ++ [("items", required (list_check itemCheck MaximumPageSize));
              ("nextCursor", required (nullable (stringCheck 1 MaximumCursorBytes)));
              ("pageType", required (enumCheck [pageType]))]).

Definition validatePage (value : json) (pageType : string) (itemCheck : check) : bool :=
  validatePins value && page_fields [] itemCheck pageType value.

(** Every item repeats the page's value of each of [keys]. *)
Definition items_in_scope (keys : list string) (value : json) : bool :=
  forallb (fun item => forallb (fun key => scalar_eqb (field key item) (field key value)) keys) (json_items "items" value).

Definition validateEventPage (value : json) : bool :=
  let item item :=
    match item with
    | JObj _ => isAttemptScoped (string_field "type" item) && validateEvent item
    | _ => false
    end in
  validatePins value
  && page_fields [("dialogId", required uuidCheck); ("attemptId", required uuidCheck)] item "events" value
  && items_in_scope ["nodeId"; "epoch"; "dialogId"; "attemptId"] value.

Definition validateHistoryPage (value : json) : bool :=
  validatePins value
  && page_fields [("dialogId", required uuidCheck)] historyCheck "history" value
  && items_in_scope ["dialogId"] value.

Definition validateAttemptPage (value : json) : bool :=
  validatePins value
  && page_fields [("dialogId", required uuidCheck); ("requestId", required uuidCheck)] attemptCheck "attempts" value
  && items_in_scope ["dialogId"; "requestId"] value.

(** ** Identity, status and health *)
Definition capabilityStatusCheck : check := enumCheck ["unsupported"; "declared"; "verified"].
Definition capabilitiesCheck : check :=
  object (List.map (fun n => (n, required capabilityStatusCheck))
    ["chat"; "events"; "tool_results"; "cancel"; "steer_attached"; "session_resume"; "policy_enforcement"]).
Definition adapterIdentityCheck : check :=
  union [object [("kind", required (enumCheck ["cursor"])); ("version", required (enumCheck ["1.0.31"]))];
         object [("kind", required (enumCheck ["codex"])); ("version", required (enumCheck ["0.155.1"]))]].

Definition validateNodeIdentity (value : json) : bool :=
  validatePins value
  && object (pins ++ [("schemaSHA256", required schemaSHA256Check); ("nodeId", required uuidCheck);
                      ("registryVersion", required safeInteger); ("identityEpoch", required positiveInteger);
                      ("adapter", required adapterIdentityCheck); ("capabilities", required capabilitiesCheck)]) value.

Definition validateAdmissionProfile (value : json) : bool :=
  let capabilities :=
    object (List.map (fun n => (n, required booleanCheck))
      ["profile"; "native_epoch"; "policy_enforcement"; "history"; "facts"; "durable_receipts"; "replica_export";
       "replica_import"; "asset_export"; "asset_import"; "scoped_quiesce"; "ownership_release"; "target_reservation"]) in
  object [("schemaId", required (enumCheck [AdmissionSchemaID])); ("ownerId", required actorCheck);
          ("nodeId", required uuidCheck); ("registrationRevision", required positiveInteger);
          ("identityEpoch", required positiveInteger); ("wireSchemaSHA256", required schemaSHA256Check);
          ("adapter", required adapterIdentityCheck); ("readiness", required (enumCheck ["ready"; "blocked"; "unknown"]));
          ("capabilities", required capabilities)] value.

Definition validateAttemptRead (value : json) : bool :=
  validatePins value
  && object (pins ++ [("nodeId", required uuidCheck); ("epoch", required positiveInteger);
                      ("stateVersion", required safeInteger); ("attempt", required attemptCheck)]) value.

Definition validateCommandStatus (value : json) : bool :=
  validatePins value
  && object (pins ++ [("nodeId", required uuidCheck); ("commandId", required uuidCheck);
                      ("canonicalPayloadHash", required sha256Check); ("status", required (enumCheck ["accepted"]));
                      ("receipt", required (fun v => match v with JObj _ => validateReceipt v | _ => false end))]) value
  && let receipt := default JNull (field "receipt" value) in
     scalar_eqb (field "nodeId" receipt) (field "nodeId" value)
     && scalar_eqb (field "commandId" receipt) (field "commandId" value).

Definition validateHealthLive (value : json) : bool :=
  validatePins value
  && object (pins ++ [("status", required (enumCheck ["live"])); ("processStartedAt", required timestampCheck)]) value.

Definition validateHealthReady (value : json) : bool :=
  validatePins value
  && object (pins ++ [("checkedAt", required timestampCheck);
                      ("identity", required (fun v => match v with JObj _ => validateNodeIdentity v | _ => false end));
                      ("readiness", required (enumCheck ["ready"; "blocked"; "unknown"]));
                      ("blockedReasons", required (list_check blockedReasonCheck 16))]) value
  && (negb (string_field "readiness" value =s "ready")
      || (Nat.eqb (List.length (json_items "blockedReasons" value)) 0
          && match (i ← field "identity" value; field "capabilities" i) with
             | Some (JObj m) => forallb (fun kv => scalar_eqb (Some kv.2) (Some (JStr "verified"))) m
             | _ => false
             end)).

Definition validateArtifactMetadata (value : json) : bool :=
  validatePins value
  && object (pins ++ [("nodeId", required uuidCheck); ("dialogId", required uuidCheck); ("attemptId", required uuidCheck);
                      ("artifactId", required uuidCheck); ("callId", optional uuidCheck); ("name", required (stringCheck 1 200));
                      ("mediaType", required (stringCheck 1 200)); ("sizeBytes", required (integerCheck false MaximumArtifactBytes));
                      ("sha256", required sha256Check); ("redaction", required (enumCheck ["none"; "applied"]));
                      ("truncated", required booleanCheck); ("disposition", required (enumCheck ["inline"; "attachment"]))]) value.

(** ** [Validate] *)
Definition decodeObject (data : document) : option json :=
  if MaximumWireBytes <? doc_length data then None
  else if negb (strict_document data) then None
  else match doc_value data with Some (JObj m) => Some (JObj m) | _ => None end.

Definition Validate_value (wireType : string) (value : json) : bool :=
  if wireType =s "command" then validateCommand value
  else if wireType =s "receipt" then validateReceipt value
  else if wireType =s "error" then validateError value
  else if wireType =s "event" then validateEvent value
  else if wireType =s "snapshot" then validateSnapshot value
  else if wireType =s "dialogPage" then validatePage value "dialogs" dialogCheck
  else if wireType =s "historyPage" then validateHistoryPage value
  else if wireType =s "requestPage" then validatePage value "requests" requestCheck
  else if wireType =s "attemptPage" then validateAttemptPage value
  else if wireType =s "eventPage" then validateEventPage value
  else if wireType =s "attemptRead" then validateAttemptRead value
  else if wireType =s "commandStatus" then validateCommandStatus value
  else if wireType =s "nodeIdentity" then validateNodeIdentity value
  else if wireType =s "admissionProfile" then validateAdmissionProfile value
  else if wireType =s "healthLive" then validateHealthLive value
  else if wireType =s "healthReady" then validateHealthReady value
  else if wireType =s "artifactMetadata" then validateArtifactMetadata value
  else false.

Definition Validate (wireType : string) (data : document) : bool :=
  match decodeObject data with
  | Some value => Validate_value wireType value
  | None => false
  end.

(** The document [json.Marshal] makes of a value. *)
Definition document_of (value : json) : document := mkDocument (byte_length (marshal value)) (Some value).
