(* ===== verification/Instant.v ===== *)
(** * Instants, as package [time] writes and reads them
    What the sources use of the standard library's clock: [time.Parse] with the
    layout [time.RFC3339Nano], and [UTC().Format] with the same layout.  An
    instant is its number of nanoseconds since the Unix epoch. *)
From stdpp Require Import base tactics list strings.
From Stdlib Require Import ZArith Lia Ascii String.
From S2P Require Import Prelude Json Wire.
Open Scope string_scope.
Open Scope list_scope.
Open Scope Z_scope.
Open Scope harness_scope.

(** ** [time.Parse(time.RFC3339Nano, s)]
    The hour may have one digit, the fraction may start with a comma and have
    any number of digits, an offset may be 24 hours or 60 minutes. *)
Definition two_digit_hour (s : string) : string :=
  if String.substring 12 1 s =s ":" then String.substring 0 11 s +:+ "0" +:+ String.substring 11 (String.length s) s else s.
Definition skip_fraction (s : string) : string :=
  match s with
  | String c s' =>
      if is_char "." c || is_char "," c then let '(d, r) := span_digits s' in if d =s "" then s else r else s
  | EmptyString => s
  end.
Definition zone_offset (s : string) : bool :=
  (s =s "Z")
  || (matches ([fun c => is_char "+" c || is_char "-" c] ++ digits 2 ++ [is_char ":"] ++ digits 2) s
      && (number_at s 1 2 <=? 24) && (number_at s 4 2 <=? 60)).
Definition time_parse (s : string) : bool :=
  let s := two_digit_hour s in
  match match_classes date_time s with
  | Some rest => calendar s && zone_offset (skip_fraction rest)
  | None => false
  end.

(** ** The proleptic Gregorian calendar
    Years are counted from March, so that the leap day is the last of its
    year, and grouped in eras of 400 years, 146097 days. *)
Definition days_from_civil (y m d : Z) : Z :=
  let y := if m <=? 2 then y - 1 else y in
  let yoe := y mod 400 in
  let mp := if m <=? 2 then m + 9 else m - 3 in
  y / 400 * 146097 + yoe * 365 + yoe / 4 - yoe / 100 + (153 * mp + 2) / 5 + d - 1 - 719468.
Definition civil_from_doe (doe : Z) : Z * Z * Z :=
  let yoe := (doe - doe / 1460 + doe / 36524 - doe / 146096) / 365 in
  let doy := doe - (365 * yoe + yoe / 4 - yoe / 100) in
  let mp := (5 * doy + 2) / 153 in
  let m := if mp <? 10 then mp + 3 else mp - 9 in
  (if m <=? 2 then yoe + 1 else yoe, m, doy - (153 * mp + 2) / 5 + 1).
Definition civil_from_days (n : Z) : Z * Z * Z :=
  let z := n + 719468 in
  let '(y, m, d) := civil_from_doe (z mod 146097) in
  (y + z / 146097 * 400, m, d).

(** ** The instant a text names *)
Fixpoint frac_value (k : nat) (s : string) : Z :=
  match k, s with
  | S k', String c s' => digit_value c * 10 ^ Z.of_nat k' + frac_value k' s'
  | _, _ => 0
  end.
(** Digits beyond the ninth are dropped. *)
Definition fraction_nanos (s : string) : Z :=
  match s with
  | String c s' => if is_char "." c || is_char "," c then frac_value 9 (span_digits s').1 else 0
  | EmptyString => 0
  end.
Definition offset_seconds (s : string) : Z :=
  match s with
  | String c _ =>
      if is_char "Z" c then 0
      else (if is_char "-" c then -1 else 1) * (number_at s 1 2 * 3600 + number_at s 4 2 * 60)
  | EmptyString => 0
  end.
Definition seconds_of (s : string) : Z :=
  days_from_civil (number_at s 0 4) (number_at s 5 2) (number_at s 8 2) * 86400
  + number_at s 11 2 * 3600 + number_at s 14 2 * 60 + number_at s 17 2.
Definition time_instant (s : string) : option Z :=
  if time_parse s then
    let s := two_digit_hour s in
    rest ← match_classes date_time s;
    Some ((seconds_of s - offset_seconds (skip_fraction rest)) * 10 ^ 9 + fraction_nanos rest)
  else None.

(** ** [value.UTC().Format(time.RFC3339Nano)] *)
Definition digit (n : Z) : ascii := ascii_of_N (Z.to_N (48 + n)).
Fixpoint pad (k : nat) (n : Z) : string :=
  match k with O => "" | S k' => String (digit ((n / 10 ^ Z.of_nat k') mod 10)) (pad k' n) end.
Definition year_text (y : Z) : string :=
  (if y <? 0 then "-" else "") +:+ (if Z.abs y <? 10000 then pad 4 (Z.abs y) else itoa (Z.abs y)).
Fixpoint trim_zeros (s : string) : string :=
  match s with
  | String c s' => let r := trim_zeros s' in if (r =s "") && is_char "0" c then "" else String c r
  | EmptyString => ""
  end.
Definition fraction_text (ns : Z) : string :=
  let d := trim_zeros (pad 9 ns) in if d =s "" then "" else String "." d.
Definition timestamp (t : Z) : string :=
  let s := t / 10 ^ 9 in
  let '(y, m, d) := civil_from_days (s / 86400) in
  let r := s mod 86400 in
  year_text y +:+ "-" +:+ pad 2 m +:+ "-" +:+ pad 2 d +:+ "T" +:+ pad 2 (r / 3600) +:+ ":" +:+ pad 2 (r / 60 mod 60)
  +:+ ":" +:+ pad 2 (r mod 60) +:+ fraction_text (t mod 10 ^ 9) +:+ "Z".
(** The instants whose year has four digits. *)
Definition printable (t : Z) : bool := let '(y, _, _) := civil_from_days (t / 10 ^ 9 / 86400) in (0 <=? y) && (y <=? 9999).

(** ** Digits *)
Lemma digit_char n : 0 <= n < 10 -> is_digit (digit n) = true /\ digit_value (digit n) = n.
Proof.
  intros Hn. unfold is_digit, digit_value, digit. rewrite N_ascii_embedding by lia.
  split; [|lia]. apply andb_true_intro; split; apply N.leb_le; lia.
Qed.
Lemma digit_not n c : 0 <= n < 10 -> is_digit c = false -> is_char c (digit n) = false.
Proof.
  intros Hn Hc. unfold is_char. destruct (c =? digit n)%char eqn:E; [|done].
  apply Ascii.eqb_eq in E as ->. by rewrite (proj1 (digit_char n Hn)) in Hc.
Qed.
Lemma parse_digits_digit acc n s : 0 <= n < 10 -> parse_digits acc (String (digit n) s) = parse_digits (acc * 10 + n) s.
Proof. intros Hn. destruct (digit_char n Hn) as [E1 E2]. cbn [parse_digits]. by rewrite E1, E2. Qed.
Lemma mod_10 n : 0 <= n mod 10 < 10.
Proof. apply Z.mod_pos_bound. lia. Qed.

(** ** Fractions *)
Lemma frac_value_pad k n : frac_value k (pad k n) = n mod 10 ^ Z.of_nat k.
Proof.
  revert n. induction k as [|k IH]; intros n; cbn [frac_value pad]; [by rewrite Z.mod_1_r|].
  rewrite (proj2 (digit_char _ (mod_10 _))), IH, Nat2Z.inj_succ, Z.pow_succ_r by lia.
  rewrite (Z.mul_comm 10), Z.rem_mul_r by lia. lia.
Qed.
Lemma frac_value_trim k s : frac_value k (trim_zeros s) = frac_value k s.
Proof.
  revert k. induction s as [|c s IH]; intros k; [by destruct k|]. cbn [trim_zeros].
  destruct (trim_zeros s =s "") eqn:E; cbn [andb].
  - apply String.eqb_eq in E. destruct (is_char "0" c) eqn:Ec.
    + apply Ascii.eqb_eq in Ec; subst c. destruct k as [|k]; [done|]. cbn [frac_value].
      rewrite <- IH, E. by destruct k.
    + destruct k as [|k]; [done|]. cbn [frac_value]. by rewrite IH.
  - destruct k as [|k]; [done|]. cbn [frac_value]. by rewrite IH.
Qed.
Fixpoint all_digits (s : string) : bool := match s with String c s' => is_digit c && all_digits s' | EmptyString => true end.
Lemma all_digits_pad k n : all_digits (pad k n) = true.
Proof. induction k as [|k IH]; cbn; [done|]. by rewrite (proj1 (digit_char _ (mod_10 _))). Qed.
Lemma all_digits_trim s : all_digits s = true -> all_digits (trim_zeros s) = true.
Proof.
  induction s as [|c s IH]; cbn; [done|]. intros [Hc Hs]%andb_prop. destruct (_ && _); [done|]. cbn. by rewrite Hc, IH.
Qed.
Lemma span_all_digits s z : all_digits s = true -> span_digits (s +:+ String "Z" z) = (s, String "Z" z).
Proof.
  induction s as [|c s IH]; [done|]. intros [Hc Hs]%andb_prop.
  change (String c s +:+ String "Z" z) with (String c (s +:+ String "Z" z)). unfold span_digits; fold span_digits. by rewrite Hc, IH.
Qed.
Lemma fraction_text_spec ns : 0 <= ns < 10 ^ 9 ->
  skip_fraction (fraction_text ns +:+ "Z") = "Z" /\ fraction_nanos (fraction_text ns +:+ "Z") = ns.
Proof.
  intros Hn. unfold fraction_text. pose proof (frac_value_pad 9 ns) as Hv. rewrite <- frac_value_trim in Hv.
  rewrite Z.mod_small in Hv by done. pose proof (all_digits_trim _ (all_digits_pad 9 ns)) as Hd.
  destruct (trim_zeros (pad 9 ns)) as [|c s] eqn:E; cbv zeta; [split; [done|]; by rewrite <- Hv|].
  replace (String c s =s "") with false by done.
  change (String "." (String c s) +:+ "Z") with (String "." (String c s +:+ String "Z" "")).
  unfold skip_fraction, fraction_nanos. rewrite span_all_digits by done. split; [done|exact Hv].
Qed.

(** ** The calendar *)
Lemma year_of_doe doe : 0 <= doe < 146097 ->
  let yoe := (doe - doe / 1460 + doe / 36524 - doe / 146096) / 365 in
  0 <= yoe <= 399
  /\ 365 * yoe + yoe / 4 - yoe / 100 <= doe < 365 * (yoe + 1) + (yoe + 1) / 4 - (yoe + 1) / 100 + (yoe + 1) / 400.
Proof. intros H y. subst y. Z.to_euclidean_division_equations; lia. Qed.
Lemma month_of_doy doy : 0 <= doy <= 365 ->
  let mp := (5 * doy + 2) / 153 in
  0 <= mp <= 11 /\ 1 <= doy - (153 * mp + 2) / 5 + 1 <= (if mp =? 11 then 29 else if existsb (Z.eqb mp) [1; 3; 6; 8] then 30 else 31)
  /\ (doy = 365 -> mp = 11) /\ (mp = 11 -> doy - (153 * mp + 2) / 5 + 1 = 29 -> doy = 365).
Proof.
  intros H mp. assert (0 <= mp <= 11) by (subst mp; Z.to_euclidean_division_equations; lia). split; [done|].
  assert (mp = 0 \/ mp = 1 \/ mp = 2 \/ mp = 3 \/ mp = 4 \/ mp = 5 \/ mp = 6 \/ mp = 7 \/ mp = 8 \/ mp = 9 \/ mp = 10 \/ mp = 11) as Hc by lia.
  assert (153 * mp <= 5 * doy + 2 < 153 * mp + 153) as Hb by (subst mp; Z.to_euclidean_division_equations; lia).
  clearbody mp. repeat destruct Hc as [-> | Hc]; [..|subst mp]; cbn; split_and!; intros; Z.to_euclidean_division_equations; lia.
Qed.
Lemma leap_year y : 0 <= y <= 400 -> (y / 4 - y / 100 + y / 400) - ((y - 1) / 4 - (y - 1) / 100 + (y - 1) / 400) = (if leap y then 1 else 0).
Proof.
  intros Hy. unfold leap. destruct (Z.eqb_spec (y mod 4) 0), (Z.eqb_spec (y mod 100) 0), (Z.eqb_spec (y mod 400) 0); cbn [negb andb orb];
    Z.to_euclidean_division_equations; lia.
Qed.
Ltac closed_sums := repeat match goal with
  | |- context[Z.pos ?a + 3] => let v := eval vm_compute in (Z.pos a + 3) in change (Z.pos a + 3) with v
  | |- context[0 + 3] => change (0 + 3) with 3
  | |- context[Z.pos ?a - 9] => let v := eval vm_compute in (Z.pos a - 9) in change (Z.pos a - 9) with v
  end.
Lemma civil_from_doe_spec doe : 0 <= doe < 146097 -> let '(y, m, d) := civil_from_doe doe in
  0 <= y <= 400 /\ 1 <= m <= 12 /\ 1 <= d <= days_in m y /\ days_from_civil y m d = doe - 719468.
Proof.
  intros Hd. unfold civil_from_doe. destruct (year_of_doe doe Hd) as [Hy Hr]. cbv zeta in *.
  set (yoe := (doe - doe / 1460 + doe / 36524 - doe / 146096) / 365) in *. clearbody yoe.
  set (doy := doe - (365 * yoe + yoe / 4 - yoe / 100)) in *.
  pose proof (leap_year (yoe + 1) ltac:(lia)) as Hl. replace (yoe + 1 - 1) with yoe in Hl by lia.
  assert (yoe / 400 = 0) as H400 by (apply Z.div_small; lia).
  assert (0 <= doy <= 364 + (if leap (yoe + 1) then 1 else 0)) as Hdoy by (subst doy; lia).
  destruct (month_of_doy doy) as (Hm & Hdd & H365 & H29); [destruct (leap (yoe + 1)); lia|]. cbv zeta in *.
  assert (doe = doy + 365 * yoe + yoe / 4 - yoe / 100) as Hdoe by (subst doy; lia). clearbody doy.
  set (mp := (5 * doy + 2) / 153) in *. clearbody mp.
  assert ((if (if mp <? 10 then mp + 3 else mp - 9) <=? 2 then (if mp <? 10 then mp + 3 else mp - 9) + 9
           else (if mp <? 10 then mp + 3 else mp - 9) - 3) = mp) as Emp by (destruct (Z.ltb_spec mp 10); [destruct (Z.leb_spec (mp + 3) 2)|destruct (Z.leb_spec (mp - 9) 2)]; lia).
  unfold days_from_civil. rewrite Emp.
  split_and!.
  - destruct (_ <=? 2); lia.
  - destruct (_ <=? 2); lia.
  - destruct (Z.ltb_spec mp 10); lia.
  - destruct (Z.ltb_spec mp 10); lia.
  - lia.
  - unfold days_in. assert (mp = 0 \/ mp = 1 \/ mp = 2 \/ mp = 3 \/ mp = 4 \/ mp = 5 \/ mp = 6 \/ mp = 7 \/ mp = 8 \/ mp = 9 \/ mp = 10 \/ mp = 11) as Hc by lia.
    repeat destruct Hc as [-> | Hc]; [..|subst mp]; closed_sums; cbn in *; try lia.
    specialize (H29 eq_refl). destruct (leap (yoe + 1)); [lia|]. destruct (Z.eq_dec (doy - (153 * 11 + 2) / 5 + 1) 29) as [e|]; [specialize (H29 e)|]; lia.
  - destruct (Z.leb_spec (if mp <? 10 then mp + 3 else mp - 9) 2); [replace (yoe + 1 - 1) with yoe by lia|];
      rewrite Z.mod_small, H400 by lia; lia.
Qed.
Lemma leap_era y e : leap (y + e * 400) = leap y.
Proof.
  unfold leap. replace (y + e * 400) with (y + e * 100 * 4) at 1 by lia. rewrite Z.mod_add by lia.
  replace (y + e * 400) with (y + e * 4 * 100) at 1 by lia. rewrite Z.mod_add by lia. by rewrite Z.mod_add by lia.
Qed.
Lemma civil_from_days_spec n : let '(y, m, d) := civil_from_days n in
  1 <= m <= 12 /\ 1 <= d <= days_in m y /\ days_from_civil y m d = n.
Proof.
  unfold civil_from_days. pose proof (Z.mod_pos_bound (n + 719468) 146097 ltac:(lia)) as Hb.
  pose proof (Z.div_mod (n + 719468) 146097 ltac:(lia)) as Hn. pose proof (civil_from_doe_spec _ Hb) as H.
  destruct (civil_from_doe _) as [[y m] d]. destruct H as (_ & Hm & Hd & E).
  set (e := (n + 719468) / 146097) in *. clearbody e. split_and!; [lia..| |].
  - unfold days_in in *. rewrite leap_era. lia.
  - unfold days_from_civil in *.
    replace (if m <=? 2 then y + e * 400 - 1 else y + e * 400) with ((if m <=? 2 then y - 1 else y) + e * 400) by (destruct (m <=? 2); lia).
    rewrite Z.mod_add, Z.div_add by lia. lia.
Qed.

(** ** Round trip *)
Lemma pad_2 n : 0 <= n < 100 -> exists a b, pad 2 n = String (digit a) (String (digit b) "") /\ 0 <= a < 10 /\ 0 <= b < 10 /\ n = a * 10 + b.
Proof.
  intros Hn. exists ((n / 10 ^ Z.of_nat 1) mod 10), ((n / 10 ^ Z.of_nat 0) mod 10). split; [done|].
  split_and!; try apply mod_10. change (10 ^ Z.of_nat 1) with 10. change (10 ^ Z.of_nat 0) with 1. Z.to_euclidean_division_equations; lia.
Qed.
Lemma pad_4 n : 0 <= n < 10000 -> exists a b c d, pad 4 n = String (digit a) (String (digit b) (String (digit c) (String (digit d) "")))
  /\ 0 <= a < 10 /\ 0 <= b < 10 /\ 0 <= c < 10 /\ 0 <= d < 10 /\ n = ((a * 10 + b) * 10 + c) * 10 + d.
Proof.
  intros Hn. exists ((n / 10 ^ Z.of_nat 3) mod 10), ((n / 10 ^ Z.of_nat 2) mod 10), ((n / 10 ^ Z.of_nat 1) mod 10), ((n / 10 ^ Z.of_nat 0) mod 10).
  split; [done|]. change (10 ^ Z.of_nat 3) with 1000. change (10 ^ Z.of_nat 2) with 100. change (10 ^ Z.of_nat 1) with 10. change (10 ^ Z.of_nat 0) with 1.
  split_and!; Z.to_euclidean_division_equations; lia.
Qed.
Definition stamp (y m d h mi s : Z) (z : string) : string :=
  pad 4 y +:+ "-" +:+ pad 2 m +:+ "-" +:+ pad 2 d +:+ "T" +:+ pad 2 h +:+ ":" +:+ pad 2 mi +:+ ":" +:+ pad 2 s +:+ z.
Ltac field_at := unfold number_at; cbn [String.substring]; rewrite !parse_digits_digit by done; cbn [parse_digits from_option]; unfold id; lia.
Lemma stamp_fields y m d h mi s z : 0 <= y < 10000 -> 0 <= m < 100 -> 0 <= d < 100 -> 0 <= h < 100 -> 0 <= mi < 100 -> 0 <= s < 100 ->
  let t := stamp y m d h mi s z in
  two_digit_hour t = t /\ match_classes date_time t = Some z
  /\ number_at t 0 4 = y /\ number_at t 5 2 = m /\ number_at t 8 2 = d /\ number_at t 11 2 = h /\ number_at t 14 2 = mi /\ number_at t 17 2 = s.
Proof.
  intros (y1 & y2 & y3 & y4 & Ey & ? & ? & ? & ? & ->)%pad_4 (m1 & m2 & Em & ? & ? & ->)%pad_2 (d1 & d2 & Ed & ? & ? & ->)%pad_2.
  intros (h1 & h2 & Eh & ? & ? & ->)%pad_2 (i1 & i2 & Ei & ? & ? & ->)%pad_2 (s1 & s2 & Es & ? & ? & ->)%pad_2. cbv zeta.
  unfold stamp. rewrite Ey, Em, Ed, Eh, Ei, Es. cbv [String.append].
  split_and!.
  - unfold two_digit_hour. cbn [String.substring]. destruct (String.eqb_spec (String (digit h2) "") ":") as [e|]; [|done].
    apply (f_equal (fun s => match s with String c _ => is_digit c | EmptyString => false end)) in e.
    by rewrite (proj1 (digit_char h2 ltac:(done))) in e.
  - cbn [match_classes date_time digits List.repeat app]. by rewrite !(fun n H => proj1 (digit_char n H)) by done.
  - field_at.
  - field_at.
  - field_at.
  - field_at.
  - field_at.
  - destruct z; field_at.
Qed.
Lemma timestamp_instant t : printable t = true -> time_instant (timestamp t) = Some t.
Proof.
  unfold printable, timestamp. pose proof (civil_from_days_spec (t / 10 ^ 9 / 86400)) as Hc.
  destruct (civil_from_days _) as [[y m] d]. destruct Hc as (Hm & Hd & Hday). intros [Hy1 Hy2]%andb_prop. apply Z.leb_le in Hy1, Hy2.
  set (r := t / 10 ^ 9 mod 86400). assert (0 <= r < 86400) as Hr by (apply Z.mod_pos_bound; lia).
  assert (days_in m y <= 31) as Hdays by (unfold days_in; destruct (m =? 2); [destruct (leap y); lia|destruct (existsb _ _); lia]).
  unfold year_text. rewrite Z.abs_eq by lia. rewrite (proj2 (Z.ltb_ge y 0)), (proj2 (Z.ltb_lt y 10000)) by lia.
  destruct (fraction_text_spec (t mod 10 ^ 9)) as [Hz Hns]; [apply Z.mod_pos_bound; lia|].
  set (z := fraction_text (t mod 10 ^ 9) +:+ "Z") in *.
  assert (0 <= r / 3600 < 24 /\ 0 <= r / 60 mod 60 < 60 /\ 0 <= r mod 60 < 60 /\ r / 3600 * 3600 + r / 60 mod 60 * 60 + r mod 60 = r)
    as (Hh & Hmi & Hs & Hsum) by (Z.to_euclidean_division_equations; lia).
  destruct (stamp_fields y m d (r / 3600) (r / 60 mod 60) (r mod 60) z) as (E2 & Em & F1 & F2 & F3 & F4 & F5 & F6); [lia..|].
  change ("" +:+ pad 4 y) with (pad 4 y). fold (stamp y m d (r / 3600) (r / 60 mod 60) (r mod 60) z).
  set (s := stamp _ _ _ _ _ _ _) in *. unfold time_instant, time_parse. rewrite E2, Em, Hz. unfold calendar, seconds_of.
  rewrite F1, F2, F3, F4, F5, F6, Hday.
  replace ((1 <=? m) && (m <=? 12) && (1 <=? d) && (d <=? days_in m y) && (r / 3600 <=? 23) && (r / 60 mod 60 <=? 59) && (r mod 60 <=? 59)) with true
    by (symmetry; rewrite !andb_true_iff, !Z.leb_le; lia).
  change (zone_offset "Z") with true. cbn [andb mbind option_bind]. rewrite Hz, Hns. change (offset_seconds "Z") with 0.
  f_equal. subst r. pose proof (Z.div_mod (t / 10 ^ 9) 86400 ltac:(lia)). pose proof (Z.div_mod t (10 ^ 9) ltac:(lia)). lia.
Qed.
