(* ===== verification/Store.v ===== *)
(** * The durable store, [runtime/schema.go] and [runtime/sql.go]
    One list of rows per table, in rowid order.  The statements the node
    executes are functions [Db -> option Db]: [None] is a violated constraint
    (primary key, UNIQUE, CHECK, REFERENCES, partial unique index), and the
    triggers of the schema run inside the statement that fires them.  A blob
    column that holds JSON holds the [json] value whose bytes it is. *)
From stdpp Require Import base tactics list strings gmap pretty.
From Stdlib Require Import ZArith Lia Ascii String.
From S2P Require Import Prelude Json.
Open Scope string_scope.
Open Scope list_scope.
Open Scope Z_scope.
Open Scope harness_scope.

(** ** Rows *)
Record durableState := mkState {
  NodeID : string; OwnerID : string; RegistryVersion : Z; Epoch : Z; StateVersion : Z; LastEventSeq : Z;
  QueueVersion : Z; QueuePaused : bool; TransportAvailability : string; EngineReadiness : string; Occupancy : string;
  ActiveAttemptID : option string; PendingCount : Z; BlockedReasons : list string;
  NextQueueSequence : Z; NextMessageSequence : Z }.
#[export] Instance durableState_eta : Eta durableState := fun r =>
  mkState (NodeID r) (OwnerID r) (RegistryVersion r) (Epoch r) (StateVersion r) (LastEventSeq r) (QueueVersion r)
    (QueuePaused r) (TransportAvailability r) (EngineReadiness r) (Occupancy r) (ActiveAttemptID r) (PendingCount r)
    (BlockedReasons r) (NextQueueSequence r) (NextMessageSequence r).

Record dialog_row := mkDialog {
  dlg_id : string; dlg_node : string; dlg_owner : string; dlg_version : Z; dlg_title : option string; dlg_created : string }.
#[export] Instance dialog_eta : Eta dialog_row := fun r =>
  mkDialog (dlg_id r) (dlg_node r) (dlg_owner r) (dlg_version r) (dlg_title r) (dlg_created r).

Record message_row := mkMessage {
  msg_id : string; msg_dialog : string; msg_sequence : Z; msg_version : Z; msg_role : string; msg_text : option string;
  msg_content : option json; msg_disposition : option string; msg_command : option string; msg_request : option string;
  msg_attempt : option string; msg_finish : option string; msg_created : string }.
#[export] Instance message_eta : Eta message_row := fun r =>
  mkMessage (msg_id r) (msg_dialog r) (msg_sequence r) (msg_version r) (msg_role r) (msg_text r) (msg_content r)
    (msg_disposition r) (msg_command r) (msg_request r) (msg_attempt r) (msg_finish r) (msg_created r).

Record request_row := mkRequest {
  req_id : string; req_dialog : string; req_message : string; req_sequence : Z; req_version : Z; req_status : string;
  req_created : string; req_updated : string }.
#[export] Instance request_eta : Eta request_row := fun r =>
  mkRequest (req_id r) (req_dialog r) (req_message r) (req_sequence r) (req_version r) (req_status r) (req_created r)
    (req_updated r).

Record attempt_row := mkAttempt {
  att_id : string; att_node : string; att_dialog : string; att_request : string; att_generation : Z; att_version : Z;
  att_state : string; att_effect : string; att_boundary : option string; att_policy : option string;
  att_started : option string; att_finished : option string; att_output : Z }.
#[export] Instance attempt_eta : Eta attempt_row := fun r =>
  mkAttempt (att_id r) (att_node r) (att_dialog r) (att_request r) (att_generation r) (att_version r) (att_state r)
    (att_effect r) (att_boundary r) (att_policy r) (att_started r) (att_finished r) (att_output r).

Record command_row := mkCommandRow {
  cmd_id : string; cmd_actor : string; cmd_node : string; cmd_kind : string; cmd_canonical : json; cmd_hash : string;
  cmd_receipt : json; cmd_accepted : string; cmd_event_seq : Z }.

Record action_row := mkAction {
  act_id : string; act_kind : string; act_attempt : string; act_message : option string; act_actor : option string;
  act_payload : json; act_status : string }.
#[export] Instance action_eta : Eta action_row := fun r =>
  mkAction (act_id r) (act_kind r) (act_attempt r) (act_message r) (act_actor r) (act_payload r) (act_status r).

Record event_row := mkEvent {
  evt_node : string; evt_seq : Z; evt_epoch : Z; evt_json : json; evt_attempt : option string; evt_dialog : option string;
  evt_key : option string; evt_hash : option string; evt_late : bool; evt_created : string }.
#[export] Instance event_eta : Eta event_row := fun r =>
  mkEvent (evt_node r) (evt_seq r) (evt_epoch r) (evt_json r) (evt_attempt r) (evt_dialog r) (evt_key r) (evt_hash r)
    (evt_late r) (evt_created r).

Record tool_row := mkTool {
  tool_id : string; tool_attempt : string; tool_hash : string; tool_version : Z; tool_status : string; tool_input : json;
  tool_result : option json; tool_effect_ref : option string }.
#[export] Instance tool_eta : Eta tool_row := fun r =>
  mkTool (tool_id r) (tool_attempt r) (tool_hash r) (tool_version r) (tool_status r) (tool_input r) (tool_result r)
    (tool_effect_ref r).

Record approval_row := mkApproval {
  apr_id : string; apr_attempt : string; apr_call : string; apr_hash : string; apr_version : Z; apr_status : string;
  apr_decision : option string; apr_actor : option string }.
#[export] Instance approval_eta : Eta approval_row := fun r =>
  mkApproval (apr_id r) (apr_attempt r) (apr_call r) (apr_hash r) (apr_version r) (apr_status r) (apr_decision r) (apr_actor r).

Record input_row := mkInput {
  inp_id : string; inp_attempt : string; inp_version : Z; inp_status : string; inp_prompt : json; inp_response : option string }.
#[export] Instance input_eta : Eta input_row := fun r =>
  mkInput (inp_id r) (inp_attempt r) (inp_version r) (inp_status r) (inp_prompt r) (inp_response r).

Record artifact_row := mkArtifact {
  art_id : string; art_dialog : string; art_attempt : string; art_call : option string; art_name : string;
  art_media : string; art_size : Z; art_sha256 : string; art_redaction : string; art_truncated : bool;
  art_disposition : string; art_path : string }.

#[export] Instance artifact_eta : Eta artifact_row := fun r =>
  mkArtifact (art_id r) (art_dialog r) (art_attempt r) (art_call r) (art_name r) (art_media r) (art_size r) (art_sha256 r)
    (art_redaction r) (art_truncated r) (art_disposition r) (art_path r).

Record late_row := mkLate {
  late_attempt : string; late_generation : Z; late_kind : string; late_json : json; late_event_seq : Z;
  late_observed : string; late_key : option string; late_hash : option string; late_output : Z }.

Record policy_row := mkPolicyRow {
  pol_effective : string; pol_revision : string; pol_content : string; pol_content_hash : string;
  pol_tools : string; pol_tools_hash : string; pol_approval : string }.

Record hold_row := mkHold {
  hold_operation : string; hold_node : string; hold_epoch : Z; hold_binding : Z; hold_scope : string;
  hold_dialog : option string; hold_version : Z; hold_revision : Z; hold_canonical : json; hold_hash : string;
  hold_receipt : json; hold_installed : string }.

Record outcome_row := mkOutcome {
  out_operation : string; out_action : string; out_canonical : json; out_hash : string; out_receipt : json;
  out_revision : Z; out_released : string }.

Record rejection_row := mkRejection {
  rej_id : string; rej_actor : string; rej_node : string; rej_kind : string; rej_canonical : json; rej_hash : string;
  rej_receipt : json; rej_status : Z; rej_at : string; rej_hold : string }.

Record scope_revision := mkScopeRevision { hsr_key : string; hsr_revision : Z }.
#[export] Instance scope_revision_eta : Eta scope_revision := fun r => mkScopeRevision (hsr_key r) (hsr_revision r).

Record quiescence_row := mkQuiescence { qsr_key : string; qsr_state : Z; qsr_queue : Z }.

Record logical_delete_row := mkLogicalDelete {
  ldr_operation : string; ldr_request_hash : string; ldr_coordinator_hash : string; ldr_command : string;
  ldr_logical_dialog : string; ldr_node_dialog : string; ldr_binding : Z; ldr_hold_version : Z; ldr_hold_revision : Z;
  ldr_receipt : json; ldr_deleted : string }.

(** [history_replica_streams]: the columns of the identity, the five coverage
    hashes and the rest; [history_replica_records]: the sealed records. *)
Record replica_stream_row := mkReplicaStream {
  rst_id : string; rst_owner : string; rst_logical : string; rst_node : string; rst_dialog : string; rst_binding : Z;
  rst_next : Z; rst_version : Z; rst_queue : Z; rst_complete : bool; rst_reason : option string; rst_hashes : list string;
  rst_captured : string }.
#[export] Instance replica_stream_eta : Eta replica_stream_row := fun r =>
  mkReplicaStream (rst_id r) (rst_owner r) (rst_logical r) (rst_node r) (rst_dialog r) (rst_binding r) (rst_next r) (rst_version r)
    (rst_queue r) (rst_complete r) (rst_reason r) (rst_hashes r) (rst_captured r).
Record replica_record_row := mkReplicaRow {
  rrr_stream : string; rrr_seq : Z; rrr_record : string; rrr_type : string; rrr_entity : string; rrr_revision : Z;
  rrr_json : json; rrr_hash : string; rrr_prev : string; rrr_chain : string; rrr_created : string }.

Record Db := mkDb {
  node_state : durableState;
  dialogs : list dialog_row; messages : list message_row; requests : list request_row; attempts : list attempt_row;
  commands : list command_row; control_actions : list action_row; events : list event_row; tool_calls : list tool_row;
  approvals : list approval_row; input_requests : list input_row; artifacts : list artifact_row;
  late_observations : list late_row; policy_snapshots : list policy_row;
  hold_clock : Z; hold_scope_revisions : list scope_revision; administrative_holds : list hold_row;
  administrative_hold_outcomes : list outcome_row; command_rejections : list rejection_row;
  quiescence_scope_revisions : list quiescence_row; logical_delete_receipts : list logical_delete_row;
  replica_streams : list replica_stream_row; replica_records : list replica_record_row }.
#[export] Instance db_eta : Eta Db := fun r =>
  mkDb (node_state r) (dialogs r) (messages r) (requests r) (attempts r) (commands r) (control_actions r) (events r)
    (tool_calls r) (approvals r) (input_requests r) (artifacts r) (late_observations r) (policy_snapshots r)
    (hold_clock r) (hold_scope_revisions r) (administrative_holds r) (administrative_hold_outcomes r)
    (command_rejections r) (quiescence_scope_revisions r) (logical_delete_receipts r)
    (replica_streams r) (replica_records r).

(** ** Column predicates *)
Definition in_set (s : string) (set : list string) : bool := existsb (String.eqb s) set.
Definition is_text (o : option string) (s : string) : bool :=
  match o with Some t => t =s s | None => false end.

Definition activeStates : list string := ["dispatching"; "running"; "waiting_input"; "stopping"; "unknown"].
Definition active_attempt (a : attempt_row) : bool := in_set (att_state a) activeStates.

(** The partial unique index [one_active_attempt]. *)
Definition one_active_attempt (rows : list attempt_row) : bool :=
  forallb (fun a => negb (active_attempt a)
                    || (count_where (fun b => active_attempt b && (att_node b =s att_node a)) rows <=? 1)) rows.

(** ** Triggers: the quiescence scope revisions *)
Definition dialog_key (dialog : string) : string := "dialog:" +:+ dialog.

Definition bump_scopes (selected : string -> bool) (state queue : Z) (rows : list quiescence_row) : list quiescence_row :=
  List.map (fun r => if selected (qsr_key r)
                     then mkQuiescence (qsr_key r) (qsr_state r + state) (qsr_queue r + queue) else r) rows.

Definition quiescence_in_range (r : quiescence_row) : bool :=
  (1 <=? qsr_state r) && (qsr_state r <=? MaximumSafeInteger) && (1 <=? qsr_queue r) && (qsr_queue r <=? MaximumSafeInteger).

Definition fire (selected : string -> bool) (state queue : Z) (db : Db) : option Db :=
  let rows := bump_scopes selected state queue (quiescence_scope_revisions db) in
  if forallb quiescence_in_range rows then Some (db <| quiescence_scope_revisions := rows |>) else None.

Definition node_or_dialog (dialog : option string) (key : string) : bool :=
  (key =s "node") || match dialog with Some d => key =s dialog_key d | None => false end.

Definition guard (ok : bool) (db : Db) : option Db := if ok then Some db else None.

Definition attempt_dialog (db : Db) (attempt : string) : option string :=
  att_dialog <$> select1 (fun a => att_id a =s attempt) (attempts db).

(** ** Statements *)
Definition dialog_exists (db : Db) (id : string) : bool := exists_where (fun d => dlg_id d =s id) (dialogs db).
Definition attempt_exists (db : Db) (id : string) : bool := exists_where (fun a => att_id a =s id) (attempts db).
Definition request_exists (db : Db) (id : string) : bool := exists_where (fun r => req_id r =s id) (requests db).
Definition message_exists (db : Db) (id : string) : bool := exists_where (fun m => msg_id m =s id) (messages db).

Definition insert_dialog (row : dialog_row) (db : Db) : option Db :=
  let key := dialog_key (dlg_id row) in
  _ ← guard (negb (dialog_exists db (dlg_id row))) db;
  _ ← guard (negb (exists_where (fun q => qsr_key q =s key) (quiescence_scope_revisions db))) db;
  let db := db <| dialogs ::= fun l => l ++ [row] |>
               <| quiescence_scope_revisions ::= fun l => l ++ [mkQuiescence key 1 1] |> in
  fire (fun k => k =s "node") 1 0 db.

Definition update_dialog (id : string) (f : dialog_row -> dialog_row) (db : Db) : option Db :=
  Some (db <| dialogs ::= update_where (fun d => dlg_id d =s id) f |>).

Definition insert_message (row : message_row) (db : Db) : option Db :=
  guard (negb (message_exists db (msg_id row)) && dialog_exists db (msg_dialog row)
         && in_set (msg_role row) ["user"; "assistant"]
         && negb (exists_where (fun m => (msg_dialog m =s msg_dialog row) && (msg_sequence m =? msg_sequence row)) (messages db)))
    (db <| messages ::= fun l => l ++ [row] |>).

Definition update_message (id : string) (f : message_row -> message_row) (db : Db) : option Db :=
  Some (db <| messages ::= update_where (fun m => msg_id m =s id) f |>).

Definition insert_request (row : request_row) (db : Db) : option Db :=
  _ ← guard (negb (request_exists db (req_id row)) && dialog_exists db (req_dialog row)
             && message_exists db (req_message row)
             && negb (exists_where (fun r => req_sequence r =? req_sequence row) (requests db))) db;
  fire (node_or_dialog (Some (req_dialog row))) 1 1 (db <| requests ::= fun l => l ++ [row] |>).

(** Every update of the code bumps the version, so the trigger's WHEN holds. *)
Definition update_request (id : string) (f : request_row -> request_row) (db : Db) : option Db :=
  match select1 (fun r => req_id r =s id) (requests db) with
  | None => Some db
  | Some r =>
      fire (node_or_dialog (Some (req_dialog r))) 1 1
        (db <| requests ::= update_where (fun r => req_id r =s id) f |>)
  end.

Definition insert_attempt (row : attempt_row) (db : Db) : option Db :=
  let rows := attempts db ++ [row] in
  _ ← guard (negb (attempt_exists db (att_id row)) && dialog_exists db (att_dialog row)
             && request_exists db (att_request row)
             && negb (exists_where (fun a => (att_request a =s att_request row) && (att_generation a =? att_generation row)) (attempts db))
             && one_active_attempt rows && (0 <=? att_output row)) db;
  fire (node_or_dialog (Some (att_dialog row))) 1 0 (db <| attempts := rows |>).

Definition update_attempt (id : string) (f : attempt_row -> attempt_row) (db : Db) : option Db :=
  match select1 (fun a => att_id a =s id) (attempts db) with
  | None => Some db
  | Some a =>
      let rows := update_where (fun a => att_id a =s id) f (attempts db) in
      _ ← guard (one_active_attempt rows && forallb (fun a => 0 <=? att_output a) rows) db;
      fire (node_or_dialog (Some (att_dialog a))) 1 0 (db <| attempts := rows |>)
  end.

(** [UPDATE attempts SET output_bytes=? WHERE attempt_id=? AND output_bytes=?]
    with its number of affected rows. *)
Definition charge_attempt (id : string) (expected next : Z) (db : Db) : option (Z * Db) :=
  if exists_where (fun a => (att_id a =s id) && (att_output a =? expected)) (attempts db)
  then db' ← update_attempt id (fun a => if att_output a =? expected then a <| att_output := next |> else a) db; Some (1, db')
  else Some (0, db).

Definition insert_command (row : command_row) (db : Db) : option Db :=
  guard (negb (exists_where (fun c => cmd_id c =s cmd_id row) (commands db)))
    (db <| commands ::= fun l => l ++ [row] |>).

Definition actionStatuses : list string := ["pending"; "inflight"; "acknowledged"; "rejected"; "unknown"].

Definition insert_action (row : action_row) (db : Db) : option Db :=
  _ ← guard (negb (exists_where (fun c => act_id c =s act_id row) (control_actions db))
             && in_set (act_status row) actionStatuses) db;
  fire (node_or_dialog (attempt_dialog db (act_attempt row))) 1 0 (db <| control_actions ::= fun l => l ++ [row] |>).

(** [UPDATE control_actions SET status=? WHERE ..]: the trigger fires for every row. *)
Fixpoint fire_each (dialogs : list (option string)) (db : Db) : option Db :=
  match dialogs with
  | [] => Some db
  | d :: rest => db' ← fire (node_or_dialog d) 1 0 db; fire_each rest db'
  end.

Definition update_actions (p : action_row -> bool) (status : string) (db : Db) : option Db :=
  _ ← guard (in_set status actionStatuses) db;
  fire_each (List.map (fun c => attempt_dialog db (act_attempt c)) (List.filter p (control_actions db)))
    (db <| control_actions ::= update_where p (fun c => c <| act_status := status |>) |>).

Definition insert_event (row : event_row) (db : Db) : option Db :=
  _ ← guard (negb (exists_where (fun e => (evt_node e =s evt_node row) && (evt_seq e =? evt_seq row)) (events db))) db;
  fire (node_or_dialog (evt_dialog row)) 1 0 (db <| events ::= fun l => l ++ [row] |>).

Definition event_projects (attempt key : string) (e : event_row) : bool :=
  is_text (evt_attempt e) attempt && is_text (evt_key e) key.

(** [UPDATE events SET projection_key=?,projection_hash=? WHERE .. AND projection_key IS NULL]
    with its number of affected rows; [one_event_projection] is the unique index. *)
Definition bind_projection (p : event_row -> bool) (key : string) (hash : option string) (db : Db) : option (Z * Db) :=
  let target e := p e && match evt_key e with None => true | Some _ => false end in
  let rows := update_where target (fun e => e <| evt_key := Some key |> <| evt_hash := hash |>) (events db) in
  let clash e := match evt_attempt e, evt_key e with
                 | Some a, Some k => 1 <? count_where (event_projects a k) rows
                 | _, _ => false
                 end in
  if exists_where clash rows then None
  else Some (count_where target (events db), db <| events := rows |>).

Definition insert_tool (row : tool_row) (db : Db) : option Db :=
  _ ← guard (negb (exists_where (fun t => tool_id t =s tool_id row) (tool_calls db)) && attempt_exists db (tool_attempt row)) db;
  fire (node_or_dialog (attempt_dialog db (tool_attempt row))) 1 0 (db <| tool_calls ::= fun l => l ++ [row] |>).

Definition update_tool (id : string) (f : tool_row -> tool_row) (db : Db) : option Db :=
  match select1 (fun t => tool_id t =s id) (tool_calls db) with
  | None => Some db
  | Some t => fire (node_or_dialog (attempt_dialog db (tool_attempt t))) 1 0
                (db <| tool_calls ::= update_where (fun t => tool_id t =s id) f |>)
  end.

Definition insert_approval (row : approval_row) (db : Db) : option Db :=
  _ ← guard (negb (exists_where (fun p => apr_id p =s apr_id row) (approvals db)) && attempt_exists db (apr_attempt row)) db;
  fire (node_or_dialog (attempt_dialog db (apr_attempt row))) 1 0 (db <| approvals ::= fun l => l ++ [row] |>).

Definition update_approval (p : approval_row -> bool) (f : approval_row -> approval_row) (db : Db) : option Db :=
  match select1 p (approvals db) with
  | None => Some db
  | Some a => fire (node_or_dialog (attempt_dialog db (apr_attempt a))) 1 0 (db <| approvals ::= update_where p f |>)
  end.

Definition insert_input (row : input_row) (db : Db) : option Db :=
  _ ← guard (negb (exists_where (fun i => inp_id i =s inp_id row) (input_requests db)) && attempt_exists db (inp_attempt row)) db;
  fire (node_or_dialog (attempt_dialog db (inp_attempt row))) 1 0 (db <| input_requests ::= fun l => l ++ [row] |>).

Definition update_input (p : input_row -> bool) (f : input_row -> input_row) (db : Db) : option Db :=
  match select1 p (input_requests db) with
  | None => Some db
  | Some i => fire (node_or_dialog (attempt_dialog db (inp_attempt i))) 1 0 (db <| input_requests ::= update_where p f |>)
  end.

Definition insert_artifact (row : artifact_row) (db : Db) : option Db :=
  guard (negb (exists_where (fun a => (art_id a =s art_id row) || (art_path a =s art_path row)) (artifacts db))
         && dialog_exists db (art_dialog row) && attempt_exists db (art_attempt row))
    (db <| artifacts ::= fun l => l ++ [row] |>).

(** [UPDATE artifacts SET ..] with its number of affected rows. *)
Definition update_artifacts (p : artifact_row -> bool) (f : artifact_row -> artifact_row) (db : Db) : option (Z * Db) :=
  Some (count_where p (artifacts db), db <| artifacts ::= update_where p f |>).

Definition insert_late (row : late_row) (db : Db) : option Db :=
  guard (match late_key row with
         | Some key => negb (exists_where (fun l => (late_attempt l =s late_attempt row) && is_text (late_key l) key) (late_observations db))
         | None => true
         end && (0 <=? late_output row))
    (db <| late_observations ::= fun l => l ++ [row] |>).

(** [ON CONFLICT(effective_hash) DO NOTHING] *)
Definition insert_policy (row : policy_row) (db : Db) : option Db :=
  if exists_where (fun p => pol_effective p =s pol_effective row) (policy_snapshots db) then Some db
  else Some (db <| policy_snapshots ::= fun l => l ++ [row] |>).

Definition advance_hold_clock (expected : Z) (db : Db) : option Db :=
  Some (if hold_clock db =? expected then db <| hold_clock ::= Z.succ |> else db).

(** [INSERT .. ON CONFLICT(scope_key) DO UPDATE SET revision=excluded.revision] *)
Definition upsert (key : string) (revision : Z) (rows : list scope_revision) : list scope_revision :=
  if exists_where (fun r => hsr_key r =s key) rows
  then update_where (fun r => hsr_key r =s key) (fun r => mkScopeRevision (hsr_key r) revision) rows
  else rows ++ [mkScopeRevision key revision].
Definition upsert_scope_revision (key : string) (revision : Z) (db : Db) : option Db :=
  guard (0 <? revision) (db <| hold_scope_revisions ::= upsert key revision |>).

(** [UPDATE hold_scope_revisions SET revision=? WHERE scope_key=? AND revision=?] *)
Definition update_scope_revision (key : string) (expected revision : Z) (db : Db) : option Db :=
  Some (db <| hold_scope_revisions ::=
    update_where (fun r => (hsr_key r =s key) && (hsr_revision r =? expected)) (fun r => r <| hsr_revision := revision |>) |>).

Definition scope_shape (row : hold_row) : bool :=
  match hold_dialog row with
  | None => hold_scope row =s "node"
  | Some _ => hold_scope row =s "dialog"
  end.

Definition insert_hold (row : hold_row) (db : Db) : option Db :=
  _ ← guard (negb (exists_where (fun h => hold_operation h =s hold_operation row) (administrative_holds db))
             && match hold_dialog row with Some d => dialog_exists db d | None => true end
             && negb (exists_where (fun h => hold_version h =? hold_version row) (administrative_holds db))
             && scope_shape row) db;
  fire (node_or_dialog (hold_dialog row)) 1 0 (db <| administrative_holds ::= fun l => l ++ [row] |>).

Definition hold_named (operation : string) (h : hold_row) : bool := hold_operation h =s operation.

Definition insert_outcome (row : outcome_row) (db : Db) : option Db :=
  match select1 (hold_named (out_operation row)) (administrative_holds db) with
  | None => None
  | Some h =>
      _ ← guard (negb (exists_where (fun o => out_operation o =s out_operation row) (administrative_hold_outcomes db))
                 && in_set (out_action row) ["release"; "cancel"]
                 && (1 <=? out_revision row) && (out_revision row <=? MaximumSafeInteger)) db;
      fire (node_or_dialog (hold_dialog h)) 1 0 (db <| administrative_hold_outcomes ::= fun l => l ++ [row] |>)
  end.

Definition insert_rejection (row : rejection_row) (db : Db) : option Db :=
  guard (negb (exists_where (fun r => rej_id r =s rej_id row) (command_rejections db)) && (rej_status row =? 409)
         && exists_where (hold_named (rej_hold row)) (administrative_holds db))
    (db <| command_rejections ::= fun l => l ++ [row] |>).

Definition insert_logical_delete (row : logical_delete_row) (db : Db) : option Db :=
  guard (negb (exists_where (fun r => (ldr_operation r =s ldr_operation row) || (ldr_command r =s ldr_command row)) (logical_delete_receipts db))
         && (0 <? ldr_binding row) && (0 <? ldr_hold_version row) && (0 <? ldr_hold_revision row))
    (db <| logical_delete_receipts ::= fun l => l ++ [row] |>).

(** [saveState]: the identity columns are not written; the two triggers of
    [node_state] advance every scope. *)
Definition store_state (s : durableState) (db : Db) : option Db :=
  let old := node_state db in
  let new := s <| NodeID := NodeID old |> <| OwnerID := OwnerID old |> <| RegistryVersion := RegistryVersion old |> in
  let db := db <| node_state := new |> in
  db ← (if Epoch old =? Epoch new then Some db else fire (fun _ => true) 1 0 db);
  if Bool.eqb (QueuePaused old) (QueuePaused new) then Some db else fire (fun _ => true) 1 1 db.

(** ** Queries shared by the components *)
(** A hold without outcome is active. *)
Definition hold_active (db : Db) (h : hold_row) : bool :=
  negb (exists_where (fun o => out_operation o =s hold_operation h) (administrative_hold_outcomes db)).

(** [EXISTS(SELECT 1 FROM events .. projection_key='dialog.deleted')] *)
Definition dialog_deleted (db : Db) (dialog : string) : bool :=
  exists_where (fun e => is_text (evt_dialog e) dialog && is_text (evt_key e) "dialog.deleted") (events db).

(** A hold that covers work of [dialog] on [node]. *)
Definition hold_covers (db : Db) (node dialog : string) (h : hold_row) : bool :=
  (hold_node h =s node) && hold_active db h
  && ((hold_scope h =s "node") || ((hold_scope h =s "dialog") && is_text (hold_dialog h) dialog)).

Definition covered (db : Db) (node dialog : string) : bool :=
  exists_where (hold_covers db node dialog) (administrative_holds db).

Definition payload_effect_status (e : event_row) : option string :=
  match (p ← field "payload" (evt_json e); field "effectStatus" p) with
  | Some (JStr s) => Some s
  | _ => None
  end.

Definition is_tool_completion (e : event_row) : bool :=
  match evt_key e with Some k => String.prefix "tool.completed:" k | None => false end.

(** [INSERT INTO history_replica_streams(..) .. ON CONFLICT(stream_id) DO NOTHING] *)
Definition replica_identity (s : replica_stream_row) : string * string * string * string * Z :=
  (rst_owner s, rst_logical s, rst_node s, rst_dialog s, rst_binding s).
Definition replica_stream_checks (s : replica_stream_row) : bool :=
  (0 <? rst_binding s) && (0 <? rst_next s) && (0 <? rst_version s) && (0 <? rst_queue s)
  && Bool.eqb (rst_complete s) (match rst_reason s with None => true | Some _ => false end).
Definition insert_replica_stream (row : replica_stream_row) (db : Db) : option Db :=
  _ ← guard (replica_stream_checks row) db;
  if exists_where (fun s => rst_id s =s rst_id row) (replica_streams db) then Some db else
  guard (negb (exists_where (fun s => bool_decide (replica_identity s = replica_identity row)) (replica_streams db)))
    (db <| replica_streams ::= fun l => l ++ [row] |>).

Definition replica_types : list string :=
  ["entry"; "execution_fact"; "receipt_revision"; "text_manifest"; "text_chunk"; "asset_manifest"].
Definition insert_replica_record (row : replica_record_row) (db : Db) : option Db :=
  guard ((0 <? rrr_seq row) && in_set (rrr_type row) replica_types && (0 <? rrr_revision row)
         && exists_where (fun s => rst_id s =s rrr_stream row) (replica_streams db)
         && negb (exists_where (fun r => (rrr_stream r =s rrr_stream row)
                                         && ((rrr_seq r =? rrr_seq row) || (rrr_record r =s rrr_record row))) (replica_records db)))
    (db <| replica_records ::= fun l => l ++ [row] |>).

(** [UPDATE history_replica_streams SET next_seq=next_seq+1 WHERE stream_id=? AND next_seq=?] *)
Definition advance_replica_stream (id : string) (next : Z) (db : Db) : option (Z * Db) :=
  let p s := (rst_id s =s id) && (rst_next s =? next) in
  Some (count_where p (replica_streams db), db <| replica_streams ::= update_where p (fun s => s <| rst_next ::= Z.succ |>) |>).
(** [UPDATE history_replica_streams SET dialog_version=?,..,captured_at=? WHERE stream_id=?] *)
Definition update_replica_stream (id : string) (version queue : Z) (complete : bool) (reason : option string) (hashes : list string)
    (captured : string) (db : Db) : option Db :=
  let f s := s <| rst_version := version |> <| rst_queue := queue |> <| rst_complete := complete |> <| rst_reason := reason |>
               <| rst_hashes := hashes |> <| rst_captured := captured |> in
  let rows := update_where (fun s => rst_id s =s id) f (replica_streams db) in
  guard (forallb replica_stream_checks rows) (db <| replica_streams := rows |>).
