(* ===== verification/Tx.v ===== *)
(** * Transactions and the node monad
    The handlers of package [runtime] run with [node.mu] held: each opens one
    SQLite transaction, mutates a local [durableState], and either commits or
    returns with the transaction rolled back.  [Core] is the state such a
    handler works on: the committed database, the transaction's view of it,
    the local [durableState] and the node's volatile fields.  [Env] is what the
    handler cannot choose: configuration, identities, clock readings, free
    space, and which database or file operations fail.  [wp] is the weakest
    precondition of a run over every choice the environment has left. *)
From stdpp Require Import base tactics list strings gmap pretty.
From Stdlib Require Import ZArith Lia Ascii String.
From S2P Require Import Prelude Json Wire Store.
Open Scope string_scope.
Open Scope list_scope.
Open Scope Z_scope.
Open Scope harness_scope.

(** ** Results and errors *)
Record Result := mkResult { HTTPStatus : Z; Body : json; Committed : bool }.

Record commandFailure := mkFailure {
  failure_status : Z; failure_code : string; failure_message : string;
  failure_version : option Z; failure_state : string }.

(** [Return] is a [return] statement of the handler itself, the others are Go
    error values: a [*commandFailure], [sql.ErrNoRows], anything else. *)
Inductive err :=
  | Return (r : Result)
  | Failure (f : commandFailure)
  | NoRows
  | Broken (what : string).

Inductive FaultPoint :=
  | FaultBeforeCommit | FaultAfterCommit | FaultAfterDispatchIntent | FaultBeforeHoldCommit | FaultAfterHoldCommit
  | FaultBeforeRejectionCommit | FaultAfterRejectionCommit | FaultBeforeReleaseCommit | FaultAfterReleaseCommit
  | FaultBeforeLogicalDeleteCommit | FaultAfterLogicalDeleteCommit.

(** ** Environment *)
Record SpaceInfo := mkSpace { FreeBytes : Z; TotalBytes : Z }.

Record Env := mkEnv {
  cfg_node : string; cfg_owner : string; cfg_adapter_kind : string; cfg_adapter_version : string;
  env_id : nat -> option string;          (** the n-th [IDs.NewID()] *)
  env_now : nat -> string;                (** [timestamp(Clock())], n-th reading *)
  env_ok : nat -> bool;                   (** the n-th database or file operation succeeds *)
  env_space : nat -> option SpaceInfo;    (** the n-th space measurement *)
  env_fault : FaultPoint -> bool;         (** the fault injector refuses this point *)
  sha256_hex : string -> string }.        (** hex digest of the bytes *)

Inductive reserve_file := ReserveMissing | ReserveInvalid | ReserveAllocated.

(** Counters of the environment's choices. *)
Record Aux := mkAux { n_id : nat; n_now : nat; n_op : nat; n_space : nat }.

Record Core := mkCore {
  durable : Db; tx : Db; st : durableState;
  reserve : reserve_file; reserveReleased : bool;
  deletedDialogs : list string;  (** the node's in-memory set *)
  wakes : nat;                   (** notifications of the action loop *)
  files : list (string * string);  (** the artifact directory: file name and bytes *)
  created : list string;         (** files the open publication created *)
  retained : bool }.             (** whether its commit was attempted *)
#[export] Instance core_eta : Eta Core := fun r =>
  mkCore (durable r) (tx r) (st r) (reserve r) (reserveReleased r) (deletedDialogs r) (wakes r) (files r) (created r) (retained r).

(** ** The monad *)
Definition M (A : Type) : Type := Env -> Aux -> Core -> (err + A) * Aux * Core.

#[export] Instance M_ret : MRet M := fun A a env x c => (inr a, x, c).
#[export] Instance M_bind : MBind M := fun A B k m env x c =>
  match m env x c with
  | (inr a, x', c') => k a env x' c'
  | (inl e, x', c') => (inl e, x', c')
  end.

Definition fail {A} (e : err) : M A := fun env x c => (inl e, x, c).
Definition ask {A} (f : Env -> A) : M A := fun env x c => (inr (f env), x, c).
Definition get {A} (f : Core -> A) : M A := fun env x c => (inr (f c), x, c).
Definition modify (f : Core -> Core) : M unit := fun env x c => (inr tt, x, f c).

(** [if err := m; err != nil { h err }]: a [Return] passes through. *)
Definition catch {A} (m : M A) (h : err -> M A) : M A := fun env x c =>
  match m env x c with
  | (inl (Return r), x', c') => (inl (Return r), x', c')
  | (inl e, x', c') => h e env x' c'
  | ok => ok
  end.

(** One database or file operation. *)
Definition io : M unit := fun env x c =>
  let x' := mkAux (n_id x) (n_now x) (S (n_op x)) (n_space x) in
  if env_ok env (n_op x) then (inr tt, x', c) else (inl (Broken "operation failed"), x', c).

Definition newID : M string := fun env x c =>
  let x' := mkAux (S (n_id x)) (n_now x) (n_op x) (n_space x) in
  match env_id env (n_id x) with
  | Some id => (inr id, x', c)
  | None => (inl (Broken "identity source"), x', c)
  end.

Definition now : M string := fun env x c =>
  (inr (env_now env (n_now x)), mkAux (n_id x) (S (n_now x)) (n_op x) (n_space x), c).

Definition measure : M (option SpaceInfo) := fun env x c =>
  (inr (env_space env (n_space x)), mkAux (n_id x) (n_now x) (n_op x) (S (n_space x)), c).

(** ** Transactions *)
Definition begin : M unit := io ;; modify (fun c => c <| tx := durable c |>).
Definition commit : M unit := io ;; modify (fun c => c <| durable := tx c |>).

Definition query {A} (f : Db -> A) : M A := io ;; get (fun c => f (tx c)).
Definition query_row {A} (f : Db -> option A) : M A :=
  o ← query f; match o with Some a => mret a | None => fail NoRows end.
Definition exec_changed {A} (f : Db -> option (A * Db)) : M A :=
  io ;; db ← get tx;
  match f db with
  | Some (a, db') => modify (fun c => c <| tx := db' |>) ;; mret a
  | None => fail (Broken "constraint failed")
  end.
Definition exec (f : Db -> option Db) : M unit := exec_changed (fun db => db' ← f db; Some (tt, db')).

(** A statement outside a transaction sees the committed database, and an
    update commits by itself. *)
Definition autocommit {A} (m : M A) : M A :=
  modify (fun c => c <| tx := durable c |>) ;; a ← m; modify (fun c => c <| durable := tx c |>) ;; mret a.

Definition loadState : M unit := s ← query node_state; modify (fun c => c <| st := s |>).
Definition setst (f : durableState -> durableState) : M unit := modify (fun c => c <| st ::= f |>).
Definition saveState : M unit := s ← get st; exec (store_state s).

Definition checkFault (p : FaultPoint) : M unit :=
  refused ← ask (fun env => env_fault env p);
  if (refused : bool) then fail (Broken "fault injected") else mret tt.

Definition afterCommit : M unit := modify (fun c => c <| wakes ::= S |>).

(** ** Error results *)
Definition optional_member (key value : string) : list (string * json) :=
  if value =s "" then [] else [(key, JStr value)].

Definition error_body (code message correlation : string) (currentVersion : option Z) (currentState : string) : json :=
  JObj ([("protocolVersion", JInt ProtocolVersion); ("schemaId", JStr SchemaID); ("code", JStr code);
         ("safeMessage", JStr message); ("retryable", JBool (retryable_code code)); ("correlationId", JStr correlation)]
        ++ match currentVersion with Some v => [("currentVersion", JInt v)] | None => [] end
        ++ optional_member "currentState" currentState).

Definition errorResult (status : Z) (code message correlation : string) (currentVersion : option Z)
    (currentState : string) : M Result :=
  correlation ← (if correlation =s "" then catch newID (fun _ => mret "") else mret correlation);
  mret (mkResult status (error_body code message correlation currentVersion currentState) false).

Definition answer {A} (status : Z) (code message correlation : string) (currentVersion : option Z)
    (currentState : string) : M A :=
  r ← errorResult status code message correlation currentVersion currentState; fail (Return r).

(** [if err != nil { return node.errorResult(503, "not_durable", message, correlation, nil, "") }] *)
Definition or_not_durable {A} (m : M A) (message correlation : string) : M A :=
  catch m (fun _ => answer 503 "not_durable" message correlation None "").

Definition reject {A} (status : Z) (code message : string) : M A :=
  fail (Failure (mkFailure status code message None "")).
Definition stale {A} (version : Z) (state : string) : M A :=
  fail (Failure (mkFailure 409 "stale" "expected state is stale" (Some version) state)).

Definition commandError {A} (e : err) (correlation : string) : M A :=
  match e with
  | Return r => fail (Return r)
  | Failure f => answer (failure_status f) (failure_code f) (failure_message f) correlation (failure_version f) (failure_state f)
  | _ => answer 503 "not_durable" "durable operation failed" correlation None ""
  end.

(** ** Control reserve, [runtime/reserve.go] *)
Definition MinimumFreeBytes : Z := 2 ^ 30.
Definition admissionFloor (total : Z) : Z :=
  let floor := total / 10 in if floor <? MinimumFreeBytes then MinimumFreeBytes else floor.

Definition below_floor (space : option SpaceInfo) : bool :=
  match space with
  | None => true
  | Some s => FreeBytes s <? admissionFloor (TotalBytes s)
  end.
Definition storageBelowAdmissionFloor : M bool := s ← measure; mret (below_floor s).
Definition physicalStorageBelowAdmissionFloor : M bool := s ← measure; mret (below_floor s).

(** Lstat, Remove, and the directory sync after it; a failing sync leaves the
    reserve released, which the deferred replenishment sees. *)
Definition releaseControlReserve : M bool :=
  io ;;
  file ← get reserve;
  match file with
  | ReserveMissing => mret false
  | ReserveInvalid => fail (Broken "control reserve is invalid")
  | ReserveAllocated =>
      io ;; modify (fun c => c <| reserve := ReserveMissing |> <| reserveReleased := true |>) ;;
      io ;; mret true
  end.

Definition replenishControlReserve : M unit :=
  released ← get reserveReleased;
  if (released : bool) then
    catch (file ← get reserve;
           match file with
           | ReserveMissing => io ;; modify (fun c => c <| reserve := ReserveAllocated |>)
           | _ => mret tt
           end) (fun _ => mret tt)
  else mret tt.

(** [reserveReleased := false; defer replenishControlReserve(reserveReleased)] *)
Definition with_reserve {A} (m : M A) : M A := fun env x c =>
  let '(r, x', c') := m env x (c <| reserveReleased := false |>) in
  let '(_, x'', c'') := replenishControlReserve env x' c' in
  (r, x'', c'').

(** [if err != nil || !reserveReleased { return .. }] *)
Definition require_reserve (correlation : string) : M unit :=
  released ← or_not_durable releaseControlReserve "control reserve is unavailable" correlation;
  if (released : bool) then mret tt
  else answer 503 "not_durable" "control reserve is unavailable" correlation None "".

(** ** Running a handler *)
Definition run {A} (m : M A) (env : Env) (x : Aux) (c : Core) : (err + A) * Core :=
  let '(r, _, c') := m env x c in (r, c').

(** A handler ends with a value or at one of its [return]s. *)
Definition respond (m : M Result) (env : Env) (x : Aux) (c : Core) : option Result * Core :=
  match run m env x c with
  | (inr r, c') | (inl (Return r), c') => (Some r, c')
  | (_, c') => (None, c')
  end.

(** ** Weakest preconditions *)
Definition wp {A} (env : Env) (m : M A) (Q : A -> Core -> Prop) (E : err -> Core -> Prop) (c : Core) : Prop :=
  forall x, match m env x c with
            | (inr a, _, c') => Q a c'
            | (inl e, _, c') => E e c'
            end.

Section Wp.
Context {env : Env}.
Implicit Types (c : Core) (E : err -> Core -> Prop).

Lemma wp_ret {A} (a : A) Q E c : Q a c -> wp env (mret a) Q E c.
Proof. by intros H x. Qed.

Lemma wp_bind {A B} (m : M A) (k : A -> M B) Q E c :
  wp env m (fun a c' => wp env (k a) Q E c') E c -> wp env (m ≫= k) Q E c.
Proof.
  intros H x. specialize (H x). unfold mbind, M_bind.
  destruct (m env x c) as [[[e|a] x'] c']; [done|]. apply H.
Qed.

Lemma wp_mono {A} (m : M A) (Q Q' : A -> Core -> Prop) E E' c :
  wp env m Q E c -> (forall a c', Q a c' -> Q' a c') -> (forall e c', E e c' -> E' e c') ->
  wp env m Q' E' c.
Proof. intros H HQ HE x. specialize (H x). destruct (m env x c) as [[[e|a] ?] ?]; auto. Qed.

Lemma wp_fail {A} e (Q : A -> Core -> Prop) E c : E e c -> wp env (fail e) Q E c.
Proof. by intros H x. Qed.
Lemma wp_ask {A} (f : Env -> A) Q E c : Q (f env) c -> wp env (ask f) Q E c.
Proof. by intros H x. Qed.
Lemma wp_get {A} (f : Core -> A) Q E c : Q (f c) c -> wp env (get f) Q E c.
Proof. by intros H x. Qed.
Lemma wp_modify f Q E c : Q tt (f c) -> wp env (modify f) Q E c.
Proof. by intros H x. Qed.
Lemma wp_setst f Q E c : Q tt (c <| st ::= f |>) -> wp env (setst f) Q E c.
Proof. by intros H x. Qed.

Lemma wp_catch {A} (m : M A) h Q E c :
  wp env m Q (fun e c' => match e with Return _ => E e c' | _ => wp env (h e) Q E c' end) c ->
  wp env (catch m h) Q E c.
Proof.
  intros H x. specialize (H x). unfold catch.
  destruct (m env x c) as [[[[]|a] x'] c']; try done; apply H.
Qed.

Lemma wp_io Q E c : Q tt c -> E (Broken "operation failed") c -> wp env io Q E c.
Proof. intros H1 H2 x. unfold io. by destruct (env_ok env (n_op x)). Qed.
Lemma wp_newID Q E c : (forall id, Q id c) -> E (Broken "identity source") c -> wp env newID Q E c.
Proof. intros H1 H2 x. unfold newID. by destruct (env_id env (n_id x)). Qed.
Lemma wp_now Q E c : (forall t, Q t c) -> wp env now Q E c.
Proof. intros H x. apply H. Qed.
Lemma wp_measure Q E c : (forall s, Q s c) -> wp env measure Q E c.
Proof. intros H x. apply H. Qed.

Lemma wp_begin Q E c :
  Q tt (c <| tx := durable c |>) -> E (Broken "operation failed") c -> wp env begin Q E c.
Proof. intros H1 H2. apply wp_bind, wp_io; [by apply wp_modify|done]. Qed.
Lemma wp_commit Q E c :
  Q tt (c <| durable := tx c |>) -> E (Broken "operation failed") c -> wp env commit Q E c.
Proof. intros H1 H2. apply wp_bind, wp_io; [by apply wp_modify|done]. Qed.
Lemma wp_query {A} (f : Db -> A) Q E c :
  Q (f (tx c)) c -> E (Broken "operation failed") c -> wp env (query f) Q E c.
Proof. intros H1 H2. apply wp_bind, wp_io; [by apply wp_get|done]. Qed.
Lemma wp_query_row {A} (f : Db -> option A) Q E c :
  (forall a, f (tx c) = Some a -> Q a c) ->
  E NoRows c -> E (Broken "operation failed") c -> wp env (query_row f) Q E c.
Proof.
  intros H1 H2 H3. apply wp_bind, wp_query; [|done].
  destruct (f (tx c)) eqn:?; [by apply wp_ret, H1|by apply wp_fail].
Qed.
Lemma wp_exec_changed {A} (f : Db -> option (A * Db)) Q E c :
  (forall a db', f (tx c) = Some (a, db') -> Q a (c <| tx := db' |>)) ->
  E (Broken "operation failed") c -> E (Broken "constraint failed") c ->
  wp env (exec_changed f) Q E c.
Proof.
  intros H1 H2 H3. apply wp_bind, wp_io; [|done]. apply wp_bind, wp_get.
  destruct (f (tx c)) as [[a db']|] eqn:?; [|by apply wp_fail].
  apply wp_bind, wp_modify, wp_ret. by apply H1.
Qed.
Lemma wp_exec (f : Db -> option Db) Q E c :
  (forall db', f (tx c) = Some db' -> Q tt (c <| tx := db' |>)) ->
  E (Broken "operation failed") c -> E (Broken "constraint failed") c ->
  wp env (exec f) Q E c.
Proof.
  intros H1 H2 H3. apply wp_exec_changed; [|done..].
  intros [] db' H. destruct (f (tx c)) as [d|] eqn:Hf; [|done].
  injection H as <-. by apply H1.
Qed.
Lemma wp_loadState Q E c :
  Q tt (c <| st := node_state (tx c) |>) -> E (Broken "operation failed") c -> wp env loadState Q E c.
Proof. intros H1 H2. apply wp_bind, wp_query; [by apply wp_modify|done]. Qed.
Lemma wp_saveState Q E c :
  (forall db', store_state (st c) (tx c) = Some db' -> Q tt (c <| tx := db' |>)) ->
  E (Broken "operation failed") c -> E (Broken "constraint failed") c ->
  wp env saveState Q E c.
Proof. intros. apply wp_bind, wp_get. by apply wp_exec. Qed.
Lemma wp_checkFault p Q E c :
  (env_fault env p = false -> Q tt c) -> E (Broken "fault injected") c -> wp env (checkFault p) Q E c.
Proof.
  intros H1 H2. apply wp_bind, wp_ask. destruct (env_fault env p); [by apply wp_fail|by apply wp_ret, H1].
Qed.

Lemma wp_errorResult status code message correlation version state Q E c :
  (forall corr, Q (mkResult status (error_body code message corr version state) false) c) ->
  wp env (errorResult status code message correlation version state) Q E c.
Proof.
  intros H. apply wp_bind. destruct (correlation =s "").
  - apply wp_catch, wp_newID; [intros id|apply wp_ret]; apply wp_ret, H.
  - apply wp_ret, wp_ret, H.
Qed.
Lemma wp_answer {A} status code message correlation version state (Q : A -> Core -> Prop) E c :
  (forall corr, E (Return (mkResult status (error_body code message corr version state) false)) c) ->
  wp env (answer status code message correlation version state) Q E c.
Proof. intros H. apply wp_bind, wp_errorResult. intros corr. by apply wp_fail. Qed.

Lemma wp_or_not_durable {A} (m : M A) message correlation Q E c :
  wp env m Q (fun e c' => match e with
                          | Return _ => E e c'
                          | _ => forall corr, E (Return (mkResult 503 (error_body "not_durable" message corr None "") false)) c'
                          end) c ->
  wp env (or_not_durable m message correlation) Q E c.
Proof.
  intros H. apply wp_catch. eapply wp_mono; [exact H|done|].
  intros [] c'; simpl; try done; intros; by apply wp_answer.
Qed.

(** The reserve touches neither database. *)
Definition with_reserve_fields r b c : Core := c <| reserve := r |> <| reserveReleased := b |>.

Lemma with_reserve_same c : c = with_reserve_fields (reserve c) (reserveReleased c) c.
Proof. by destruct c. Qed.

Lemma wp_releaseControlReserve Q E c :
  (forall r b a, Q a (with_reserve_fields r b c)) ->
  (forall r b e, match e with Return _ => False | _ => True end -> E e (with_reserve_fields r b c)) ->
  wp env releaseControlReserve Q E c.
Proof.
  intros HQ HE. unfold releaseControlReserve.
  assert (forall a, Q a c) as HQc by (intros; rewrite (with_reserve_same c); apply HQ).
  assert (forall e, match e with Return _ => False | _ => True end -> E e c) as HEc
    by (intros; rewrite (with_reserve_same c); by apply HE).
  apply wp_bind, wp_io; [|by apply HEc]. apply wp_bind, wp_get.
  destruct (reserve c); [apply wp_ret, HQc|apply wp_fail; by apply HEc|].
  apply wp_bind, wp_io; [|by apply HEc]. apply wp_bind, wp_modify.
  apply wp_bind, wp_io; [apply wp_ret, HQ|by apply HE].
Qed.

Lemma wp_require_reserve correlation Q E c :
  (forall r b, Q tt (with_reserve_fields r b c)) ->
  (forall r b res, Committed res = false -> E (Return res) (with_reserve_fields r b c)) ->
  wp env (require_reserve correlation) Q E c.
Proof.
  intros HQ HE. apply wp_bind, wp_or_not_durable, wp_releaseControlReserve.
  - intros r b []; [apply wp_ret, HQ|apply wp_answer; intros; by apply HE].
  - intros r b [] ?; [done|..]; intros; by apply HE.
Qed.

Lemma replenish_same x c :
  let '(_, _, c') := replenishControlReserve env x c in c' = with_reserve_fields (reserve c') (reserveReleased c') c.
Proof.
  unfold replenishControlReserve, get, mbind, M_bind.
  destruct (reserveReleased c) eqn:Hb; [|apply with_reserve_same]. unfold catch.
  destruct (reserve c) eqn:Hr; try apply with_reserve_same.
  unfold io, modify. destruct (env_ok env (n_op x)); [|apply with_reserve_same]. by destruct c.
Qed.

Lemma wp_with_reserve {A} (m : M A) Q E c :
  wp env m (fun a c1 => forall r b, Q a (with_reserve_fields r b c1))
           (fun e c1 => forall r b, E e (with_reserve_fields r b c1)) (c <| reserveReleased := false |>) ->
  wp env (with_reserve m) Q E c.
Proof.
  intros H x. specialize (H x). unfold with_reserve.
  destruct (m env x _) as [[r x'] c'].
  pose proof (replenish_same x' c') as Hs.
  destruct (replenishControlReserve env x' c') as [[? ?] c'']. rewrite Hs. destruct r; apply H.
Qed.
End Wp.

(** The primitives' rules, applied goal-directed by [wp_auto]. *)
Ltac wp_prim :=
  lazymatch goal with
  | |- wp _ (mret _) _ _ _ => apply wp_ret
  | |- wp _ (_ ≫= _) _ _ _ => apply wp_bind
  | |- wp _ (fail _) _ _ _ => apply wp_fail
  | |- wp _ (ask _) _ _ _ => apply wp_ask
  | |- wp _ (get _) _ _ _ => apply wp_get
  | |- wp _ (modify _) _ _ _ => apply wp_modify
  | |- wp _ (setst _) _ _ _ => apply wp_setst
  | |- wp _ io _ _ _ => apply wp_io
  | |- wp _ newID _ _ _ => apply wp_newID; [intros ?|]
  | |- wp _ now _ _ _ => apply wp_now; intros ?
  | |- wp _ measure _ _ _ => apply wp_measure; intros ?
  | |- wp _ begin _ _ _ => apply wp_begin
  | |- wp _ commit _ _ _ => apply wp_commit
  | |- wp _ (query _) _ _ _ => apply wp_query
  | |- wp _ (query_row _) _ _ _ => apply wp_query_row; [intros ? ?|..]
  | |- wp _ (exec_changed _) _ _ _ => apply wp_exec_changed; [intros ? ? ?|..]
  | |- wp _ (exec _) _ _ _ => apply wp_exec; [intros ? ?|..]
  | |- wp _ loadState _ _ _ => apply wp_loadState
  | |- wp _ saveState _ _ _ => apply wp_saveState; [intros ? ?|..]
  | |- wp _ (checkFault _) _ _ _ => apply wp_checkFault; [intros ?|]
  | |- wp _ (errorResult _ _ _ _ _ _) _ _ _ => apply wp_errorResult; intros ?
  | |- wp _ (answer _ _ _ _ _ _) _ _ _ => apply wp_answer; intros ?
  | |- wp _ (or_not_durable _ _ _) _ _ _ => apply wp_or_not_durable
  | |- wp _ (catch _ _) _ _ _ => apply wp_catch
  | |- wp _ (require_reserve _) _ _ _ => apply wp_require_reserve; [intros ? ?|intros ? ? ? ?]; unfold with_reserve_fields
  | |- wp _ (with_reserve _) _ _ _ => apply wp_with_reserve; unfold with_reserve_fields
  end.
