(* ===== verification/Adapter.v ===== *)
(** * The provider-neutral seam, [adapters/contract/adapter.go], and the wire
    structs its events carry ([contracts/wire/types.go]).
    The adapter itself is outside: its answers are arguments of the handlers. *)
From stdpp Require Import base tactics list strings gmap pretty.
From Stdlib Require Import ZArith Lia Ascii String.
From S2P Require Import Prelude Json Wire Tx.
Open Scope string_scope.
Open Scope list_scope.
Open Scope Z_scope.
Open Scope harness_scope.

(** ** Safe content and usage *)
Record SafeContent := mkContent {
  sc_kind : string; sc_content : string; sc_artifact : string; sc_size : option Z; sc_sha256 : string; sc_reason : string;
  sc_redaction : string; sc_truncated : bool }.
#[export] Instance SafeContent_eta : Eta SafeContent := fun r =>
  mkContent (sc_kind r) (sc_content r) (sc_artifact r) (sc_size r) (sc_sha256 r) (sc_reason r) (sc_redaction r) (sc_truncated r).
#[export] Instance SafeContent_eq_dec : EqDecision SafeContent.
Proof. solve_decision. Defined.

(** [json.Marshal]: every [omitempty] field is dropped at its zero value. *)
Definition SafeContent_json (c : SafeContent) : json :=
  JObj ([("kind", JStr (sc_kind c))]
        ++ optional_member "content" (sc_content c) ++ optional_member "artifactId" (sc_artifact c)
        ++ match sc_size c with Some n => [("sizeBytes", JInt n)] | None => [] end
        ++ optional_member "sha256" (sc_sha256 c) ++ optional_member "reason" (sc_reason c)
        ++ [("redaction", JStr (sc_redaction c)); ("truncated", JBool (sc_truncated c))]).

(** [json.Unmarshal] into the struct: absent members keep their zero value, a
    member of another type is an error. *)
Definition get_string (key : string) (v : json) : option string :=
  match field key v with None | Some JNull => Some "" | Some (JStr s) => Some s | _ => None end.
Definition get_bool (key : string) (v : json) : option bool :=
  match field key v with None | Some JNull => Some false | Some (JBool b) => Some b | _ => None end.
Definition get_int (key : string) (v : json) : option Z :=
  match field key v with None | Some JNull => Some 0 | Some (JNum lit) => parse_int64 lit | _ => None end.
Definition is_object (v : json) : bool := match v with JObj _ => true | JNull => true | _ => false end.

Definition SafeContent_of_json (v : json) : option SafeContent :=
  if negb (is_object v) then None else
  kind ← get_string "kind" v; content ← get_string "content" v; artifact ← get_string "artifactId" v;
  size ← match field "sizeBytes" v with
         | None | Some JNull => Some None
         | Some (JNum lit) => Some <$> parse_int64 lit
         | _ => None
         end;
  hash ← get_string "sha256" v; reason ← get_string "reason" v; redaction ← get_string "redaction" v;
  truncated ← get_bool "truncated" v;
  Some (mkContent kind content artifact size hash reason redaction truncated).

Record Usage := mkUsage { us_source : string; us_input : Z; us_output : Z; us_total : Z }.
Definition Usage_json (u : Usage) : json :=
  JObj [("source", JStr (us_source u)); ("inputTokens", JInt (us_input u)); ("outputTokens", JInt (us_output u));
        ("totalTokens", JInt (us_total u))].

(** ** Attempts, outcomes, failures *)
Record AttemptRef := mkRef { ref_node : string; ref_dialog : string; ref_request : string; ref_attempt : string; ref_generation : Z }.
#[export] Instance AttemptRef_eq_dec : EqDecision AttemptRef.
Proof. solve_decision. Defined.

Definition FailureTask := "task".
Definition FailureNode := "node".
Definition FailurePolicy := "policy".
Definition FailureProtocol := "protocol".
Record AdapterFailure := mkAdapterFailure { fail_class : string; fail_code : string; fail_message : string; fail_retryable : bool }.

(** The outcome types are open strings in Go; [..Other] is every value outside
    the declared constants. *)
Inductive StartOutcome := StartStarted | StartRejected | StartUnknown | StartOther.
Inductive ResumeOutcome := ResumeStarted | ResumeContextMissing | ResumeRejected | ResumeUnknown | ResumeOther.
Inductive SteerOutcome := SteerApplied | SteerFallbackQueued | SteerUnknown | SteerRejected | SteerOther.
Inductive CancelOutcome := CancelAcknowledged | CancelRejected | CancelUnknown | CancelOther.
Inductive ResponseOutcome := ResponseApplied | ResponseRejected | ResponseUnknown | ResponseOther.
Inductive ReconcileOutcome :=
  | ReconcileRunning | ReconcileWaitingInput | ReconcileCompleted | ReconcileFailed | ReconcileInterrupted
  | ReconcileUnknown | ReconcileOther (value : string).
Definition ReconcileOutcome_string (o : ReconcileOutcome) : string :=
  match o with
  | ReconcileRunning => "running" | ReconcileWaitingInput => "waiting_input" | ReconcileCompleted => "completed"
  | ReconcileFailed => "failed" | ReconcileInterrupted => "interrupted" | ReconcileUnknown => "unknown"
  | ReconcileOther value => value
  end.
#[export] Instance SteerOutcome_eq_dec : EqDecision SteerOutcome.
Proof. solve_decision. Defined.
#[export] Instance ResponseOutcome_eq_dec : EqDecision ResponseOutcome.
Proof. solve_decision. Defined.

Record ReconcileResult := mkReconcile {
  rec_outcome : ReconcileOutcome; rec_output : option SafeContent; rec_usage : option Usage;
  rec_failure : option AdapterFailure; rec_effect : string }.

(** ** Events
    [full] and [incomplete] are [FullText] and [FullTextIncomplete]: the whole
    safe text behind the preview the wire carries. *)
Inductive EventKind :=
  | StartedEvent
  | WaitingEvent (kind : string)
  | AssistantDeltaEvent (messageID : string) (deltaIndex : Z) (content : SafeContent)
  | AssistantMessageEvent (messageID : string) (content : SafeContent) (finishReason : string)
      (full : option string) (incomplete : bool)
  | ToolStartedEvent (callID toolName actionHash : string) (input : SafeContent) (full : option string) (incomplete : bool)
  | ToolOutputEvent (callID : string) (chunkIndex : Z) (stream : string) (output : SafeContent)
      (full : option string) (incomplete : bool)
  | ToolCompletedEvent (callID status : string) (result : SafeContent) (effectStatus effectRef : string)
      (full : option string) (incomplete : bool)
  | ApprovalRequestedEvent (approvalID callID actionHash safePrompt : string)
  | InputRequestedEvent (inputRequestID : string) (prompt : SafeContent)
  | TerminalEvent (outcome : ReconcileOutcome) (output : option SafeContent) (usage : option Usage)
      (failure : option AdapterFailure) (effectStatus : string)
  | UnknownEvent (reason effectStatus : string).
Record Event := mkAdapterEvent { event_reference : AttemptRef; event_kind : EventKind }.

Definition or_null {A} (f : A -> json) (o : option A) : json := match o with Some a => f a | None => JNull end.

(** [json.Marshal] of the event structs, whose fields carry no tags; the
    embedded [EventBase] contributes [Attempt]. *)
Definition AttemptRef_json (r : AttemptRef) : json :=
  JObj [("NodeID", JStr (ref_node r)); ("DialogID", JStr (ref_dialog r)); ("RequestID", JStr (ref_request r));
        ("AttemptID", JStr (ref_attempt r)); ("Generation", JInt (ref_generation r))].
Definition AdapterFailure_json (f : AdapterFailure) : json :=
  JObj [("Class", JStr (fail_class f)); ("Code", JStr (fail_code f)); ("SafeMessage", JStr (fail_message f));
        ("Retryable", JBool (fail_retryable f))].
Definition terminal_members (outcome : ReconcileOutcome) (output : option SafeContent) (usage : option Usage)
    (failure : option AdapterFailure) (effect : string) : list (string * json) :=
  [("Outcome", JStr (ReconcileOutcome_string outcome)); ("Output", or_null SafeContent_json output);
   ("Usage", or_null Usage_json usage); ("Failure", or_null AdapterFailure_json failure); ("EffectStatus", JStr effect)].
Definition event_members (k : EventKind) : list (string * json) :=
  match k with
  | StartedEvent => []
  | WaitingEvent kind => [("Kind", JStr kind)]
  | AssistantDeltaEvent m i c => [("MessageID", JStr m); ("DeltaIndex", JInt i); ("Content", SafeContent_json c)]
  | AssistantMessageEvent m c finish _ _ => [("MessageID", JStr m); ("Content", SafeContent_json c); ("FinishReason", JStr finish)]
  | ToolStartedEvent call tool hash input _ _ =>
      [("CallID", JStr call); ("ToolName", JStr tool); ("ActionHash", JStr hash); ("Input", SafeContent_json input)]
  | ToolOutputEvent call i stream output _ _ =>
      [("CallID", JStr call); ("ChunkIndex", JInt i); ("Stream", JStr stream); ("Output", SafeContent_json output)]
  | ToolCompletedEvent call status result effect effectRef _ _ =>
      [("CallID", JStr call); ("Status", JStr status); ("Result", SafeContent_json result); ("EffectStatus", JStr effect);
       ("EffectRef", JStr effectRef)]
  | ApprovalRequestedEvent a call hash prompt =>
      [("ApprovalID", JStr a); ("CallID", JStr call); ("ActionHash", JStr hash); ("SafePrompt", JStr prompt)]
  | InputRequestedEvent i prompt => [("InputRequestID", JStr i); ("Prompt", SafeContent_json prompt)]
  | TerminalEvent outcome output usage failure effect => terminal_members outcome output usage failure effect
  | UnknownEvent reason effect => [("Reason", JStr reason); ("EffectStatus", JStr effect)]
  end.
Definition Event_json (e : Event) : json :=
  JObj (("Attempt", AttemptRef_json (event_reference e)) :: event_members (event_kind e)).

Definition isInteractiveWaitEvent (e : Event) : bool :=
  match event_kind e with WaitingEvent _ | ApprovalRequestedEvent _ _ _ _ | InputRequestedEvent _ _ => true | _ => false end.

(** ** Policy snapshots *)
Record PolicySnapshot := mkPolicy {
  ps_revision : string; ps_content : string; ps_content_hash : string; ps_tools : string; ps_tools_hash : string;
  ps_approval : string; ps_effective : string }.

Definition ApprovalModeDeny := "deny".
Definition ApprovalModeExplicitOnce := "explicit_once".

(** [binary.BigEndian.PutUint64] *)
Fixpoint big_endian (bytes : nat) (z : Z) : string :=
  match bytes with
  | O => ""
  | S n => String (ascii_of_N (Z.to_N (Z.shiftr z (8 * Z.of_nat n) mod 256))) (big_endian n z)
  end.
Definition framed (value : string) : string := big_endian 8 (byte_length value) +:+ value.

Section Policy.
Variable digest : string -> string.

Definition EffectivePolicyHash (p : PolicySnapshot) : string :=
  digest ("harness-effective-policy-v1" +:+ String (ascii_of_N 0) ""
          +:+ framed (ps_revision p) +:+ framed (ps_content_hash p) +:+ framed (ps_tools_hash p) +:+ framed (ps_approval p)).

Definition ValidatePolicySnapshot (p : PolicySnapshot) : bool :=
  negb ((ps_revision p =s "") || (byte_length (ps_content p) =? 0) || (byte_length (ps_tools p) =? 0)
        || (ps_content_hash p =s "") || (ps_tools_hash p =s "") || (ps_effective p =s ""))
  && ((ps_approval p =s ApprovalModeDeny) || (ps_approval p =s ApprovalModeExplicitOnce))
  && (digest (ps_content p) =s ps_content_hash p) && (digest (ps_tools p) =s ps_tools_hash p)
  && (EffectivePolicyHash p =s ps_effective p).

Definition PreparePolicySnapshot (p : PolicySnapshot) : option PolicySnapshot :=
  if ValidatePolicySnapshot p then Some p else None.
End Policy.
