(* ===== verification/Events.v ===== *)
(** * The durable event log, [runtime/events.go]
    [appendEvent] numbers, validates and inserts one event inside the current
    transaction.  The payload builders are the wire structs of
    [contracts/wire/types.go] as [json.Marshal] writes them. *)
From stdpp Require Import base tactics list strings gmap pretty.
From Stdlib Require Import ZArith Lia Ascii String.
From S2P Require Import Prelude Json Wire Store Tx Adapter.
Open Scope string_scope.
Open Scope list_scope.
Open Scope Z_scope.
Open Scope harness_scope.

(** ** Payloads *)
Definition json_text_or_null (o : option string) : json := match o with Some s => JStr s | None => JNull end.

Definition nodePayload (s : durableState) : json :=
  JObj [("transportAvailability", JStr (TransportAvailability s)); ("engineReadiness", JStr (EngineReadiness s));
        ("occupancy", JStr (Occupancy s)); ("queuePaused", JBool (QueuePaused s)); ("queueVersion", JInt (QueueVersion s));
        ("pendingCount", JInt (PendingCount s)); ("blockedReasons", JArr (List.map JStr (BlockedReasons s)));
        ("activeAttemptId", json_text_or_null (ActiveAttemptID s))].
Definition QueueChangedPayload (s : durableState) : json :=
  JObj [("queueVersion", JInt (QueueVersion s)); ("pendingCount", JInt (PendingCount s));
        ("activeAttemptId", json_text_or_null (ActiveAttemptID s)); ("queuePaused", JBool (QueuePaused s))].
Definition MessageAcceptedPayload (dialog message request : string) (sequence : Z) (disposition : string) : json :=
  JObj [("dialogId", JStr dialog); ("messageId", JStr message); ("requestId", JStr request);
        ("sequence", JInt sequence); ("disposition", JStr disposition)].
Definition DialogDeletedPayload (dialog : string) : json := JObj [("dialogId", JStr dialog)].
Definition MessageDispositionPayload (message from to reason : string) : json :=
  JObj [("messageId", JStr message); ("from", JStr from); ("to", JStr to); ("reasonCode", JStr reason)].
Definition AttemptDispatchingPayload (request : string) (generation : Z) (boundary revision hash : string) : json :=
  JObj [("requestId", JStr request); ("generation", JInt generation); ("contextBoundaryMessageId", JStr boundary);
        ("policyRevision", JStr revision); ("policyHash", JStr hash)].
Definition AttemptStartedPayload (request : string) (generation : Z) : json :=
  JObj [("requestId", JStr request); ("generation", JInt generation)].
Definition AttemptWaitingPayload (request : string) (generation : Z) (kind : string) : json :=
  JObj [("requestId", JStr request); ("generation", JInt generation); ("waitKind", JStr kind)].
Definition AttemptStopRequestedPayload (generation : Z) (command : string) : json :=
  JObj [("generation", JInt generation); ("commandId", JStr command)].
Definition AttemptOutput_json (message : option string) : json :=
  match message with
  | Some m => JObj ([("kind", JStr "message")] ++ optional_member "assistantMessageId" m)
  | None => JObj [("kind", JStr "empty")]
  end.
Definition AttemptCompletedPayload (generation : Z) (output : option string) (usage : option Usage) : json :=
  JObj ([("generation", JInt generation); ("output", AttemptOutput_json output)]
        ++ match usage with Some u => [("usage", Usage_json u)] | None => [] end).
Definition AttemptFailedPayload (generation : Z) (class code message : string) (retryable : bool) (effect : string) : json :=
  JObj [("generation", JInt generation); ("failureClass", JStr class); ("errorCode", JStr code);
        ("safeMessage", JStr message); ("retryable", JBool retryable); ("effectStatus", JStr effect)].
Definition AttemptInterruptedPayload (generation : Z) (reason effect : string) : json :=
  JObj [("generation", JInt generation); ("reason", JStr reason); ("effectStatus", JStr effect)].
Definition AttemptUnknownPayload (generation : Z) (reason effect : string) : json :=
  JObj [("generation", JInt generation); ("reason", JStr reason); ("effectStatus", JStr effect)].
Definition AssistantDeltaPayload (message : string) (index : Z) (content : SafeContent) : json :=
  JObj [("messageId", JStr message); ("deltaIndex", JInt index); ("content", SafeContent_json content)].
Definition AssistantMessagePayload (message : string) (content : SafeContent) (finish : string) : json :=
  JObj [("messageId", JStr message); ("content", SafeContent_json content); ("finishReason", JStr finish)].
Definition ToolStartedPayload (call tool hash : string) (input : SafeContent) : json :=
  JObj [("callId", JStr call); ("toolName", JStr tool); ("actionHash", JStr hash); ("input", SafeContent_json input)].
Definition ToolOutputPayload (call : string) (index : Z) (stream : string) (output : SafeContent) : json :=
  JObj [("callId", JStr call); ("chunkIndex", JInt index); ("stream", JStr stream); ("output", SafeContent_json output)].
Definition ToolCompletedPayload (call status : string) (result : SafeContent) (effect effectRef : string) : json :=
  JObj ([("callId", JStr call); ("status", JStr status); ("result", SafeContent_json result); ("effectStatus", JStr effect)]
        ++ optional_member "effectRef" effectRef).
Definition ApprovalRequestedPayload (approval call hash prompt : string) : json :=
  JObj [("approvalId", JStr approval); ("callId", JStr call); ("actionHash", JStr hash); ("safePrompt", JStr prompt);
        ("approvalVersion", JInt 1)].
Definition ApprovalResolvedPayload (approval decision actor : string) (version : Z) : json :=
  JObj [("approvalId", JStr approval); ("decision", JStr decision); ("actorId", JStr actor); ("approvalVersion", JInt version)].
Definition InputRequestedPayload (input : string) (prompt : SafeContent) : json :=
  JObj [("inputRequestId", JStr input); ("prompt", SafeContent_json prompt); ("inputVersion", JInt 1)].
Definition InputResolvedPayload (input message : string) (version : Z) : json :=
  JObj [("inputRequestId", JStr input); ("messageId", JStr message); ("inputVersion", JInt version)].

(** ** Envelope *)
Definition EventEnvelope (node : string) (seq epoch : Z) (type entity : string) (version : Z) (attempt dialog observed : string)
    (payload : json) : json :=
  JObj ([("protocolVersion", JInt ProtocolVersion); ("schemaId", JStr SchemaID); ("nodeId", JStr node); ("seq", JInt seq);
         ("epoch", JInt epoch); ("type", JStr type); ("entityId", JStr entity); ("entityVersion", JInt version)]
        ++ optional_member "attemptId" attempt ++ optional_member "dialogId" dialog
        ++ [("observedAt", JStr observed); ("completeness", JStr "complete"); ("payload", payload)]).

Definition nullText (value : string) : option string := if value =s "" then None else Some value.

(** ** [appendEvent] *)
Definition appendEvent (eventType entityID : string) (entityVersion : Z) (attemptID dialogID : string) (payload : json)
    (late : bool) : M json :=
  setst (fun s => s <| LastEventSeq ::= Z.succ |>) ;;
  s ← get st;
  observed ← now;
  let event := EventEnvelope (NodeID s) (LastEventSeq s) (Epoch s) eventType entityID entityVersion attemptID dialogID observed payload in
  if negb (Validate "event" (document_of event)) then fail (Broken "internal event") else
  exec (insert_event (mkEvent (NodeID s) (LastEventSeq s) (Epoch s) event (nullText attemptID) (nullText dialogID)
                        None None late observed)) ;;
  mret event.

Definition appendNodeEvent : M unit :=
  s ← get st;
  appendEvent "node.state_changed" (NodeID s) (StateVersion s) "" "" (nodePayload s) false ;; mret tt.

Definition appendQueueEvent : M unit :=
  s ← get st;
  appendEvent "queue.changed" (NodeID s) (QueueVersion s) "" "" (QueueChangedPayload s) false ;; mret tt.

(** ** Blocked reasons, [runtime/command_handlers.go] *)
Definition addReason (reasons : list string) (reason : string) : list string :=
  if in_set reason reasons then reasons else reasons ++ [reason].
Definition removeReason (reasons : list string) (reason : string) : list string :=
  List.filter (fun candidate => negb (candidate =s reason)) reasons.
Definition blockingReason (s : durableState) : string :=
  if QueuePaused s then "operator_pause"
  else match BlockedReasons s with
       | r :: _ => r
       | [] => if EngineReadiness s =s "ready" then "" else "engine_unavailable"
       end.

(** ** The log invariant
    The events of the node are numbered 1, 2, .., [LastEventSeq], in order, all
    of them by this node and under its epoch. *)
Definition numbered (node : string) (epoch : Z) (n : nat) (e : event_row) : Prop :=
  evt_node e = node /\ evt_epoch e = epoch /\ evt_seq e = Z.of_nat n
  /\ field "seq" (evt_json e) = Some (JInt (Z.of_nat n))
  /\ Validate "event" (document_of (evt_json e)) = true.

Fixpoint log_from (node : string) (epoch : Z) (n : nat) (l : list event_row) : Prop :=
  match l with
  | [] => True
  | e :: l' => numbered node epoch n e /\ log_from node epoch (S n) l'
  end.

Definition log_ok (node : string) (epoch last : Z) (l : list event_row) : Prop :=
  last = Z.of_nat (List.length l) /\ log_from node epoch 1 l.

Lemma log_from_app node epoch n l1 l2 :
  log_from node epoch n (l1 ++ l2) <-> log_from node epoch n l1 /\ log_from node epoch (n + List.length l1)%nat l2.
Proof.
  revert n; induction l1 as [|e l1 IH]; intros n; simpl.
  - rewrite Nat.add_0_r. tauto.
  - rewrite IH, Nat.add_succ_r. simpl. tauto.
Qed.

Lemma log_from_lookup node epoch n l i e :
  log_from node epoch n l -> l !! i = Some e -> numbered node epoch (n + i)%nat e.
Proof.
  revert n i; induction l as [|x l IH]; [done|].
  intros n i [H1 H2] Hi. destruct i as [|i]; simplify_eq/=.
  - by rewrite Nat.add_0_r.
  - rewrite Nat.add_succ_r. by apply (IH (S n)).
Qed.

(** Projections are bound to an event after it was appended: the columns the
    invariant reads stay. *)
Lemma log_from_update node epoch n p f l :
  (forall e, evt_node (f e) = evt_node e /\ evt_epoch (f e) = evt_epoch e /\ evt_seq (f e) = evt_seq e
             /\ evt_json (f e) = evt_json e) ->
  log_from node epoch n l -> log_from node epoch n (update_where p f l).
Proof.
  intros Hf. revert n; induction l as [|e l IH]; intros n; simpl; [done|].
  intros [H1 H2]. split; [|by apply IH].
  destruct (p e); [|done]. destruct (Hf e) as (E1 & E2 & E3 & E4).
  unfold numbered in *. by rewrite E1, E2, E3, E4.
Qed.

Lemma log_ok_update node epoch last p f l :
  (forall e, evt_node (f e) = evt_node e /\ evt_epoch (f e) = evt_epoch e /\ evt_seq (f e) = evt_seq e
             /\ evt_json (f e) = evt_json e) ->
  log_ok node epoch last l -> log_ok node epoch last (update_where p f l).
Proof.
  intros Hf [H1 H2]. split; [by unfold update_where; rewrite length_map|by apply log_from_update].
Qed.

Lemma log_ok_snoc node epoch last l row :
  log_ok node epoch last l -> numbered node epoch (S (List.length l)) row ->
  log_ok node epoch (Z.succ last) (l ++ [row]).
Proof.
  intros [-> H] Hrow. split; [rewrite length_app; simpl; lia|].
  apply log_from_app. split; [done|]. by split.
Qed.

Lemma fire_frame selected ds dq db db' :
  fire selected ds dq db = Some db' ->
  db' = db <| quiescence_scope_revisions := quiescence_scope_revisions db' |>.
Proof. unfold fire. destruct (forallb _ _); intros; by simplify_eq. Qed.

Lemma guard_Some ok db db' : guard ok db = Some db' -> ok = true /\ db' = db.
Proof. unfold guard. destruct ok; intros; by simplify_eq. Qed.

Lemma insert_event_frame row db db' :
  insert_event row db = Some db' ->
  db' = db <| events := events db ++ [row] |> <| quiescence_scope_revisions := quiescence_scope_revisions db' |>.
Proof.
  unfold insert_event. intros H. apply bind_Some in H as (d & _ & H). by apply fire_frame in H.
Qed.

(** What is known of the row [appendEvent] inserted. *)
Record appended (row : event_row) (attempt dialog : string) (late : bool) (event : json) : Prop := {
  appended_json : evt_json row = event;
  appended_attempt : evt_attempt row = nullText attempt;
  appended_dialog : evt_dialog row = nullText dialog;
  appended_key : evt_key row = None;
  appended_late : evt_late row = late }.

Definition is_return (e : err) : bool := match e with Return _ => true | _ => false end.

Lemma wp_appendEvent env type entity version attempt dialog payload late (Q : json -> Core -> Prop) E c :
  log_ok (NodeID (st c)) (Epoch (st c)) (LastEventSeq (st c)) (events (tx c)) ->
  (forall event row q,
     appended row attempt dialog late event ->
     log_ok (NodeID (st c)) (Epoch (st c)) (Z.succ (LastEventSeq (st c))) (events (tx c) ++ [row]) ->
     Q event (c <| st := (st c) <| LastEventSeq ::= Z.succ |> |>
                <| tx := (tx c) <| events := events (tx c) ++ [row] |> <| quiescence_scope_revisions := q |> |>)) ->
  (forall e c', durable c' = durable c -> is_return e = false -> E e c') ->
  wp env (appendEvent type entity version attempt dialog payload late) Q E c.
Proof.
  intros Hlog HQ HE. unfold appendEvent. do 6 wp_prim.
  destruct (Validate _ _) eqn:Hv; cbn [negb]; [|wp_prim; by apply HE].
  wp_prim. wp_prim; [|by apply HE..]. wp_prim. rename select (insert_event _ _ = _) into H.
  apply insert_event_frame in H. rewrite H. cbn -[Validate].
  apply (HQ _ (mkEvent _ _ _ _ _ _ _ _ _ _)); [done|].
  apply log_ok_snoc; [done|]. cbn -[Validate] in Hv. destruct Hlog as [Hlast _].
  unfold numbered. cbn -[Validate]. rewrite Hlast in *.
  replace (Z.succ (Z.of_nat (List.length (events (tx c))))) with (Z.of_nat (S (List.length (events (tx c))))) in * by lia.
  by rewrite Hv.
Qed.
