(* ===== verification/Commands.v ===== *)
(** * Command handlers, [runtime/command_handlers.go] and [runtime/control_handlers.go]
    One definition per handler.  Each runs inside the transaction that
    [Submit.SubmitCommand] opens, on the local [durableState]; it answers the
    receipt's references, result and blocking reason and the control action to
    be recorded with the command. *)
From stdpp Require Import base tactics list strings gmap pretty.
From Stdlib Require Import ZArith Lia Ascii String.
From S2P Require Import Prelude Json Wire Store Tx Adapter Events.
Open Scope string_scope.
Open Scope list_scope.
Open Scope Z_scope.
Open Scope harness_scope.

Definition QueueCapacity : Z := 100.

(** ** Envelopes *)
Record CommandEnvelope := mkEnvelope {
  env_command : string; env_kind : string; env_target : json; env_expected : json; env_payload : json }.

Definition CommandEnvelope_json (e : CommandEnvelope) : json :=
  JObj [("protocolVersion", JInt ProtocolVersion); ("schemaId", JStr SchemaID); ("commandId", JStr (env_command e));
        ("kind", JStr (env_kind e)); ("target", env_target e); ("expected", env_expected e); ("payload", env_payload e)].

Definition CommandEnvelope_of_json (v : json) : option CommandEnvelope :=
  if negb (is_object v) then None else
  id ← get_string "commandId" v; kind ← get_string "kind" v;
  Some (mkEnvelope id kind (default JNull (field "target" v)) (default JNull (field "expected" v))
          (default JNull (field "payload" v))).

(** [json.Unmarshal] of one part of the envelope. *)
Definition decode_part {A} (part : json) (read : json -> option A) : M A :=
  match (if is_object part then read part else None) with
  | Some a => mret a
  | None => fail (Broken "json: cannot unmarshal")
  end.

(** ** Outcomes *)
Record postCommitAction := mkPost {
  post_command : string; post_kind : string; post_attempt : string; post_message : string; post_actor : string;
  post_payload : json }.
Definition no_action : postCommitAction := mkPost "" "" "" "" "" JNull.

Record applied := mkApplied {
  app_references : json; app_result : string; app_blocking : string; app_action : postCommitAction }.

Definition references (members : list (string * string)) : json :=
  JObj (List.map (fun kv => (kv.1, JStr kv.2)) members).

Definition one {A} (p : A -> bool) (l : Db -> list A) : M A := query_row (fun db => select1 p (l db)).
Definition message_by_id (id : string) : M message_row := one (fun m => msg_id m =s id) messages.
Definition request_by_id (id : string) : M request_row := one (fun r => req_id r =s id) requests.
Definition attempt_by_id (id : string) : M attempt_row := one (fun a => att_id a =s id) attempts.
Definition dialog_by_id (id : string) : M dialog_row := one (fun d => dlg_id d =s id) dialogs.

(** ** dialog.create *)
Definition applyDialogCreate (envelope : CommandEnvelope) : M applied :=
  expected ← decode_part (env_expected envelope) (get_int "registryVersion");
  title ← decode_part (env_payload envelope) (get_string "title");
  s ← get st;
  if negb (expected =? RegistryVersion s) then stale (RegistryVersion s) "registry" else
  dialogID ← newID;
  created ← now;
  exec (insert_dialog (mkDialog dialogID (NodeID s) (OwnerID s) 1 (nullText title) created)) ;;
  setst (fun s => s <| StateVersion ::= Z.succ |>) ;;
  appendNodeEvent ;;
  s ← get st;
  mret (mkApplied (references [("dialogId", dialogID)]) "admitted" (blockingReason s) no_action).

(** ** dialog.delete *)
Definition of_dialog (db : Db) (dialog attempt : string) : bool := bool_decide (attempt_dialog db attempt = Some dialog).

(** Everything of a dialog that is not settled. *)
Definition dialog_unresolved (dialog : string) (db : Db) : bool :=
  exists_where (fun r => (req_dialog r =s dialog)
                  && negb (in_set (req_status r) ["cancelled"; "completed"; "failed"; "interrupted"])) (requests db)
  || exists_where (fun a => (att_dialog a =s dialog)
                  && (negb (in_set (att_state a) ["completed"; "failed"; "interrupted"])
                      || negb (in_set (att_effect a) ["none"; "known"]))) (attempts db)
  || exists_where (fun c => of_dialog db dialog (act_attempt c)
                  && negb (in_set (act_status c) ["acknowledged"; "rejected"])) (control_actions db)
  || exists_where (fun t => of_dialog db dialog (tool_attempt t)
                  && negb (in_set (tool_status t) ["succeeded"; "failed"])) (tool_calls db)
  || exists_where (fun p => of_dialog db dialog (apr_attempt p) && negb (apr_status p =s "resolved")) (approvals db)
  || exists_where (fun i => of_dialog db dialog (inp_attempt i) && negb (inp_status i =s "resolved")) (input_requests db)
  || exists_where (fun e => is_text (evt_dialog e) dialog && is_tool_completion e
                  && negb (in_set (default "unknown" (payload_effect_status e)) ["none"; "known"])) (events db).

Definition applyDialogDelete (envelope : CommandEnvelope) : M applied :=
  target ← decode_part (env_target envelope) (get_string "dialogId");
  expected ← decode_part (env_expected envelope) (get_int "dialogVersion");
  row ← catch (query_row (fun db => d ← select1 (fun d => dlg_id d =s target) (dialogs db);
                                    Some (dlg_version d, dialog_deleted db target)))
          (fun e => match e with NoRows => reject 404 "not_found" "dialog was not found" | _ => fail e end);
  let '(dialogVersion, deleted) := row in
  if (deleted : bool) then reject 404 "not_found" "dialog was not found" else
  if negb (expected =? dialogVersion) then stale dialogVersion "active" else
  unresolved ← query (dialog_unresolved target);
  if (unresolved : bool) then stale dialogVersion "active" else
  exec (update_dialog target (fun d => d <| dlg_version ::= Z.succ |>)) ;;
  setst (fun s => s <| StateVersion ::= Z.succ |>) ;;
  appendEvent "dialog.deleted" target (dialogVersion + 1) "" target (DialogDeletedPayload target) false ;;
  s ← get st;
  changed ← exec_changed (bind_projection (fun e => (evt_node e =s NodeID s) && (evt_seq e =? LastEventSeq s)) "dialog.deleted" None);
  if negb (changed =? 1) then fail (Broken "dialog tombstone event binding failed") else
  mret (mkApplied (references [("dialogId", target)]) "deleted" "" no_action).

(** ** message.enqueue *)
Definition applyMessageEnqueue (envelope : CommandEnvelope) : M applied :=
  target ← decode_part (env_target envelope) (get_string "dialogId");
  expected ← decode_part (env_expected envelope) (get_int "dialogVersion");
  text ← decode_part (env_payload envelope) (get_string "text");
  dialog ← dialog_by_id target;
  if negb (expected =? dlg_version dialog) then stale (dlg_version dialog) "dialog" else
  s ← get st;
  if QueueCapacity <=? PendingCount s then reject 429 "queue_full" "pending queue is full" else
  messageID ← newID;
  requestID ← newID;
  t ← now;
  exec (insert_message (mkMessage messageID target (NextMessageSequence s) 1 "user" (Some text) None (Some "queued")
                          (Some (env_command envelope)) (Some requestID) None None t)) ;;
  exec (insert_request (mkRequest requestID target messageID (NextQueueSequence s) 1 "queued" t t)) ;;
  exec (update_dialog target (fun d => d <| dlg_version ::= Z.succ |>)) ;;
  let sequence := NextMessageSequence s in
  setst (fun s => s <| NextMessageSequence ::= Z.succ |> <| NextQueueSequence ::= Z.succ |> <| PendingCount ::= Z.succ |>
                    <| QueueVersion ::= Z.succ |> <| StateVersion ::= Z.succ |>) ;;
  appendEvent "message.accepted" messageID 1 "" "" (MessageAcceptedPayload target messageID requestID sequence "queued") false ;;
  appendQueueEvent ;;
  appendNodeEvent ;;
  s ← get st;
  mret (mkApplied (references [("dialogId", target); ("messageId", messageID); ("requestId", requestID)]) "admitted"
          (blockingReason s) no_action).

(** ** request.cancel *)
Definition applyRequestCancel (envelope : CommandEnvelope) : M applied :=
  target ← decode_part (env_target envelope) (get_string "requestId");
  expected ← decode_part (env_expected envelope) (get_int "requestVersion");
  request ← request_by_id target;
  let version := req_version request in
  let status := req_status request in
  let messageID := req_message request in
  if negb (expected =? version) then stale version status else
  if negb (status =s "queued") then stale version status else
  t ← now;
  exec (update_request target (fun r => r <| req_version ::= Z.succ |> <| req_status := "cancelled" |> <| req_updated := t |>)) ;;
  exec (update_message messageID (fun m => m <| msg_version ::= Z.succ |> <| msg_disposition := Some "cancelled" |>)) ;;
  setst (fun s => s <| PendingCount ::= Z.pred |> <| QueueVersion ::= Z.succ |> <| StateVersion ::= Z.succ |>) ;;
  appendEvent "message.disposition_changed" messageID 2 "" ""
    (MessageDispositionPayload messageID "queued" "cancelled" "request_cancelled") false ;;
  appendQueueEvent ;;
  appendNodeEvent ;;
  mret (mkApplied (references [("requestId", target)]) "admitted" "" no_action).

(** ** queue.resume *)
Definition applyQueueResume (envelope : CommandEnvelope) : M applied :=
  expected ← decode_part (env_expected envelope) (get_int "queueVersion");
  s ← get st;
  if negb (expected =? QueueVersion s) then stale (QueueVersion s) "queue" else
  setst (fun s => s <| QueuePaused := false |> <| BlockedReasons ::= fun l => removeReason l "operator_pause" |>
                    <| QueueVersion ::= Z.succ |> <| StateVersion ::= Z.succ |>) ;;
  appendQueueEvent ;;
  appendNodeEvent ;;
  s ← get st;
  mret (mkApplied (references [("nodeId", NodeID s)]) "applied" (blockingReason s) no_action).

(** ** attempt.stop *)
Definition active_is (s : durableState) (attempt : string) : bool := is_text (ActiveAttemptID s) attempt.

Definition attempt_scope_payload (generation : Z) (dialog request : string) : json :=
  JObj [("dialogId", JStr dialog); ("generation", JInt generation); ("requestId", JStr request)].

Definition applyAttemptStop (envelope : CommandEnvelope) : M applied :=
  target ← decode_part (env_target envelope) (get_string "attemptId");
  expected ← decode_part (env_expected envelope) (get_int "attemptGeneration");
  attempt ← attempt_by_id target;
  let generation := att_generation attempt in
  s ← get st;
  if negb (expected =? generation) || negb (active_is s target) then stale generation (att_state attempt) else
  if negb (in_set (att_state attempt) ["dispatching"; "running"; "waiting_input"; "stopping"]) then
    stale generation (att_state attempt) else
  exec (update_attempt target (fun a => a <| att_version ::= Z.succ |> <| att_state := "stopping" |>)) ;;
  setst (fun s => s <| QueuePaused := true |> <| BlockedReasons ::= fun l => addReason l "operator_pause" |>
                    <| QueueVersion ::= Z.succ |> <| StateVersion ::= Z.succ |>) ;;
  appendEvent "attempt.stop_requested" target (att_version attempt + 1) target (att_dialog attempt)
    (AttemptStopRequestedPayload generation (env_command envelope)) false ;;
  appendQueueEvent ;;
  appendNodeEvent ;;
  mret (mkApplied (references [("attemptId", target)]) "admitted" "operator_pause"
          (mkPost "" (env_kind envelope) target "" "" (attempt_scope_payload generation (att_dialog attempt) (att_request attempt)))).

(** ** attempt.retry *)
Definition request_attempts (db : Db) : list (request_row * attempt_row) :=
  List.flat_map (fun r => List.map (pair r) (List.filter (fun a => att_request a =s req_id r) (attempts db))) (requests db).

Definition latest_sequence (db : Db) (message : string) : option Z :=
  max_by req_sequence (List.filter (fun r => req_message r =s message) (requests db)).
Definition latest_generation (db : Db) (message : string) : option Z :=
  max_by (fun ra => att_generation ra.2) (List.filter (fun ra => req_message ra.1 =s message) (request_attempts db)).

Definition is_latest (db : Db) (message : string) (ra : request_row * attempt_row) : bool :=
  bool_decide (latest_sequence db message = Some (req_sequence ra.1))
  && bool_decide (latest_generation db message = Some (att_generation ra.2)).

Definition safe_failed (ra : request_row * attempt_row) : bool :=
  in_set (req_status ra.1) ["failed"; "interrupted"] && in_set (att_state ra.2) ["failed"; "interrupted"]
  && (att_effect ra.2 =s "none").

(** The retry target is the latest attempt for its input, and every later
    original input of the dialog is the latest of its own failed, effect-free tail. *)
Definition retry_eligible (attempt message dialog : string) (db : Db) : bool :=
  exists_where (fun ra => (att_id ra.2 =s attempt) && is_latest db message ra) (request_attempts db)
  && negb (exists_where (fun m =>
       (msg_dialog m =s dialog) && (msg_role m =s "user")
       && exists_where (fun r => req_message r =s msg_id m) (requests db)
       && match select1 (fun x => msg_id x =s message) (messages db) with
          | Some x => msg_sequence x <? msg_sequence m
          | None => false
          end
       && negb (exists_where (fun ra => (req_message ra.1 =s msg_id m) && is_latest db (msg_id m) ra && safe_failed ra)
                  (request_attempts db))) (messages db)).

Definition pendingRetryStatuses : list string := ["queued"; "dispatching"; "active"; "unknown"].

Definition applyAttemptRetry (envelope : CommandEnvelope) : M applied :=
  target ← decode_part (env_target envelope) (get_string "attemptId");
  expected ← decode_part (env_expected envelope) (get_int "attemptGeneration");
  acknowledged ← decode_part (env_payload envelope) (get_bool "acknowledgeKnownEffects");
  row ← query_row (fun db => a ← select1 (fun a => att_id a =s target) (attempts db);
                             r ← select1 (fun r => req_id r =s att_request a) (requests db);
                             Some (a, req_message r));
  let '(attempt, messageID) := row in
  let generation := att_generation attempt in
  if negb (expected =? generation) then stale generation (att_state attempt) else
  if negb (in_set (att_state attempt) ["failed"; "interrupted"]) then stale generation (att_state attempt) else
  if att_effect attempt =s "unknown" then reject 409 "stale" "unknown effects require reconciliation" else
  if (att_effect attempt =s "known") && negb acknowledged then
    reject 409 "stale" "known effects require acknowledgement" else
  eligible ← query (retry_eligible target messageID (att_dialog attempt));
  if negb eligible then reject 409 "stale" "retry target is superseded or outside the safe failed tail" else
  s ← get st;
  if QueueCapacity <=? PendingCount s then reject 429 "queue_full" "pending queue is full" else
  existing ← query (fun db => exists_where (fun r => (req_message r =s messageID) && in_set (req_status r) pendingRetryStatuses) (requests db));
  if (existing : bool) then reject 409 "stale" "a retry for this input is already pending" else
  requestID ← newID;
  t ← now;
  exec (insert_request (mkRequest requestID (att_dialog attempt) messageID (NextQueueSequence s) 1 "queued" t t)) ;;
  setst (fun s => s <| NextQueueSequence ::= Z.succ |> <| PendingCount ::= Z.succ |> <| QueueVersion ::= Z.succ |>
                    <| StateVersion ::= Z.succ |>) ;;
  appendQueueEvent ;;
  appendNodeEvent ;;
  s ← get st;
  mret (mkApplied (references [("priorAttemptId", target); ("requestId", requestID)]) "admitted" (blockingReason s) no_action).

(** ** message.steer *)
Definition applyMessageSteer (envelope : CommandEnvelope) : M applied :=
  targetDialogID ← decode_part (env_target envelope) (get_string "dialogId");
  targetAttemptID ← decode_part (env_target envelope) (get_string "attemptId");
  targetMessageID ← decode_part (env_target envelope) (get_string "messageId");
  expectedGeneration ← decode_part (env_expected envelope) (get_int "attemptGeneration");
  expectedMessage ← decode_part (env_expected envelope) (get_int "messageVersion");
  attempt ← attempt_by_id targetAttemptID;
  (* the scan fails on a NULL disposition, request or text *)
  row ← query_row (fun db => select1 (fun m => (msg_id m =s targetMessageID) && (msg_dialog m =s targetDialogID)) (messages db));
  cells ← match msg_disposition row, msg_request row, msg_text row with
          | Some d, Some r, Some t => mret (d, r, t)
          | _, _, _ => fail (Broken "sql: converting NULL to string is unsupported")
          end;
  let '(disposition, requestID, text) := cells in
  let generation := att_generation attempt in
  s ← get st;
  if negb (generation =? expectedGeneration) || negb (msg_version row =? expectedMessage)
     || negb (att_dialog attempt =s targetDialogID) || negb (active_is s targetAttemptID)
  then stale generation (att_state attempt) else
  if negb (disposition =s "queued") || negb (in_set (att_state attempt) ["running"; "waiting_input"])
  then stale (msg_version row) disposition else
  exec (update_message targetMessageID (fun m => m <| msg_version ::= Z.succ |> <| msg_disposition := Some "steer_pending" |>)) ;;
  setst (fun s => s <| QueueVersion ::= Z.succ |> <| StateVersion ::= Z.succ |>) ;;
  appendEvent "message.disposition_changed" targetMessageID (msg_version row + 1) "" ""
    (MessageDispositionPayload targetMessageID "queued" "steer_pending" "steer_requested") false ;;
  appendQueueEvent ;;
  mret (mkApplied (references [("dialogId", targetDialogID); ("messageId", targetMessageID); ("attemptId", targetAttemptID)]) "admitted" ""
          (mkPost "" (env_kind envelope) targetAttemptID targetMessageID ""
             (JObj [("dialogId", JStr targetDialogID); ("generation", JInt generation); ("requestId", JStr requestID); ("text", JStr text)]))).

(** ** approval.respond *)
Definition applyApproval (envelope : CommandEnvelope) : M applied :=
  targetApprovalID ← decode_part (env_target envelope) (get_string "approvalId");
  targetAttemptID ← decode_part (env_target envelope) (get_string "attemptId");
  expectedVersion ← decode_part (env_expected envelope) (get_int "approvalVersion");
  expectedGeneration ← decode_part (env_expected envelope) (get_int "attemptGeneration");
  decision ← decode_part (env_payload envelope) (get_string "decision");
  actionHash ← decode_part (env_payload envelope) (get_string "actionHash");
  row ← query_row (fun db => p ← select1 (fun p => (apr_id p =s targetApprovalID) && (apr_attempt p =s targetAttemptID)) (approvals db);
                             a ← select1 (fun a => att_id a =s apr_attempt p) (attempts db);
                             Some (p, a));
  let '(approval, attempt) := row in
  let version := apr_version approval in
  let generation := att_generation attempt in
  if negb (version =? expectedVersion) || negb (generation =? expectedGeneration) || negb (apr_status approval =s "pending")
     || negb (apr_hash approval =s actionHash)
  then stale version (apr_status approval) else
  owner ← ask cfg_owner;
  exec (update_approval (fun p => apr_id p =s targetApprovalID)
          (fun p => p <| apr_version ::= Z.succ |> <| apr_status := "responding" |> <| apr_decision := Some decision |>
                      <| apr_actor := Some owner |>)) ;;
  mret (mkApplied (references [("approvalId", targetApprovalID); ("attemptId", targetAttemptID)]) "admitted" ""
          (mkPost "" (env_kind envelope) targetAttemptID "" owner
             (JObj [("actionHash", JStr actionHash); ("approvalId", JStr targetApprovalID); ("approvalVersion", JInt (version + 1));
                    ("callId", JStr (apr_call approval)); ("decision", JStr decision); ("dialogId", JStr (att_dialog attempt));
                    ("generation", JInt generation); ("requestId", JStr (att_request attempt))]))).

(** ** input.respond *)
Definition applyInput (envelope : CommandEnvelope) : M applied :=
  targetInputID ← decode_part (env_target envelope) (get_string "inputRequestId");
  targetAttemptID ← decode_part (env_target envelope) (get_string "attemptId");
  expectedVersion ← decode_part (env_expected envelope) (get_int "inputVersion");
  expectedGeneration ← decode_part (env_expected envelope) (get_int "attemptGeneration");
  text ← decode_part (env_payload envelope) (get_string "text");
  row ← query_row (fun db => i ← select1 (fun i => (inp_id i =s targetInputID) && (inp_attempt i =s targetAttemptID)) (input_requests db);
                             a ← select1 (fun a => att_id a =s inp_attempt i) (attempts db);
                             Some (i, a));
  let '(input, attempt) := row in
  let version := inp_version input in
  let generation := att_generation attempt in
  if negb (version =? expectedVersion) || negb (generation =? expectedGeneration) || negb (inp_status input =s "pending")
  then stale version (inp_status input) else
  messageID ← newID;
  t ← now;
  s ← get st;
  exec (insert_message (mkMessage messageID (att_dialog attempt) (NextMessageSequence s) 1 "user" (Some text) None (Some "applied")
                          (Some (env_command envelope)) (Some (att_request attempt)) (Some targetAttemptID) None t)) ;;
  exec (update_input (fun i => inp_id i =s targetInputID)
          (fun i => i <| inp_version ::= Z.succ |> <| inp_status := "responding" |> <| inp_response := Some messageID |>)) ;;
  setst (fun s => s <| NextMessageSequence ::= Z.succ |>) ;;
  owner ← ask cfg_owner;
  mret (mkApplied (references [("inputRequestId", targetInputID); ("attemptId", targetAttemptID); ("messageId", messageID)]) "admitted" ""
          (mkPost "" (env_kind envelope) targetAttemptID messageID owner
             (JObj [("dialogId", JStr (att_dialog attempt)); ("generation", JInt generation); ("inputRequestId", JStr targetInputID);
                    ("inputVersion", JInt (version + 1)); ("requestId", JStr (att_request attempt)); ("text", JStr text)]))).

(** ** [applyCommand] *)
Definition applyCommand (envelope : CommandEnvelope) : M applied :=
  let kind := env_kind envelope in
  if kind =s CommandDialogCreate then applyDialogCreate envelope
  else if kind =s CommandMessageEnqueue then applyMessageEnqueue envelope
  else if kind =s CommandRequestCancel then applyRequestCancel envelope
  else if kind =s CommandQueueResume then applyQueueResume envelope
  else if kind =s CommandAttemptStop then applyAttemptStop envelope
  else if kind =s CommandAttemptRetry then applyAttemptRetry envelope
  else if kind =s CommandMessageSteer then applyMessageSteer envelope
  else if kind =s CommandApprovalRespond then applyApproval envelope
  else if kind =s CommandInputRespond then applyInput envelope
  else reject 400 "invalid" "unsupported command kind".
