(* ===== verification/Budget.v ===== *)
(** * The output budget of an attempt, [runtime/output_budget.go]
    Bytes of distinct output projections are charged to the attempt, or to the
    archive row that records a late one.  A value above the maximum is a sticky
    overflow marker. *)
From stdpp Require Import base tactics list strings gmap pretty.
From Stdlib Require Import ZArith Lia Ascii String.
From S2P Require Import Prelude Json Wire Store Tx Adapter Events Commands.
Open Scope string_scope.
Open Scope list_scope.
Open Scope Z_scope.
Open Scope harness_scope.

Definition MaximumAttemptOutputBytes : Z := 64 * 1024 * 1024.

Record outputCharge := mkCharge { Exceeded : bool; NewlyExceeded : bool }.
Definition uncharged : outputCharge := mkCharge false false.

(** [SELECT COALESCE(SUM(output_bytes),0) .. AND projection_key IS NOT NULL] *)
Definition archived_bytes (attempt : string) (db : Db) : Z :=
  fold_right (fun l sum => (if (late_attempt l =s attempt) && match late_key l with Some _ => true | None => false end
                            then late_output l else 0) + sum) 0 (late_observations db).
Definition over_budget (active archived : Z) : bool :=
  (MaximumAttemptOutputBytes <? active) || (MaximumAttemptOutputBytes <? archived)
  || (MaximumAttemptOutputBytes - archived <? active).

Definition attempt_ledger (attemptID : string) : M (Z * Z) :=
  a ← attempt_by_id attemptID;
  archived ← query (archived_bytes attemptID);
  mret (att_output a, archived).

(** [UPDATE .. AND output_bytes=?], whose row count must be one. *)
Definition fenced_charge (attemptID : string) (current next : Z) : M unit :=
  changed ← exec_changed (charge_attempt attemptID current next);
  if changed =? 1 then mret tt else fail (Broken "output charge fence changed").

Definition chargeAttemptOutput (attemptID : string) (bytes : Z) : M outputCharge :=
  if (bytes <? 0) || (MaximumAttemptOutputBytes <? bytes) then fail (Broken "output charge is invalid") else
  ledger ← attempt_ledger attemptID;
  let '(current, archived) := ledger in
  if over_budget current archived then mret (mkCharge true false) else
  if MaximumAttemptOutputBytes - current - archived <? bytes then
    fenced_charge attemptID current (MaximumAttemptOutputBytes + 1) ;; mret (mkCharge true true)
  else if bytes =? 0 then mret uncharged
  else fenced_charge attemptID current (current + bytes) ;; mret uncharged.

Definition inline_bytes (content : SafeContent) : Z := if sc_kind content =s "inline" then byte_length (sc_content content) else 0.
Definition chargeSafeOutput (attemptID : string) (content : SafeContent) : M outputCharge :=
  chargeAttemptOutput attemptID (inline_bytes content).

(** The charge and the bytes the archive row must carry. *)
Definition chargeArchivedAttemptOutput (attemptID : string) (bytes : Z) : M (outputCharge * Z) :=
  if (bytes <? 0) || (MaximumAttemptOutputBytes <? bytes) then fail (Broken "archived output charge is invalid") else
  ledger ← attempt_ledger attemptID;
  let '(active, archived) := ledger in
  if over_budget active archived then mret (mkCharge true false, 0) else
  let current := active + archived in
  if MaximumAttemptOutputBytes - current <? bytes then mret (mkCharge true true, MaximumAttemptOutputBytes + 1 - current)
  else mret (uncharged, bytes).

Definition attemptOutputExceeded (attemptID : string) : M bool :=
  ledger ← attempt_ledger attemptID; mret (over_budget ledger.1 ledger.2).

Definition outputLimitContent : SafeContent := mkContent "unavailable" "" "" None "" "output_limit" "unknown" true.
