(* ===== verification/Barrier.v ===== *)
(** * The administrative barrier records, [contracts/barrier/types.go]
    The six wire records of the admission barrier, their [json.Marshal] form,
    the exact decoder and [Validate]. *)
From stdpp Require Import base tactics list strings gmap pretty.
From Stdlib Require Import ZArith Lia Ascii String.
From S2P Require Import Prelude Json Wire Tx.
Open Scope string_scope.
Open Scope list_scope.
Open Scope Z_scope.
Open Scope harness_scope.

Definition BarrierSchemaID : string := "harness-barrier-v1".
Definition BarrierMaximumWireBytes : Z := Z.shiftl 16 10.

(** ** Records *)
Record Scope := mkScope { scope_kind : string; scope_dialog : string }.
#[export] Instance Scope_eq_dec : EqDecision Scope.
Proof. solve_decision. Defined.

Record InstallRequest := mkInstallRequest {
  ir_protocol : Z; ir_schema : string; ir_operation : string; ir_node : string; ir_epoch : Z; ir_binding : Z;
  ir_scope : Scope; ir_revision : Z }.
Record HoldReceipt := mkHoldReceipt {
  hr_protocol : Z; hr_schema : string; hr_kind : string; hr_operation : string; hr_receipt : string; hr_node : string;
  hr_epoch : Z; hr_binding : Z; hr_scope : Scope; hr_version : Z; hr_revision : Z; hr_installed : string }.
Record RejectionReceipt := mkRejectionReceipt {
  rr_protocol : Z; rr_schema : string; rr_kind : string; rr_command : string; rr_command_kind : string; rr_receipt : string;
  rr_node : string; rr_epoch : Z; rr_hash : string; rr_rejected : string; rr_reason : string; rr_hold : string;
  rr_version : Z; rr_scope : Scope; rr_revision : Z }.
Record QuiescenceProofRecord := mkProof {
  qp_protocol : Z; qp_schema : string; qp_kind : string; qp_operation : string; qp_node : string; qp_epoch : Z;
  qp_binding : Z; qp_scope : Scope; qp_version : Z; qp_revision : Z; qp_state : Z; qp_queue : Z; qp_parked : string;
  qp_stream : string; qp_seq : Z; qp_active : option string; qp_effect : string; qp_unsettled : Z; qp_hash : string }.
#[export] Instance proof_eta : Eta QuiescenceProofRecord := fun r =>
  mkProof (qp_protocol r) (qp_schema r) (qp_kind r) (qp_operation r) (qp_node r) (qp_epoch r) (qp_binding r) (qp_scope r)
    (qp_version r) (qp_revision r) (qp_state r) (qp_queue r) (qp_parked r) (qp_stream r) (qp_seq r) (qp_active r)
    (qp_effect r) (qp_unsettled r) (qp_hash r).
Record ReleaseRequest := mkReleaseRequest {
  lr_protocol : Z; lr_schema : string; lr_operation : string; lr_node : string; lr_epoch : Z; lr_binding : Z;
  lr_scope : Scope; lr_version : Z; lr_revision : Z; lr_action : string }.
Record ReleaseReceipt := mkReleaseReceipt {
  lc_protocol : Z; lc_schema : string; lc_kind : string; lc_operation : string; lc_receipt : string; lc_node : string;
  lc_epoch : Z; lc_binding : Z; lc_scope : Scope; lc_version : Z; lc_revision : Z; lc_manual_pause : bool;
  lc_released : string }.

(** ** [json.Marshal] *)
Definition Scope_json (s : Scope) : json := JObj ([("kind", JStr (scope_kind s))] ++ optional_member "dialogId" (scope_dialog s)).

Definition InstallRequest_json (r : InstallRequest) : json :=
  JObj [("protocolVersion", JInt (ir_protocol r)); ("schemaId", JStr (ir_schema r)); ("operationId", JStr (ir_operation r));
        ("nodeId", JStr (ir_node r)); ("expectedEpoch", JInt (ir_epoch r)); ("bindingGeneration", JInt (ir_binding r));
        ("scope", Scope_json (ir_scope r)); ("expectedScopeRevision", JInt (ir_revision r))].
Definition HoldReceipt_json (r : HoldReceipt) : json :=
  JObj [("protocolVersion", JInt (hr_protocol r)); ("schemaId", JStr (hr_schema r)); ("kind", JStr (hr_kind r));
        ("operationId", JStr (hr_operation r)); ("receiptId", JStr (hr_receipt r)); ("nodeId", JStr (hr_node r));
        ("epoch", JInt (hr_epoch r)); ("bindingGeneration", JInt (hr_binding r)); ("scope", Scope_json (hr_scope r));
        ("holdVersion", JInt (hr_version r)); ("scopeRevision", JInt (hr_revision r)); ("installedAt", JStr (hr_installed r))].
Definition RejectionReceipt_json (r : RejectionReceipt) : json :=
  JObj [("protocolVersion", JInt (rr_protocol r)); ("schemaId", JStr (rr_schema r)); ("kind", JStr (rr_kind r));
        ("commandId", JStr (rr_command r)); ("commandKind", JStr (rr_command_kind r)); ("receiptId", JStr (rr_receipt r));
        ("nodeId", JStr (rr_node r)); ("epoch", JInt (rr_epoch r)); ("canonicalPayloadHash", JStr (rr_hash r));
        ("rejectedAt", JStr (rr_rejected r)); ("reason", JStr (rr_reason r)); ("holdOperationId", JStr (rr_hold r));
        ("holdVersion", JInt (rr_version r)); ("scope", Scope_json (rr_scope r)); ("scopeRevision", JInt (rr_revision r))].
(** The members [ComputeProofHash] hashes, and the hash after them. *)
Definition proof_members (p : QuiescenceProofRecord) : list (string * json) :=
  [("protocolVersion", JInt (qp_protocol p)); ("schemaId", JStr (qp_schema p)); ("kind", JStr (qp_kind p));
   ("operationId", JStr (qp_operation p)); ("nodeId", JStr (qp_node p)); ("epoch", JInt (qp_epoch p));
   ("bindingGeneration", JInt (qp_binding p)); ("scope", Scope_json (qp_scope p)); ("holdVersion", JInt (qp_version p));
   ("scopeRevision", JInt (qp_revision p)); ("stateVersion", JInt (qp_state p)); ("queueRevision", JInt (qp_queue p));
   ("parkedRequestIdsDigest", JStr (qp_parked p)); ("checkpointStreamId", JStr (qp_stream p));
   ("checkpointSeq", JInt (qp_seq p)); ("active", match qp_active p with Some a => JStr a | None => JNull end);
   ("effectStatus", JStr (qp_effect p)); ("unsettledCount", JInt (qp_unsettled p))].
Definition QuiescenceProof_json (p : QuiescenceProofRecord) : json :=
  JObj (proof_members p ++ [("proofHash", JStr (qp_hash p))]).
Definition ReleaseRequest_json (r : ReleaseRequest) : json :=
  JObj [("protocolVersion", JInt (lr_protocol r)); ("schemaId", JStr (lr_schema r)); ("operationId", JStr (lr_operation r));
        ("nodeId", JStr (lr_node r)); ("expectedEpoch", JInt (lr_epoch r)); ("bindingGeneration", JInt (lr_binding r));
        ("scope", Scope_json (lr_scope r)); ("holdVersion", JInt (lr_version r)); ("expectedScopeRevision", JInt (lr_revision r));
        ("action", JStr (lr_action r))].
Definition ReleaseReceipt_json (r : ReleaseReceipt) : json :=
  JObj [("protocolVersion", JInt (lc_protocol r)); ("schemaId", JStr (lc_schema r)); ("kind", JStr (lc_kind r));
        ("operationId", JStr (lc_operation r)); ("receiptId", JStr (lc_receipt r)); ("nodeId", JStr (lc_node r));
        ("epoch", JInt (lc_epoch r)); ("bindingGeneration", JInt (lc_binding r)); ("scope", Scope_json (lc_scope r));
        ("holdVersion", JInt (lc_version r)); ("scopeRevision", JInt (lc_revision r)); ("manualPause", JBool (lc_manual_pause r));
        ("releasedAt", JStr (lc_released r))].

(** ** [decodeExact]
    [encoding/json] matches a member to the struct field whose name folds to
    the same letters, refuses members no field matches, and lets a later member
    of a field overwrite an earlier one; [null] leaves the field alone.  The
    code points U+017F and U+212A fold to the letters S and K. *)
Definition upper (c : ascii) : ascii :=
  if char_between "a" "z" c then ascii_of_N (N_of_ascii c - 32) else c.
Fixpoint fold_name (s : string) : string :=
  match s with
  | String a (String b r2 as r1) =>
      let plain := String (upper a) (fold_name r1) in
      if ((N_of_ascii a =? 197) && (N_of_ascii b =? 191))%N then String "S" (fold_name r2)
      else
        match r2 with
        | String c r3 =>
            if ((N_of_ascii a =? 226) && (N_of_ascii b =? 132) && (N_of_ascii c =? 170))%N
            then String "K" (fold_name r3) else plain
        | EmptyString => plain
        end
  | String a EmptyString => String (upper a) EmptyString
  | EmptyString => EmptyString
  end.
Definition names (key name : string) : bool := fold_name key =s fold_name name.

Inductive field_type := FieldInt | FieldString | FieldBool | FieldScope.
Definition scope_fields : list (string * field_type) := [("kind", FieldString); ("dialogId", FieldString)].

Definition scalar_fits (t : field_type) (v : json) : bool :=
  match t, v with
  | _, JNull => true
  | FieldInt, JNum lit => match parse_int64 lit with Some _ => true | None => false end
  | FieldString, JStr _ | FieldBool, JBool _ => true
  | _, _ => false
  end.
Definition known (fields : list (string * field_type)) (fits : field_type -> json -> bool) (kv : string * json) : bool :=
  match List.find (fun f => names kv.1 f.1) fields with Some f => fits f.2 kv.2 | None => false end.
Definition fits (t : field_type) (v : json) : bool :=
  match t, v with
  | FieldScope, JObj m => forallb (known scope_fields scalar_fits) m
  | _, _ => scalar_fits t v
  end.

Definition decodeExact (fields : list (string * field_type)) (raw : document) : option (list (string * json)) :=
  match doc_value raw with
  | Some (JObj m) => if forallb (known fields fits) m then Some m else None
  | Some JNull => Some []
  | _ => None
  end.

Section Read.
Variable m : list (string * json).
Definition read {A} (name : string) (zero : A) (pick : json -> option A) : A :=
  fold_left (fun acc kv => if names kv.1 name then default acc (pick kv.2) else acc) m zero.
Definition read_string (name : string) : string := read name "" (fun v => match v with JStr s => Some s | _ => None end).
Definition read_int (name : string) : Z := read name 0 (fun v => match v with JNum lit => parse_int64 lit | _ => None end).
Definition read_bool (name : string) : bool := read name false (fun v => match v with JBool b => Some b | _ => None end).
Definition read_pointer (name : string) : option string :=
  read name None (fun v => match v with JStr s => Some (Some s) | JNull => Some None | _ => None end).
(** A second scope object decodes into the same struct: its members follow. *)
Definition read_members (name : string) : list (string * json) :=
  List.flat_map (fun kv => if names kv.1 name then match kv.2 with JObj s => s | _ => [] end else []) m.
End Read.

Definition read_scope (m : list (string * json)) : Scope :=
  let s := read_members m "scope" in mkScope (read_string s "kind") (read_string s "dialogId").

Definition installRequest_fields : list (string * field_type) :=
  [("protocolVersion", FieldInt); ("schemaId", FieldString); ("operationId", FieldString); ("nodeId", FieldString);
   ("expectedEpoch", FieldInt); ("bindingGeneration", FieldInt); ("scope", FieldScope); ("expectedScopeRevision", FieldInt)].
Definition InstallRequest_of (m : list (string * json)) : InstallRequest :=
  mkInstallRequest (read_int m "protocolVersion") (read_string m "schemaId") (read_string m "operationId")
    (read_string m "nodeId") (read_int m "expectedEpoch") (read_int m "bindingGeneration") (read_scope m)
    (read_int m "expectedScopeRevision").

Definition holdReceipt_fields : list (string * field_type) :=
  [("protocolVersion", FieldInt); ("schemaId", FieldString); ("kind", FieldString); ("operationId", FieldString);
   ("receiptId", FieldString); ("nodeId", FieldString); ("epoch", FieldInt); ("bindingGeneration", FieldInt);
   ("scope", FieldScope); ("holdVersion", FieldInt); ("scopeRevision", FieldInt); ("installedAt", FieldString)].
Definition HoldReceipt_of (m : list (string * json)) : HoldReceipt :=
  mkHoldReceipt (read_int m "protocolVersion") (read_string m "schemaId") (read_string m "kind") (read_string m "operationId")
    (read_string m "receiptId") (read_string m "nodeId") (read_int m "epoch") (read_int m "bindingGeneration") (read_scope m)
    (read_int m "holdVersion") (read_int m "scopeRevision") (read_string m "installedAt").

Definition rejectionReceipt_fields : list (string * field_type) :=
  [("protocolVersion", FieldInt); ("schemaId", FieldString); ("kind", FieldString); ("commandId", FieldString);
   ("commandKind", FieldString); ("receiptId", FieldString); ("nodeId", FieldString); ("epoch", FieldInt);
   ("canonicalPayloadHash", FieldString); ("rejectedAt", FieldString); ("reason", FieldString);
   ("holdOperationId", FieldString); ("holdVersion", FieldInt); ("scope", FieldScope); ("scopeRevision", FieldInt)].
Definition RejectionReceipt_of (m : list (string * json)) : RejectionReceipt :=
  mkRejectionReceipt (read_int m "protocolVersion") (read_string m "schemaId") (read_string m "kind")
    (read_string m "commandId") (read_string m "commandKind") (read_string m "receiptId") (read_string m "nodeId")
    (read_int m "epoch") (read_string m "canonicalPayloadHash") (read_string m "rejectedAt") (read_string m "reason")
    (read_string m "holdOperationId") (read_int m "holdVersion") (read_scope m) (read_int m "scopeRevision").

Definition quiescenceProof_fields : list (string * field_type) :=
  [("protocolVersion", FieldInt); ("schemaId", FieldString); ("kind", FieldString); ("operationId", FieldString);
   ("nodeId", FieldString); ("epoch", FieldInt); ("bindingGeneration", FieldInt); ("scope", FieldScope);
   ("holdVersion", FieldInt); ("scopeRevision", FieldInt); ("stateVersion", FieldInt); ("queueRevision", FieldInt);
   ("parkedRequestIdsDigest", FieldString); ("checkpointStreamId", FieldString); ("checkpointSeq", FieldInt);
   ("active", FieldString); ("effectStatus", FieldString); ("unsettledCount", FieldInt); ("proofHash", FieldString)].
Definition QuiescenceProof_of (m : list (string * json)) : QuiescenceProofRecord :=
  mkProof (read_int m "protocolVersion") (read_string m "schemaId") (read_string m "kind") (read_string m "operationId")
    (read_string m "nodeId") (read_int m "epoch") (read_int m "bindingGeneration") (read_scope m) (read_int m "holdVersion")
    (read_int m "scopeRevision") (read_int m "stateVersion") (read_int m "queueRevision")
    (read_string m "parkedRequestIdsDigest") (read_string m "checkpointStreamId") (read_int m "checkpointSeq")
    (read_pointer m "active") (read_string m "effectStatus") (read_int m "unsettledCount") (read_string m "proofHash").

Definition releaseRequest_fields : list (string * field_type) :=
  [("protocolVersion", FieldInt); ("schemaId", FieldString); ("operationId", FieldString); ("nodeId", FieldString);
   ("expectedEpoch", FieldInt); ("bindingGeneration", FieldInt); ("scope", FieldScope); ("holdVersion", FieldInt);
   ("expectedScopeRevision", FieldInt); ("action", FieldString)].
Definition ReleaseRequest_of (m : list (string * json)) : ReleaseRequest :=
  mkReleaseRequest (read_int m "protocolVersion") (read_string m "schemaId") (read_string m "operationId")
    (read_string m "nodeId") (read_int m "expectedEpoch") (read_int m "bindingGeneration") (read_scope m)
    (read_int m "holdVersion") (read_int m "expectedScopeRevision") (read_string m "action").

Definition releaseReceipt_fields : list (string * field_type) :=
  [("protocolVersion", FieldInt); ("schemaId", FieldString); ("kind", FieldString); ("operationId", FieldString);
   ("receiptId", FieldString); ("nodeId", FieldString); ("epoch", FieldInt); ("bindingGeneration", FieldInt);
   ("scope", FieldScope); ("holdVersion", FieldInt); ("scopeRevision", FieldInt); ("manualPause", FieldBool);
   ("releasedAt", FieldString)].
Definition ReleaseReceipt_of (m : list (string * json)) : ReleaseReceipt :=
  mkReleaseReceipt (read_int m "protocolVersion") (read_string m "schemaId") (read_string m "kind") (read_string m "operationId")
    (read_string m "receiptId") (read_string m "nodeId") (read_int m "epoch") (read_int m "bindingGeneration") (read_scope m)
    (read_int m "holdVersion") (read_int m "scopeRevision") (read_bool m "manualPause") (read_string m "releasedAt").

(** ** Field predicates *)
Definition validPins (version : Z) (schema : string) : bool := (version =? ProtocolVersion) && (schema =s BarrierSchemaID).
Definition validSafeInteger (value : Z) : bool := (0 <=? value) && (value <=? MaximumSafeInteger).
Definition validPositiveInteger (value : Z) : bool := (0 <? value) && (value <=? MaximumSafeInteger).
Definition operationPattern : string -> bool := actorPattern.

Definition validScope (scope : Scope) : bool :=
  if scope_kind scope =s "node" then scope_dialog scope =s ""
  else if scope_kind scope =s "dialog" then uuidPattern (scope_dialog scope)
  else false.

(** The scope object has no members beyond the ones its kind needs. *)
Definition validScopeEncoding (raw : document) : bool :=
  match (v ← doc_value raw; field "scope" v) with
  | Some (JObj scope) =>
      match member "kind" scope with
      | Some (JStr kind) =>
          if kind =s "node" then Nat.eqb (List.length scope) 1
          else if kind =s "dialog" then Nat.eqb (List.length scope) 2 && has_key "dialogId" scope
          else false
      | _ => false
      end
  | _ => false
  end.

Definition exactFields (raw : document) (fields : list string) : bool :=
  match doc_value raw with
  | Some (JObj m) => Nat.eqb (List.length m) (List.length fields) && forallb (fun f => has_key f m) fields
  | _ => false
  end.

Definition validRejectedCommand (kind : string) : bool :=
  existsb (String.eqb kind) ["dialog.create"; "dialog.delete"; "message.enqueue"; "queue.resume"; "attempt.retry"].

Fixpoint last_char (s : string) : option ascii :=
  match s with
  | EmptyString => None
  | String c EmptyString => Some c
  | String _ s' => last_char s'
  end.

(** [time.Parse] accepts the text and [Format] gives it back: no trailing zero
    in the fraction, and the zero offset is written [Z]. *)
Definition zero_offset (z : string) : bool := negb (z =s "Z") && (number_at z 1 2 =? 0) && (number_at z 4 2 =? 0).
Definition validTimestamp (value : string) : bool :=
  match match_classes date_time value with
  | Some rest =>
      match fraction rest with
      | Some (d, z) =>
          calendar value && zone 24 z && negb (zero_offset z)
          && match last_char d with Some c => negb (c =? "0")%char | None => true end
      | None => false
      end
  | None => false
  end.

(** ** The proof hash and [Validate] *)
Section Digest.
Variable digest : string -> string.

Definition ComputeProofHash (p : QuiescenceProofRecord) : string :=
  digest ("hl263-quiescence-proof/v1" +:+ String (ascii_of_N 0) (marshal (JObj (proof_members p)))).

Definition valid_install_request (raw : document) (v : InstallRequest) : bool :=
  validPins (ir_protocol v) (ir_schema v) && operationPattern (ir_operation v) && uuidPattern (ir_node v)
  && validPositiveInteger (ir_epoch v) && validPositiveInteger (ir_binding v) && validSafeInteger (ir_revision v)
  && validScope (ir_scope v) && validScopeEncoding raw.

Definition valid_hold_receipt (raw : document) (v : HoldReceipt) : bool :=
  validPins (hr_protocol v) (hr_schema v) && (hr_kind v =s "hold.installed") && operationPattern (hr_operation v)
  && uuidPattern (hr_receipt v) && uuidPattern (hr_node v) && validPositiveInteger (hr_epoch v)
  && validPositiveInteger (hr_binding v) && validPositiveInteger (hr_version v) && validPositiveInteger (hr_revision v)
  && validScope (hr_scope v) && validScopeEncoding raw && validTimestamp (hr_installed v).

Definition valid_rejection_receipt (raw : document) (v : RejectionReceipt) : bool :=
  validPins (rr_protocol v) (rr_schema v) && (rr_kind v =s "command.rejected") && uuidPattern (rr_command v)
  && validRejectedCommand (rr_command_kind v) && uuidPattern (rr_receipt v) && uuidPattern (rr_node v)
  && validPositiveInteger (rr_epoch v) && sha256Pattern (rr_hash v) && validTimestamp (rr_rejected v)
  && (rr_reason v =s "administrative_hold") && operationPattern (rr_hold v) && validPositiveInteger (rr_version v)
  && validPositiveInteger (rr_revision v) && validScope (rr_scope v) && validScopeEncoding raw.

Definition valid_quiescence_proof (raw : document) (v : QuiescenceProofRecord) : bool :=
  exactFields raw (List.map fst quiescenceProof_fields)
  && validPins (qp_protocol v) (qp_schema v) && (qp_kind v =s "scope.parked") && operationPattern (qp_operation v)
  && uuidPattern (qp_node v) && validPositiveInteger (qp_epoch v) && validPositiveInteger (qp_binding v)
  && validScope (qp_scope v) && validScopeEncoding raw && validPositiveInteger (qp_version v)
  && validPositiveInteger (qp_revision v) && validPositiveInteger (qp_state v) && validPositiveInteger (qp_queue v)
  && sha256Pattern (qp_parked v) && uuidPattern (qp_stream v) && validPositiveInteger (qp_seq v)
  && match qp_active v with None => true | Some _ => false end
  && (qp_effect v =s "known") && (qp_unsettled v =? 0) && sha256Pattern (qp_hash v) && (qp_hash v =s ComputeProofHash v).

Definition valid_release_request (raw : document) (v : ReleaseRequest) : bool :=
  exactFields raw (List.map fst releaseRequest_fields)
  && validPins (lr_protocol v) (lr_schema v) && operationPattern (lr_operation v) && uuidPattern (lr_node v)
  && validPositiveInteger (lr_epoch v) && validPositiveInteger (lr_binding v) && validScope (lr_scope v)
  && validScopeEncoding raw && validPositiveInteger (lr_version v) && validPositiveInteger (lr_revision v)
  && ((lr_action v =s "release") || (lr_action v =s "cancel")).

Definition valid_release_receipt (raw : document) (v : ReleaseReceipt) : bool :=
  exactFields raw (List.map fst releaseReceipt_fields)
  && validPins (lc_protocol v) (lc_schema v) && ((lc_kind v =s "hold.released") || (lc_kind v =s "hold.cancelled"))
  && operationPattern (lc_operation v) && uuidPattern (lc_receipt v) && uuidPattern (lc_node v)
  && validPositiveInteger (lc_epoch v) && validPositiveInteger (lc_binding v) && validScope (lc_scope v)
  && validScopeEncoding raw && validPositiveInteger (lc_version v) && validPositiveInteger (lc_revision v)
  && validTimestamp (lc_released v).

Definition decoded {A} (fields : list (string * field_type)) (make : list (string * json) -> A)
    (valid : document -> A -> bool) (raw : document) : bool :=
  match decodeExact fields raw with Some m => valid raw (make m) | None => false end.

Definition BarrierValidate (wireType : string) (raw : document) : bool :=
  (0 <? doc_length raw) && (doc_length raw <=? BarrierMaximumWireBytes) && strict_document raw &&
  if wireType =s "installRequest" then decoded installRequest_fields InstallRequest_of valid_install_request raw
  else if wireType =s "holdReceipt" then decoded holdReceipt_fields HoldReceipt_of valid_hold_receipt raw
  else if wireType =s "rejectionReceipt" then decoded rejectionReceipt_fields RejectionReceipt_of valid_rejection_receipt raw
  else if wireType =s "quiescenceProof" then decoded quiescenceProof_fields QuiescenceProof_of valid_quiescence_proof raw
  else if wireType =s "releaseRequest" then decoded releaseRequest_fields ReleaseRequest_of valid_release_request raw
  else if wireType =s "releaseReceipt" then decoded releaseReceipt_fields ReleaseReceipt_of valid_release_receipt raw
  else false.
End Digest.
