(* ===== verification/Hold.v ===== *)
(** * Administrative holds, [runtime/hold.go]
    The admission barrier: installing, reading back and releasing a hold, the
    quiescence proof of a held scope, and the lookups [SubmitCommand] shares. *)
From stdpp Require Import base tactics list strings gmap pretty.
From Stdlib Require Import ZArith Lia Ascii String.
From S2P Require Import Prelude Json Wire Store Tx Adapter Events Commands Barrier.
Open Scope string_scope.
Open Scope list_scope.
Open Scope Z_scope.
Open Scope harness_scope.

Definition actionDispatchStart : string := "dispatch.start".

(** ** Canonical requests *)
Section Canonical.
Variable digest : string -> string.

(** The validated value and the digest of its canonical bytes. *)
Definition canonical_document (valid : bool) (raw : document) : option (json * string) :=
  if negb valid then None else
  value ← doc_value raw;
  canonical ← appendCanonical value;
  Some (value, digest canonical).

Definition CanonicalInstallRequest (raw : document) : option (json * string) :=
  canonical_document (BarrierValidate digest "installRequest" raw) raw.
Definition CanonicalReleaseRequest (raw : document) : option (json * string) :=
  canonical_document (BarrierValidate digest "releaseRequest" raw) raw.
Definition CanonicalCommand (raw : document) : option (json * string) :=
  canonical_document (Validate "command" raw) raw.
End Canonical.

(** ** Scopes *)
Definition durableHold_scope (h : hold_row) : Scope := mkScope (hold_scope h) (default "" (hold_dialog h)).

Definition scope_key (s : Scope) : string :=
  if scope_kind s =s "dialog" then scope_kind s +:+ ":" +:+ scope_dialog s else scope_kind s.

(** [(?='node' OR dialog_id=?)] *)
Definition in_scope (s : Scope) (dialog : string) : bool := (scope_kind s =s "node") || (dialog =s scope_dialog s).

(** The attempt an effect belongs to, joined by its primary key. *)
Definition attempt_in_scope (db : Db) (node : string) (s : Scope) (attempt : string) : bool :=
  match select1 (fun a => att_id a =s attempt) (attempts db) with
  | Some a => (att_node a =s node) && in_scope s (att_dialog a)
  | None => false
  end.

(** A dispatch that was committed but whose start is not acknowledged. *)
Definition pre_start (node : string) (s : Scope) (db : Db) : Z :=
  count_where (fun c =>
    match select1 (fun a => att_id a =s act_attempt c) (attempts db) with
    | Some a => (att_node a =s node) && (att_state a =s "dispatching")
                && match att_started a with None => true | Some _ => false end && in_scope s (att_dialog a)
    | None => false
    end && (act_kind c =s actionDispatchStart) && in_set (act_status c) ["pending"; "inflight"]) (control_actions db).

(** An active hold that overlaps the scope. *)
Definition hold_conflicts (db : Db) (node : string) (s : Scope) (h : hold_row) : bool :=
  (hold_node h =s node) && hold_active db h
  && ((hold_scope h =s "node") || (scope_kind s =s "node")
      || ((hold_scope h =s "dialog") && is_text (hold_dialog h) (scope_dialog s))).

Definition scope_revision_of (db : Db) (key : string) : option Z :=
  hsr_revision <$> select1 (fun r => hsr_key r =s key) (hold_scope_revisions db).

Definition dialog_owner (node dialog : string) (db : Db) : option string :=
  dlg_owner <$> select1 (fun d => (dlg_id d =s dialog) && (dlg_node d =s node) && negb (dialog_deleted db (dlg_id d))) (dialogs db).

(** ** [InstallHold] *)
(** An unreadable owner is the empty one, which only an empty configured owner equals. *)
Definition require_dialog_owner (s : durableState) (dialog : string) : M unit :=
  owner ← catch (o ← query_row (dialog_owner (NodeID s) dialog); mret (inl o))
            (fun e => mret (inr e));
  match owner with
  | inl o => if o =s OwnerID s then mret tt else answer 404 "not_found" "dialog was not found" "" None ""
  | inr NoRows => answer 404 "not_found" "dialog was not found" "" None ""
  | inr _ => if OwnerID s =s "" then answer 503 "not_durable" "dialog lookup failed" "" None ""
             else answer 404 "not_found" "dialog was not found" "" None ""
  end.

Definition interrupted (message correlation : string) : M Result :=
  r ← errorResult 503 "node_unavailable" message correlation None "";
  mret (mkResult 503 (Body r) true).

Definition commit_hold (s : durableState) (request : InstallRequest) (canonical : json) (digest : string)
    (currentRevision : Z) : M Result :=
  holdVersion ← or_not_durable (query hold_clock) "hold clock is unavailable" "";
  receiptID ← or_not_durable newID "hold receipt identity is unavailable" "";
  installedAt ← now;
  let receipt := HoldReceipt_json (mkHoldReceipt ProtocolVersion BarrierSchemaID "hold.installed" (ir_operation request) receiptID
                   (NodeID s) (Epoch s) (RegistryVersion s) (ir_scope request) holdVersion (currentRevision + 1) installedAt) in
  hash ← ask sha256_hex;
  if negb (BarrierValidate hash "holdReceipt" (document_of receipt)) then
    answer 503 "not_durable" "internal hold receipt is invalid" "" None "" else
  require_reserve "" ;;
  or_not_durable (exec (advance_hold_clock holdVersion)) "hold clock commit failed" "" ;;
  or_not_durable (exec (upsert_scope_revision (scope_key (ir_scope request)) (currentRevision + 1))) "hold revision commit failed" "" ;;
  or_not_durable (exec (insert_hold (mkHold (ir_operation request) (NodeID s) (Epoch s) (RegistryVersion s)
      (scope_kind (ir_scope request)) (nullText (scope_dialog (ir_scope request))) holdVersion (currentRevision + 1)
      canonical digest receipt installedAt))) "hold commit failed" "" ;;
  or_not_durable (checkFault FaultBeforeHoldCommit) "hold commit was not attempted" "" ;;
  or_not_durable commit "atomic hold commit failed" "" ;;
  afterCommit ;;
  catch (checkFault FaultAfterHoldCommit ;; mret (mkResult 201 receipt true))
    (fun _ => interrupted "hold receipt delivery was interrupted" "").

Definition install_locked (request : InstallRequest) (canonical : json) (digest : string) : M Result :=
  or_not_durable begin "durable store is unavailable" "" ;;
  or_not_durable loadState "durable state is unavailable" "" ;;
  s ← get st;
  stored ← or_not_durable (query (fun db => select1 (hold_named (ir_operation request)) (administrative_holds db))) "hold lookup failed" "";
  match stored with
  | Some h =>
      if negb (hold_hash h =s digest) then answer 409 "id_conflict" "operationId already names different bytes" "" None ""
      else mret (mkResult 200 (hold_receipt h) false)
  | None =>
      if negb (ir_epoch request =? Epoch s) || negb (ir_binding request =? RegistryVersion s) then
        answer 409 "stale" "node binding changed" "" (Some (Epoch s)) "blocked" else
      (if scope_kind (ir_scope request) =s "dialog" then require_dialog_owner s (scope_dialog (ir_scope request)) else mret tt) ;;
      preStart ← or_not_durable (query (pre_start (NodeID s) (ir_scope request))) "dispatch boundary lookup failed" "";
      if negb (preStart =? 0) then answer 409 "stale" "dispatch start is already in progress" "" None "active" else
      conflicts ← or_not_durable (query (fun db => count_where (hold_conflicts db (NodeID s) (ir_scope request)) (administrative_holds db)))
                    "hold conflict lookup failed" "";
      if negb (conflicts =? 0) then answer 409 "stale" "scope is already held" "" None "blocked" else
      revision ← or_not_durable (query (fun db => scope_revision_of db (scope_key (ir_scope request)))) "hold revision lookup failed" "";
      let currentRevision := default 0 revision in
      if negb (ir_revision request =? currentRevision) then
        answer 409 "stale" "hold scope revision changed" "" (Some currentRevision) "blocked" else
      commit_hold s request canonical digest currentRevision
  end.

Definition InstallHold (transport : string) (raw : document) : M Result :=
  node ← ask cfg_node;
  hash ← ask sha256_hex;
  if negb (transport =s node) then answer 404 "not_found" "node was not found" "" None "" else
  match CanonicalInstallRequest hash raw with
  | None => answer 400 "invalid" "hold request does not match harness-barrier-v1" "" None ""
  | Some (canonical, digest) =>
      match decodeExact installRequest_fields raw with
      | None => answer 400 "invalid" "hold request cannot be decoded" "" None ""
      | Some m =>
          let request := InstallRequest_of m in
          if negb (ir_node request =s node) then answer 404 "not_found" "node was not found" "" None ""
          else with_reserve (install_locked request canonical digest)
      end
  end.

(** ** [HoldStatus] *)
Definition HoldStatus (transport operationID : string) : M Result :=
  node ← ask cfg_node;
  if negb (transport =s node) then answer 404 "not_found" "node was not found" "" None "" else
  if (byte_length operationID =? 0) || (128 <? byte_length operationID) then
    answer 400 "invalid" "operation id is invalid" "" None "" else
  stored ← or_not_durable (autocommit (query (fun db => select1 (hold_named operationID) (administrative_holds db))))
             "hold status is unavailable" "";
  match stored with
  | None => answer 404 "not_found" "hold was not found" "" None ""
  | Some h =>
      hash ← ask sha256_hex;
      if negb (BarrierValidate hash "holdReceipt" (document_of (hold_receipt h))) then
        answer 503 "not_durable" "hold status is invalid" "" None ""
      else mret (mkResult 200 (hold_receipt h) false)
  end.

(** ** [QuiescenceProof] *)
(** [validBarrierOperationID]; its runes beyond the ASCII classes fail. *)
Definition validBarrierOperationID (value : string) : bool :=
  negb ((byte_length value =? 0) || (128 <? byte_length value)) &&
  match value with
  | EmptyString => true
  | String c rest => is_alnum c && all_chars is_identity_char rest
  end.

Definition active_in_scope (node : string) (s : Scope) (db : Db) : option attempt_row :=
  select1 (fun a => (att_node a =s node) && in_scope s (att_dialog a) && active_attempt a) (attempts db).

(** The seven counts of the settlement query. *)
Definition unsettled_requests (s : Scope) (db : Db) : Z :=
  count_where (fun r => in_scope s (req_dialog r) && in_set (req_status r) ["dispatching"; "active"; "unknown"]) (requests db).
Definition unsettled_attempts (node : string) (s : Scope) (db : Db) : Z :=
  count_where (fun a => (att_node a =s node) && in_scope s (att_dialog a) && negb (in_set (att_effect a) ["none"; "known"])) (attempts db).
Definition unsettled_actions (node : string) (s : Scope) (db : Db) : Z :=
  count_where (fun c => attempt_in_scope db node s (act_attempt c) && in_set (act_status c) ["pending"; "inflight"; "unknown"]) (control_actions db).
Definition unsettled_tools (node : string) (s : Scope) (db : Db) : Z :=
  count_where (fun t => attempt_in_scope db node s (tool_attempt t) && negb (in_set (tool_status t) ["succeeded"; "failed"])) (tool_calls db).
Definition unsettled_approvals (node : string) (s : Scope) (db : Db) : Z :=
  count_where (fun p => attempt_in_scope db node s (apr_attempt p) && negb (apr_status p =s "resolved")) (approvals db).
Definition unsettled_inputs (node : string) (s : Scope) (db : Db) : Z :=
  count_where (fun i => attempt_in_scope db node s (inp_attempt i) && negb (inp_status i =s "resolved")) (input_requests db).
Definition unsettled_completions (s : Scope) (db : Db) : Z :=
  count_where (fun e => ((scope_kind s =s "node") || is_text (evt_dialog e) (scope_dialog s)) && is_tool_completion e
                        && negb (in_set (default "unknown" (payload_effect_status e)) ["none"; "known"])) (events db).
Definition unsettled (node : string) (s : Scope) (db : Db) : Z :=
  unsettled_requests s db + unsettled_attempts node s db + unsettled_actions node s db + unsettled_tools node s db
  + unsettled_approvals node s db + unsettled_inputs node s db + unsettled_completions s db.

Definition parked_requests (s : Scope) (db : Db) : list string :=
  List.map req_id (sort_by req_sequence (List.filter (fun r => (req_status r =s "queued") && in_scope s (req_dialog r)) (requests db))).

Definition parked_digest (digest : string -> string) (ids : list string) : string :=
  digest ("hl263-parked-requests/v1" +:+ String (ascii_of_N 0) (marshal (JArr (List.map JStr ids)))).

Definition build_proof (digest : string -> string) (operationID : string) (s : durableState) (h : hold_row)
    (q : quiescence_row) (parked : list string) : QuiescenceProofRecord :=
  let scope := durableHold_scope h in
  let stream := if hold_scope h =s "dialog" then scope_dialog scope else NodeID s in
  let proof := mkProof ProtocolVersion BarrierSchemaID "scope.parked" operationID (NodeID s) (Epoch s) (RegistryVersion s)
                 scope (hold_version h) (hold_revision h) (qsr_state q) (qsr_queue q) (parked_digest digest parked) stream
                 (qsr_state q) None "known" 0 "" in
  proof <| qp_hash := ComputeProofHash digest proof |>.

Definition QuiescenceProof (transport operationID : string) : M Result :=
  node ← ask cfg_node;
  digest ← ask sha256_hex;
  if negb (transport =s node) then answer 404 "not_found" "node was not found" "" None "" else
  if negb (validBarrierOperationID operationID) then answer 400 "invalid" "operation id is invalid" "" None "" else
  or_not_durable begin "durable store is unavailable" "" ;;
  or_not_durable loadState "durable state is unavailable" "" ;;
  s ← get st;
  stored ← or_not_durable (query (fun db => select1 (fun h => hold_named operationID h && (hold_node h =s NodeID s) && hold_active db h)
                                               (administrative_holds db))) "hold lookup failed" "";
  match stored with
  | None => answer 404 "not_found" "active hold was not found" "" None ""
  | Some h =>
      if negb (hold_epoch h =? Epoch s) || negb (hold_binding h =? RegistryVersion s) then
        answer 409 "stale" "node binding changed" "" (Some (Epoch s)) "blocked" else
      let scope := durableHold_scope h in
      currentHoldRevision ← catch (query_row (fun db => scope_revision_of db (scope_key scope)))
                              (fun _ => answer 409 "stale" "hold scope revision changed" "" (Some 0) "blocked");
      if negb (currentHoldRevision =? hold_revision h) then
        answer 409 "stale" "hold scope revision changed" "" (Some currentHoldRevision) "blocked" else
      checkpoint ← or_not_durable (query_row (fun db => select1 (fun q => qsr_key q =s scope_key scope) (quiescence_scope_revisions db)))
                     "scope checkpoint is unavailable" "";
      active ← or_not_durable (query (active_in_scope (NodeID s) scope)) "active scope lookup failed" "";
      match active with
      | Some _ => answer 409 "stale" "scope is not parked" "" None "active"
      | None =>
          count ← or_not_durable (query (unsettled (NodeID s) scope)) "scope settlement lookup failed" "";
          if negb (count =? 0) then answer 409 "stale" "scope effects or controls are unsettled" "" None "unknown" else
          parked ← or_not_durable (query (parked_requests scope)) "parked queue lookup failed" "";
          let body := QuiescenceProof_json (build_proof digest operationID s h checkpoint parked) in
          if negb (BarrierValidate digest "quiescenceProof" (document_of body)) then
            answer 503 "not_durable" "internal quiescence proof is invalid" "" None ""
          else mret (mkResult 200 body false)
      end
  end.

(** ** [ReleaseHold] *)
Definition commit_release (s : durableState) (h : hold_row) (request : ReleaseRequest) (canonical : json) (digest : string)
    (currentRevision : Z) : M Result :=
  receiptID ← or_not_durable newID "release receipt identity is unavailable" "";
  releasedAt ← now;
  hash ← ask sha256_hex;
  let kind := if lr_action request =s "cancel" then "hold.cancelled" else "hold.released" in
  let receipt := ReleaseReceipt_json (mkReleaseReceipt ProtocolVersion BarrierSchemaID kind (lr_operation request) receiptID
                   (NodeID s) (Epoch s) (RegistryVersion s) (durableHold_scope h) (hold_version h) (currentRevision + 1)
                   (QueuePaused s) releasedAt) in
  if negb (BarrierValidate hash "releaseReceipt" (document_of receipt)) then
    answer 503 "not_durable" "internal release receipt is invalid" "" None "" else
  require_reserve "" ;;
  or_not_durable (exec (update_scope_revision (scope_key (durableHold_scope h)) currentRevision (currentRevision + 1)))
    "release revision commit failed" "" ;;
  or_not_durable (exec (insert_outcome (mkOutcome (lr_operation request) (lr_action request) canonical digest receipt
                                          (currentRevision + 1) releasedAt))) "release commit failed" "" ;;
  or_not_durable (checkFault FaultBeforeReleaseCommit) "release commit was not attempted" "" ;;
  or_not_durable commit "atomic release commit failed" "" ;;
  afterCommit ;;
  catch (checkFault FaultAfterReleaseCommit ;; mret (mkResult 201 receipt true))
    (fun _ => interrupted "release receipt delivery was interrupted" "").

Definition binding_matches (s : durableState) (h : hold_row) (request : ReleaseRequest) : bool :=
  (lr_epoch request =? Epoch s) && (lr_epoch request =? hold_epoch h) && (lr_binding request =? RegistryVersion s)
  && (lr_binding request =? hold_binding h) && bool_decide (lr_scope request = durableHold_scope h)
  && (lr_version request =? hold_version h) && (lr_revision request =? hold_revision h).

Definition release_locked (request : ReleaseRequest) (canonical : json) (digest : string) : M Result :=
  or_not_durable begin "durable store is unavailable" "" ;;
  or_not_durable loadState "durable state is unavailable" "" ;;
  s ← get st;
  stored ← or_not_durable (query (fun db => select1 (fun o => out_operation o =s lr_operation request) (administrative_hold_outcomes db)))
             "release lookup failed" "";
  match stored with
  | Some o =>
      if negb (out_hash o =s digest) then answer 409 "id_conflict" "operationId already names different release bytes" "" None ""
      else mret (mkResult 200 (out_receipt o) false)
  | None =>
      hold ← or_not_durable (query (fun db => select1 (fun h => hold_named (lr_operation request) h && (hold_node h =s NodeID s))
                                                (administrative_holds db))) "hold lookup failed" "";
      match hold with
      | None => answer 404 "not_found" "hold was not found" "" None ""
      | Some h =>
          if negb (binding_matches s h request) then answer 409 "stale" "hold binding changed" "" (Some (Epoch s)) "blocked" else
          currentRevision ← catch (query_row (fun db => scope_revision_of db (scope_key (durableHold_scope h))))
                              (fun _ => answer 409 "stale" "hold scope revision changed" "" (Some 0) "blocked");
          if negb (currentRevision =? hold_revision h) then
            answer 409 "stale" "hold scope revision changed" "" (Some currentRevision) "blocked" else
          commit_release s h request canonical digest currentRevision
      end
  end.

Definition ReleaseHold (transport : string) (raw : document) : M Result :=
  node ← ask cfg_node;
  hash ← ask sha256_hex;
  if negb (transport =s node) then answer 404 "not_found" "node was not found" "" None "" else
  match CanonicalReleaseRequest hash raw with
  | None => answer 400 "invalid" "release request does not match harness-barrier-v1" "" None ""
  | Some (canonical, digest) =>
      match decodeExact releaseRequest_fields raw with
      | None => answer 400 "invalid" "release request cannot be decoded" "" None ""
      | Some m =>
          let request := ReleaseRequest_of m in
          if negb (lr_node request =s node) then answer 404 "not_found" "node was not found" "" None ""
          else with_reserve (release_locked request canonical digest)
      end
  end.

(** ** Lookups of [SubmitCommand] *)
Record storedCommandOutcome := mkStored {
  stored_hash : string; stored_canonical : json; stored_body : json; stored_status : Z; stored_accepted : bool }.

Definition command_outcomes (commandID : string) (db : Db) : list storedCommandOutcome :=
  List.map (fun c => mkStored (cmd_hash c) (cmd_canonical c) (cmd_receipt c) 200 true)
    (List.filter (fun c => cmd_id c =s commandID) (commands db))
  ++ List.map (fun r => mkStored (rej_hash r) (rej_canonical r) (rej_receipt r) (rej_status r) false)
    (List.filter (fun r => rej_id r =s commandID) (command_rejections db)).

Definition loadCommandOutcome (commandID : string) : M (option storedCommandOutcome) :=
  rows ← query (command_outcomes commandID);
  match rows with
  | [] => mret None
  | [outcome] => mret (Some outcome)
  | _ => fail (Broken "command id has multiple durable outcomes")
  end.

(** The hold that covers the dialog, node holds first, by version. *)
Definition covering_hold (node dialog : string) (db : Db) : option hold_row :=
  let active := List.filter (fun h => (hold_node h =s node) && hold_active db h) (administrative_holds db) in
  match first_by hold_version (List.filter (fun h => hold_scope h =s "node") active) with
  | Some h => Some h
  | None =>
      if dialog =s "" then None else
      first_by hold_version (List.filter (fun h => (hold_scope h =s "dialog") && is_text (hold_dialog h) dialog) active)
  end.

(** The dialog an admission command addresses; [None] for a command no hold blocks. *)
Definition blockable_dialog (envelope : CommandEnvelope) : M (option string) :=
  let kind := env_kind envelope in
  if in_set kind [CommandDialogCreate; CommandQueueResume] then mret (Some "")
  else if in_set kind [CommandDialogDelete; CommandMessageEnqueue] then
    d ← decode_part (env_target envelope) (get_string "dialogId"); mret (Some d)
  else if kind =s CommandAttemptRetry then
    attempt ← decode_part (env_target envelope) (get_string "attemptId");
    d ← query_row (fun db => attempt_dialog db attempt); mret (Some d)
  else mret None.

Definition coveringHoldForCommand (envelope : CommandEnvelope) : M (option hold_row) :=
  dialog ← blockable_dialog envelope;
  match dialog with
  | None => mret None
  | Some d => node ← ask cfg_node; query (covering_hold node d)
  end.

Definition commitCommandRejection (s : durableState) (envelope : CommandEnvelope) (canonical : json) (digest : string)
    (hold : hold_row) : M Result :=
  receiptID ← or_not_durable newID "rejection receipt identity is unavailable" (env_command envelope);
  rejectedAt ← now;
  hash ← ask sha256_hex;
  owner ← ask cfg_owner;
  let receipt := RejectionReceipt_json (mkRejectionReceipt ProtocolVersion BarrierSchemaID "command.rejected" (env_command envelope)
                   (env_kind envelope) receiptID (NodeID s) (Epoch s) digest rejectedAt "administrative_hold" (hold_operation hold)
                   (hold_version hold) (durableHold_scope hold) (hold_revision hold)) in
  if negb (BarrierValidate hash "rejectionReceipt" (document_of receipt)) then
    answer 503 "not_durable" "internal rejection receipt is invalid" (env_command envelope) None "" else
  or_not_durable (exec (insert_rejection (mkRejection (env_command envelope) owner (NodeID s) (env_kind envelope) canonical digest
                                            receipt 409 rejectedAt (hold_operation hold))))
    "rejection commit failed" (env_command envelope) ;;
  or_not_durable (checkFault FaultBeforeRejectionCommit) "rejection commit was not attempted" (env_command envelope) ;;
  or_not_durable commit "atomic rejection commit failed" (env_command envelope) ;;
  catch (checkFault FaultAfterRejectionCommit ;; mret (mkResult 409 receipt true))
    (fun _ => interrupted "rejection receipt delivery was interrupted" (env_command envelope)).
