(* ===== verification/Submit.v ===== *)
(** * Command admission, [runtime/command.go]
    [SubmitCommand] is the only durable entry point of commands: it decides
    between replaying a stored outcome, rejecting under a hold, refusing, and
    committing the command with its events, intent and receipt. *)
From stdpp Require Import base tactics list strings gmap pretty.
From Stdlib Require Import ZArith Lia Ascii String.
From S2P Require Import Prelude Json Wire Store Tx Adapter Events Commands Barrier Hold.
Open Scope string_scope.
Open Scope list_scope.
Open Scope Z_scope.
Open Scope harness_scope.

Record NodeIdentity := mkIdentity {
  ni_node : string; ni_registry : Z; ni_epoch : Z; ni_adapter_kind : string; ni_adapter_version : string }.
Record TrustContext := mkTrust { TransportNodeID : string; ExpectedIdentity : option NodeIdentity }.

(** ** Identity *)
(** The tolerant decode of the raw bytes: members match by folded name, a
    member of another type is skipped. *)
Definition bestEffortCommandID (raw : document) : string :=
  let id := match doc_value raw with Some (JObj m) => read_string m "commandId" | _ => "" end in
  if uuidPattern id then id else "".

Definition identity_matches (node kind version : string) (s : durableState) (expected : option NodeIdentity) : bool :=
  match expected with
  | None => true
  | Some i => (ni_node i =s node) && (ni_registry i =? RegistryVersion s) && (ni_epoch i =? Epoch s)
              && (ni_adapter_kind i =s kind) && (ni_adapter_version i =s version)
  end.

(** ** Scope of a stored outcome *)
Definition target_string (key : string) (canonical : json) : string :=
  match (t ← field "target" canonical; get_string key t) with Some s => s | None => "" end.

(** The dialog a stored command addressed, through its target; an object that
    no longer exists has none. *)
Definition target_dialog (canonical : json) : M string :=
  let lookup f := o ← query f; mret (default "" o) in
  let dialog := target_string "dialogId" canonical in
  let request := target_string "requestId" canonical in
  let attempt := target_string "attemptId" canonical in
  let approval := target_string "approvalId" canonical in
  let input := target_string "inputRequestId" canonical in
  if negb (dialog =s "") then mret dialog
  else if negb (request =s "") then lookup (fun db => req_dialog <$> select1 (fun r => req_id r =s request) (requests db))
  else if negb (attempt =s "") then lookup (fun db => attempt_dialog db attempt)
  else if negb (approval =s "") then
    lookup (fun db => p ← select1 (fun p => apr_id p =s approval) (approvals db); attempt_dialog db (apr_attempt p))
  else if negb (input =s "") then
    lookup (fun db => i ← select1 (fun i => inp_id i =s input) (input_requests db); attempt_dialog db (inp_attempt i))
  else mret "".

Definition receipt_dialog (outcome : storedCommandOutcome) : string :=
  if stored_accepted outcome
  then match (r ← field "references" (stored_body outcome); get_string "dialogId" r) with Some d => d | None => "" end
  else "".

Definition commandOutcomeTargetsDeletedDialog (outcome : storedCommandOutcome) : M bool :=
  dialog ← (if receipt_dialog outcome =s "" then target_dialog (stored_canonical outcome) else mret (receipt_dialog outcome));
  if dialog =s "" then mret false else query (fun db => dialog_deleted db dialog).

(** ** [authorizeObject] *)
Definition live_dialog (db : Db) (dialog : string) : option (string * string) :=
  d ← select1 (fun d => (dlg_id d =s dialog) && negb (dialog_deleted db (dlg_id d))) (dialogs db);
  Some (dlg_node d, dlg_owner d).

Definition object_owner (kind : string) (target : json) (db : Db) : option (string * string) :=
  let value key := default "" (get_string key target) in
  if in_set kind [CommandMessageEnqueue; CommandMessageSteer] then live_dialog db (value "dialogId")
  else if kind =s CommandRequestCancel then
    r ← select1 (fun r => req_id r =s value "requestId") (requests db); live_dialog db (req_dialog r)
  else if in_set kind [CommandAttemptStop; CommandAttemptRetry] then
    d ← attempt_dialog db (value "attemptId"); live_dialog db d
  else if kind =s CommandApprovalRespond then
    p ← select1 (fun p => (apr_id p =s value "approvalId") && (apr_attempt p =s value "attemptId")) (approvals db);
    d ← attempt_dialog db (apr_attempt p); live_dialog db d
  else
    i ← select1 (fun i => (inp_id i =s value "inputRequestId") && (inp_attempt i =s value "attemptId")) (input_requests db);
    d ← attempt_dialog db (inp_attempt i); live_dialog db d.

Definition objectKinds : list string :=
  [CommandMessageEnqueue; CommandMessageSteer; CommandRequestCancel; CommandAttemptStop; CommandAttemptRetry;
   CommandApprovalRespond; CommandInputRespond].

Definition not_found {A} : M A := reject 404 "not_found" "target was not found".

(** A lookup that fails leaves the two scanned variables empty, so that it is
    answered as a missing object unless node and owner are configured empty. *)
Definition authorizeObject (envelope : CommandEnvelope) : M unit :=
  node ← ask cfg_node;
  owner ← ask cfg_owner;
  let target := env_target envelope in
  if negb (is_object target && bool_decide (get_string "nodeId" target = Some node)) then not_found else
  if in_set (env_kind envelope) [CommandDialogCreate; CommandQueueResume] then mret tt else
  if negb (in_set (env_kind envelope) objectKinds) then reject 400 "invalid" "unsupported command kind" else
  found ← catch (r ← query_row (object_owner (env_kind envelope) target); mret (inl r)) (fun e => mret (inr e));
  match found with
  | inl (n, o) => if (n =s node) && (o =s owner) then mret tt else not_found
  | inr NoRows => not_found
  | inr e => if (node =s "") && (owner =s "") then fail e else not_found
  end.

(** ** [SubmitCommand] *)
Definition Receipt_json (command kind receipt accepted node : string) (seq : Z) (result blocking : string) (refs : json) : json :=
  JObj ([("protocolVersion", JInt ProtocolVersion); ("schemaId", JStr SchemaID); ("commandId", JStr command);
         ("commandKind", JStr kind); ("receiptId", JStr receipt); ("acceptedAt", JStr accepted); ("nodeId", JStr node);
         ("eventSeq", JInt seq); ("result", JStr result)] ++ optional_member "blockingReason" blocking
        ++ [("references", refs)]).

(** The command's row, intent and state, and the commit. *)
Definition commit_command (envelope : CommandEnvelope) (canonical : json) (digest : string) (a : applied) : M Result :=
  let correlation := env_command envelope in
  node ← ask cfg_node;
  owner ← ask cfg_owner;
  receiptID ← or_not_durable newID "receipt identity is unavailable" correlation;
  acceptedAt ← now;
  s ← get st;
  let receipt := Receipt_json (env_command envelope) (env_kind envelope) receiptID acceptedAt node (LastEventSeq s)
                   (app_result a) (app_blocking a) (app_references a) in
  if negb (Validate "receipt" (document_of receipt)) then answer 503 "not_durable" "internal receipt is invalid" correlation None "" else
  let action := app_action a in
  (if post_kind action =s "" then mret tt else
   or_not_durable (exec (insert_action (mkAction (env_command envelope) (post_kind action) (post_attempt action)
       (nullText (post_message action)) (nullText (post_actor action)) (post_payload action) "pending")))
     "control intent commit failed" correlation) ;;
  or_not_durable (exec (insert_command (mkCommandRow (env_command envelope) owner node (env_kind envelope) canonical digest
                                          receipt acceptedAt (LastEventSeq s)))) "command commit failed" correlation ;;
  or_not_durable saveState "state commit failed" correlation ;;
  or_not_durable (checkFault FaultBeforeCommit) "commit was not attempted" correlation ;;
  or_not_durable commit "atomic commit failed" correlation ;;
  afterCommit ;;
  catch (checkFault FaultAfterCommit ;; mret (mkResult 202 receipt true))
    (fun _ => interrupted "receipt delivery was interrupted" correlation).

(** The storage gates: a control command releases the reserve and marks the
    engine blocked when space is low, an admission command needs the floor. *)
Definition storage_gate (kind correlation : string) : M unit :=
  if IsAdmissionCommand kind then
    low ← storageBelowAdmissionFloor;
    if (low : bool) then answer 503 "not_durable" "admission storage floor is unavailable" correlation None "" else mret tt
  else
    low ← storageBelowAdmissionFloor;
    physical ← (if (low : bool) then mret true else physicalStorageBelowAdmissionFloor);
    require_reserve correlation ;;
    if (physical : bool)
    then setst (fun s => s <| EngineReadiness := "blocked" |> <| BlockedReasons ::= fun l => addReason l "storage_unavailable" |>)
    else mret tt.

Definition replay_outcome (outcome : storedCommandOutcome) (digest correlation : string) : M Result :=
  if negb (stored_hash outcome =s digest) then answer 409 "id_conflict" "commandId already names different bytes" correlation None ""
  else
    deleted ← or_not_durable (commandOutcomeTargetsDeletedDialog outcome) "command scope lookup failed" correlation;
    if (deleted : bool) then answer 404 "not_found" "command was not found" correlation None ""
    else mret (mkResult (stored_status outcome) (stored_body outcome) false).

(** The whole transaction, under [node.mu]. *)
Definition submit_locked (trust : TrustContext) (envelope : CommandEnvelope) (canonical : json) (digest : string) : M Result :=
  let correlation := env_command envelope in
  node ← ask cfg_node;
  kind ← ask cfg_adapter_kind;
  version ← ask cfg_adapter_version;
  or_not_durable begin "durable store is unavailable" correlation ;;
  or_not_durable loadState "durable state is unavailable" correlation ;;
  s ← get st;
  if negb (identity_matches node kind version s (ExpectedIdentity trust)) then
    answer 409 "stale" "routing identity changed" correlation None "" else
  found ← or_not_durable (loadCommandOutcome (env_command envelope)) "command lookup failed" correlation;
  match found with
  | Some outcome => replay_outcome outcome digest correlation
  | None =>
      catch (authorizeObject envelope) (fun e => commandError e correlation) ;;
      hold ← or_not_durable (coveringHoldForCommand envelope) "hold lookup failed" correlation;
      match hold with
      | Some h => require_reserve correlation ;; commitCommandRejection s envelope canonical digest h
      | None =>
          storage_gate (env_kind envelope) correlation ;;
          a ← catch (applyCommand envelope) (fun e => commandError e correlation);
          commit_command envelope canonical digest a
      end
  end.

Definition SubmitCommand (trust : TrustContext) (raw : document) : M Result :=
  let correlation := bestEffortCommandID raw in
  node ← ask cfg_node;
  hash ← ask sha256_hex;
  if negb (TransportNodeID trust =s node) then answer 404 "not_found" "node was not found" correlation None "" else
  match CanonicalCommand hash raw with
  | None => answer 400 "invalid" "command does not match harness-wire-v2" correlation None ""
  | Some (canonical, digest) =>
      match CommandEnvelope_of_json canonical with
      | None => answer 400 "invalid" "command cannot be decoded" correlation None ""
      | Some envelope =>
          if env_kind envelope =s CommandDialogDelete then
            answer 403 "forbidden" "dialog deletion requires the logical delete coordinator" (env_command envelope) None ""
          else with_reserve (submit_locked trust envelope canonical digest)
      end
  end.
