(* ===== verification/Dispatch.v ===== *)
(** * Dispatch, [runtime/dispatch.go]
    [DispatchNext] peeks the head of the queue, fetches the policy with no lock
    held, and commits the dispatch only if the head is still the same: the two
    halves are two steps, between which any other handler may run. *)
From stdpp Require Import base tactics list strings gmap pretty.
From Stdlib Require Import ZArith Lia Ascii String.
From S2P Require Import Prelude Json Wire Store Tx Adapter Events Commands Barrier Hold.
Open Scope string_scope.
Open Scope list_scope.
Open Scope Z_scope.
Open Scope harness_scope.

Record DispatchResult := mkDispatchResult { dr_outcome : string; dr_attempt : string; dr_request : string }.
Record dispatchCandidate := mkCandidate {
  dc_request : string; dc_dialog : string; dc_message : string; dc_text : string; dc_sequence : Z; dc_state : Z }.

(** The head of the queue: the queued request with the least sequence that no
    active hold covers, with its input message. *)
Definition dispatchable (node : string) (db : Db) (r : request_row) : bool :=
  (req_status r =s "queued") && negb (covered db node (req_dialog r)) && message_exists db (req_message r).
Definition queue_head (node : string) (db : Db) : option (request_row * message_row) :=
  r ← first_by req_sequence (List.filter (dispatchable node db) (requests db));
  m ← select1 (fun m => msg_id m =s req_message r) (messages db);
  Some (r, m).

(** ** [peekDispatch] *)
Definition peekDispatch : M (option dispatchCandidate) :=
  autocommit (
    loadState ;;
    s ← get st;
    if QueuePaused s || match ActiveAttemptID s with Some _ => true | None => false end || (PendingCount s =? 0)
       || in_set "execution_unknown" (BlockedReasons s)
    then mret None else
    head ← query (queue_head (NodeID s));
    match head with
    | None => mret None
    | Some (r, m) =>
        match msg_text m with
        | Some text => mret (Some (mkCandidate (req_id r) (req_dialog r) (req_message r) text (req_sequence r) (StateVersion s)))
        | None => fail (Broken "sql: converting NULL to string is unsupported")
        end
    end).

(** ** The commit half of [DispatchNext] *)
Definition next_generation (db : Db) (message : string) : Z := default 0 (latest_generation db message) + 1.

Definition dispatched (outcome : string) : M DispatchResult := mret (mkDispatchResult outcome "" "").

Definition policy_row_of (p : PolicySnapshot) : policy_row :=
  mkPolicyRow (ps_effective p) (ps_revision p) (ps_content p) (ps_content_hash p) (ps_tools p) (ps_tools_hash p) (ps_approval p).

Definition set_dispatched (attempt : string) (s : durableState) : durableState :=
  s <| PendingCount ::= Z.pred |> <| QueueVersion ::= Z.succ |> <| StateVersion ::= Z.succ |>
    <| ActiveAttemptID := Some attempt |> <| EngineReadiness := "ready" |> <| Occupancy := "active" |>
    <| BlockedReasons ::= fun l => removeReason l "policy_unavailable" |>.

(** The message of a request that is dispatched for the first time. *)
Definition apply_queued_message (r : request_row) (attempt : string) : M unit :=
  version ← (m ← message_by_id (req_message r); mret (msg_version m));
  exec (update_message (req_message r)
          (fun m => m <| msg_version ::= Z.succ |> <| msg_disposition := Some "applied" |> <| msg_attempt := Some attempt |>)) ;;
  appendEvent "message.disposition_changed" (req_message r) (version + 1) "" ""
    (MessageDispositionPayload (req_message r) "queued" "applied" "request_dispatched") false ;;
  mret tt.

Definition dispatch_request (s : durableState) (r : request_row) (disposition : string) (policy : PolicySnapshot) : M DispatchResult :=
  attemptID ← newID;
  generation ← query (fun db => next_generation db (req_message r));
  exec (insert_policy (policy_row_of policy)) ;;
  exec (insert_attempt (mkAttempt attemptID (NodeID s) (req_dialog r) (req_id r) generation 1 "dispatching" "none"
                          (Some (req_message r)) (Some (ps_effective policy)) None None 0)) ;;
  t ← now;
  exec (update_request (req_id r) (fun r => r <| req_version ::= Z.succ |> <| req_status := "dispatching" |> <| req_updated := t |>)) ;;
  (if disposition =s "queued" then apply_queued_message r attemptID else mret tt) ;;
  setst (set_dispatched attemptID) ;;
  appendEvent "attempt.dispatching" attemptID 1 attemptID (req_dialog r)
    (AttemptDispatchingPayload (req_id r) generation (req_message r) (ps_revision policy) (ps_effective policy)) false ;;
  appendQueueEvent ;;
  appendNodeEvent ;;
  exec (insert_action (mkAction attemptID actionDispatchStart attemptID None None
                         (attempt_scope_payload generation (req_dialog r) (req_id r)) "pending")) ;;
  saveState ;;
  commit ;;
  catch (checkFault FaultAfterDispatchIntent ;; afterCommit ;; mret (mkDispatchResult "dispatching" attemptID (req_id r)))
    (fun _ => mret (mkDispatchResult "unknown" attemptID (req_id r))).

Definition commitDispatch (candidate : dispatchCandidate) (policy : PolicySnapshot) : M DispatchResult :=
  begin ;;
  loadState ;;
  s ← get st;
  if negb (StateVersion s =? dc_state candidate) || QueuePaused s
     || match ActiveAttemptID s with Some _ => true | None => false end || (PendingCount s =? 0)
  then dispatched "changed" else
  head ← query (queue_head (NodeID s));
  match head with
  | None => dispatched "held"
  | Some (r, m) =>
      match msg_text m, msg_disposition m with
      | Some _, Some disposition =>
          if negb (req_id r =s dc_request candidate) || negb (req_dialog r =s dc_dialog candidate)
             || negb (req_message r =s dc_message candidate) || negb (req_sequence r =? dc_sequence candidate)
          then dispatched "changed"
          else dispatch_request s r disposition policy
      | _, _ => fail (Broken "sql: converting NULL to string is unsupported")
      end
  end.

(** ** [blockPolicy] *)
Definition blockPolicy : M unit :=
  begin ;;
  loadState ;;
  s ← get st;
  if (EngineReadiness s =s "blocked") && in_set "policy_unavailable" (BlockedReasons s) then mret tt else
  setst (fun s => s <| EngineReadiness := "blocked" |> <| BlockedReasons ::= fun l => addReason l "policy_unavailable" |>
                    <| StateVersion ::= Z.succ |>) ;;
  appendNodeEvent ;;
  saveState ;;
  commit.

(** ** [DispatchNext], between whose halves the policy source is asked.
    [native_ready] and [auth_ready] answer the readiness probes of the adapter
    and of the provider-auth gate, [policy] is the policy source's answer for
    the dialog, validated by [PreparePolicySnapshot]. *)
Definition DispatchNext (native_ready auth_ready auth_ready_again : bool) (policy : string -> option PolicySnapshot) : M DispatchResult :=
  hash ← ask sha256_hex;
  if negb native_ready || negb auth_ready then dispatched "blocked" else
  candidate ← peekDispatch;
  match candidate with
  | None => dispatched "idle"
  | Some c =>
      match (p ← policy (dc_dialog c); PreparePolicySnapshot hash p) with
      | None => catch blockPolicy (fun _ => mret tt) ;; dispatched "blocked"
      | Some p => if negb auth_ready_again then dispatched "blocked" else commitDispatch c p
      end
  end.
