(* ===== verification/LogicalDelete.v ===== *)
(** * Logical deletion
    [contracts/logical-delete/types.go] and [runtime/logical_delete.go]: the
    contracts between the coordinator and a node, and the one transaction that
    deletes a dialog under its hold, receipts the command and releases the
    hold. *)
From stdpp Require Import base tactics list strings gmap pretty.
From Stdlib Require Import ZArith Lia Ascii String.
From S2P Require Import Prelude Json Wire Instant Store Tx Adapter Events Commands Barrier Hold Submit.
Open Scope string_scope.
Open Scope list_scope.
Open Scope Z_scope.
Open Scope harness_scope.

(** ** The contract *)
Definition DeleteSchemaID : string := "logical-dialog-delete-v1".
Definition AdvanceSchemaID : string := "logical-dialog-delete-advance-v1".
Definition NodeSchemaID : string := "logical-dialog-node-delete-v1".
Definition codePattern : string -> bool := actorPattern.

Record DeleteRequest := mkDeleteRequest {
  dr_schema : string; dr_operation : string; dr_command : string; dr_logical : string; dr_binding : Z; dr_dialog_version : Z }.
Record NodeRequest := mkNodeRequest {
  nr_schema : string; nr_operation : string; nr_coordinator : string; nr_command : string; nr_logical : string; nr_node : string;
  nr_dialog : string; nr_epoch : Z; nr_registry : Z; nr_binding : Z; nr_dialog_version : Z; nr_hold_version : Z;
  nr_hold_revision : Z }.
Record NodeReceipt := mkNodeReceipt {
  nc_schema : string; nc_operation : string; nc_request_hash : string; nc_coordinator : string; nc_receipt : string;
  nc_command : string; nc_logical : string; nc_node : string; nc_dialog : string; nc_epoch : Z; nc_registry : Z; nc_binding : Z;
  nc_dialog_version : Z; nc_hold_version : Z; nc_hold_revision : Z; nc_event_seq : Z; nc_command_receipt : json;
  nc_deleted : string }.
Record DeleteStatus := mkDeleteStatus {
  ds_schema : string; ds_operation : string; ds_hash : string; ds_command : string; ds_logical : string; ds_binding : Z;
  ds_dialog_version : Z; ds_node : string; ds_dialog : string; ds_registry : Z; ds_epoch : Z; ds_hold_revision : Z;
  ds_hold_version : Z; ds_phase : string; ds_effect : string; ds_version : Z; ds_archived : bool; ds_result : string;
  ds_receipt : option NodeReceipt; ds_updated : string }.
Record AdvanceRequest := mkAdvance {
  ad_schema : string; ad_operation : string; ad_hash : string; ad_version : Z; ad_action : string; ad_hold_version : Z;
  ad_hold_revision : Z; ad_result : string; ad_receipt : option NodeReceipt }.
Record ClosureDescriptor := mkClosure {
  cl_logical : string; cl_binding : Z; cl_node : string; cl_dialog : string; cl_dialog_version : Z; cl_version : Z;
  cl_zero_pending : bool; cl_checkpoint : string; cl_checkpoint_sha256 : string; cl_verified : string }.

Definition validUUID : string -> bool := uuidPattern.
Definition positive (z : Z) : bool := (1 <=? z) && (z <=? MaximumSafeInteger).
Definition incrementable (z : Z) : bool := (1 <=? z) && (z <? MaximumSafeInteger).
Definition oneOf (value : string) (allowed : list string) : bool := in_set value allowed.

Definition ValidateRequest (v : DeleteRequest) : bool :=
  (dr_schema v =s DeleteSchemaID) && validUUID (dr_operation v) && validUUID (dr_command v) && validUUID (dr_logical v)
  && positive (dr_binding v) && incrementable (dr_dialog_version v).
Definition ValidateNodeRequest (v : NodeRequest) : bool :=
  (nr_schema v =s NodeSchemaID) && validUUID (nr_operation v) && sha256Pattern (nr_coordinator v) && validUUID (nr_command v)
  && validUUID (nr_logical v) && validUUID (nr_node v) && validUUID (nr_dialog v) && positive (nr_epoch v)
  && positive (nr_registry v) && positive (nr_binding v) && incrementable (nr_dialog_version v) && positive (nr_hold_version v)
  && positive (nr_hold_revision v).

Definition has_string (key value : string) (v : json) : bool := bool_decide (get_string key v = Some value).
Definition has_int (key : string) (value : Z) (v : json) : bool := bool_decide (get_int key v = Some value).
Definition validCommandReceipt (v : NodeReceipt) : bool :=
  let r := nc_command_receipt v in
  Validate "receipt" (document_of r)
  && match field "references" r with Some refs => is_object refs && has_string "dialogId" (nc_dialog v) refs | None => false end
  && has_int "protocolVersion" ProtocolVersion r && has_string "schemaId" SchemaID r && has_string "commandId" (nc_command v) r
  && has_string "commandKind" CommandDialogDelete r && has_string "nodeId" (nc_node v) r && has_int "eventSeq" (nc_event_seq v) r
  && has_string "result" "deleted" r && has_string "acceptedAt" (nc_deleted v) r.
Definition ValidateNodeReceipt (v : NodeReceipt) : bool :=
  (nc_schema v =s NodeSchemaID) && validUUID (nc_operation v) && sha256Pattern (nc_request_hash v) && sha256Pattern (nc_coordinator v)
  && validUUID (nc_receipt v) && validUUID (nc_command v) && validUUID (nc_logical v) && validUUID (nc_node v) && validUUID (nc_dialog v)
  && positive (nc_epoch v) && positive (nc_registry v) && positive (nc_binding v) && positive (nc_dialog_version v)
  && positive (nc_hold_version v) && positive (nc_hold_revision v) && positive (nc_event_seq v) && validCommandReceipt v
  && time_parse (nc_deleted v).

Definition statusReceiptMatches (s : DeleteStatus) (r : NodeReceipt) : bool :=
  ValidateNodeReceipt r && (nc_operation r =s ds_operation s) && (nc_coordinator r =s ds_hash s) && (nc_command r =s ds_command s)
  && (nc_logical r =s ds_logical s) && (nc_node r =s ds_node s) && (nc_dialog r =s ds_dialog s) && (nc_epoch r =? ds_epoch s)
  && (nc_registry r =? ds_registry s) && (nc_binding r =? ds_binding s) && (nc_dialog_version r =? ds_dialog_version s + 1)
  && (nc_hold_version r =? ds_hold_version s) && (nc_hold_revision r =? ds_hold_revision s).
Definition no_receipt (s : DeleteStatus) : bool := match ds_receipt s with None => true | Some _ => false end.
Definition status_phase (s : DeleteStatus) : bool :=
  if ds_phase s =s "accepted" then
    (ds_effect s =s "not_sent") && (ds_hold_version s =? 0) && negb (ds_archived s) && (ds_result s =s "") && no_receipt s
  else if ds_phase s =s "holding" then
    (ds_effect s =s "sent") && positive (ds_hold_version s) && negb (ds_archived s) && (ds_result s =s "") && no_receipt s
  else if ds_phase s =s "reconciling" then
    (ds_effect s =s "unknown") && positive (ds_hold_version s) && negb (ds_archived s) && (ds_result s =s "") && no_receipt s
  else if ds_phase s =s "succeeded" then
    (ds_effect s =s "reconciled") && codePattern (ds_result s)
    && (if ds_archived s
        then (ds_hold_version s =? 0) && no_receipt s && (ds_result s =s "archive_tombstoned")
        else positive (ds_hold_version s)
             && match ds_receipt s with Some r => statusReceiptMatches s r | None => false end && (ds_result s =s "node_tombstoned"))
  else
    (ds_effect s =s "failed") && (0 <=? ds_hold_version s) && (ds_hold_version s <=? MaximumSafeInteger) && negb (ds_archived s)
    && codePattern (ds_result s) && no_receipt s.
Definition ValidateStatus (s : DeleteStatus) : bool :=
  (ds_schema s =s DeleteSchemaID) && validUUID (ds_operation s) && sha256Pattern (ds_hash s) && validUUID (ds_command s)
  && validUUID (ds_logical s) && positive (ds_binding s) && incrementable (ds_dialog_version s) && validUUID (ds_node s)
  && validUUID (ds_dialog s) && positive (ds_registry s) && (1 <=? ds_epoch s) && (ds_epoch s <=? MaximumSafeInteger)
  && (0 <=? ds_hold_revision s) && (ds_hold_revision s <=? MaximumSafeInteger) && positive (ds_version s)
  && oneOf (ds_phase s) ["accepted"; "holding"; "reconciling"; "succeeded"; "failed"]
  && oneOf (ds_effect s) ["not_sent"; "sent"; "unknown"; "reconciled"; "failed"]
  && time_parse (ds_updated s) && status_phase s.

Definition ValidateAdvance (v : AdvanceRequest) : bool :=
  (ad_schema v =s AdvanceSchemaID) && validUUID (ad_operation v) && sha256Pattern (ad_hash v) && positive (ad_version v)
  && (if ad_action v =s "hold" then
        positive (ad_hold_version v) && positive (ad_hold_revision v) && match ad_receipt v with None => true | _ => false end
        && (ad_result v =s "")
      else if ad_action v =s "unknown" then
        (ad_hold_version v =? 0) && (ad_hold_revision v =? 0) && match ad_receipt v with None => true | _ => false end
        && (ad_result v =s "")
      else if ad_action v =s "complete" then
        (ad_hold_version v =? 0) && (ad_hold_revision v =? 0)
        && match ad_receipt v with Some r => ValidateNodeReceipt r | None => false end && (ad_result v =s "")
      else
        (ad_action v =s "reject") && (ad_hold_version v =? 0) && match ad_receipt v with None => true | _ => false end
        && codePattern (ad_result v) && (0 <=? ad_hold_revision v) && (ad_hold_revision v <=? MaximumSafeInteger)).

Definition ValidateClosure (hash : string -> string) (v : ClosureDescriptor) : bool :=
  validUUID (cl_logical v) && positive (cl_binding v) && validUUID (cl_node v) && validUUID (cl_dialog v)
  && positive (cl_dialog_version v) && positive (cl_version v) && cl_zero_pending v && negb (cl_checkpoint v =s "")
  && sha256Pattern (cl_checkpoint_sha256 v) && time_parse (cl_verified v) && (hash (cl_checkpoint v) =s cl_checkpoint_sha256 v).

(** ** JSON forms *)
Definition DeleteRequest_json (v : DeleteRequest) : json :=
  JObj [("schemaId", JStr (dr_schema v)); ("operationId", JStr (dr_operation v)); ("commandId", JStr (dr_command v));
        ("logicalDialogId", JStr (dr_logical v)); ("expectedBindingVersion", JInt (dr_binding v));
        ("expectedDialogVersion", JInt (dr_dialog_version v))].
Definition NodeRequest_json (v : NodeRequest) : json :=
  JObj [("schemaId", JStr (nr_schema v)); ("operationId", JStr (nr_operation v)); ("coordinatorRequestHash", JStr (nr_coordinator v));
        ("commandId", JStr (nr_command v)); ("logicalDialogId", JStr (nr_logical v)); ("nodeId", JStr (nr_node v));
        ("nodeDialogId", JStr (nr_dialog v)); ("expectedEpoch", JInt (nr_epoch v)); ("registryVersion", JInt (nr_registry v));
        ("bindingVersion", JInt (nr_binding v)); ("expectedDialogVersion", JInt (nr_dialog_version v));
        ("holdVersion", JInt (nr_hold_version v)); ("holdScopeRevision", JInt (nr_hold_revision v))].
Definition NodeReceipt_json (v : NodeReceipt) : json :=
  JObj [("schemaId", JStr (nc_schema v)); ("operationId", JStr (nc_operation v)); ("nodeRequestHash", JStr (nc_request_hash v));
        ("coordinatorRequestHash", JStr (nc_coordinator v)); ("receiptId", JStr (nc_receipt v)); ("commandId", JStr (nc_command v));
        ("logicalDialogId", JStr (nc_logical v)); ("nodeId", JStr (nc_node v)); ("nodeDialogId", JStr (nc_dialog v));
        ("epoch", JInt (nc_epoch v)); ("registryVersion", JInt (nc_registry v)); ("bindingVersion", JInt (nc_binding v));
        ("deletedDialogVersion", JInt (nc_dialog_version v)); ("holdVersion", JInt (nc_hold_version v));
        ("holdScopeRevision", JInt (nc_hold_revision v)); ("tombstoneEventSeq", JInt (nc_event_seq v));
        ("commandReceipt", nc_command_receipt v); ("deletedAt", JStr (nc_deleted v))].

Definition nodeRequest_fields : list (string * field_type) :=
  [("schemaId", FieldString); ("operationId", FieldString); ("coordinatorRequestHash", FieldString); ("commandId", FieldString);
   ("logicalDialogId", FieldString); ("nodeId", FieldString); ("nodeDialogId", FieldString); ("expectedEpoch", FieldInt);
   ("registryVersion", FieldInt); ("bindingVersion", FieldInt); ("expectedDialogVersion", FieldInt); ("holdVersion", FieldInt);
   ("holdScopeRevision", FieldInt)].
Definition NodeRequest_of (m : list (string * json)) : NodeRequest :=
  mkNodeRequest (read_string m "schemaId") (read_string m "operationId") (read_string m "coordinatorRequestHash")
    (read_string m "commandId") (read_string m "logicalDialogId") (read_string m "nodeId") (read_string m "nodeDialogId")
    (read_int m "expectedEpoch") (read_int m "registryVersion") (read_int m "bindingVersion") (read_int m "expectedDialogVersion")
    (read_int m "holdVersion") (read_int m "holdScopeRevision").

(** The tolerant decode of a stored receipt: unknown members are skipped. *)
Definition nodeReceipt_fields : list (string * field_type) :=
  [("schemaId", FieldString); ("operationId", FieldString); ("nodeRequestHash", FieldString); ("coordinatorRequestHash", FieldString);
   ("receiptId", FieldString); ("commandId", FieldString); ("logicalDialogId", FieldString); ("nodeId", FieldString);
   ("nodeDialogId", FieldString); ("epoch", FieldInt); ("registryVersion", FieldInt); ("bindingVersion", FieldInt);
   ("deletedDialogVersion", FieldInt); ("holdVersion", FieldInt); ("holdScopeRevision", FieldInt); ("tombstoneEventSeq", FieldInt);
   ("deletedAt", FieldString)].
Definition NodeReceipt_of_json (v : json) : option NodeReceipt :=
  match v with
  | JObj m =>
      if negb (forallb (fun kv => match List.find (fun f => names kv.1 f.1) nodeReceipt_fields with
                                  | Some f => scalar_fits f.2 kv.2
                                  | None => true
                                  end) m) then None else
      Some (mkNodeReceipt (read_string m "schemaId") (read_string m "operationId") (read_string m "nodeRequestHash")
              (read_string m "coordinatorRequestHash") (read_string m "receiptId") (read_string m "commandId")
              (read_string m "logicalDialogId") (read_string m "nodeId") (read_string m "nodeDialogId") (read_int m "epoch")
              (read_int m "registryVersion") (read_int m "bindingVersion") (read_int m "deletedDialogVersion")
              (read_int m "holdVersion") (read_int m "holdScopeRevision") (read_int m "tombstoneEventSeq")
              (read m "commandReceipt" JNull Some) (read_string m "deletedAt"))
  | _ => None
  end.

Section Hashes.
Variable hash : string -> string.
Definition RequestHash (v : DeleteRequest) : option string :=
  if ValidateRequest v then Some (hash (marshal (DeleteRequest_json v))) else None.
Definition NodeRequestHash (v : NodeRequest) : option string :=
  if ValidateNodeRequest v then Some (hash (marshal (NodeRequest_json v))) else None.
End Hashes.

(** ** [DeleteLogicalDialog] *)
Definition delete_envelope (s : durableState) (r : NodeRequest) : CommandEnvelope :=
  mkEnvelope (nr_command r) CommandDialogDelete (JObj [("nodeId", JStr (NodeID s)); ("dialogId", JStr (nr_dialog r))])
    (JObj [("dialogVersion", JInt (nr_dialog_version r))]) (JObj []).

Definition hold_binding_matches (r : NodeRequest) (h : hold_row) : bool :=
  (hold_scope h =s "dialog") && is_text (hold_dialog h) (nr_dialog r) && (hold_version h =? nr_hold_version r)
  && (hold_revision h =? nr_hold_revision r) && (hold_epoch h =? nr_epoch r) && (hold_binding h =? nr_registry r).

(** The receipts, the release and the commit, after [applyDialogDelete]. *)
Definition commit_delete (r : NodeRequest) (raw : document) (requestHash : string) (canonical : json) (commandHash : string)
    (h : hold_row) (currentRevision : Z) (a : applied) : M Result :=
  let correlation := nr_operation r in
  owner ← ask cfg_owner;
  hash ← ask sha256_hex;
  commandReceiptID ← or_not_durable newID "command receipt identity is unavailable" correlation;
  deletedAt ← now;
  s ← get st;
  let commandReceipt := Receipt_json (nr_command r) CommandDialogDelete commandReceiptID deletedAt (NodeID s) (LastEventSeq s)
                          (app_result a) (app_blocking a) (app_references a) in
  if negb (Validate "receipt" (document_of commandReceipt)) then answer 503 "not_durable" "internal command receipt is invalid" correlation None "" else
  or_not_durable (exec (insert_command (mkCommandRow (nr_command r) owner (NodeID s) CommandDialogDelete canonical commandHash
                                          commandReceipt deletedAt (LastEventSeq s)))) "delete command commit failed" correlation ;;
  releaseReceiptID ← or_not_durable newID "release receipt identity is unavailable" correlation;
  let release := ReleaseReceipt_json (mkReleaseReceipt ProtocolVersion BarrierSchemaID "hold.released" (nr_operation r) releaseReceiptID
                   (NodeID s) (Epoch s) (RegistryVersion s) (durableHold_scope h) (hold_version h) (currentRevision + 1)
                   (QueuePaused s) deletedAt) in
  if negb (BarrierValidate hash "releaseReceipt" (document_of release)) then
    answer 503 "not_durable" "internal release receipt is invalid" correlation None "" else
  receiptID ← or_not_durable newID "logical delete receipt identity is unavailable" correlation;
  let receipt := mkNodeReceipt NodeSchemaID (nr_operation r) requestHash (nr_coordinator r) receiptID (nr_command r) (nr_logical r)
                   (NodeID s) (nr_dialog r) (Epoch s) (RegistryVersion s) (nr_binding r) (nr_dialog_version r + 1) (hold_version h)
                   (currentRevision + 1) (LastEventSeq s) commandReceipt deletedAt in
  if negb (ValidateNodeReceipt receipt) then answer 503 "not_durable" "internal logical delete receipt is invalid" correlation None "" else
  require_reserve correlation ;;
  or_not_durable (exec (update_scope_revision (dialog_key (nr_dialog r)) currentRevision (currentRevision + 1)))
    "release revision commit failed" correlation ;;
  or_not_durable (exec (insert_outcome (mkOutcome (nr_operation r) "release" (default JNull (doc_value raw)) requestHash release
                                          (currentRevision + 1) deletedAt))) "logical delete release commit failed" correlation ;;
  or_not_durable (exec (insert_logical_delete (mkLogicalDelete (nr_operation r) requestHash (nr_coordinator r) (nr_command r)
                                                 (nr_logical r) (nr_dialog r) (nr_binding r) (hold_version h) (currentRevision + 1)
                                                 (NodeReceipt_json receipt) deletedAt)))
    "logical delete receipt commit failed" correlation ;;
  or_not_durable saveState "logical delete state commit failed" correlation ;;
  or_not_durable (checkFault FaultBeforeLogicalDeleteCommit) "logical delete commit was not attempted" correlation ;;
  or_not_durable commit "atomic logical delete commit failed" correlation ;;
  modify (fun c => c <| deletedDialogs ::= fun l => nr_dialog r :: l |>) ;;
  afterCommit ;;
  catch (checkFault FaultAfterLogicalDeleteCommit ;; mret (mkResult 201 (NodeReceipt_json receipt) true))
    (fun _ => interrupted "logical delete receipt delivery was interrupted" correlation).

Definition delete_held (r : NodeRequest) (raw : document) (requestHash : string) (h : hold_row) (currentRevision : Z) : M Result :=
  let correlation := nr_operation r in
  hash ← ask sha256_hex;
  s ← get st;
  match CanonicalCommand hash (document_of (CommandEnvelope_json (delete_envelope s r))) with
  | None => answer 503 "not_durable" "internal delete command is invalid" correlation None ""
  | Some (canonical, commandHash) =>
      found ← or_not_durable (loadCommandOutcome (nr_command r)) "delete command lookup failed" correlation;
      match found with
      | Some outcome =>
          if negb (stored_hash outcome =s commandHash)
          then answer 409 "id_conflict" "commandId already names different bytes" correlation None ""
          else answer 409 "stale" "delete command exists without operation receipt" correlation None "blocked"
      | None =>
          a ← catch (applyDialogDelete (delete_envelope s r)) (fun e => commandError e correlation);
          commit_delete r raw requestHash canonical commandHash h currentRevision a
      end
  end.

Definition delete_locked (r : NodeRequest) (raw : document) (requestHash : string) : M Result :=
  let correlation := nr_operation r in
  or_not_durable begin "durable store is unavailable" correlation ;;
  or_not_durable loadState "durable state is unavailable" correlation ;;
  s ← get st;
  if negb (nr_epoch r =? Epoch s) || negb (nr_registry r =? RegistryVersion s) then
    answer 409 "stale" "node identity changed" correlation (Some (Epoch s)) "blocked" else
  stored ← or_not_durable (query (fun db => select1 (fun l => ldr_operation l =s nr_operation r) (logical_delete_receipts db)))
             "logical delete lookup failed" correlation;
  match stored with
  | Some l =>
      if negb (ldr_request_hash l =s requestHash)
      then answer 409 "id_conflict" "operationId already names different bytes" correlation None ""
      else mret (mkResult 200 (ldr_receipt l) false)
  | None =>
      hold ← or_not_durable (query (fun db => select1 (fun h => hold_named (nr_operation r) h && (hold_node h =s NodeID s) && hold_active db h)
                                                (administrative_holds db))) "logical delete hold is unavailable" correlation;
      match hold with
      | None => answer 409 "stale" "logical delete hold is not active" correlation None "blocked"
      | Some h =>
          if negb (hold_binding_matches r h) then answer 409 "stale" "logical delete hold changed" correlation None "blocked" else
          currentRevision ← catch (query_row (fun db => scope_revision_of db (dialog_key (nr_dialog r))))
                              (fun _ => answer 409 "stale" "logical delete scope changed" correlation (Some 0) "blocked");
          if negb (currentRevision =? hold_revision h) then
            answer 409 "stale" "logical delete scope changed" correlation (Some currentRevision) "blocked" else
          delete_held r raw requestHash h currentRevision
      end
  end.

Definition node_request (raw : document) : option NodeRequest :=
  if (0 <? doc_length raw) && (doc_length raw <=? BarrierMaximumWireBytes) && strict_document raw then
    m ← decodeExact nodeRequest_fields raw;
    let r := NodeRequest_of m in
    if ValidateNodeRequest r then Some r else None
  else None.

Definition DeleteLogicalDialog (transport : string) (raw : document) : M Result :=
  node ← ask cfg_node;
  hash ← ask sha256_hex;
  if negb (transport =s node) then answer 404 "not_found" "node was not found" "" None "" else
  match node_request raw with
  | None => answer 400 "invalid" "logical delete request is invalid" "" None ""
  | Some r =>
      if negb (nr_node r =s node) then answer 404 "not_found" "node was not found" (nr_operation r) None "" else
      with_reserve (delete_locked r raw (default "" (NodeRequestHash hash r)))
  end.

(** ** [LogicalDeleteStatus] *)
Definition LogicalDeleteStatus (transport operationID : string) : M Result :=
  node ← ask cfg_node;
  if negb (transport =s node) || negb (uuidPattern operationID) then answer 404 "not_found" "operation was not found" operationID None "" else
  receipt ← or_not_durable (autocommit (query (fun db => select1 (fun l => ldr_operation l =s operationID) (logical_delete_receipts db))))
              "logical delete status is unavailable" operationID;
  match receipt with
  | None => answer 404 "not_found" "operation was not found" operationID None ""
  | Some l =>
      match NodeReceipt_of_json (ldr_receipt l) with
      | Some v => if ValidateNodeReceipt v then mret (mkResult 200 (ldr_receipt l) false)
                  else answer 503 "not_durable" "logical delete status is invalid" operationID None ""
      | None => answer 503 "not_durable" "logical delete status is invalid" operationID None ""
      end
  end.
