(* ===== verification/TranscriptView.v ===== *)
(** * The transcript-view contract, [contracts/transcript-view/types.go]
    The manifest of a safe text: its source, preview, digest and the chunks
    that cover it, with [Validate] and the [json.Marshal] form [Encode] writes. *)
From stdpp Require Import base tactics list strings gmap pretty.
From Stdlib Require Import ZArith Lia Ascii String.
From S2P Require Import Prelude Json Parse Wire Store.
Open Scope string_scope.
Open Scope list_scope.
Open Scope Z_scope.
Open Scope harness_scope.

Definition TranscriptSchemaID : string := "transcript-view-v1".
Definition MaximumPreview : Z := 64 * 1024.
Definition MaximumChunkBytes : Z := 16 * 1024 * 1024.
Definition MaximumTextBytes : Z := 512 * 1024 * 1024.
Definition MaximumChunks : Z := 64.

Record Source := mkSource { src_kind : string; src_id : string; src_index : Z; src_stream : string }.
#[export] Instance Source_eq_dec : EqDecision Source.
Proof. solve_decision. Defined.
Record Chunk := mkChunk { ch_index : Z; ch_offset : Z; ch_artifact : string; ch_size : Z; ch_sha256 : string }.
#[export] Instance source_eta : Eta Source := fun s => mkSource (src_kind s) (src_id s) (src_index s) (src_stream s).
#[export] Instance chunk_eta : Eta Chunk := fun c => mkChunk (ch_index c) (ch_offset c) (ch_artifact c) (ch_size c) (ch_sha256 c).
Record Manifest := mkManifest {
  mf_schema : string; mf_node : string; mf_dialog : string; mf_attempt : string; mf_generation : Z; mf_text : string;
  mf_source : Source; mf_preview : string; mf_truncated : bool; mf_redaction : string; mf_complete : bool;
  mf_reason : string; mf_size : Z; mf_sha256 : string; mf_chunks : list Chunk }.

#[export] Instance manifest_eta : Eta Manifest := fun m =>
  mkManifest (mf_schema m) (mf_node m) (mf_dialog m) (mf_attempt m) (mf_generation m) (mf_text m) (mf_source m) (mf_preview m)
    (mf_truncated m) (mf_redaction m) (mf_complete m) (mf_reason m) (mf_size m) (mf_sha256 m) (mf_chunks m).

Definition validSource (s : Source) : bool :=
  uuidPattern (src_id s)
  && (if in_set (src_kind s) ["assistant_message"; "tool_input"; "tool_result"]
      then (src_index s =? 0) && (src_stream s =s "none")
      else (src_kind s =s "tool_output") && (0 <=? src_index s) && (src_index s <=? MaximumSafeInteger)
           && in_set (src_stream s) ["stdout"; "stderr"; "result"; "diagnostic"]).
Definition ValidateSource : Source -> bool := validSource.

(** The chunks cover the text: consecutive, bounded, with distinct artifacts;
    the loop answers the bytes covered. *)
Fixpoint valid_chunks (index offset : Z) (seen : list string) (chunks : list Chunk) : option Z :=
  match chunks with
  | [] => Some offset
  | c :: rest =>
      if negb (ch_index c =? index) || negb (ch_offset c =? offset) || (ch_size c <? 1) || (MaximumChunkBytes <? ch_size c)
         || negb (uuidPattern (ch_artifact c)) || negb (sha256Pattern (ch_sha256 c)) || in_set (ch_artifact c) seen
      then None
      else valid_chunks (index + 1) (offset + ch_size c) (ch_artifact c :: seen) rest
  end.

Definition TranscriptValidate (m : Manifest) : bool :=
  let count := Z.of_nat (List.length (mf_chunks m)) in
  (mf_schema m =s TranscriptSchemaID) && uuidPattern (mf_node m) && uuidPattern (mf_dialog m) && uuidPattern (mf_attempt m)
  && uuidPattern (mf_text m) && (1 <=? mf_generation m) && (mf_generation m <=? MaximumSafeInteger) && validSource (mf_source m)
  && valid_utf8 (mf_preview m) && (byte_length (mf_preview m) <=? MaximumPreview)
  && in_set (mf_redaction m) ["none"; "applied"] && (0 <=? mf_size m) && (mf_size m <=? MaximumSafeInteger) && sha256Pattern (mf_sha256 m)
  && if negb (mf_complete m) then (mf_reason m =s "output_limit_exceeded") && (count =? 0)
     else (mf_reason m =s "") && (mf_size m <=? MaximumTextBytes) && (count <=? MaximumChunks)
          && if mf_size m =? 0 then count =? 0
             else negb (count =? 0)
                  && match valid_chunks 0 0 [] (mf_chunks m) with Some covered => covered =? mf_size m | None => false end.

Definition Source_json (s : Source) : json :=
  JObj [("kind", JStr (src_kind s)); ("id", JStr (src_id s)); ("index", JInt (src_index s)); ("stream", JStr (src_stream s))].
Definition Chunk_json (c : Chunk) : json :=
  JObj [("index", JInt (ch_index c)); ("offsetBytes", JInt (ch_offset c)); ("artifactId", JStr (ch_artifact c));
        ("sizeBytes", JInt (ch_size c)); ("sha256", JStr (ch_sha256 c))].
Definition Manifest_json (m : Manifest) : json :=
  JObj ([("schemaId", JStr (mf_schema m)); ("nodeId", JStr (mf_node m)); ("dialogId", JStr (mf_dialog m));
         ("attemptId", JStr (mf_attempt m)); ("generation", JInt (mf_generation m)); ("textId", JStr (mf_text m));
         ("source", Source_json (mf_source m)); ("preview", JStr (mf_preview m)); ("previewTruncated", JBool (mf_truncated m));
         ("redaction", JStr (mf_redaction m)); ("complete", JBool (mf_complete m))]
        ++ (if mf_reason m =s "" then [] else [("reason", JStr (mf_reason m))])
        ++ [("sizeBytes", JInt (mf_size m)); ("sha256", JStr (mf_sha256 m)); ("chunks", JArr (List.map Chunk_json (mf_chunks m)))]).
Definition TranscriptEncode (m : Manifest) : option string := if TranscriptValidate m then Some (marshal (Manifest_json m)) else None.

(** ** [Decode]
    Member names match the way [encoding/json] matches struct fields: folding
    ASCII case and the two letters outside ASCII that fold into it.  [null]
    leaves a field as it is; a member of no field is an error. *)
Fixpoint fold_name (s : string) : string :=
  match s with
  | EmptyString => ""
  | String c r =>
      let n := N_of_ascii c in
      if ((97 <=? n) && (n <=? 122))%N then String (ascii_of_N (n - 32)) (fold_name r) else
      match r with
      | String c1 r1 =>
          if ((n =? 197) && (N_of_ascii c1 =? 191))%N then String "S" (fold_name r1) else
          match r1 with
          | String c2 r2 =>
              if ((n =? 226) && (N_of_ascii c1 =? 132) && (N_of_ascii c2 =? 170))%N then String "K" (fold_name r2)
              else String c (fold_name r)
          | EmptyString => String c (fold_name r)
          end
      | EmptyString => String c ""
      end
  end.

Definition into_string (v : json) (old : string) : option string :=
  match v with JNull => Some old | JStr s => Some s | _ => None end.
Definition into_int (v : json) (old : Z) : option Z :=
  match v with JNull => Some old | JNum lit => parse_int64 lit | _ => None end.
Definition into_bool (v : json) (old : bool) : option bool :=
  match v with JNull => Some old | JBool b => Some b | _ => None end.

Section Members.
Context {R : Type} (set : string -> json -> R -> option R).
Fixpoint decode_members (m : list (string * json)) (r : R) : option R :=
  match m with
  | [] => Some r
  | (k, v) :: m' => r' ← set (fold_name k) v r; decode_members m' r'
  end.
Definition into_struct (v : json) (r : R) : option R :=
  match v with JNull => Some r | JObj m => decode_members m r | _ => None end.
End Members.

Definition set_source (name : string) (v : json) (s : Source) : option Source :=
  if name =s "KIND" then x ← into_string v (src_kind s); Some (s <| src_kind := x |>)
  else if name =s "ID" then x ← into_string v (src_id s); Some (s <| src_id := x |>)
  else if name =s "INDEX" then x ← into_int v (src_index s); Some (s <| src_index := x |>)
  else if name =s "STREAM" then x ← into_string v (src_stream s); Some (s <| src_stream := x |>)
  else None.
Definition set_chunk (name : string) (v : json) (c : Chunk) : option Chunk :=
  if name =s "INDEX" then x ← into_int v (ch_index c); Some (c <| ch_index := x |>)
  else if name =s "OFFSETBYTES" then x ← into_int v (ch_offset c); Some (c <| ch_offset := x |>)
  else if name =s "ARTIFACTID" then x ← into_string v (ch_artifact c); Some (c <| ch_artifact := x |>)
  else if name =s "SIZEBYTES" then x ← into_int v (ch_size c); Some (c <| ch_size := x |>)
  else if name =s "SHA256" then x ← into_string v (ch_sha256 c); Some (c <| ch_sha256 := x |>)
  else None.
Definition no_chunk : Chunk := mkChunk 0 0 "" 0 "".
Definition into_chunks (v : json) : option (list Chunk) :=
  match v with
  | JNull => Some []
  | JArr l => sequence (List.map (fun x => into_struct set_chunk x no_chunk) l)
  | _ => None
  end.
Definition set_manifest (name : string) (v : json) (m : Manifest) : option Manifest :=
  if name =s "SCHEMAID" then x ← into_string v (mf_schema m); Some (m <| mf_schema := x |>)
  else if name =s "NODEID" then x ← into_string v (mf_node m); Some (m <| mf_node := x |>)
  else if name =s "DIALOGID" then x ← into_string v (mf_dialog m); Some (m <| mf_dialog := x |>)
  else if name =s "ATTEMPTID" then x ← into_string v (mf_attempt m); Some (m <| mf_attempt := x |>)
  else if name =s "GENERATION" then x ← into_int v (mf_generation m); Some (m <| mf_generation := x |>)
  else if name =s "TEXTID" then x ← into_string v (mf_text m); Some (m <| mf_text := x |>)
  else if name =s "SOURCE" then x ← into_struct set_source v (mf_source m); Some (m <| mf_source := x |>)
  else if name =s "PREVIEW" then x ← into_string v (mf_preview m); Some (m <| mf_preview := x |>)
  else if name =s "PREVIEWTRUNCATED" then x ← into_bool v (mf_truncated m); Some (m <| mf_truncated := x |>)
  else if name =s "REDACTION" then x ← into_string v (mf_redaction m); Some (m <| mf_redaction := x |>)
  else if name =s "COMPLETE" then x ← into_bool v (mf_complete m); Some (m <| mf_complete := x |>)
  else if name =s "REASON" then x ← into_string v (mf_reason m); Some (m <| mf_reason := x |>)
  else if name =s "SIZEBYTES" then x ← into_int v (mf_size m); Some (m <| mf_size := x |>)
  else if name =s "SHA256" then x ← into_string v (mf_sha256 m); Some (m <| mf_sha256 := x |>)
  else if name =s "CHUNKS" then x ← into_chunks v; Some (m <| mf_chunks := x |>)
  else None.
Definition no_manifest : Manifest := mkManifest "" "" "" "" 0 "" (mkSource "" "" 0 "") "" false "" false "" 0 "" [].

Definition TranscriptDecode (raw : string) : option Manifest :=
  if negb (strict_valid raw) then None else
  v ← parse_json raw;
  m ← into_struct set_manifest v no_manifest;
  if TranscriptValidate m then Some m else None.
