(* ===== verification/Read.v ===== *)
(** * Reads of the node, [runtime/read.go]
    The snapshot, the stored outcome of a command, and the identity, admission,
    heartbeat and health answers; and the identity check of
    [adapters/contract/adapter.go] they rest on.  Reads run in a transaction
    that is rolled back or commits nothing. *)
From stdpp Require Import base tactics list strings gmap pretty.
From Stdlib Require Import ZArith Lia Ascii String.
From S2P Require Import Prelude Json Wire Store Tx Adapter Events Commands Barrier Hold Submit.
Open Scope string_scope.
Open Scope list_scope.
Open Scope Z_scope.
Open Scope harness_scope.

(** ** The adapter's identity *)
Definition CursorSDKVersion := "1.0.31".
Definition CodexAppServerVersion := "0.155.1".
Definition KindCursor := "cursor".
Definition KindCodex := "codex".
Definition CapabilityChat := "chat".
Definition CapabilityEvents := "events".
Definition CapabilityToolResults := "tool_results".
Definition CapabilityCancel := "cancel".
Definition CapabilitySteerAttached := "steer_attached".
Definition CapabilitySessionResume := "session_resume".
Definition CapabilityPolicyEnforcement := "policy_enforcement".
Definition mandatoryCapabilities : list string :=
  [CapabilityChat; CapabilityEvents; CapabilityToolResults; CapabilityCancel; CapabilitySteerAttached; CapabilitySessionResume;
   CapabilityPolicyEnforcement].

Record Identity := mkAdapterIdentity {
  id_kind : string; id_version : string; id_protocol : Z; id_schema : string; id_schema_sha256 : string;
  Declared : gmap string bool; Verified : gmap string bool }.
Definition declared (i : Identity) (capability : string) : bool := default false (Declared i !! capability).
Definition verified (i : Identity) (capability : string) : bool := default false (Verified i !! capability).

Definition ValidateIdentity (i : Identity) : bool :=
  (id_protocol i =? ProtocolVersion) && (id_schema i =s SchemaID) && (id_schema_sha256 i =s SchemaSHA256)
  && negb ((id_kind i =s KindCursor) && negb (id_version i =s CursorSDKVersion))
  && negb ((id_kind i =s KindCodex) && negb (id_version i =s CodexAppServerVersion))
  && ((id_kind i =s KindCursor) || (id_kind i =s KindCodex))
  && forallb (fun c => declared i c && verified i c) mandatoryCapabilities.

Definition capabilityStatus (i : Identity) (capability : string) : string :=
  if verified i capability then "verified" else if declared i capability then "declared" else "unsupported".

(** What the running process adds to the durable state: the adapter's identity
    and readiness, the provider authentication if there is one, the registered
    version of the configuration and the clock of the boot. *)
Record Process := mkProcess {
  identity : Identity; native_ready : bool; provider_auth_ready : option bool; cfg_registry : Z;
  startedAt : string; bootID : string; heartbeatAt : string }.

(** ** Common answers *)
Definition authorizeRead (trust : TrustContext) : M unit :=
  node ← ask cfg_node;
  if negb (TransportNodeID trust =s node) then answer 404 "not_found" "node was not found" "" None "" else mret tt.
Definition Invalid {A} (message : string) : M A := answer 400 "invalid" message "" None "".
Definition wireResult (wireType : string) (value : json) : M Result :=
  if Validate wireType (document_of value) then mret (mkResult 200 value false)
  else errorResult 503 "not_durable" "durable response is invalid" "" None "".

(** A struct decoded by [json.Unmarshal]: members of no field are skipped. *)
Definition decodeStruct (fields : list (string * field_type)) (v : json) : option (list (string * json)) :=
  match v with
  | JObj m =>
      if forallb (fun kv => match List.find (fun f => names kv.1 f.1) fields with Some f => scalar_fits f.2 kv.2 | None => true end) m
      then Some m else None
  | JNull => Some []
  | _ => None
  end.
Definition read_raw (m : list (string * json)) (name : string) : json := read m name JNull Some.

(** ** JSON forms *)
Definition Request_json (r : request_row) : json :=
  JObj [("requestId", JStr (req_id r)); ("dialogId", JStr (req_dialog r)); ("inputMessageId", JStr (req_message r));
        ("queueSequence", JInt (req_sequence r)); ("version", JInt (req_version r)); ("status", JStr (req_status r))].
Definition Attempt_json (a : attempt_row) : json :=
  JObj ([("attemptId", JStr (att_id a)); ("dialogId", JStr (att_dialog a)); ("requestId", JStr (att_request a));
         ("generation", JInt (att_generation a)); ("version", JInt (att_version a)); ("state", JStr (att_state a));
         ("effectStatus", JStr (att_effect a))]
        ++ optional_member "startedAt" (default "" (att_started a)) ++ optional_member "finishedAt" (default "" (att_finished a))).
Definition Snapshot_json (s : durableState) (captured : string) (pending : list request_row) (active : option attempt_row) : json :=
  JObj [("protocolVersion", JInt ProtocolVersion); ("schemaId", JStr SchemaID); ("nodeId", JStr (NodeID s)); ("epoch", JInt (Epoch s));
        ("stateVersion", JInt (StateVersion s)); ("lastEventSeq", JInt (LastEventSeq s)); ("capturedAt", JStr captured);
        ("node", nodePayload s); ("pendingQueue", JArr (List.map Request_json pending));
        ("activeAttempt", match active with Some a => Attempt_json a | None => JNull end); ("completeness", JStr "complete")].
Definition CommandStatus_json (node command digest : string) (receipt : json) : json :=
  JObj [("protocolVersion", JInt ProtocolVersion); ("schemaId", JStr SchemaID); ("nodeId", JStr node); ("commandId", JStr command);
        ("canonicalPayloadHash", JStr digest); ("status", JStr "accepted"); ("receipt", receipt)].

Definition AdapterIdentity_json (i : Identity) : json := JObj [("kind", JStr (id_kind i)); ("version", JStr (id_version i))].
Definition NodeIdentity_json (node : string) (p : Process) (s : durableState) : json :=
  let status c := JStr (capabilityStatus (identity p) c) in
  JObj [("protocolVersion", JInt ProtocolVersion); ("schemaId", JStr SchemaID); ("schemaSHA256", JStr SchemaSHA256);
        ("nodeId", JStr node); ("registryVersion", JInt (cfg_registry p)); ("identityEpoch", JInt (Epoch s));
        ("adapter", AdapterIdentity_json (identity p));
        ("capabilities", JObj [("chat", status CapabilityChat); ("events", status CapabilityEvents);
           ("tool_results", status CapabilityToolResults); ("cancel", status CapabilityCancel);
           ("steer_attached", status CapabilitySteerAttached); ("session_resume", status CapabilitySessionResume);
           ("policy_enforcement", status CapabilityPolicyEnforcement)])].
Definition AdmissionProfile_json (node owner : string) (p : Process) (s : durableState) (readiness : string) : json :=
  JObj [("schemaId", JStr AdmissionSchemaID); ("ownerId", JStr owner); ("nodeId", JStr node);
        ("registrationRevision", JInt (cfg_registry p)); ("identityEpoch", JInt (Epoch s)); ("wireSchemaSHA256", JStr SchemaSHA256);
        ("adapter", AdapterIdentity_json (identity p)); ("readiness", JStr readiness);
        ("capabilities", JObj [("profile", JBool true); ("native_epoch", JBool true);
           ("policy_enforcement", JBool (verified (identity p) CapabilityPolicyEnforcement)); ("history", JBool true);
           ("facts", JBool false); ("durable_receipts", JBool true); ("replica_export", JBool false); ("replica_import", JBool false);
           ("asset_export", JBool false); ("asset_import", JBool false); ("scoped_quiesce", JBool true);
           ("ownership_release", JBool true); ("target_reservation", JBool false)])].

(** The stored receipt, decoded and written again. *)
Definition receipt_fields : list (string * field_type) :=
  [("protocolVersion", FieldInt); ("schemaId", FieldString); ("commandId", FieldString); ("commandKind", FieldString);
   ("receiptId", FieldString); ("acceptedAt", FieldString); ("nodeId", FieldString); ("eventSeq", FieldInt); ("result", FieldString);
   ("blockingReason", FieldString)].
Definition receipt_again (v : json) : option json :=
  m ← decodeStruct receipt_fields v;
  Some (JObj ([("protocolVersion", JInt (read_int m "protocolVersion")); ("schemaId", JStr (read_string m "schemaId"));
               ("commandId", JStr (read_string m "commandId")); ("commandKind", JStr (read_string m "commandKind"));
               ("receiptId", JStr (read_string m "receiptId")); ("acceptedAt", JStr (read_string m "acceptedAt"));
               ("nodeId", JStr (read_string m "nodeId")); ("eventSeq", JInt (read_int m "eventSeq"));
               ("result", JStr (read_string m "result"))]
              ++ optional_member "blockingReason" (read_string m "blockingReason") ++ [("references", read_raw m "references")])).

(** ** Readiness *)
Definition effectiveReadiness (p : Process) (readiness : string) (reasons : list string) : string * list string :=
  let '(readiness, reasons) := if native_ready p then (readiness, reasons) else ("blocked", addReason reasons "engine_unavailable") in
  match provider_auth_ready p with
  | Some false => ("blocked", addReason reasons "auth_unavailable")
  | _ => (readiness, reasons)
  end.

(** ** The handlers *)
Definition open_read (message correlation : string) : M durableState :=
  or_not_durable begin message correlation ;; or_not_durable loadState message correlation ;; get st.
Definition current_state (message : string) : M durableState :=
  or_not_durable (autocommit loadState) message "" ;; get st.

Definition pending_queue (db : Db) : list request_row :=
  take (Z.to_nat QueueCapacity) (sort_by req_sequence (List.filter (fun r => req_status r =s "queued") (requests db))).

Definition Snapshot (trust : TrustContext) : M Result :=
  authorizeRead trust ;;
  s ← open_read "snapshot is unavailable" "";
  pending ← or_not_durable (query pending_queue) "snapshot is unavailable" "";
  active ← match ActiveAttemptID s with
           | Some id =>
               a ← or_not_durable (query_row (fun db => select1 (fun a => att_id a =s id) (attempts db))) "snapshot is inconsistent" "";
               mret (Some a)
           | None => mret None
           end;
  or_not_durable commit "snapshot is unavailable" "" ;;
  captured ← now;
  wireResult "snapshot" (Snapshot_json s captured pending active).

Definition CommandStatus (trust : TrustContext) (commandID : string) : M Result :=
  authorizeRead trust ;;
  node ← ask cfg_node;
  hash ← ask sha256_hex;
  if negb (uuidPattern commandID) then Invalid "command id is invalid" else
  or_not_durable begin "command status is unavailable" commandID ;;
  outcome ← or_not_durable (loadCommandOutcome commandID) "command status is unavailable" commandID;
  match outcome with
  | None => answer 404 "not_found" "command was not found" commandID None ""
  | Some outcome =>
      deleted ← or_not_durable (commandOutcomeTargetsDeletedDialog outcome) "command status is unavailable" commandID;
      if (deleted : bool) then answer 404 "not_found" "command was not found" commandID None "" else
      if negb (stored_accepted outcome) then
        if negb (BarrierValidate hash "rejectionReceipt" (document_of (stored_body outcome)))
        then answer 503 "not_durable" "command status is invalid" commandID None ""
        else or_not_durable commit "command status is unavailable" commandID ;;
             mret (mkResult (stored_status outcome) (stored_body outcome) false)
      else
        match receipt_again (stored_body outcome) with
        | None => answer 503 "not_durable" "command status is invalid" commandID None ""
        | Some receipt =>
            or_not_durable commit "command status is unavailable" commandID ;;
            wireResult "commandStatus" (CommandStatus_json node commandID (stored_hash outcome) receipt)
        end
  end.

(** [Busy]: a state that cannot be read counts as busy. *)
Definition Busy : M bool :=
  catch (autocommit loadState ;; s ← get st; mret (match ActiveAttemptID s with Some _ => true | None => false end))
    (fun _ => mret true).

Definition IdentityRead (p : Process) (trust : TrustContext) : M Result :=
  authorizeRead trust ;;
  node ← ask cfg_node;
  s ← current_state "identity is unavailable";
  wireResult "nodeIdentity" (NodeIdentity_json node p s).

Definition Admission (p : Process) (trust : TrustContext) : M Result :=
  authorizeRead trust ;;
  node ← ask cfg_node;
  owner ← ask cfg_owner;
  s ← current_state "admission profile is unavailable";
  wireResult "admissionProfile"
    (AdmissionProfile_json node owner p s (effectiveReadiness p (EngineReadiness s) (BlockedReasons s)).1).

Definition HealthLive (p : Process) : M Result :=
  wireResult "healthLive" (JObj [("protocolVersion", JInt ProtocolVersion); ("schemaId", JStr SchemaID); ("status", JStr "live");
                                 ("processStartedAt", JStr (startedAt p))]).

Definition ExecutorHeartbeat (p : Process) (trust : TrustContext) : M Result :=
  authorizeRead trust ;;
  node ← ask cfg_node;
  s ← current_state "executor heartbeat is unavailable";
  mret (mkResult 200
    (JObj [("nodeId", JStr node); ("bootId", JStr (bootID p)); ("observedAt", JStr (heartbeatAt p)); ("health", JStr "live");
           ("readiness", JStr (effectiveReadiness p (EngineReadiness s) (BlockedReasons s)).1); ("capacity", JInt QueueCapacity)]) false).

(** The identity answer is read back into the struct it was made of. *)
Definition HealthReady (p : Process) (trust : TrustContext) : M Result :=
  authorizeRead trust ;;
  s ← current_state "readiness is unavailable";
  identityResult ← IdentityRead p trust;
  if negb (HTTPStatus identityResult =? 200) then mret identityResult else
  let '(readiness, reasons) := effectiveReadiness p (EngineReadiness s) (BlockedReasons s) in
  checked ← now;
  wireResult "healthReady"
    (JObj [("protocolVersion", JInt ProtocolVersion); ("schemaId", JStr SchemaID); ("checkedAt", JStr checked);
           ("identity", Body identityResult); ("readiness", JStr readiness); ("blockedReasons", JArr (List.map JStr reasons))]).
