(* ===== verification/Replay.v ===== *)
(** * Event replay, [runtime/replay.go]
    One bounded read of the durable log, as the event stream makes it: the
    events after a cursor, in order, up to a count and a size, refused when the
    log has a gap or shows work of a deleted dialog. *)
From stdpp Require Import base tactics list strings gmap pretty.
From Stdlib Require Import ZArith Lia Ascii String.
From S2P Require Import Prelude Json Wire Store Tx Adapter Events Commands Barrier Hold Submit Read.
Open Scope string_scope.
Open Scope list_scope.
Open Scope Z_scope.
Open Scope harness_scope.

(** ** The decoded envelope *)
Record EventView := mkEventView {
  ev_node : string; ev_seq : Z; ev_epoch : Z; ev_type : string; ev_entity : string; ev_attempt : string; ev_dialog : string;
  ev_payload : json }.
Definition eventEnvelope_fields : list (string * field_type) :=
  [("protocolVersion", FieldInt); ("schemaId", FieldString); ("nodeId", FieldString); ("seq", FieldInt); ("epoch", FieldInt);
   ("type", FieldString); ("entityId", FieldString); ("entityVersion", FieldInt); ("attemptId", FieldString);
   ("dialogId", FieldString); ("observedAt", FieldString); ("sourceAt", FieldString); ("completeness", FieldString)].
Definition EventView_of (raw : json) : option EventView :=
  m ← decodeStruct eventEnvelope_fields raw;
  Some (mkEventView (read_string m "nodeId") (read_int m "seq") (read_int m "epoch") (read_string m "type") (read_string m "entityId")
          (read_string m "attemptId") (read_string m "dialogId") (read_raw m "payload")).

Record EventReplay := mkReplay { rp_epoch : Z; rp_last : Z; rp_events : list json }.

(** ** The window *)
(** The scan of the rows: [None] is the gap, the result the events before the
    first that does not fit. *)
Fixpoint replay_window (node : string) (epoch expected total : Z) (rows : list json) : option (list (json * EventView)) :=
  match rows with
  | [] => Some []
  | raw :: rows' =>
      if negb (Validate "event" (document_of raw)) then None else
      match EventView_of raw with
      | None => None
      | Some e =>
          if negb (ev_node e =s node) || negb (ev_epoch e =? epoch) || negb (ev_seq e =? expected) then None else
          if MaximumWireBytes - 1024 <? total + byte_length (marshal raw) then Some [] else
          rest ← replay_window node epoch (expected + 1) (total + byte_length (marshal raw)) rows';
          Some ((raw, e) :: rest)
      end
  end.

Definition message_candidates (window : list (json * EventView)) : list string :=
  List.map (fun w => ev_entity w.2) (List.filter (fun w => ev_type w.2 =s "message.disposition_changed") window).

(** The messages of deleted dialogs among the candidates; at most 100 of them
    are distinct, the window holds no more. *)
Definition deletedMessageScopes (candidates deletedDialogs : list string) : M (list string) :=
  match candidates with
  | [] => mret []
  | _ =>
      if 100 <? Z.of_nat (List.length (nodup String.string_dec candidates)) then fail (Broken "replay message candidate limit exceeded") else
      query (fun db => List.map msg_id (List.filter (fun m => in_set (msg_id m) candidates && in_set (msg_dialog m) deletedDialogs) (messages db)))
  end.

Definition eventBelongsToDeletedDialog (e : EventView) (dialogs messages : list string) : bool :=
  if ev_type e =s "dialog.deleted" then false
  else if in_set (ev_dialog e) dialogs || ((ev_type e =s "message.disposition_changed") && in_set (ev_entity e) messages) then true
  else if ev_type e =s "message.accepted" then
    match decodeStruct [("dialogId", FieldString); ("messageId", FieldString); ("requestId", FieldString); ("sequence", FieldInt);
                        ("disposition", FieldString)] (ev_payload e) with
    | Some m => in_set (read_string m "dialogId") dialogs
    | None => false
    end
  else false.

(** [SELECT event_json FROM events WHERE node_id=? AND seq>? ORDER BY seq LIMIT ?]. *)
Definition events_after (node : string) (after limit : Z) (db : Db) : list json :=
  List.map evt_json
    (take (Z.to_nat limit) (sort_by evt_seq (List.filter (fun e => (evt_node e =s node) && (after <? evt_seq e)) (events db)))).

Definition ReplayEvents (trust : TrustContext) (after limit : Z) : M EventReplay :=
  authorizeRead trust ;;
  if (after <? 0) || (limit <? 1) || (100 <? limit) then Invalid "event cursor is invalid" else
  s ← open_read "events are unavailable" "";
  if LastEventSeq s <? after then answer 409 "stale" "event cursor is ahead of durable history" "" None "" else
  rows ← or_not_durable (query (events_after (NodeID s) after limit)) "events are unavailable" "";
  match replay_window (NodeID s) (Epoch s) (after + 1) 0 rows with
  | None => answer 409 "stale" "durable event history has a gap" "" None ""
  | Some window =>
      deleted ← get deletedDialogs;
      messages ← or_not_durable (deletedMessageScopes (message_candidates window) deleted) "events are unavailable" "";
      if List.existsb (fun w => eventBelongsToDeletedDialog w.2 deleted messages) window
      then answer 409 "stale" "event history requires snapshot resynchronization" "" None ""
      else mret (mkReplay (Epoch s) (LastEventSeq s) (List.map fst window))
  end.

(** [loadDeletedDialogs], the set the process starts with. *)
Definition loadDeletedDialogs : M (list string) :=
  query (fun db => List.flat_map (fun e => match evt_dialog e with Some d => [d] | None => [] end)
                     (List.filter (fun e => is_text (evt_key e) "dialog.deleted") (events db))).
