(* ===== verification/Paging.v ===== *)
(** * Cursors and pages, [runtime/pages.go]
    The base64 of a cursor, its JSON, the check of a cursor against the state
    it was made at, and the two ways a listing is cut into pages: by rows, and
    by rows and bytes. *)
From stdpp Require Import base tactics list strings gmap pretty.
From Stdlib Require Import ZArith Lia Ascii String.
From S2P Require Import Prelude Json Parse Wire Store Tx TranscriptView.
Open Scope string_scope.
Open Scope list_scope.
Open Scope Z_scope.
Open Scope harness_scope.

(** ** [base64.RawURLEncoding] *)
Definition base64_alphabet : string := "ABCDEFGHIJKLMNOPQRSTUVWXYZabcdefghijklmnopqrstuvwxyz0123456789-_".
Definition base64_digit (n : N) : ascii := default "A"%char (String.get (N.to_nat n) base64_alphabet).
Definition base64_value (c : ascii) : option N :=
  let n := N_of_ascii c in
  if ((65 <=? n) && (n <=? 90))%N then Some (n - 65)%N
  else if ((97 <=? n) && (n <=? 122))%N then Some (n - 71)%N
  else if ((48 <=? n) && (n <=? 57))%N then Some (n + 4)%N
  else if (n =? 45)%N then Some 62%N
  else if (n =? 95)%N then Some 63%N
  else None.

Fixpoint EncodeToString (s : string) : string :=
  match s with
  | EmptyString => ""
  | String a EmptyString =>
      let n := (N_of_ascii a * 16)%N in String (base64_digit (n / 64)) (String (base64_digit (n mod 64)) "")
  | String a (String b EmptyString) =>
      let n := (N_of_ascii a * 1024 + N_of_ascii b * 4)%N in
      String (base64_digit (n / 4096)) (String (base64_digit (n / 64 mod 64)) (String (base64_digit (n mod 64)) ""))
  | String a (String b (String c r)) =>
      let n := (N_of_ascii a * 65536 + N_of_ascii b * 256 + N_of_ascii c)%N in
      String (base64_digit (n / 262144)) (String (base64_digit (n / 4096 mod 64))
        (String (base64_digit (n / 64 mod 64)) (String (base64_digit (n mod 64)) (EncodeToString r))))
  end.

(** The decoder drops line breaks anywhere and ignores the bits a shorter last
    group leaves over; every other byte outside the alphabet is an error. *)
Fixpoint drop_line_breaks (s : string) : string :=
  match s with
  | EmptyString => ""
  | String c r => if (N_of_ascii c =? 10)%N || (N_of_ascii c =? 13)%N then drop_line_breaks r else String c (drop_line_breaks r)
  end.
Definition byte_of (n : N) : ascii := ascii_of_N (n mod 256).
Fixpoint decode_groups (s : string) : option string :=
  match s with
  | EmptyString => Some ""
  | String a (String b (String c (String d r))) =>
      a ← base64_value a; b ← base64_value b; c ← base64_value c; d ← base64_value d; t ← decode_groups r;
      let n := (a * 262144 + b * 4096 + c * 64 + d)%N in
      Some (String (byte_of (n / 65536)) (String (byte_of (n / 256)) (String (byte_of n) t)))
  | String a (String b (String c EmptyString)) =>
      a ← base64_value a; b ← base64_value b; c ← base64_value c;
      let n := (a * 4096 + b * 64 + c)%N in Some (String (byte_of (n / 1024)) (String (byte_of (n / 4)) ""))
  | String a (String b EmptyString) =>
      a ← base64_value a; b ← base64_value b; Some (String (byte_of ((a * 64 + b) / 16)) "")
  | String _ EmptyString => None
  end.
Definition DecodeString (s : string) : option string := decode_groups (drop_line_breaks s).

(** ** The two cursors *)
Record pageCursor := mkPageCursor { pc_epoch : Z; pc_state : Z; pc_offset : Z; pc_scope : string }.
#[export] Instance pageCursor_eta : Eta pageCursor := fun r =>
  mkPageCursor (pc_epoch r) (pc_state r) (pc_offset r) (pc_scope r).
Record latestHistoryCursor := mkLatestCursor { lh_epoch : Z; lh_before : Z; lh_scope : string }.
#[export] Instance latestHistoryCursor_eta : Eta latestHistoryCursor := fun r =>
  mkLatestCursor (lh_epoch r) (lh_before r) (lh_scope r).

Definition pageCursor_json (c : pageCursor) : json :=
  JObj [("e", JInt (pc_epoch c)); ("s", JInt (pc_state c)); ("o", JInt (pc_offset c)); ("p", JStr (pc_scope c))].
Definition latestHistoryCursor_json (c : latestHistoryCursor) : json :=
  JObj [("e", JInt (lh_epoch c)); ("b", JInt (lh_before c)); ("p", JStr (lh_scope c))].

(** [json.Unmarshal] into the struct; members of no field are skipped. *)
Definition set_page_cursor (name : string) (v : json) (c : pageCursor) : option pageCursor :=
  if name =s "E" then x ← into_int v (pc_epoch c); Some (c <| pc_epoch := x |>)
  else if name =s "S" then x ← into_int v (pc_state c); Some (c <| pc_state := x |>)
  else if name =s "O" then x ← into_int v (pc_offset c); Some (c <| pc_offset := x |>)
  else if name =s "P" then x ← into_string v (pc_scope c); Some (c <| pc_scope := x |>)
  else Some c.
Definition set_latest_cursor (name : string) (v : json) (c : latestHistoryCursor) : option latestHistoryCursor :=
  if name =s "E" then x ← into_int v (lh_epoch c); Some (c <| lh_epoch := x |>)
  else if name =s "B" then x ← into_int v (lh_before c); Some (c <| lh_before := x |>)
  else if name =s "P" then x ← into_string v (lh_scope c); Some (c <| lh_scope := x |>)
  else Some c.
Definition pageCursor_of (decoded : string) : option pageCursor :=
  v ← parse_json decoded; into_struct set_page_cursor v (mkPageCursor 0 0 0 "").
Definition latestHistoryCursor_of (decoded : string) : option latestHistoryCursor :=
  v ← parse_json decoded; into_struct set_latest_cursor v (mkLatestCursor 0 0 "").

Definition encodeCursor (c : pageCursor) : string := EncodeToString (marshal (pageCursor_json c)).
Definition encodeLatestHistoryCursor (c : latestHistoryCursor) : string := EncodeToString (marshal (latestHistoryCursor_json c)).

Definition cursor_bytes (raw : string) : option string :=
  decoded ← DecodeString raw; if MaximumCursorBytes <? byte_length decoded then None else Some decoded.

Definition invalid_cursor (message : string) : commandFailure := mkFailure 400 "invalid" message None "".
Definition stale_cursor (message : string) : commandFailure := mkFailure 409 "stale" message None "".

Definition decodeCursor (raw scope : string) (s : durableState) : commandFailure + Z :=
  if raw =s "" then inr 0 else
  match cursor_bytes raw with
  | None => inl (invalid_cursor "cursor is invalid")
  | Some decoded =>
      match pageCursor_of decoded with
      | None => inl (invalid_cursor "cursor is invalid")
      | Some c =>
          if (pc_offset c <? 0) || negb (pc_scope c =s scope) then inl (invalid_cursor "cursor is invalid")
          else if negb (pc_epoch c =? Epoch s) || negb (pc_state c =? StateVersion s) then inl (stale_cursor "cursor snapshot is stale")
          else inr (pc_offset c)
      end
  end.

Definition decodeLatestHistoryCursor (raw scope : string) (epoch : Z) : commandFailure + Z :=
  if raw =s "" then inr (MaximumSafeInteger + 1) else
  match cursor_bytes raw with
  | None => inl (invalid_cursor "history cursor is invalid")
  | Some decoded =>
      match latestHistoryCursor_of decoded with
      | None => inl (stale_cursor "history cursor is invalid or stale")
      | Some c =>
          if negb (lh_epoch c =? epoch) || negb (lh_scope c =s scope) || (lh_before c <? 1) || (MaximumSafeInteger <? lh_before c)
          then inl (stale_cursor "history cursor is invalid or stale") else inr (lh_before c)
      end
  end.

Definition normalizedLimit (limit : Z) : option Z :=
  if limit =? 0 then Some MaximumPageSize else if (0 <? limit) && (limit <=? MaximumPageSize) then Some limit else None.

(** ** Rows of a page *)
Section Rows.
Context {R : Type}.
Implicit Types l : list R.

(** [ORDER BY] with a total preorder. *)
Fixpoint insert_row (before : R -> R -> bool) (x : R) l : list R :=
  match l with
  | [] => [x]
  | y :: l' => if before x y then x :: l else y :: insert_row before x l'
  end.
Definition order_by (before : R -> R -> bool) l : list R := List.fold_right (insert_row before) [] l.

(** [LIMIT limit OFFSET offset]. *)
Definition limit_offset (limit offset : Z) l : list R := take (Z.to_nat limit) (drop (Z.to_nat offset) l).

(** One row more than the page was asked for: it is cut off and makes the
    cursor of the next page. *)
Definition page_rows (limit offset : Z) l : list R * bool :=
  let rows := limit_offset (limit + 1) offset l in
  if limit <? Z.of_nat (List.length rows) then (take (Z.to_nat limit) rows, true) else (rows, false).

(** The walk of a listing whose items may fail to decode, are counted and
    measured: [inl] is the answer's message, [true] says that rows are left. *)
Fixpoint page_walk {A} (item : R -> string + A) (size : A -> Z) (limit : Z) (maximum : Z) (count bytes : Z) l : string + (list A * bool) :=
  match l with
  | [] => inr ([], false)
  | r :: l' =>
      match item r with
      | inl message => inl message
      | inr a =>
          if (count =? limit) || (maximum <? bytes + size a) then inr ([], true) else
          match page_walk item size limit maximum (count + 1) (bytes + size a) l' with
          | inl message => inl message
          | inr (items, more) => inr (a :: items, more)
          end
      end
  end.
End Rows.
