(* ===== verification/Pages.v ===== *)
(** * Paged reads, [runtime/pages.go]
    Histories, dialogs, requests, attempts and the events of an attempt, each
    in one read transaction and bound to the node state its cursor names. *)
From stdpp Require Import base tactics list strings gmap pretty.
From Stdlib Require Import ZArith Lia Ascii String.
From S2P Require Import Prelude Json Wire Store Tx Adapter Events Commands Barrier Hold Submit Read Replay Paging.
Open Scope string_scope.
Open Scope list_scope.
Open Scope Z_scope.
Open Scope harness_scope.

(** ** Scope and order *)
(** [JOIN dialogs d .. d.node_id=? AND d.owner_id=? AND NOT EXISTS(.. 'dialog.deleted')]. *)
Definition visible_dialog (s : durableState) (db : Db) (dialog : string) : bool :=
  exists_where (fun d => (dlg_id d =s dialog) && (dlg_node d =s NodeID s) && (dlg_owner d =s OwnerID s)
                         && negb (dialog_deleted db (dlg_id d))) (dialogs db).
Definition dialog_scope (s : durableState) (dialog : string) (db : Db) : option unit :=
  if visible_dialog s db dialog then Some tt else None.
Definition visible_request (s : durableState) (request : string) (db : Db) : option string :=
  r ← select1 (fun r => req_id r =s request) (requests db); if visible_dialog s db (req_dialog r) then Some (req_dialog r) else None.
Definition visible_attempt (s : durableState) (attempt : string) (db : Db) : option attempt_row :=
  a ← select1 (fun a => att_id a =s attempt) (attempts db); if visible_dialog s db (att_dialog a) then Some a else None.

Definition string_before (a b : string) : bool := String.leb a b.
Definition dialog_before (a b : dialog_row) : bool :=
  if dlg_created a =s dlg_created b then string_before (dlg_id a) (dlg_id b) else string_before (dlg_created a) (dlg_created b).
Definition request_before (a b : request_row) : bool :=
  if req_sequence a =? req_sequence b then string_before (req_id a) (req_id b) else req_sequence a <? req_sequence b.

(** ** JSON forms *)
Definition SafeHistory_item (m : message_row) : string + json :=
  if msg_role m =s "user" then
    inr (JObj [("messageId", JStr (msg_id m)); ("role", JStr (msg_role m)); ("dialogId", JStr (msg_dialog m));
               ("sequence", JInt (msg_sequence m)); ("version", JInt (msg_version m)); ("createdAt", JStr (msg_created m));
               ("text", JStr (default "" (msg_text m))); ("disposition", JStr (default "" (msg_disposition m)));
               ("commandId", JStr (default "" (msg_command m))); ("requestId", JStr (default "" (msg_request m)))])
  else if msg_role m =s "assistant" then
    match msg_content m ≫= SafeContent_of_json with
    | Some safe =>
        inr (JObj [("messageId", JStr (msg_id m)); ("role", JStr (msg_role m)); ("dialogId", JStr (msg_dialog m));
                   ("sequence", JInt (msg_sequence m)); ("version", JInt (msg_version m)); ("createdAt", JStr (msg_created m));
                   ("attemptId", JStr (default "" (msg_attempt m))); ("content", SafeContent_json safe);
                   ("finishReason", JStr (default "" (msg_finish m)))])
    | None => inl "history content is unavailable"
    end
  else inl "history role is invalid".

Definition DialogSummary_json (d : dialog_row) : json :=
  JObj ([("dialogId", JStr (dlg_id d)); ("version", JInt (dlg_version d))] ++ optional_member "title" (default "" (dlg_title d))
        ++ [("createdAt", JStr (dlg_created d))]).

(** The five page structs; their members differ in the middle and at the end. *)
Definition page_json (s : durableState) (pageType : string) (between : list (string * json)) (items : list json) (next : option string)
    (after : list (string * json)) : json :=
  JObj ([("protocolVersion", JInt 1); ("schemaId", JStr SchemaID); ("nodeId", JStr (NodeID s)); ("epoch", JInt (Epoch s));
         ("snapshotStateVersion", JInt (StateVersion s)); ("lastEventSeq", JInt (LastEventSeq s))]
        ++ between ++ [("items", JArr items); ("nextCursor", json_text_or_null next); ("pageType", JStr pageType)] ++ after).

Definition next_page (s : durableState) (scope : string) (offset : Z) (more : bool) : option string :=
  if more then Some (encodeCursor (mkPageCursor (Epoch s) (StateVersion s) offset scope)) else None.

Definition or_cursor (r : commandFailure + Z) (correlation : string) : M Z :=
  match r with inl f => commandError (Failure f) correlation | inr z => mret z end.
Definition or_limit (limit : Z) (message : string) : M Z :=
  match normalizedLimit limit with Some l => mret l | None => Invalid message end.

(** The lookup of the scope: [404] without a row, [503] on a failure. *)
Definition in_read_scope {A} (f : Db -> option A) (missing unavailable correlation : string) : M A :=
  catch (query_row f) (fun e => match e with
                                | NoRows => answer 404 "not_found" missing correlation None ""
                                | _ => answer 503 "not_durable" unavailable correlation None ""
                                end).

(** ** Histories *)
Definition history_bytes : Z := MaximumWireBytes - 4096.
Definition json_size (v : json) : Z := byte_length (marshal v).
Definition dialog_messages (dialog : string) (db : Db) : list message_row :=
  sort_by msg_sequence (List.filter (fun m => msg_dialog m =s dialog) (messages db)).

Definition History (trust : TrustContext) (dialogID cursor : string) (limit : Z) : M Result :=
  authorizeRead trust ;;
  limit ← or_limit limit "limit is invalid";
  s ← open_read "history is unavailable" dialogID;
  in_read_scope (dialog_scope s dialogID) "dialog was not found" "history is unavailable" dialogID ;;
  let scope := "history:" +:+ dialogID in
  offset ← or_cursor (decodeCursor cursor scope s) dialogID;
  rows ← or_not_durable (query (fun db => limit_offset (limit + 1) offset (dialog_messages dialogID db))) "history is unavailable" dialogID;
  match page_walk SafeHistory_item json_size limit history_bytes 0 0 rows with
  | inl message => answer 503 "not_durable" message dialogID None ""
  | inr (items, more) =>
      wireResult "historyPage"
        (page_json s "history" [] items (next_page s scope (offset + Z.of_nat (List.length items)) more) [("dialogId", JStr dialogID)])
  end.

(** Backwards from a sequence; the walk is over (sequence, item) pairs. *)
Definition messages_before (dialog : string) (before : Z) (db : Db) : list message_row :=
  List.rev (List.filter (fun m => msg_sequence m <? before) (dialog_messages dialog db)).
Definition latest_item (m : message_row) : string + (Z * json) :=
  match SafeHistory_item m with inl message => inl message | inr v => inr (msg_sequence m, v) end.
Definition latest_next (s : durableState) (scope : string) (items : list (Z * json)) (more : bool) : option string :=
  if (more : bool) then
    match last items with
    | Some (sequence, _) => Some (encodeLatestHistoryCursor (mkLatestCursor (Epoch s) sequence scope))
    | None => None
    end
  else None.

Definition HistoryLatest (trust : TrustContext) (dialogID cursor : string) (limit : Z) : M Result :=
  authorizeRead trust ;;
  limit ← or_limit limit "limit is invalid";
  s ← open_read "history is unavailable" dialogID;
  in_read_scope (dialog_scope s dialogID) "dialog was not found" "history is unavailable" dialogID ;;
  let scope := "history-latest:" +:+ dialogID in
  before ← or_cursor (decodeLatestHistoryCursor cursor scope (Epoch s)) dialogID;
  rows ← or_not_durable (query (fun db => take (Z.to_nat (limit + 1)) (messages_before dialogID before db))) "history is unavailable" dialogID;
  match page_walk latest_item (fun i => json_size i.2) limit history_bytes 0 0 rows with
  | inl message => answer 503 "not_durable" message dialogID None ""
  | inr (items, more) =>
      wireResult "historyPage"
        (page_json s "history" [] (List.map snd (List.rev items)) (latest_next s scope items more) [("dialogId", JStr dialogID)])
  end.

(** ** Dialogs and requests *)
Definition listed_dialogs (s : durableState) (db : Db) : list dialog_row :=
  order_by dialog_before (List.filter (fun d => (dlg_node d =s NodeID s) && (dlg_owner d =s OwnerID s)
                                                && negb (dialog_deleted db (dlg_id d))) (dialogs db)).

Definition Dialogs (trust : TrustContext) (cursor : string) (limit : Z) : M Result :=
  authorizeRead trust ;;
  limit ← or_limit limit "limit is invalid";
  s ← open_read "dialogs are unavailable" "";
  offset ← or_cursor (decodeCursor cursor "dialogs" s) "";
  page ← or_not_durable (query (fun db => page_rows limit offset (listed_dialogs s db))) "dialogs are unavailable" "";
  wireResult "dialogPage"
    (page_json s "dialogs" [] (List.map DialogSummary_json page.1) (next_page s "dialogs" (offset + limit) page.2) []).

Definition request_states : list string :=
  [""; "queued"; "cancelled"; "dispatching"; "active"; "completed"; "failed"; "interrupted"; "unknown"].
Definition listed_requests (s : durableState) (dialogID stateFilter : string) (db : Db) : list request_row :=
  order_by request_before
    (List.filter (fun r => visible_dialog s db (req_dialog r) && ((dialogID =s "") || (req_dialog r =s dialogID))
                           && ((stateFilter =s "") || (req_status r =s stateFilter))) (requests db)).

Definition requests_page (trust : TrustContext) (dialogID stateFilter cursor : string) (limit : Z) : M Result :=
  authorizeRead trust ;;
  match normalizedLimit limit with
  | Some limit =>
      if negb (in_set stateFilter request_states) then Invalid "request query is invalid" else
      s ← open_read "requests are unavailable" "";
      let scope := "requests:" +:+ dialogID +:+ ":" +:+ stateFilter in
      offset ← or_cursor (decodeCursor cursor scope s) "";
      page ← or_not_durable (query (fun db => page_rows limit offset (listed_requests s dialogID stateFilter db))) "requests are unavailable" "";
      wireResult "requestPage"
        (page_json s "requests" [] (List.map Request_json page.1) (next_page s scope (offset + limit) page.2) [])
  | None => Invalid "request query is invalid"
  end.
Definition Requests (trust : TrustContext) (stateFilter cursor : string) (limit : Z) : M Result :=
  requests_page trust "" stateFilter cursor limit.
Definition RequestsForDialog (trust : TrustContext) (dialogID stateFilter cursor : string) (limit : Z) : M Result :=
  if negb (uuidPattern dialogID) then Invalid "dialog id is invalid" else requests_page trust dialogID stateFilter cursor limit.

(** ** Attempts *)
Definition AttemptRead_json (s : durableState) (a : attempt_row) : json :=
  JObj [("protocolVersion", JInt 1); ("schemaId", JStr SchemaID); ("nodeId", JStr (NodeID s)); ("epoch", JInt (Epoch s));
        ("stateVersion", JInt (StateVersion s)); ("attempt", Attempt_json a)].

Definition Attempt (trust : TrustContext) (attemptID : string) : M Result :=
  authorizeRead trust ;;
  or_not_durable (autocommit loadState) "attempt is unavailable" attemptID ;;
  s ← get st;
  a ← in_read_scope (visible_attempt s attemptID) "attempt was not found" "attempt is unavailable" attemptID;
  wireResult "attemptRead" (AttemptRead_json s a).

Definition listed_attempts (request : string) (db : Db) : list attempt_row :=
  sort_by att_generation (List.filter (fun a => att_request a =s request) (attempts db)).

Definition Attempts (trust : TrustContext) (requestID cursor : string) (limit : Z) : M Result :=
  authorizeRead trust ;;
  limit ← or_limit limit "limit is invalid";
  s ← open_read "attempts are unavailable" requestID;
  dialogID ← in_read_scope (visible_request s requestID) "request was not found" "attempts are unavailable" requestID;
  let scope := "attempts:" +:+ requestID in
  offset ← or_cursor (decodeCursor cursor scope s) requestID;
  page ← or_not_durable (query (fun db => page_rows limit offset (listed_attempts requestID db))) "attempts are unavailable" requestID;
  wireResult "attemptPage"
    (page_json s "attempts" [("dialogId", JStr dialogID); ("requestId", JStr requestID)] (List.map Attempt_json page.1)
       (next_page s scope (offset + limit) page.2) []).

(** ** Events of an attempt *)
Definition attempt_events (node attempt : string) (after limit : Z) (db : Db) : list json :=
  List.map evt_json
    (take (Z.to_nat limit)
       (sort_by evt_seq (List.filter (fun e => (evt_node e =s node) && is_text (evt_attempt e) attempt && (after <? evt_seq e)) (events db)))).
(** The envelope of a row, whose scope must be the attempt's. *)
Definition attempt_event (attempt dialog : string) (epoch : Z) (raw : json) : string + (EventView * json) :=
  match EventView_of raw with
  | Some e => if (ev_attempt e =s attempt) && (ev_dialog e =s dialog) && (ev_epoch e =? epoch) then inr (e, raw)
              else inl "event scope is invalid"
  | None => inl "event scope is invalid"
  end.

(** [next] is the sequence number of the last item; a first event too large for
    a page leaves the page empty with more to come, where the code indexes an
    empty slice and panics: [Broken]. *)
Definition next_event (items : list (EventView * json)) (more : bool) : M (option string) :=
  if (more : bool) then match last items with Some (e, _) => mret (Some (itoa (ev_seq e))) | None => fail (Broken "index out of range") end
  else mret None.

Definition AttemptEvents (trust : TrustContext) (attemptID : string) (after limit : Z) : M Result :=
  authorizeRead trust ;;
  match normalizedLimit limit with
  | Some limit =>
      if (after <? 0) || (MaximumSafeInteger <? after) then Invalid "event query is invalid" else
      s ← open_read "events are unavailable" attemptID;
      a ← in_read_scope (visible_attempt s attemptID) "attempt was not found" "events are unavailable" attemptID;
      if LastEventSeq s <? after then answer 409 "stale" "event cursor is ahead of durable history" attemptID None "" else
      rows ← or_not_durable (query (attempt_events (NodeID s) attemptID after (limit + 1))) "events are unavailable" attemptID;
      match page_walk (attempt_event attemptID (att_dialog a) (Epoch s)) (fun i => json_size i.2) limit history_bytes 0 0 rows with
      | inl message => answer 503 "not_durable" message attemptID None ""
      | inr (items, more) =>
          next ← next_event items more;
          wireResult "eventPage"
            (page_json s "events" [] (List.map snd items) next [("dialogId", JStr (att_dialog a)); ("attemptId", JStr attemptID)])
      end
  | None => Invalid "event query is invalid"
  end.
