(* ===== verification/Frames.v ===== *)
(** * What each statement changes
    One frame lemma per statement of [Store]: the table it writes, the guards
    it passed, and that beyond the quiescence revisions nothing else moved.
    [wp_step] runs a handler symbolically with them; the state it leaves is an
    explicit record over the initial one. *)
From stdpp Require Import base tactics list strings gmap pretty.
From Stdlib Require Import ZArith Lia Ascii String.
From S2P Require Import Prelude Json Wire Store Tx Adapter Events Commands Barrier Hold.
Open Scope string_scope.
Open Scope list_scope.
Open Scope Z_scope.
Open Scope harness_scope.

Lemma update_where_none {R} (p : R -> bool) f l : select1 p l = None -> update_where p f l = l.
Proof.
  intros H. induction l as [|r l IH]; [done|]. simpl in *.
  destruct (p r); [done|]. by rewrite IH.
Qed.

Lemma db_same_quiescence (db : Db) : db = db <| quiescence_scope_revisions := quiescence_scope_revisions db |>.
Proof. by destruct db. Qed.

Ltac frame_tac H :=
  repeat match type of H with
  | (_ ≫= _) = Some _ => apply bind_Some in H as (? & ?Hg & H); apply guard_Some in Hg as [? ->]
  | guard _ _ = Some _ => apply guard_Some in H as [? H]
  end; simplify_bool;
  try match type of H with fire _ _ _ _ = Some _ => apply fire_frame in H; eexists end.

Section Frames.
Implicit Types db : Db.

Lemma insert_dialog_frame row db db' :
  insert_dialog row db = Some db' ->
  exists q, exists_where (fun d => dlg_id d =s dlg_id row) (dialogs db) = false
  /\ db' = db <| dialogs := dialogs db ++ [row] |> <| quiescence_scope_revisions := q |>.
Proof. unfold insert_dialog. intros H. frame_tac H. split; [done|exact H]. Qed.

Lemma insert_message_frame row db db' :
  insert_message row db = Some db' ->
  exists_where (fun m => msg_id m =s msg_id row) (messages db) = false /\ db' = db <| messages := messages db ++ [row] |>.
Proof. unfold insert_message. intros H. frame_tac H. by split. Qed.

Lemma insert_request_frame row db db' :
  insert_request row db = Some db' ->
  exists q, (exists_where (fun r => req_id r =s req_id row) (requests db) = false
             /\ exists_where (fun d => dlg_id d =s req_dialog row) (dialogs db) = true
             /\ exists_where (fun r => req_sequence r =? req_sequence row) (requests db) = false)
  /\ db' = db <| requests := requests db ++ [row] |> <| quiescence_scope_revisions := q |>.
Proof. unfold insert_request. intros H. frame_tac H. split; [by split_and!|exact H]. Qed.

Lemma update_request_frame id f db db' :
  update_request id f db = Some db' ->
  exists q, db' = db <| requests := update_where (fun r => req_id r =s id) f (requests db) |> <| quiescence_scope_revisions := q |>.
Proof.
  unfold update_request. intros H. destruct (select1 _ _) eqn:Hs.
  - apply fire_frame in H. eexists. exact H.
  - simplify_eq. exists (quiescence_scope_revisions db'). rewrite update_where_none by done. by destruct db'.
Qed.

Lemma insert_attempt_frame row db db' :
  insert_attempt row db = Some db' ->
  exists q, (exists_where (fun a => att_id a =s att_id row) (attempts db) = false
             /\ exists_where (fun r => req_id r =s att_request row) (requests db) = true
             /\ one_active_attempt (attempts db ++ [row]) = true /\ 0 <= att_output row)
  /\ db' = db <| attempts := attempts db ++ [row] |> <| quiescence_scope_revisions := q |>.
Proof. unfold insert_attempt. intros H. frame_tac H. split; [by split_and!|exact H]. Qed.

Lemma update_attempt_frame id f db db' :
  update_attempt id f db = Some db' ->
  exists q, db' = db <| attempts := update_where (fun a => att_id a =s id) f (attempts db) |> <| quiescence_scope_revisions := q |>.
Proof.
  unfold update_attempt. intros H. destruct (select1 _ _) eqn:Hs.
  - frame_tac H. exact H.
  - simplify_eq. exists (quiescence_scope_revisions db'). rewrite update_where_none by done. by destruct db'.
Qed.

Lemma charge_attempt_frame id expected next db n db' :
  charge_attempt id expected next db = Some (n, db') ->
  exists q, (n = 1 \/ (n = 0 /\ db' = db))
  /\ db' = db <| attempts := update_where (fun a => att_id a =s id)
                  (fun a => if (n =? 1) && (att_output a =? expected) then a <| att_output := next |> else a) (attempts db) |>
              <| quiescence_scope_revisions := q |>.
Proof.
  unfold charge_attempt. destruct (exists_where _ _); intros H.
  - apply bind_Some in H as (d & H & [= <- <-]). apply update_attempt_frame in H as (q & ->). exists q. split; [by left|done].
  - injection H as <- <-. exists (quiescence_scope_revisions db). split; [by right|].
    replace (update_where _ _ (attempts db)) with (attempts db); [by destruct db|].
    unfold update_where. rewrite <- (List.map_id (attempts db)) at 1. apply List.map_ext. intros a. by destruct (_ =s _).
Qed.

Lemma insert_artifact_frame row db db' :
  insert_artifact row db = Some db' ->
  exists_where (fun a => (art_id a =s art_id row) || (art_path a =s art_path row)) (artifacts db) = false
  /\ db' = db <| artifacts := artifacts db ++ [row] |>.
Proof. unfold insert_artifact. intros H. frame_tac H. by split. Qed.

Lemma update_artifacts_frame p f db n db' :
  update_artifacts p f db = Some (n, db') ->
  n = count_where p (artifacts db) /\ db' = db <| artifacts := update_where p f (artifacts db) |>.
Proof. intros [= <- <-]. done. Qed.

Lemma insert_command_frame row db db' :
  insert_command row db = Some db' ->
  exists_where (fun c => cmd_id c =s cmd_id row) (commands db) = false
  /\ db' = db <| commands := commands db ++ [row] |>.
Proof. unfold insert_command. intros H. frame_tac H. by split. Qed.

Lemma insert_action_frame row db db' :
  insert_action row db = Some db' ->
  exists q, db' = db <| control_actions := control_actions db ++ [row] |> <| quiescence_scope_revisions := q |>.
Proof. unfold insert_action. intros H. frame_tac H. exact H. Qed.

Lemma fire_each_frame l db db' :
  fire_each l db = Some db' -> exists q, db' = db <| quiescence_scope_revisions := q |>.
Proof.
  revert db. induction l as [|d l IH]; intros db H; simpl in H.
  - simplify_eq. exists (quiescence_scope_revisions db'). by destruct db'.
  - apply bind_Some in H as (db1 & H1 & H). apply fire_frame in H1. apply IH in H as [q ->].
    eexists. rewrite H1. done.
Qed.

Lemma update_actions_frame p status db db' :
  update_actions p status db = Some db' ->
  exists q, db' = db <| control_actions := update_where p (fun c => c <| act_status := status |>) (control_actions db) |>
                     <| quiescence_scope_revisions := q |>.
Proof.
  unfold update_actions. intros H. apply bind_Some in H as (d & H1 & H).
  apply guard_Some in H1 as [_ ->]. by apply fire_each_frame in H.
Qed.

Lemma bind_projection_frame p key hash db n db' :
  bind_projection p key hash db = Some (n, db') ->
  let target e := p e && match evt_key e with None => true | Some _ => false end in
  n = count_where target (events db)
  /\ db' = db <| events := update_where target (fun e => e <| evt_key := Some key |> <| evt_hash := hash |>) (events db) |>.
Proof. unfold bind_projection. destruct (exists_where _ _); intros; by simplify_eq. Qed.

Lemma insert_tool_frame row db db' :
  insert_tool row db = Some db' ->
  exists q, db' = db <| tool_calls := tool_calls db ++ [row] |> <| quiescence_scope_revisions := q |>.
Proof. unfold insert_tool. intros H. frame_tac H. exact H. Qed.

Lemma update_tool_frame id f db db' :
  update_tool id f db = Some db' ->
  exists q, db' = db <| tool_calls := update_where (fun t => tool_id t =s id) f (tool_calls db) |> <| quiescence_scope_revisions := q |>.
Proof.
  unfold update_tool. intros H. destruct (select1 _ _) eqn:Hs.
  - apply fire_frame in H. eexists. exact H.
  - simplify_eq. exists (quiescence_scope_revisions db'). rewrite update_where_none by done. by destruct db'.
Qed.

Lemma insert_approval_frame row db db' :
  insert_approval row db = Some db' ->
  exists q, db' = db <| approvals := approvals db ++ [row] |> <| quiescence_scope_revisions := q |>.
Proof. unfold insert_approval. intros H. frame_tac H. exact H. Qed.

Lemma update_approval_frame p f db db' :
  update_approval p f db = Some db' ->
  exists q, db' = db <| approvals := update_where p f (approvals db) |> <| quiescence_scope_revisions := q |>.
Proof.
  unfold update_approval. intros H. destruct (select1 _ _) eqn:Hs.
  - apply fire_frame in H. eexists. exact H.
  - simplify_eq. exists (quiescence_scope_revisions db'). rewrite update_where_none by done. by destruct db'.
Qed.

Lemma insert_input_frame row db db' :
  insert_input row db = Some db' ->
  exists q, db' = db <| input_requests := input_requests db ++ [row] |> <| quiescence_scope_revisions := q |>.
Proof. unfold insert_input. intros H. frame_tac H. exact H. Qed.

Lemma update_input_frame p f db db' :
  update_input p f db = Some db' ->
  exists q, db' = db <| input_requests := update_where p f (input_requests db) |> <| quiescence_scope_revisions := q |>.
Proof.
  unfold update_input. intros H. destruct (select1 _ _) eqn:Hs.
  - apply fire_frame in H. eexists. exact H.
  - simplify_eq. exists (quiescence_scope_revisions db'). rewrite update_where_none by done. by destruct db'.
Qed.

Lemma insert_late_frame row db db' :
  insert_late row db = Some db' ->
  0 <= late_output row /\ db' = db <| late_observations := late_observations db ++ [row] |>.
Proof. unfold insert_late. intros H. frame_tac H. by split. Qed.

Lemma insert_policy_frame row db db' :
  insert_policy row db = Some db' -> exists l, db' = db <| policy_snapshots := l |>.
Proof.
  unfold insert_policy. destruct (exists_where _ _); intros; simplify_eq;
    [exists (policy_snapshots db'); by destruct db'|by eexists].
Qed.

Lemma advance_hold_clock_frame expected db db' :
  advance_hold_clock expected db = Some db' ->
  db' = db <| hold_clock := if hold_clock db =? expected then Z.succ (hold_clock db) else hold_clock db |>.
Proof. unfold advance_hold_clock. destruct (_ =? _); intros; simplify_eq; [done|by destruct db']. Qed.

Lemma upsert_scope_revision_frame key revision db db' :
  upsert_scope_revision key revision db = Some db' ->
  0 < revision /\ db' = db <| hold_scope_revisions := upsert key revision (hold_scope_revisions db) |>.
Proof. unfold upsert_scope_revision. intros H. frame_tac H. by split. Qed.

Lemma insert_hold_frame row db db' :
  insert_hold row db = Some db' ->
  exists q, (exists_where (fun h => hold_operation h =s hold_operation row) (administrative_holds db) = false
             /\ scope_shape row = true)
  /\ db' = db <| administrative_holds := administrative_holds db ++ [row] |> <| quiescence_scope_revisions := q |>.
Proof. unfold insert_hold. intros H. frame_tac H. split; [by split|exact H]. Qed.

Lemma insert_outcome_frame row db db' :
  insert_outcome row db = Some db' ->
  exists q, db' = db <| administrative_hold_outcomes := administrative_hold_outcomes db ++ [row] |> <| quiescence_scope_revisions := q |>.
Proof.
  unfold insert_outcome. intros H. destruct (select1 _ _); [|done]. frame_tac H. exact H.
Qed.

Lemma insert_rejection_frame row db db' :
  insert_rejection row db = Some db' ->
  exists_where (fun r => rej_id r =s rej_id row) (command_rejections db) = false
  /\ db' = db <| command_rejections := command_rejections db ++ [row] |>.
Proof. unfold insert_rejection. intros H. frame_tac H. by split. Qed.

Lemma insert_logical_delete_frame row db db' :
  insert_logical_delete row db = Some db' ->
  exists_where (fun r => (ldr_operation r =s ldr_operation row) || (ldr_command r =s ldr_command row)) (logical_delete_receipts db) = false
  /\ db' = db <| logical_delete_receipts := logical_delete_receipts db ++ [row] |>.
Proof. unfold insert_logical_delete. intros H. frame_tac H. by split. Qed.

(** With the identity columns agreeing, the state is stored as it is. *)
Definition same_identity (s s' : durableState) : Prop :=
  NodeID s' = NodeID s /\ OwnerID s' = OwnerID s /\ RegistryVersion s' = RegistryVersion s.

Lemma store_state_frame s db db' :
  same_identity (node_state db) s -> store_state s db = Some db' ->
  exists q, db' = db <| node_state := s |> <| quiescence_scope_revisions := q |>.
Proof.
  intros (E1 & E2 & E3) H. unfold store_state in H. rewrite <- E1, <- E2, <- E3 in H.
  replace (s <| NodeID := NodeID s |> <| OwnerID := OwnerID s |> <| RegistryVersion := RegistryVersion s |>) with s in H
    by (by destruct s).
  apply bind_Some in H as (db1 & H1 & H2).
  assert (exists q, db1 = db <| node_state := s |> <| quiescence_scope_revisions := q |>) as [q1 ->].
  { destruct (_ =? _); [simplify_eq; eexists; reflexivity|].
    apply fire_frame in H1. eexists. exact H1. }
  destruct (Bool.eqb _ _); [simplify_eq; eexists; reflexivity|].
  apply fire_frame in H2. eexists. exact H2.
Qed.
End Frames.

(** ** Symbolic execution *)
Ltac rcbn_projections :=
  cbn [durable tx st reserve reserveReleased deletedDialogs wakes files created retained
       node_state dialogs messages requests attempts commands control_actions events tool_calls approvals input_requests
       artifacts late_observations policy_snapshots hold_clock hold_scope_revisions administrative_holds
       administrative_hold_outcomes command_rejections quiescence_scope_revisions logical_delete_receipts replica_streams replica_records
       NodeID OwnerID RegistryVersion Epoch StateVersion LastEventSeq QueueVersion QueuePaused TransportAvailability
       EngineReadiness Occupancy ActiveAttemptID PendingCount BlockedReasons NextQueueSequence NextMessageSequence].
Ltac rcbn_projections_in H :=
  cbn [durable tx st reserve reserveReleased deletedDialogs wakes files created retained
       node_state dialogs messages requests attempts commands control_actions events tool_calls approvals input_requests
       artifacts late_observations policy_snapshots hold_clock hold_scope_revisions administrative_holds
       administrative_hold_outcomes command_rejections quiescence_scope_revisions logical_delete_receipts replica_streams replica_records
       NodeID OwnerID RegistryVersion Epoch StateVersion LastEventSeq QueueVersion QueuePaused TransportAvailability
       EngineReadiness Occupancy ActiveAttemptID PendingCount BlockedReasons NextQueueSequence NextMessageSequence] in H.
(** The constructor form of one update whose record is already evaluated; row
    updates stay folded. *)
Ltac updated i f r :=
  lazymatch r with
  | context [@field_upd Core] => fail
  | context [@field_upd Db] => fail
  | context [@field_upd durableState] => fail
  | _ => let t := eval cbv beta in (i f r) in
         eval cbn [durable tx st reserve reserveReleased deletedDialogs wakes files created retained
       node_state dialogs messages requests attempts commands control_actions events tool_calls approvals input_requests
       artifacts late_observations policy_snapshots hold_clock hold_scope_revisions administrative_holds
       administrative_hold_outcomes command_rejections quiescence_scope_revisions logical_delete_receipts replica_streams replica_records
       NodeID OwnerID RegistryVersion Epoch StateVersion LastEventSeq QueueVersion QueuePaused TransportAvailability
       EngineReadiness Occupancy ActiveAttemptID PendingCount BlockedReasons NextQueueSequence NextMessageSequence] in t
  end.
Ltac rcbn_one R :=
  match goal with
  | |- context [@field_upd R ?T ?p ?i ?f ?r] =>
      let t := updated i f r in change (@field_upd R T p i f r) with t
  end.
Ltac rcbn_one_in R H :=
  match type of H with
  | context [@field_upd R ?T ?p ?i ?f ?r] =>
      let t := updated i f r in change (@field_upd R T p i f r) with t in H
  end.
Ltac rcbn :=
  rcbn_projections;
  repeat first [rcbn_one durableState | rcbn_one Db | rcbn_one Core];
  rcbn_projections.
Ltac rcbn_in H :=
  rcbn_projections_in H;
  repeat first [rcbn_one_in durableState H | rcbn_one_in Db H | rcbn_one_in Core H];
  rcbn_projections_in H.

Lemma wp_decode_part {A} env part (read : json -> option A) Q E c :
  (forall a, read part = Some a -> Q a c) -> E (Broken "json: cannot unmarshal") c ->
  wp env (decode_part part read) Q E c.
Proof.
  intros HQ HE. unfold decode_part. destruct (is_object part); [|by apply wp_fail].
  destruct (read part) eqn:?; [apply wp_ret; by apply HQ|by apply wp_fail].
Qed.

Ltac frame_in H :=
  rcbn_in H;
  lazymatch type of H with
  | insert_dialog _ _ = Some _ => apply insert_dialog_frame in H as (? & ? & ->)
  | update_dialog _ _ _ = Some _ => injection H as <-
  | insert_message _ _ = Some _ => apply insert_message_frame in H as (? & ->)
  | update_message _ _ _ = Some _ => injection H as <-
  | insert_request _ _ = Some _ => apply insert_request_frame in H as (? & (? & ? & ?) & ->)
  | update_request _ _ _ = Some _ => apply update_request_frame in H as (? & ->)
  | insert_attempt _ _ = Some _ => apply insert_attempt_frame in H as (? & (? & ? & ? & ?) & ->)
  | update_attempt _ _ _ = Some _ => apply update_attempt_frame in H as (? & ->)
  | insert_command _ _ = Some _ => apply insert_command_frame in H as (? & ->)
  | insert_action _ _ = Some _ => apply insert_action_frame in H as (? & ->)
  | update_actions _ _ _ = Some _ => apply update_actions_frame in H as (? & ->)
  | bind_projection _ _ _ _ = Some _ => apply bind_projection_frame in H as (? & ->)
  | charge_attempt _ _ _ _ = Some _ => apply charge_attempt_frame in H as (? & ? & ->)
  | insert_artifact _ _ = Some _ => apply insert_artifact_frame in H as (? & ->)
  | update_artifacts _ _ _ = Some _ => apply update_artifacts_frame in H as (? & ->)
  | insert_tool _ _ = Some _ => apply insert_tool_frame in H as (? & ->)
  | update_tool _ _ _ = Some _ => apply update_tool_frame in H as (? & ->)
  | insert_approval _ _ = Some _ => apply insert_approval_frame in H as (? & ->)
  | update_approval _ _ _ = Some _ => apply update_approval_frame in H as (? & ->)
  | insert_input _ _ = Some _ => apply insert_input_frame in H as (? & ->)
  | update_input _ _ _ = Some _ => apply update_input_frame in H as (? & ->)
  | insert_late _ _ = Some _ => apply insert_late_frame in H as (? & ->)
  | insert_policy _ _ = Some _ => apply insert_policy_frame in H as (? & ->)
  | advance_hold_clock _ _ = Some _ => apply advance_hold_clock_frame in H as ->
  | update_scope_revision _ _ _ _ = Some _ => injection H as <-
  | upsert_scope_revision _ _ _ = Some _ => apply upsert_scope_revision_frame in H as (? & ->)
  | insert_hold _ _ = Some _ => apply insert_hold_frame in H as (? & (? & ?) & ->)
  | insert_outcome _ _ = Some _ => apply insert_outcome_frame in H as (? & ->)
  | insert_rejection _ _ = Some _ => apply insert_rejection_frame in H as (? & ->)
  | insert_logical_delete _ _ = Some _ => apply insert_logical_delete_frame in H as (? & ->)
  | store_state _ _ = Some _ =>
      apply store_state_frame in H as (? & ->); [|first [assumption | solve [unfold same_identity in *; rcbn; intuition congruence]]]
  | _ => idtac
  end.

Ltac frame_all :=
  repeat match goal with
  | H : ?t = Some ?db |- _ => is_var db; match type of db with Db => progress frame_in H end
  | H : bind_projection _ _ _ _ = Some (_, ?db) |- _ => is_var db; frame_in H
  | H : charge_attempt _ _ _ _ = Some (_, ?db) |- _ => is_var db; frame_in H
  | H : update_artifacts _ _ _ = Some (_, ?db) |- _ => is_var db; frame_in H
  end.

(** One command or condition of a handler; the error branches that keep the
    committed database close themselves. *)
Ltac wp_case :=
  lazymatch goal with
  | |- wp _ (if ?b then _ else _) _ _ _ => destruct b eqn:?
  | |- wp _ (match ?x with _ => _ end) _ _ _ => destruct x eqn:?
  | |- match ?e with _ => _ end => destruct e
  end.
Ltac wp_unfold :=
  lazymatch goal with
  | |- wp _ (stale _ _) _ _ _ => unfold stale
  | |- wp _ (Tx.reject _ _ _) _ _ _ => unfold Tx.reject
  | |- wp _ (message_by_id _) _ _ _ => unfold message_by_id, one
  | |- wp _ (request_by_id _) _ _ _ => unfold request_by_id, one
  | |- wp _ (attempt_by_id _) _ _ _ => unfold attempt_by_id, one
  | |- wp _ (dialog_by_id _) _ _ _ => unfold dialog_by_id, one
  | |- wp _ appendNodeEvent _ _ _ => unfold appendNodeEvent
  | |- wp _ afterCommit _ _ _ => unfold afterCommit
  | |- wp _ (interrupted _ _) _ _ _ => unfold interrupted
  | |- wp _ (commandError _ _) _ _ _ => unfold commandError
  | |- wp _ (loadCommandOutcome _) _ _ _ => unfold loadCommandOutcome
  | |- wp _ appendQueueEvent _ _ _ => unfold appendQueueEvent
  | |- wp _ (decode_part _ _) _ _ _ => apply wp_decode_part; [intros ? ?|]
  | |- wp _ (appendEvent _ _ _ _ _ _ _) _ _ _ =>
      apply wp_appendEvent; [rcbn; assumption|intros ? ? ? ? ?|intros ? ? ? ?]
  end.
Ltac wp_close :=
  lazymatch goal with
  | |- @eq Db _ _ => solve [rcbn; first [reflexivity | assumption]]
  | H : is_return (Return _) = false |- _ => discriminate H
  | |- ?P ?node ?db =>
      match type of db with
      | Db => first [assumption | match goal with H : durable _ = _ |- _ => rewrite H; assumption end]
      end
  | |- True => exact I
  end.
Ltac rcbn_facts :=
  repeat match goal with
  | H : ?T |- _ =>
      lazymatch T with
      | context [@field_upd Core] => progress rcbn_in H
      | context [@field_upd Db] => progress rcbn_in H
      | context [@field_upd durableState] => progress rcbn_in H
      | context [mkCore] => progress rcbn_projections_in H
      | context [mkDb] => progress rcbn_projections_in H
      end
  end.
(** A committed database is an opaque one with the property it was proved. *)
Lemma wp_commit_with env (P : Db -> Prop) Q E c :
  P (tx c) -> (forall D, P D -> Q tt (c <| durable := D |> <| tx := D |>)) -> E (Broken "operation failed") c ->
  wp env commit Q E c.
Proof.
  intros HP HQ HE. apply wp_commit; [|done]. specialize (HQ _ HP). by destruct c.
Qed.

Ltac wp_step_with first_tac :=
  cbv zeta; first [first_tac | wp_unfold | wp_prim | wp_case]; frame_all; rcbn;
  try match goal with |- forall _ : string, _ => intros ? end;
  try match goal with |- forall (_ : reserve_file) (_ : bool), _ => intros ? ? end; rcbn; try wp_close; rcbn_facts.
Ltac wp_step := wp_step_with fail.

(** ** Healthy environments: no database or file operation fails *)
Definition healthy (env : Env) : Prop := forall n, env_ok env n = true.
Section Healthy.
Context {env : Env} (Hok : healthy env).
Implicit Types c : Core.

Lemma wp_io_ok Q E c : Q tt c -> wp env io Q E c.
Proof using Hok. intros H x. unfold io. by rewrite Hok. Qed.
Lemma wp_begin_ok Q E c : Q tt (c <| tx := durable c |>) -> wp env begin Q E c.
Proof using Hok. intros H. apply wp_bind, wp_io_ok. by apply wp_modify. Qed.
Lemma wp_commit_ok Q E c : Q tt (c <| durable := tx c |>) -> wp env commit Q E c.
Proof using Hok. intros H. apply wp_bind, wp_io_ok. by apply wp_modify. Qed.
Lemma wp_query_ok {A} (f : Db -> A) Q E c : Q (f (tx c)) c -> wp env (query f) Q E c.
Proof using Hok. intros H. apply wp_bind, wp_io_ok. by apply wp_get. Qed.
Lemma wp_query_row_ok {A} (f : Db -> option A) Q E c :
  (forall a, f (tx c) = Some a -> Q a c) -> (f (tx c) = None -> E NoRows c) -> wp env (query_row f) Q E c.
Proof using Hok. intros H1 H2. apply wp_bind, wp_query_ok. destruct (f (tx c)) eqn:?; [by apply wp_ret, H1|by apply wp_fail, H2]. Qed.
Lemma wp_loadState_ok Q E c : Q tt (c <| st := node_state (tx c) |>) -> wp env loadState Q E c.
Proof using Hok. intros H. apply wp_bind, wp_query_ok. by apply wp_modify. Qed.
End Healthy.
Ltac wp_ok Hok :=
  lazymatch goal with
  | |- wp _ io _ _ _ => apply (wp_io_ok Hok)
  | |- wp _ begin _ _ _ => apply (wp_begin_ok Hok)
  | |- wp _ commit _ _ _ => apply (wp_commit_ok Hok)
  | |- wp _ (query _) _ _ _ => apply (wp_query_ok Hok)
  | |- wp _ (query_row _) _ _ _ => apply (wp_query_row_ok Hok); [intros ? ?|intros ?]
  | |- wp _ loadState _ _ _ => apply (wp_loadState_ok Hok)
  end.
Ltac wp_step_ok Hok := wp_step_with ltac:(idtac; wp_ok Hok).

(** The answer of a handler satisfies the postcondition of its returns. *)
Lemma wp_respond env m (Q : Result -> Core -> Prop) x c r c' :
  wp env m Q (fun e c' => match e with Return r => Q r c' | _ => True end) c ->
  respond m env x c = (Some r, c') -> Q r c'.
Proof.
  intros H. specialize (H x). unfold respond, run.
  destruct (m env x c) as [[[[]|a] x'] c'']; intros [= <- <-]; done.
Qed.

(** ** Read-only computations leave the core as it is *)
Definition readonly {A} (m : M A) : Prop := forall env x c, (m env x c).2 = c.

Section Readonly.
Context {A B : Type}.
Implicit Types m : M A.

Lemma wp_readonly env m (Q : A -> Core -> Prop) E c :
  readonly m -> (forall a, Q a c) -> (forall e, E e c) -> wp env m Q E c.
Proof. intros Hm HQ HE x. specialize (Hm env x c). destruct (m env x c) as [[[e|a] x'] c']; simpl in Hm; by subst. Qed.

Lemma readonly_ret (a : A) : readonly (mret a). Proof. done. Qed.
Lemma readonly_fail e : readonly (fail (A := A) e). Proof. done. Qed.
Lemma readonly_ask (f : Env -> A) : readonly (ask f). Proof. done. Qed.
Lemma readonly_get (f : Core -> A) : readonly (get f). Proof. done. Qed.
Lemma readonly_bind m (k : A -> M B) : readonly m -> (forall a, readonly (k a)) -> readonly (m ≫= k).
Proof.
  intros Hm Hk env x c. specialize (Hm env x c). unfold mbind, M_bind.
  destruct (m env x c) as [[[e|a] x'] c']; simpl in Hm; subst; [done|]. apply Hk.
Qed.
Lemma readonly_catch m h : readonly m -> (forall e, readonly (h e)) -> readonly (catch m h).
Proof.
  intros Hm Hh env x c. specialize (Hm env x c). unfold catch.
  destruct (m env x c) as [[[e|a] x'] c']; simpl in Hm; subst; [|done].
  destruct e; try done; apply Hh.
Qed.
End Readonly.

Lemma readonly_io : readonly io.
Proof. intros env x c. unfold io. by destruct (env_ok _ _). Qed.
Lemma readonly_newID : readonly newID.
Proof. intros env x c. unfold newID. by destruct (env_id _ _). Qed.
Lemma readonly_now : readonly now. Proof. done. Qed.
Lemma readonly_measure : readonly measure. Proof. done. Qed.
Lemma readonly_query {A} (f : Db -> A) : readonly (query f).
Proof. apply readonly_bind; [apply readonly_io|]. intros. apply readonly_get. Qed.
Lemma readonly_query_row {A} (f : Db -> option A) : readonly (query_row f).
Proof.
  apply readonly_bind; [apply readonly_query|]. intros [a|]; [apply readonly_ret|apply readonly_fail].
Qed.
Lemma errorResult_run status code message correlation version state env x c :
  exists corr x', errorResult status code message correlation version state env x c
                  = (inr (mkResult status (error_body code message corr version state) false), x', c).
Proof.
  unfold errorResult, mbind, M_bind, catch, newID. destruct (correlation =s ""); [|by eexists _, _].
  destruct (env_id env (n_id x)); by eexists _, _.
Qed.
Lemma answer_run {A} status code message correlation version state env x c :
  exists corr x', answer (A := A) status code message correlation version state env x c
                  = (inl (Return (mkResult status (error_body code message corr version state) false)), x', c).
Proof.
  destruct (errorResult_run status code message correlation version state env x c) as (corr & x' & E).
  exists corr, x'. unfold answer, mbind, M_bind. by rewrite E.
Qed.
Lemma readonly_errorResult status code message correlation version state :
  readonly (errorResult status code message correlation version state).
Proof.
  apply readonly_bind; [|intros; apply readonly_ret].
  destruct (_ =s _); [apply readonly_catch; [apply readonly_newID|intros; apply readonly_ret]|apply readonly_ret].
Qed.
Lemma readonly_answer {A} status code message correlation version state :
  readonly (answer (A := A) status code message correlation version state).
Proof. apply readonly_bind; [apply readonly_errorResult|]. intros. apply readonly_fail. Qed.
Lemma readonly_or_not_durable {A} (m : M A) message correlation : readonly m -> readonly (or_not_durable m message correlation).
Proof. intros. apply readonly_catch; [done|]. intros. apply readonly_answer. Qed.
Lemma readonly_decode_part {A} part (f : json -> option A) : readonly (decode_part part f).
Proof. unfold decode_part. destruct (if is_object part then f part else None); [apply readonly_ret|apply readonly_fail]. Qed.
Lemma readonly_commandError {A} e correlation : readonly (commandError (A := A) e correlation).
Proof. destruct e; try apply readonly_answer. apply readonly_fail. Qed.
Lemma readonly_checkFault p : readonly (checkFault p).
Proof. apply readonly_bind; [apply readonly_ask|]. intros []; [apply readonly_fail|apply readonly_ret]. Qed.

Create HintDb readonly discriminated.
#[export] Hint Resolve readonly_ret readonly_fail readonly_ask readonly_get readonly_io readonly_newID readonly_now
  readonly_measure readonly_query readonly_query_row readonly_errorResult readonly_answer readonly_or_not_durable
  readonly_decode_part readonly_commandError readonly_checkFault : readonly.
Ltac readonly_tac :=
  repeat first
    [ progress eauto with readonly nocore
    | apply readonly_bind; [|intros ?]
    | apply readonly_catch; [|intros ?]
    | match goal with |- readonly (if ?b then _ else _) => destruct b end
    | match goal with |- readonly (match ?x with _ => _ end) => destruct x end ].
