(* ===== verification/Files.v ===== *)
(** * The artifact directory
    [runtime/artifact_recovery.go] and the file operations of
    [runtime/artifact.go] and [runtime/safe_text.go]: files of a directory under
    the data directory, named by artifact id and written once.  Operations on
    the directory are [io]; its ownership and permission checks are part of
    their success. *)
From stdpp Require Import base tactics list strings gmap pretty.
From Stdlib Require Import ZArith Lia Ascii String.
From S2P Require Import Prelude Json Wire Store Tx Events Frames.
Open Scope string_scope.
Open Scope list_scope.
Open Scope Z_scope.
Open Scope harness_scope.

(** ** Paths, [path/filepath] *)
Fixpoint split_on (sep : ascii) (s : string) : list string :=
  match s with
  | EmptyString => [""]
  | String c r =>
      if (c =? sep)%char then "" :: split_on sep r
      else match split_on sep r with w :: l => String c w :: l | [] => [String c ""] end
  end.
Fixpoint clean_steps (rooted : bool) (stack : list string) (l : list string) : list string :=
  match l with
  | [] => rev stack
  | x :: l' =>
      if (x =s "") || (x =s ".") then clean_steps rooted stack l' else
      if x =s ".." then
        match stack with
        | top :: rest => if top =s ".." then clean_steps rooted (x :: stack) l' else clean_steps rooted rest l'
        | [] => clean_steps rooted (if rooted then [] else [x]) l'
        end
      else clean_steps rooted (x :: stack) l'
  end.
Definition filepath_Clean (path : string) : string :=
  let rooted := String.prefix "/" path in
  let body := join "/" (clean_steps rooted [] (split_on "/" path)) in
  if rooted then "/" +:+ body else if body =s "" then "." else body.
Definition artifact_path (id : string) : string := "artifacts/" +:+ id.

(** ** Files *)
Definition directory : Type := list (string * string).
Definition file_bytes (name : string) (d : directory) : option string :=
  snd <$> List.find (fun f => fst f =s name) d.
Definition without_file (name : string) (d : directory) : directory := List.filter (fun f => negb (fst f =s name)) d.
Definition put_file (name content : string) : M unit := modify (fun c => c <| files ::= fun d => without_file name d ++ [(name, content)] |>).

Definition digestBytes (content : string) : M string := hash ← ask sha256_hex; mret (hash content).

Definition readArtifactFile (relative artifactID : string) (size : Z) (sha256 : string) : M string :=
  if negb (filepath_Clean relative =s artifact_path artifactID) then fail (Broken "artifact path is invalid") else
  io ;;
  d ← get files;
  match file_bytes artifactID d with
  | None => fail (Broken "file does not exist")
  | Some body =>
      if negb (byte_length body =? size) || (MaximumArtifactBytes <? byte_length body) then fail (Broken "artifact size mismatch") else
      sum ← digestBytes body;
      if sum =s sha256 then mret body else fail (Broken "artifact hash mismatch")
  end.

(** Written to a temporary file, synced and renamed.  After a failure the
    deferred removal undoes it, unless it fails as well. *)
Definition write_artifact_file (artifactID content : string) : M unit :=
  catch io (fun e => catch (io ;; mret tt) (fun _ => put_file artifactID content) ;; fail e) ;;
  put_file artifactID content.

Definition publishSafeTextArtifact (artifactID content : string) : M (string * bool) :=
  io ;;
  d ← get files;
  match file_bytes artifactID d with
  | Some _ =>
      sum ← digestBytes content;
      body ← catch (readArtifactFile (artifact_path artifactID) artifactID (byte_length content) sum)
               (fun _ => fail (Broken "orphan safe text artifact conflicts with source"));
      if body =s content then mret (artifact_path artifactID, false)
      else fail (Broken "orphan safe text artifact conflicts with source")
  | None =>
      newID ;;
      write_artifact_file artifactID content ;;
      mret (artifact_path artifactID, true)
  end.

(** [publication.publish]: the open publication remembers what it created. *)
Definition publish (artifactID content : string) : M string :=
  published ← publishSafeTextArtifact artifactID content;
  let '(relative, made) := published in
  (if (made : bool) then modify (fun c => c <| created ::= fun l => l ++ [artifactID] |>) else mret tt) ;;
  mret relative.

(** [removeArtifactFiles]: the directory is synced when a file was removed. *)
Definition remove_file (name : string) : M unit := io ;; io ;; modify (fun c => c <| files ::= without_file name |>).
Fixpoint remove_names (names : list string) (removed : bool) : M unit :=
  match names with
  | [] => if removed then io else mret tt
  | name :: names' =>
      if negb (uuidPattern name) then fail (Broken "artifact cleanup name is invalid") else
      d ← get files;
      match file_bytes name d with
      | None => io ;; remove_names names' removed
      | Some _ => remove_file name ;; remove_names names' true
      end
  end.
Definition removeArtifactFiles (names : list string) : M unit := io ;; remove_names names false.

(** ** [reconcileArtifactFiles] *)
Definition artifactTemporaryID (name : string) : string * bool :=
  let n := String.length name in
  if negb (String.prefix "." name) || (Nat.ltb n 4) || negb (String.substring (n - 4) 4 name =s ".tmp") then ("", false) else
  let id := if Nat.ltb n 5 then "tmp" else String.substring 1 (n - 5) name in (id, uuidPattern id).
Definition orphan (committed : list string) (name : string) : bool :=
  negb (in_set name committed) && (uuidPattern name || snd (artifactTemporaryID name)).
Fixpoint remove_orphans (committed : list string) (d : directory) (removed : bool) : M unit :=
  match d with
  | [] => if removed then io else mret tt
  | (name, _) :: d' =>
      if orphan committed name then remove_file name ;; remove_orphans committed d' true
      else remove_orphans committed d' removed
  end.
Definition reconcileArtifactFiles : M unit :=
  rows ← autocommit (query artifacts);
  if existsb (fun a => negb (uuidPattern (art_id a)) || negb (art_path a =s artifact_path (art_id a))) rows
  then fail (Broken "artifact row path is invalid") else
  io ;;
  d ← get files;
  remove_orphans (List.map art_id rows) d false.

(** ** What they leave
    [confined R m]: whatever the environment does, [m] takes the core along the
    preorder [R] and fails, if it does, with an error value.  The file
    operations are confined to the directory and the open publication. *)
Definition confined {A} (R : Core -> Core -> Prop) (m : M A) : Prop := forall env c,
  wp env m (fun _ c' => R c c') (fun e c' => is_return e = false /\ R c c') c.

Section Confined.
Context {A B : Type} (R : Core -> Core -> Prop) `{!PreOrder R}.
Lemma confined_bind (m : M A) (k : A -> M B) : confined R m -> (forall a, confined R (k a)) -> confined R (m ≫= k).
Proof using Type*.
  intros Hm Hk env c. apply wp_bind. eapply wp_mono; [apply Hm| |done]. intros a c1 H1.
  eapply wp_mono; [apply Hk|..]; cbn beta; [intros b c2 H2|intros e c2 [He H2]; split; [done|]]; (etrans; [exact H1|exact H2]).
Qed.
Lemma confined_ret (a : A) : confined R (mret a).
Proof using Type*. intros env c. by apply wp_ret. Qed.
Lemma confined_fail e : is_return e = false -> confined R (fail (A := A) e).
Proof using Type*. intros He env c. by apply wp_fail. Qed.
Lemma confined_ask (f : Env -> A) : confined R (ask f).
Proof using Type*. intros env c. by apply wp_ask. Qed.
Lemma confined_get (f : Core -> A) : confined R (get f).
Proof using Type*. intros env c. by apply wp_get. Qed.
Lemma confined_io : confined R io.
Proof using Type*. intros env c. by apply wp_io. Qed.
Lemma confined_newID : confined R newID.
Proof using Type*. intros env c. by apply wp_newID. Qed.
Lemma confined_query (f : Db -> A) : confined R (query f).
Proof using Type*. intros env c. by apply wp_query. Qed.
Lemma confined_query_row (f : Db -> option A) : confined R (query_row f).
Proof using Type*. intros env c. by apply wp_query_row. Qed.
Lemma confined_modify f : (forall c, R c (f c)) -> confined R (modify f).
Proof using Type*. intros Hf env c. apply wp_modify, Hf. Qed.
Lemma confined_catch (m : M A) h : confined R m -> (forall e, is_return e = false -> confined R (h e)) -> confined R (catch m h).
Proof using Type*.
  intros Hm Hh env c. apply wp_catch. eapply wp_mono; [apply Hm|done|]. intros e c1 [He H1].
  assert (wp env (h e) (fun _ c' => R c c') (fun e c' => is_return e = false /\ R c c') c1) as Hw; [|by destruct e].
  eapply wp_mono; [by apply Hh|..]; cbn beta; [intros b c2 H2|intros e' c2 [He' H2]; split; [done|]]; (etrans; [exact H1|exact H2]).
Qed.
End Confined.
Lemma confined_sub {A} (R R' : Core -> Core -> Prop) (m : M A) : (forall c c', R c c' -> R' c c') -> confined R m -> confined R' m.
Proof. intros HR Hm env c. eapply wp_mono; [apply Hm|..]; cbn beta; [by auto|]. intros e c' [He H]. auto. Qed.
Lemma confined_wp {A} R (m : M A) env (Q : A -> Core -> Prop) (E : err -> Core -> Prop) c :
  confined R m -> (forall a c', R c c' -> Q a c') -> (forall e c', is_return e = false -> R c c' -> E e c') -> wp env m Q E c.
Proof. intros Hm HQ HE. eapply wp_mono; [apply Hm|exact (HQ)|]. intros e c' [He H]. by apply HE. Qed.

(** Goal-directed: one rule per construct, [confined] hints for the operations. *)
Create HintDb confined discriminated.
Ltac confined_step :=
  lazymatch goal with
  | |- confined _ (_ ≫= _) => apply confined_bind; [try exact _|..|intros ?]
  | |- confined _ (mret _) => apply confined_ret; exact _
  | |- confined _ (fail _) => apply confined_fail; [exact _|first [reflexivity | assumption]]
  | |- confined _ (ask _) => apply confined_ask; exact _
  | |- confined _ (get _) => apply confined_get; exact _
  | |- confined _ io => apply confined_io; exact _
  | |- confined _ newID => apply confined_newID; exact _
  | |- confined _ (query_row _) => apply confined_query_row; exact _
  | |- confined _ (query _) => apply confined_query; exact _
  | |- confined _ (catch _ _) => apply confined_catch; [try exact _|..|intros ? ?]
  | |- confined _ (if ?b then _ else _) => destruct b eqn:?
  | |- confined _ (match ?x with _ => _ end) => destruct x eqn:?
  | |- confined _ (let '(_, _) := ?x in _) => destruct x
  end.
Ltac confined_tac := repeat (cbv zeta; first [confined_step | solve [auto with confined]]).

Definition with_files (fs : directory) (made : list string) (c : Core) : Core := c <| files := fs |> <| created := made |>.
Definition filed (c c' : Core) : Prop := exists fs made, c' = with_files fs made c.
Definition swept (c c' : Core) : Prop := exists fs, c' = c <| files := fs |>.
#[export] Instance filed_preorder : PreOrder filed.
Proof.
  split; [intros c; exists (files c), (created c); by destruct c|].
  intros c1 c2 c3 (fs & made & ->) (fs' & made' & ->). exists fs', made'. by destruct c1.
Qed.
#[export] Instance swept_preorder : PreOrder swept.
Proof.
  split; [intros c; exists (files c); by destruct c|].
  intros c1 c2 c3 (fs & ->) (fs' & ->). exists fs'. by destruct c1.
Qed.
Lemma swept_files f : confined swept (modify (fun c => c <| files ::= f |>)).
Proof. apply confined_modify; [exact _|]. intros c. exists (f (files c)). by destruct c. Qed.
#[export] Hint Resolve swept_files : confined.
Lemma filed_files f : confined filed (modify (fun c => c <| files ::= f |>)).
Proof. apply confined_modify; [exact _|]. intros c. exists (f (files c)), (created c). by destruct c. Qed.
Lemma filed_created f : confined filed (modify (fun c => c <| created ::= f |>)).
Proof. apply confined_modify; [exact _|]. intros c. exists (files c), (f (created c)). by destruct c. Qed.
#[export] Hint Resolve filed_files filed_created : confined.

Lemma swept_remove_names names : forall removed, confined swept (remove_names names removed).
Proof. induction names; intros; cbn [remove_names]; unfold remove_file; confined_tac. Qed.
#[export] Hint Resolve swept_remove_names : confined.
Lemma swept_remove names : confined swept (removeArtifactFiles names).
Proof. unfold removeArtifactFiles. confined_tac. Qed.

Section Reading.
Context (R : Core -> Core -> Prop) `{!PreOrder R}.
Lemma confined_digest content : confined R (digestBytes content).
Proof using Type*. unfold digestBytes. confined_tac. Qed.
Lemma confined_readArtifactFile relative id size sha256 : confined R (readArtifactFile relative id size sha256).
Proof using Type*. unfold readArtifactFile. pose proof confined_digest. confined_tac. Qed.
End Reading.
#[export] Hint Resolve confined_digest confined_readArtifactFile : confined.
#[export] Hint Extern 1 (PreOrder _) => exact _ : confined.
Lemma filed_write id content : confined filed (write_artifact_file id content).
Proof. unfold write_artifact_file, put_file. confined_tac. Qed.
#[export] Hint Resolve filed_write : confined.
Lemma filed_publishSafeTextArtifact id content : confined filed (publishSafeTextArtifact id content).
Proof. unfold publishSafeTextArtifact. confined_tac. Qed.
#[export] Hint Resolve filed_publishSafeTextArtifact : confined.
Lemma filed_publish id content : confined filed (publish id content).
Proof. unfold publish. confined_tac. Qed.
#[export] Hint Resolve filed_publish : confined.

(** Removal changes the directory only. *)
Lemma wp_removeArtifactFiles env names (Q : unit -> Core -> Prop) (E : err -> Core -> Prop) c :
  (forall fs, Q tt (c <| files := fs |>)) -> (forall e fs, is_return e = false -> E e (c <| files := fs |>)) ->
  wp env (removeArtifactFiles names) Q E c.
Proof.
  intros HQ HE. apply (confined_wp swept); [apply swept_remove|..].
  - intros [] c' (fs & ->). apply HQ.
  - intros e c' He (fs & ->). by apply HE.
Qed.
