(* ===== verification/TranscriptFacts.v ===== *)
(** * The transcript contract round-trips
    What [Encode] writes, [Decode] reads back. *)
From stdpp Require Import base tactics list strings gmap pretty.
From Stdlib Require Import ZArith Lia Ascii String.
From S2P Require Import Prelude Json Parse ParseFacts Wire Store Tx Adapter Events TranscriptView.
Open Scope string_scope.
Open Scope list_scope.
Open Scope Z_scope.
Open Scope harness_scope.

(** ** Text made of ASCII classes *)
Definition ascii_char (c : ascii) : bool := (N_of_ascii c <? 128)%N.
Lemma matches_all (P : ascii -> bool) classes s :
  Forall (fun p : ascii -> bool => forall c, p c = true -> P c = true) classes -> matches classes s = true -> all_chars P s = true.
Proof.
  revert s. unfold matches. induction classes as [|p classes IH]; intros s Hall.
  - cbn. by destruct s.
  - apply Forall_cons in Hall as [Hp Hall]. destruct s as [|c s]; cbn [match_classes all_chars]; [done|].
    destruct (p c) eqn:Hc; [|done]. intros H. rewrite (Hp c Hc). by apply IH.
Qed.
Lemma utf8_of_ascii s : all_chars ascii_char s = true -> valid_utf8 s = true.
Proof. intros H. rewrite <- (append_nil_r s). by rewrite utf8_ascii. Qed.
Lemma lower_hex_ascii c : is_lower_hex c = true -> ascii_char c = true.
Proof. destruct c as [[] [] [] [] [] [] [] []]; by vm_compute. Qed.
Lemma one_char_ascii d c : ascii_char d = true -> is_char d c = true -> ascii_char c = true.
Proof. unfold is_char. intros Hd H%Ascii.eqb_eq. by subst. Qed.
Lemma hex_classes n : Forall (fun p : ascii -> bool => forall c, p c = true -> ascii_char c = true) (List.repeat is_lower_hex n).
Proof. induction n; constructor; [apply lower_hex_ascii|done]. Qed.
Lemma uuid_utf8 s : uuidPattern s = true -> valid_utf8 s = true.
Proof.
  intros H. apply utf8_of_ascii. eapply matches_all; [|exact H].
  repeat (first [apply Forall_app_2; [apply hex_classes|] | apply Forall_cons; [|] | apply hex_classes]).
  all: repeat first [apply Forall_app_2; [apply hex_classes|] | apply Forall_cons; split | apply hex_classes | apply Forall_nil; done].
  all: intros c; destruct c as [[] [] [] [] [] [] [] []]; by vm_compute.
Qed.
Lemma sha_utf8 s : sha256Pattern s = true -> valid_utf8 s = true.
Proof. intros H. apply utf8_of_ascii. eapply matches_all; [apply hex_classes|exact H]. Qed.
Lemma in_set_utf8 s l : forallb valid_utf8 l = true -> in_set s l = true -> valid_utf8 s = true.
Proof. rewrite forallb_forall. intros Hl (t & Ht & ->%String.eqb_eq)%existsb_exists. by apply Hl. Qed.

(** ** Numerals *)
Lemma digits_plain s : all_chars is_digit s = true -> plain s = true.
Proof.
  unfold plain. induction s as [|c s IH]; [done|]. cbn [all_chars]. intros [Hc Hs]%andb_true_iff. rewrite (IH Hs), andb_true_r.
  clear -Hc. destruct c as [[] [] [] [] [] [] [] []]; by vm_compute in Hc |- *.
Qed.
Lemma itoa_digits z : 0 <= z -> exists c t, itoa z = String c t /\ is_digit c = true /\ all_chars is_digit (itoa z) = true.
Proof.
  intros Hz. unfold itoa, pretty, pretty_Z. destruct z as [|p|p]; [exists "0"%char, ""; by vm_compute| |lia].
  unfold pretty, pretty_positive, pretty, pretty_N. rewrite decide_False by done.
  destruct (pretty_digits (N.pos p) "" ltac:(lia)) as (c & t & -> & H1 & H2 & H3). exists c, t. rewrite append_nil_r.
  split_and!; [done..|]. cbn [all_chars]. by rewrite H1, H3.
Qed.
Lemma plain_itoa z : 0 <= z -> plain (itoa z) = true.
Proof. intros (c & t & _ & _ & H)%itoa_digits. by apply digits_plain. Qed.
Lemma parse_int64_nonneg z : 0 <= z -> parse_int64 (itoa z) = if z <=? int64_max then Some z else None.
Proof.
  intros Hz. pose proof (parse_itoa z Hz) as Hp. destruct (itoa_digits z Hz) as (c & t & E & Hc & _).
  unfold parse_int64. rewrite E in *.
  assert ((c =? "-")%char = false /\ (c =? "+")%char = false) as [-> ->] by (clear -Hc; destruct c as [[] [] [] [] [] [] [] []]; by vm_compute in Hc |- *).
  rewrite Hp. cbn [mbind option_bind]. rewrite (proj2 (Z.leb_le int64_min z)); [done|]. unfold int64_min. lia.
Qed.
Lemma parse_int64_itoa z : 0 <= z -> z <= int64_max -> parse_int64 (itoa z) = Some z.
Proof. intros Hz Hm. rewrite parse_int64_nonneg by done. by rewrite (proj2 (Z.leb_le _ _) Hm). Qed.
Lemma safe_int64 z : z <= MaximumSafeInteger -> z <= int64_max.
Proof. unfold MaximumSafeInteger, int64_max. lia. Qed.
Lemma into_int_JInt z old : 0 <= z -> z <= int64_max -> into_int (JInt z) old = Some z.
Proof. intros. unfold into_int, JInt. by apply parse_int64_itoa. Qed.
Create HintDb transcript discriminated.
Create Rewrite HintDb members.
#[export] Hint Resolve uuid_utf8 sha_utf8 plain_itoa safe_int64 : transcript.

(** ** Valid manifests *)
Definition chunk_fine (c : Chunk) : Prop :=
  0 <= ch_index c <= int64_max /\ 0 <= ch_offset c <= int64_max /\ 0 <= ch_size c <= int64_max
  /\ valid_utf8 (ch_artifact c) = true /\ valid_utf8 (ch_sha256 c) = true.
Lemma valid_chunks_fine chunks : forall index offset seen covered,
  valid_chunks index offset seen chunks = Some covered -> 0 <= index -> 0 <= offset ->
  index + Z.of_nat (List.length chunks) <= int64_max -> covered <= int64_max -> offset <= covered /\ Forall chunk_fine chunks.
Proof.
  induction chunks as [|c chunks IH]; intros index offset seen covered H Hi Ho Hn Hc; cbn [valid_chunks] in H.
  - injection H as ->. split; [lia|constructor].
  - destruct (_ || in_set _ _) eqn:Hg in H; [done|]. simplify_bool. cbn [List.length] in Hn.
    unfold MaximumChunkBytes in *.
    destruct (IH _ _ _ _ H) as [Hle Hall]; [lia..|]. split; [lia|]. constructor; [|done].
    unfold chunk_fine, int64_max in *. split_and!; auto with transcript; lia.
Qed.
Lemma validate_chunks m : TranscriptValidate m = true -> Forall chunk_fine (mf_chunks m).
Proof.
  unfold TranscriptValidate. intros H. simplify_bool. unfold MaximumTextBytes, MaximumChunks, int64_max in *.
  destruct (negb (mf_complete m)); simplify_bool.
  - destruct (mf_chunks m); [constructor|]. cbn [List.length] in *. lia.
  - destruct (mf_size m =? 0).
    + simplify_bool. destruct (mf_chunks m); [constructor|]. cbn [List.length] in *. lia.
    + simplify_bool. destruct (valid_chunks _ _ _ _) eqn:E in *; [|done]. simplify_bool.
      eapply valid_chunks_fine; [exact E|unfold int64_max; lia..].
Qed.

(** *** The decoder by field *)
Lemma decode_cons {R} (set : string -> json -> R -> option R) k key v m (r : R) :
  fold_name k = key -> decode_members set ((k, v) :: m) r = (r' ← set key v r; decode_members set m r').
Proof. by intros <-. Qed.
Lemma set_source_kind v s : set_source "KIND" v s = (x ← into_string v (src_kind s); Some (s <| src_kind := x |>)).
Proof. reflexivity. Qed.
Lemma set_source_id v s : set_source "ID" v s = (x ← into_string v (src_id s); Some (s <| src_id := x |>)).
Proof. reflexivity. Qed.
Lemma set_source_index v s : set_source "INDEX" v s = (x ← into_int v (src_index s); Some (s <| src_index := x |>)).
Proof. reflexivity. Qed.
Lemma set_source_stream v s : set_source "STREAM" v s = (x ← into_string v (src_stream s); Some (s <| src_stream := x |>)).
Proof. reflexivity. Qed.
Lemma set_chunk_index v c : set_chunk "INDEX" v c = (x ← into_int v (ch_index c); Some (c <| ch_index := x |>)).
Proof. reflexivity. Qed.
Lemma set_chunk_offsetBytes v c : set_chunk "OFFSETBYTES" v c = (x ← into_int v (ch_offset c); Some (c <| ch_offset := x |>)).
Proof. reflexivity. Qed.
Lemma set_chunk_artifactId v c : set_chunk "ARTIFACTID" v c = (x ← into_string v (ch_artifact c); Some (c <| ch_artifact := x |>)).
Proof. reflexivity. Qed.
Lemma set_chunk_sizeBytes v c : set_chunk "SIZEBYTES" v c = (x ← into_int v (ch_size c); Some (c <| ch_size := x |>)).
Proof. reflexivity. Qed.
Lemma set_chunk_sha256 v c : set_chunk "SHA256" v c = (x ← into_string v (ch_sha256 c); Some (c <| ch_sha256 := x |>)).
Proof. reflexivity. Qed.
Lemma set_manifest_schemaId v m : set_manifest "SCHEMAID" v m = (x ← into_string v (mf_schema m); Some (m <| mf_schema := x |>)).
Proof. reflexivity. Qed.
Lemma set_manifest_nodeId v m : set_manifest "NODEID" v m = (x ← into_string v (mf_node m); Some (m <| mf_node := x |>)).
Proof. reflexivity. Qed.
Lemma set_manifest_dialogId v m : set_manifest "DIALOGID" v m = (x ← into_string v (mf_dialog m); Some (m <| mf_dialog := x |>)).
Proof. reflexivity. Qed.
Lemma set_manifest_attemptId v m : set_manifest "ATTEMPTID" v m = (x ← into_string v (mf_attempt m); Some (m <| mf_attempt := x |>)).
Proof. reflexivity. Qed.
Lemma set_manifest_generation v m : set_manifest "GENERATION" v m = (x ← into_int v (mf_generation m); Some (m <| mf_generation := x |>)).
Proof. reflexivity. Qed.
Lemma set_manifest_textId v m : set_manifest "TEXTID" v m = (x ← into_string v (mf_text m); Some (m <| mf_text := x |>)).
Proof. reflexivity. Qed.
Lemma set_manifest_source v m : set_manifest "SOURCE" v m = (x ← into_struct set_source v (mf_source m); Some (m <| mf_source := x |>)).
Proof. reflexivity. Qed.
Lemma set_manifest_preview v m : set_manifest "PREVIEW" v m = (x ← into_string v (mf_preview m); Some (m <| mf_preview := x |>)).
Proof. reflexivity. Qed.
Lemma set_manifest_previewTruncated v m : set_manifest "PREVIEWTRUNCATED" v m = (x ← into_bool v (mf_truncated m); Some (m <| mf_truncated := x |>)).
Proof. reflexivity. Qed.
Lemma set_manifest_redaction v m : set_manifest "REDACTION" v m = (x ← into_string v (mf_redaction m); Some (m <| mf_redaction := x |>)).
Proof. reflexivity. Qed.
Lemma set_manifest_complete v m : set_manifest "COMPLETE" v m = (x ← into_bool v (mf_complete m); Some (m <| mf_complete := x |>)).
Proof. reflexivity. Qed.
Lemma set_manifest_reason v m : set_manifest "REASON" v m = (x ← into_string v (mf_reason m); Some (m <| mf_reason := x |>)).
Proof. reflexivity. Qed.
Lemma set_manifest_sizeBytes v m : set_manifest "SIZEBYTES" v m = (x ← into_int v (mf_size m); Some (m <| mf_size := x |>)).
Proof. reflexivity. Qed.
Lemma set_manifest_sha256 v m : set_manifest "SHA256" v m = (x ← into_string v (mf_sha256 m); Some (m <| mf_sha256 := x |>)).
Proof. reflexivity. Qed.
Lemma set_manifest_chunks v m : set_manifest "CHUNKS" v m = (x ← into_chunks v; Some (m <| mf_chunks := x |>)).
Proof. reflexivity. Qed.
#[export] Hint Rewrite set_source_kind set_source_id set_source_index set_source_stream set_chunk_index set_chunk_offsetBytes
  set_chunk_artifactId set_chunk_sizeBytes set_chunk_sha256 set_manifest_schemaId set_manifest_nodeId set_manifest_dialogId
  set_manifest_attemptId set_manifest_generation set_manifest_textId set_manifest_source set_manifest_preview
  set_manifest_previewTruncated set_manifest_redaction set_manifest_complete set_manifest_reason set_manifest_sizeBytes
  set_manifest_sha256 set_manifest_chunks : members.
Ltac decode_step :=
  first [erewrite decode_cons by (vm_compute; reflexivity) | progress autorewrite with members | rewrite into_int_JInt by lia
        | progress cbn [into_string into_bool mbind option_bind decode_members]].

Lemma json_ok_int z : json_ok (JInt z) = true.
Proof. apply number_literal_itoa. Qed.
Lemma strings_ok_int z : 0 <= z -> strings_ok (JInt z) = true.
Proof. apply plain_itoa. Qed.
Lemma chunk_json_fine c : chunk_fine c ->
  json_ok (Chunk_json c) = true /\ strings_ok (Chunk_json c) = true /\ into_struct set_chunk (Chunk_json c) no_chunk = Some c.
Proof.
  intros (H1 & H2 & H3 & H4 & H5). unfold Chunk_json. split_and!.
  - cbn [json_ok snd]. by rewrite !json_ok_int.
  - cbn [strings_ok fst snd]. rewrite H4, H5, !strings_ok_int by lia. done.
  - cbn [into_struct]. repeat decode_step. by destruct c.
Qed.
Lemma chunks_json_fine l : Forall chunk_fine l ->
  json_ok (JArr (List.map Chunk_json l)) = true /\ strings_ok (JArr (List.map Chunk_json l)) = true
  /\ into_chunks (JArr (List.map Chunk_json l)) = Some l /\ strict_value 1 (JArr (List.map Chunk_json l)) = true.
Proof.
  induction 1 as [|c l Hc _ (I1 & I2 & I3 & I4)]; [done|]. destruct (chunk_json_fine c Hc) as (C1 & C2 & C3).
  cbn [List.map]. split_and!.
  - change (json_ok (Chunk_json c) && json_ok (JArr (List.map Chunk_json l)) = true). by rewrite C1.
  - change (strings_ok (Chunk_json c) && strings_ok (JArr (List.map Chunk_json l)) = true). by rewrite C2.
  - cbn [into_chunks List.map sequence] in I3 |- *. rewrite C3. cbn [mbind option_bind]. by rewrite I3.
  - exact I4.
Qed.

Lemma source_json_fine s : validSource s = true ->
  json_ok (Source_json s) = true /\ strings_ok (Source_json s) = true /\ into_struct set_source (Source_json s) (mkSource "" "" 0 "") = Some s.
Proof.
  unfold validSource. intros H. simplify_bool. rename select (uuidPattern _ = true) into Hid. apply uuid_utf8 in Hid.
  assert (valid_utf8 (src_kind s) = true /\ valid_utf8 (src_stream s) = true /\ 0 <= src_index s <= MaximumSafeInteger) as (Hk & Hst & Hi).
  { destruct (in_set (src_kind s) _) eqn:E; simplify_bool.
    - split; [by eapply in_set_utf8; [|exact E]|]. match goal with H : src_stream s = _ |- _ => rewrite H end. match goal with H : src_index s = _ |- _ => rewrite H end. done.
    - match goal with H : src_kind s = _ |- _ => rewrite H end. split; [done|]. split; [|lia]. by eapply in_set_utf8; [|eassumption]. }
  unfold MaximumSafeInteger in Hi. unfold Source_json. split_and!.
  - cbn [json_ok snd]. by rewrite json_ok_int.
  - cbn [strings_ok fst snd]. rewrite Hid, Hk, Hst, strings_ok_int by lia. done.
  - cbn [into_struct]. assert (src_index s <= int64_max) by (unfold int64_max; lia). repeat decode_step. by destruct s.
Qed.

Lemma manifest_json_ok m : TranscriptValidate m = true ->
  json_ok (Manifest_json m) = true /\ strings_ok (Manifest_json m) = true /\ strict_value 0 (Manifest_json m) = true.
Proof.
  intros H. destruct (chunks_json_fine _ (validate_chunks m H)) as (C1 & C2 & _ & C4). unfold TranscriptValidate in H. simplify_bool.
  destruct (source_json_fine (mf_source m)) as (S1 & S2 & _); [done|].
  assert (valid_utf8 (mf_schema m) = true) as Hs by (by match goal with H : mf_schema m = _ |- _ => rewrite H end).
  assert (valid_utf8 (mf_redaction m) = true) as Hr by (eapply in_set_utf8; [|eassumption]; done).
  assert (valid_utf8 (mf_reason m) = true) as Hre
    by (destruct (negb (mf_complete m)); simplify_bool; by match goal with H : mf_reason m = _ |- _ => rewrite H end).
  repeat match goal with H : uuidPattern _ = true |- _ => apply uuid_utf8 in H | H : sha256Pattern _ = true |- _ => apply sha_utf8 in H end.
  assert (strict_value 1 (Source_json (mf_source m)) = true) as S4 by done.
  unfold Manifest_json. revert C1 C2 C4 S1 S2 S4. generalize (JArr (List.map Chunk_json (mf_chunks m))), (Source_json (mf_source m)).
  intros arr src C1 C2 C4 S1 S2 S4. destruct (mf_reason m =s "") eqn:He; cbn [app]; split_and!.
  all: cbn [json_ok strings_ok strict_value fst snd]; rewrite ?json_ok_int, ?strings_ok_int by lia.
  all: rewrite ?C1, ?C2, ?C4, ?S1, ?S2, ?S4; repeat match goal with H : valid_utf8 _ = true |- _ => rewrite H end; reflexivity.
Qed.

Lemma decode_next {R} (set : string -> json -> R -> option R) k key v m (r r' : R) res :
  fold_name k = key -> set key v r = Some r' -> decode_members set m r' = res -> decode_members set ((k, v) :: m) r = res.
Proof. intros <- H <-. cbn [decode_members]. by rewrite H. Qed.
Ltac decode_field :=
  eapply decode_next; [vm_compute; reflexivity
                      |autorewrite with members; cbn [mf_source]; rewrite ?into_int_JInt by lia;
                       repeat match goal with H : into_struct _ _ _ = Some _ |- _ => rewrite H; clear H | H : into_chunks _ = Some _ |- _ => rewrite H; clear H end;
                       reflexivity
                      |lazymatch goal with |- decode_members ?set ?m ?r = ?res => let r' := eval cbv in r in change (decode_members set m r' = res) end].
Lemma decode_manifest m : TranscriptValidate m = true -> into_struct set_manifest (Manifest_json m) no_manifest = Some m.
Proof.
  intros H. destruct (chunks_json_fine _ (validate_chunks m H)) as (_ & _ & C3 & _). unfold TranscriptValidate in H. simplify_bool.
  destruct (source_json_fine (mf_source m)) as (_ & _ & S3); [done|]. unfold MaximumSafeInteger in *.
  assert (mf_generation m <= int64_max /\ mf_size m <= int64_max) as [] by (unfold int64_max; lia).
  revert C3 S3. unfold Manifest_json. generalize (JArr (List.map Chunk_json (mf_chunks m))), (Source_json (mf_source m)).
  intros arr src C3 S3. destruct m as [m1 m2 m3 m4 m5 m6 m7 m8 m9 m10 m11 reason m13 m14 m15]. cbn [mf_schema mf_node mf_dialog mf_attempt mf_generation mf_text mf_source mf_preview mf_truncated mf_redaction mf_complete mf_reason mf_size mf_sha256 mf_chunks] in *.
  cbn [into_struct].
  destruct (reason =s "") eqn:He; cbn [app]; simplify_bool; repeat decode_field; subst; reflexivity.
Qed.

(** The transcript contract round-trips.  Whatever manifest [Encode]
    accepts, its bytes are strict JSON that [Decode] reads back to the same
    manifest. *)
Theorem transcript_roundtrip m raw : TranscriptEncode m = Some raw -> TranscriptDecode raw = Some m.
Proof.
  unfold TranscriptEncode, TranscriptDecode. destruct (TranscriptValidate m) eqn:Hv; [|done]. intros Hr. apply Some_inj in Hr. subst raw.
  destruct (manifest_json_ok m Hv) as (H1 & H2 & H3). rewrite (strict_marshal _ H1 H2 H3), (parse_marshal _ H1). cbn [negb mbind option_bind].
  rewrite (decode_manifest m Hv). cbn [mbind option_bind]. by rewrite Hv.
Qed.
Definition demo_manifest : Manifest :=
  let id n := "00000000-0000-4000-8000-00000000000" +:+ n in
  let sha := "0123456789abcdef0123456789abcdef0123456789abcdef0123456789abcdef" in
  mkManifest TranscriptSchemaID (id "1") (id "2") (id "3") 1 (id "4") (mkSource "tool_output" (id "5") 7 "stdout")
    (String quote "<x>\") false "applied" true "" 5 sha [mkChunk 0 0 (id "6") 3 sha; mkChunk 1 3 (id "7") 2 sha].
Lemma transcript_roundtrip_witness : exists raw, TranscriptEncode demo_manifest = Some raw /\ TranscriptDecode raw = Some demo_manifest.
Proof.
  destruct (TranscriptEncode demo_manifest) as [raw|] eqn:E; [|vm_compute in E; discriminate].
  exists raw. split; [done|]. exact (transcript_roundtrip demo_manifest raw E).
Defined.
