(* ===== verification/PagingFacts.v ===== *)
(** * What cursors and pages guarantee
    Base64 and cursor round trips, the rows a page shows and the rows its
    cursor leaves for the next one. *)
From stdpp Require Import base tactics list strings gmap pretty.
From Stdlib Require Import ZArith Lia Ascii String Sorted OrderedTypeEx.
From S2P Require Import Prelude Json Parse ParseFacts Wire Store Tx TranscriptView TranscriptFacts Paging.
Open Scope string_scope.
Open Scope list_scope.
Open Scope Z_scope.
Open Scope harness_scope.

(** ** Base64 *)
Lemma base64_value_digit n : (n < 64)%N -> base64_value (base64_digit n) = Some n.
Proof. intros H. destruct n as [|p]; [reflexivity|]. do 6 (try destruct p as [p|p|]); first [reflexivity|lia]. Qed.
Lemma base64_digit_printed n : (n < 64)%N -> ((N_of_ascii (base64_digit n) =? 10)%N || (N_of_ascii (base64_digit n) =? 13)%N) = false.
Proof. intros H. destruct n as [|p]; [reflexivity|]. do 6 (try destruct p as [p|p|]); first [reflexivity|lia]. Qed.

Lemma byte_of_ascii c k : (k mod 256 = N_of_ascii c)%N -> byte_of k = c.
Proof. intros H. unfold byte_of. by rewrite H, ascii_N_embedding. Qed.

(** Induction three characters at a time. *)
Lemma string_ind3 (P : string -> Prop) :
  P "" -> (forall a, P (String a "")) -> (forall a b, P (String a (String b ""))) ->
  (forall a b c s, P s -> P (String a (String b (String c s)))) -> forall s, P s.
Proof.
  intros H0 H1 H2 H3 s. remember (String.length s) as n eqn:Hn. assert (String.length s <= n)%nat as Hle by lia. clear Hn. revert s Hle.
  induction n as [|n IH]; intros [|a [|b [|c s]]] Hle; cbn [String.length] in Hle; auto; try lia. apply H3, IH. lia.
Qed.


(** Quotients of a bounded number, for [lia]. *)
Ltac divided := repeat match goal with |- context [N_of_ascii ?a] =>
    lazymatch goal with _ : (N_of_ascii a < 256)%N |- _ => fail | _ => pose proof (N_ascii_bounded a) end end;
  zify; Z.to_euclidean_division_equations; lia.

Lemma decode_groups_encode s : decode_groups (EncodeToString s) = Some s.
Proof.
  induction s as [|a|a b|a b c s IH] using string_ind3; [reflexivity|..]; cbn [EncodeToString decode_groups].
  - rewrite !base64_value_digit by divided. cbn [mbind option_bind]. do 2 f_equal. apply byte_of_ascii. divided.
  - rewrite !base64_value_digit by divided. cbn [mbind option_bind]. repeat f_equal; apply byte_of_ascii; divided.
  - rewrite !base64_value_digit by divided. cbn [mbind option_bind]. rewrite IH. cbn [mbind option_bind].
    repeat f_equal; apply byte_of_ascii; divided.
Qed.
Lemma drop_line_breaks_encode s : drop_line_breaks (EncodeToString s) = EncodeToString s.
Proof.
  induction s as [|a|a b|a b c s IH] using string_ind3; [reflexivity|..]; cbn [EncodeToString drop_line_breaks].
  all: rewrite !base64_digit_printed by divided; by rewrite ?IH.
Qed.
Lemma DecodeString_encode s : DecodeString (EncodeToString s) = Some s.
Proof. unfold DecodeString. by rewrite drop_line_breaks_encode, decode_groups_encode. Qed.

(** ** Cursors *)
Definition int64 (z : Z) : Prop := 0 <= z <= int64_max.
Definition cursor_fine (c : pageCursor) : Prop := int64 (pc_epoch c) /\ int64 (pc_state c) /\ int64 (pc_offset c).
Definition latest_fine (c : latestHistoryCursor) : Prop := int64 (lh_epoch c) /\ int64 (lh_before c).

Ltac cursor_member set :=
  eapply decode_next; [vm_compute; reflexivity
                      |cbn [set String.eqb Ascii.eqb Bool.eqb]; rewrite ?into_int_JInt by lia; reflexivity
                      |lazymatch goal with |- decode_members ?f ?m ?r = ?res => let r' := eval cbv in r in change (decode_members f m r' = res) end].
Lemma pageCursor_of_marshal c : cursor_fine c -> pageCursor_of (marshal (pageCursor_json c)) = Some c.
Proof.
  intros (He & Hs & Ho). unfold int64 in *. unfold pageCursor_of. rewrite parse_marshal by (cbn; by rewrite !number_literal_itoa).
  cbn [mbind option_bind]. unfold pageCursor_json, into_struct. cbv iota. destruct c as [e s o p]. cbn [pc_epoch pc_state pc_offset pc_scope] in *.
  do 4 cursor_member set_page_cursor. reflexivity.
Qed.
Lemma latestCursor_of_marshal c : latest_fine c -> latestHistoryCursor_of (marshal (latestHistoryCursor_json c)) = Some c.
Proof.
  intros (He & Hb). unfold int64 in *. unfold latestHistoryCursor_of. rewrite parse_marshal by (cbn; by rewrite !number_literal_itoa).
  cbn [mbind option_bind]. unfold latestHistoryCursor_json, into_struct. cbv iota. destruct c as [e b p]. cbn [lh_epoch lh_before lh_scope] in *.
  do 3 cursor_member set_latest_cursor. reflexivity.
Qed.

Lemma EncodeToString_nonempty s : s <> "" -> (EncodeToString s =s "") = false.
Proof. destruct s as [|a [|b [|c s]]]; done. Qed.
Lemma cursor_bytes_encode s : byte_length s <= MaximumCursorBytes -> cursor_bytes (EncodeToString s) = Some s.
Proof.
  intros H. unfold cursor_bytes. rewrite DecodeString_encode. cbn [mbind option_bind].
  by destruct (Z.ltb_spec MaximumCursorBytes (byte_length s)); [lia|].
Qed.
Lemma marshal_object_nonempty m : marshal (JObj m) <> "".
Proof. cbn [marshal]. discriminate. Qed.

Lemma decoded_own_cursor c s :
  cursor_fine c -> byte_length (marshal (pageCursor_json c)) <= MaximumCursorBytes ->
  pc_epoch c = Epoch s -> pc_state c = StateVersion s -> decodeCursor (encodeCursor c) (pc_scope c) s = inr (pc_offset c).
Proof.
  intros Hc Hlen He Hs. unfold decodeCursor, encodeCursor. rewrite EncodeToString_nonempty by apply marshal_object_nonempty.
  rewrite cursor_bytes_encode, pageCursor_of_marshal by done. destruct Hc as (_ & _ & [Ho _]).
  replace (pc_offset c <? 0) with false by (symmetry; apply Z.ltb_ge; lia). by rewrite He, Hs, !Z.eqb_refl, str_eqb_refl.
Qed.
Lemma latest_cursor_decodes c epoch :
  latest_fine c -> byte_length (marshal (latestHistoryCursor_json c)) <= MaximumCursorBytes ->
  lh_epoch c = epoch -> 1 <= lh_before c <= MaximumSafeInteger ->
  decodeLatestHistoryCursor (encodeLatestHistoryCursor c) (lh_scope c) epoch = inr (lh_before c).
Proof.
  intros Hc Hlen He Hb. unfold decodeLatestHistoryCursor, encodeLatestHistoryCursor.
  rewrite EncodeToString_nonempty by apply marshal_object_nonempty. rewrite cursor_bytes_encode, latestCursor_of_marshal by done.
  rewrite He, Z.eqb_refl, str_eqb_refl. cbn [negb orb].
  replace (lh_before c <? 1) with false by (symmetry; apply Z.ltb_ge; lia).
  by replace (MaximumSafeInteger <? lh_before c) with false by (symmetry; apply Z.ltb_ge; lia).
Qed.

(** ** Pages *)
Lemma leb_trans a b c : String.leb a b = true -> String.leb b c = true -> String.leb a c = true.
Proof.
  assert (forall x y, String.leb x y = true <-> x = y \/ String_as_OT.lt x y) as Hle.
  { intros x y. unfold String.leb. destruct (String.compare x y) eqn:E.
    - apply String.compare_eq_iff in E. naive_solver.
    - split; [|done]. intros _. right. by apply String_as_OT.cmp_lt.
    - split; [done|]. intros [->|H]; [|apply String_as_OT.cmp_lt in H; change (String.compare x y = Lt) in H; congruence].
      pose proof (String.compare_antisym y y) as H. rewrite E in H. discriminate. }
  rewrite !Hle. intros [->|H1] [->|H2]; auto. right. by eapply String_as_OT.lt_trans.
Qed.

Section Pages.
Context {R : Type}.
Implicit Types l : list R.

(** Ordering permutes, filters commute with it only up to permutation. *)
Lemma insert_row_permutation before (x : R) l : insert_row before x l ≡ₚ x :: l.
Proof.
  induction l as [|y l IH]; [done|]. cbn. destruct (before x y); [done|]. by rewrite IH, Permutation_swap.
Qed.
Lemma order_by_permutation before l : order_by before l ≡ₚ l.
Proof. induction l as [|x l IH]; [done|]. cbn. by rewrite insert_row_permutation, IH. Qed.

(** A total preorder sorts. *)
Lemma order_by_sorted before l :
  (forall a b, before a b = true \/ before b a = true) -> (forall a b c, before a b = true -> before b c = true -> before a c = true) ->
  StronglySorted (fun a b => before a b = true) (order_by before l).
Proof.
  intros Htot Htrans. induction l as [|x l IH]; [constructor|]. unfold order_by in *. cbn [List.fold_right].
  induction IH as [|y k Hk IHk Hf]; cbn [insert_row]; [by repeat constructor|]. destruct (before x y) eqn:Hxy.
  - constructor; [by constructor|]. constructor; [done|]. eapply Forall_impl; [exact Hf|]. cbn. intros z Hz. by eapply Htrans.
  - constructor; [done|]. rewrite Forall_forall. intros z Hz. rewrite insert_row_permutation in Hz.
    apply elem_of_cons in Hz as [->|Hz]; [by destruct (Htot x y); [congruence|]|]. by apply (proj1 (Forall_forall _ _) Hf).
Qed.

(** What a page shows and whether rows are left. *)
Lemma page_rows_spec limit offset l :
  0 <= limit -> 0 <= offset ->
  page_rows limit offset l = (limit_offset limit offset l, offset + limit <? Z.of_nat (List.length l)).
Proof.
  intros Hl Ho. unfold page_rows, limit_offset. rewrite length_take, length_drop.
  destruct (Z.ltb_spec (offset + limit) (Z.of_nat (List.length l))) as [H|H];
    destruct (Z.ltb_spec limit (Z.of_nat (Nat.min (Z.to_nat (limit + 1)) (List.length l - Z.to_nat offset)))) as [H'|H']; try lia.
  - rewrite take_take. do 2 f_equal. lia.
  - f_equal. rewrite !take_ge; [done|rewrite length_drop; lia..].
Qed.

(** The pages of a listing, one after the other, are the listing. *)
Lemma limit_offset_next limit offset l :
  0 <= limit -> 0 <= offset ->
  limit_offset limit offset l ++ drop (Z.to_nat (offset + limit)) l = drop (Z.to_nat offset) l.
Proof.
  intros Hl Ho. unfold limit_offset. rewrite <- (take_drop (Z.to_nat limit) (drop (Z.to_nat offset) l)) at 2. f_equal.
  rewrite drop_drop. f_equal. lia.
Qed.
Lemma limit_offset_last limit offset l :
  0 <= limit -> 0 <= offset -> Z.of_nat (List.length l) <= offset + limit -> limit_offset limit offset l = drop (Z.to_nat offset) l.
Proof. intros Hl Ho H. unfold limit_offset. apply take_ge. rewrite length_drop. lia. Qed.

Context {A : Type} (item : R -> string + A) (size : A -> Z).
(** The walk takes the rows before the first that does not fit. *)
Lemma page_walk_spec limit maximum count bytes l items more :
  page_walk item size limit maximum count bytes l = inr (items, more) ->
  exists shown rest, l = shown ++ rest /\ List.map item shown = List.map inr items
    /\ (more = false -> rest = []) /\ (count <= limit -> count + Z.of_nat (List.length items) <= limit)
    /\ (more = true -> rest <> []).
Proof.
  revert count bytes items more. induction l as [|r l IH]; intros count bytes items more; cbn [page_walk].
  - intros [= <- <-]. exists [], []. split_and!; try done. cbn. lia.
  - destruct (item r) as [m|a] eqn:Ha; [done|]. destruct ((count =? limit) || (maximum <? bytes + size a)) eqn:Hstop.
    + intros [= <- <-]. exists [], (r :: l). split_and!; try done. cbn. lia.
    + destruct (page_walk _ _ _ _ (count + 1) _ l) as [m|[items' more']] eqn:Hw; [done|]. intros [= <- <-]. simplify_bool.
      destruct (IH _ _ _ _ Hw) as (shown & rest & -> & Hi & Hm & Hc & Hn). exists (r :: shown), rest.
      split_and!; try done; [cbn; by rewrite Ha, Hi|]. cbn. lia.
Qed.
End Pages.
