(* ===== verification/SafeText.v ===== *)
(** * Safe text: ids, chunks and usage, the pure part of [runtime/safe_text.go]
    A safe text is stored as a manifest artifact, one artifact per chunk and
    one usage row per attempt, whose [call_id] column carries the counters.
    All ids are derived by hashing, so [hash] below is the hex SHA-256 of
    [Tx.Env]. *)
From stdpp Require Import base tactics list strings gmap pretty.
From Stdlib Require Import ZArith Lia Ascii String.
From S2P Require Import Prelude Json Parse Wire Store Tx Adapter Events TranscriptView Frames Files.
Open Scope string_scope.
Open Scope list_scope.
Open Scope Z_scope.
Open Scope harness_scope.

Definition safeTextArtifactNamePrefix : string := "safe-text-".
Definition safeTextManifestMediaType : string := "application/vnd.homelab.transcript-view-v1+json".
Definition safeTextChunkMediaType : string := "text/plain; charset=utf-8".
Definition safeTextUsageMediaType : string := "application/vnd.homelab.transcript-usage-v1".
Definition safeTextDisposition : string := "transcript_internal".
Definition safeTextEmptySHA256 : string := "e3b0c44298fc1c149afbf4c8996fb92427ae41e4649b934ca495991b7852b855".
Definition safeTextMaximumSources : Z := 1024.
Definition safeTextMaximumChunks : Z := 2048.
Definition safeTextMaximumStorage : Z := 1024 * 1024 * 1024.
Definition safeTextLimitMarkerReserve : Z := 512 * 1024.

(** ** Derived identities *)
Definition nul : string := String (ascii_of_N 0) "".

(** The hex digits of [raw\[8\] & 0x3f | 0x80]. *)
Definition variant_digit (c : ascii) : ascii :=
  match hex_value c with Some n => hex_digit (N.lor (N.land n 3) 8) | None => c end.
Definition variant_text (s : string) : string := match s with String c r => String (variant_digit c) r | EmptyString => s end.

Section Identities.
Variable hash : string -> string.
Definition stableSafeTextUUID (namespace value : string) : string :=
  let encoded := hash (namespace +:+ nul +:+ value) in
  let part from n := String.substring from n encoded in
  part 0%nat 8%nat +:+ "-" +:+ part 8%nat 4%nat +:+ "-5" +:+ part 13%nat 3%nat +:+ "-" +:+ variant_text (part 16%nat 4%nat)
  +:+ "-" +:+ part 20%nat 12%nat.
Definition safeTextID (reference : AttemptRef) (source : Source) : string :=
  stableSafeTextUUID "transcript-text-v1"
    (join nul [ref_node reference; ref_dialog reference; ref_request reference; ref_attempt reference;
               itoa (ref_generation reference); src_kind source; src_id source; itoa (src_index source); src_stream source]).
Definition safeTextManifestID (textID : string) : string := stableSafeTextUUID "transcript-manifest-v1" textID.
Definition safeTextChunkID (textID : string) (index : Z) : string :=
  stableSafeTextUUID "transcript-chunk-v1" (textID +:+ nul +:+ itoa index).
Definition safeTextUsageID (attemptID : string) : string := stableSafeTextUUID "transcript-usage-v1" attemptID.
End Identities.

Definition safeTextManifestName (textID : string) : string := safeTextArtifactNamePrefix +:+ "manifest-" +:+ textID +:+ ".json".
Definition two_digits (z : Z) : string := let s := itoa z in if byte_length s <? 2 then "0" +:+ s else s.
Definition safeTextChunkName (textID : string) (index : Z) : string := safeTextArtifactNamePrefix +:+ two_digits index +:+ ".txt".
Definition safeTextUsageName (attemptID : string) : string := safeTextArtifactNamePrefix +:+ "usage-" +:+ attemptID +:+ ".state".
Definition reservedSafeTextArtifact (name mediaType : string) : bool :=
  String.prefix safeTextArtifactNamePrefix name || (mediaType =s safeTextManifestMediaType).
Definition expectedSafeTextCallID (source : Source) : string :=
  if src_kind source =s "assistant_message" then "" else src_id source.

(** ** The value behind a content *)
(** The longest well-formed prefix of at most [n] bytes, from [start]. *)
Fixpoint well_formed_length (value : string) (start n : nat) : nat :=
  match n with
  | O => O
  | S n' => if valid_utf8 (String.substring start n value) then n else well_formed_length value start n'
  end.
Definition safeTextPreview (value : string) : string :=
  if byte_length value <=? MaximumPreview then value
  else String.substring 0 (well_formed_length value 0 (Z.to_nat MaximumPreview)) value.

(** [Some None]: nothing to keep; [None]: an error. *)
Definition safeTextValue (content : SafeContent) (full : option string) (incomplete : bool) : option (option string) :=
  if negb (sc_kind content =s "inline") then
    match full with Some _ => None | None => if incomplete then None else Some None end
  else if negb (in_set (sc_redaction content) ["none"; "applied"]) then None else
  match full with
  | None =>
      if incomplete then None
      else if sc_truncated content then Some None
      else Some (Some (sc_content content))
  | Some text =>
      if negb (valid_utf8 text) then None else
      let preview := safeTextPreview text in
      if negb (sc_content content =s preview)
         || negb (Bool.eqb (sc_truncated content) (incomplete || negb (byte_length preview =? byte_length text)))
      then None else Some (Some text)
  end.

Definition safeTextManifestMatches (m : Manifest) (reference : AttemptRef) (source : Source) (preview redaction : string) (size : Z)
    (sha256 : string) (incomplete : bool) : bool :=
  (mf_node m =s ref_node reference) && (mf_dialog m =s ref_dialog reference) && (mf_attempt m =s ref_attempt reference)
  && (mf_generation m =? ref_generation reference) && bool_decide (mf_source m = source) && (mf_preview m =s preview)
  && Bool.eqb (mf_truncated m) (incomplete || negb (byte_length preview =? size)) && (mf_redaction m =s redaction)
  && (mf_size m =? size) && (mf_sha256 m =s sha256) && (negb incomplete || negb (mf_complete m)).

(** ** Usage *)
Record safeTextUsage := mkTextUsage { textBytes : Z; storageBytes : Z; sourceCount : Z; chunkCount : Z; sealed : bool }.
#[export] Instance safeTextUsage_eta : Eta safeTextUsage := fun u =>
  mkTextUsage (textBytes u) (storageBytes u) (sourceCount u) (chunkCount u) (sealed u).
Definition no_usage : safeTextUsage := mkTextUsage 0 0 0 0 false.

Definition validSafeTextUsage (u : safeTextUsage) : bool :=
  (0 <=? textBytes u) && (textBytes u <=? MaximumTextBytes) && (0 <=? storageBytes u) && (storageBytes u <=? safeTextMaximumStorage)
  && (0 <=? sourceCount u) && (sourceCount u <=? safeTextMaximumSources)
  && (0 <=? chunkCount u) && (chunkCount u <=? safeTextMaximumChunks) && (negb (sealed u) || (0 <? sourceCount u)).
Definition encodeSafeTextUsage (u : safeTextUsage) : string :=
  "v1:" +:+ itoa (textBytes u) +:+ ":" +:+ itoa (storageBytes u) +:+ ":" +:+ itoa (sourceCount u) +:+ ":" +:+ itoa (chunkCount u).
Definition usage_number (part : string) : option Z :=
  z ← parse_int64 part; if itoa z =s part then Some z else None.
Definition decodeSafeTextUsage (encoded : string) (is_sealed : bool) : option safeTextUsage :=
  match split_on ":" encoded with
  | [version; a; b; c; d] =>
      if negb (version =s "v1") then None else
      a ← usage_number a; b ← usage_number b; c ← usage_number c; d ← usage_number d;
      let u := mkTextUsage a b c d is_sealed in
      if validSafeTextUsage u then Some u else None
  | _ => None
  end.
Definition safeTextCanStoreComplete (u : safeTextUsage) (text storage chunks : Z) : bool :=
  validSafeTextUsage u && negb (sealed u) && (0 <=? text) && (text <=? storage) && (0 <=? chunks)
  && (textBytes u <=? MaximumTextBytes - text)
  && (storageBytes u <=? safeTextMaximumStorage - safeTextLimitMarkerReserve - storage)
  && (sourceCount u <? safeTextMaximumSources - 1) && (chunkCount u <=? safeTextMaximumChunks - chunks).
(** The counters [updateSafeTextUsage] writes. *)
Definition next_usage (prior : safeTextUsage) (m : Manifest) (manifestBytes : Z) : safeTextUsage :=
  let next := prior <| sourceCount ::= Z.succ |> <| storageBytes ::= Z.add manifestBytes |> in
  if mf_complete m
  then next <| textBytes ::= Z.add (mf_size m) |> <| storageBytes ::= Z.add (mf_size m) |>
            <| chunkCount ::= Z.add (Z.of_nat (List.length (mf_chunks m))) |>
  else next <| sealed := true |>.

(** ** [prepareSafeTextManifest] *)
(** The chunk loop from byte [start]: each chunk with its bytes.  Every turn
    takes at least one byte, so the length of the text is fuel enough. *)
Section Chunks.
Variables (hash : string -> string) (textID value : string).
Fixpoint chunk_loop (fuel : nat) (start : nat) (index : Z) : option (list (Chunk * string)) :=
  if Nat.leb (String.length value) start then Some [] else
  match fuel with
  | O => None
  | S fuel' =>
      let limit := Z.to_nat (Z.min MaximumChunkBytes (byte_length value - Z.of_nat start)) in
      match well_formed_length value start limit with
      | O => None
      | n =>
          let bytes := String.substring start n value in
          let chunk := mkChunk index (Z.of_nat start) (safeTextChunkID hash textID index) (byte_length bytes) (hash bytes) in
          rest ← chunk_loop fuel' (start + n)%nat (index + 1);
          Some ((chunk, bytes) :: rest)
      end
  end.
End Chunks.
Definition safe_text_chunks (hash : string -> string) (textID value : string) : option (list (Chunk * string)) :=
  chunk_loop hash textID value (String.length value) 0 0.

(** The incomplete manifest that marks a text as not kept. *)
Definition limit_marker (base : Manifest) (u : safeTextUsage) : option (Manifest * list (Chunk * string) * string * bool) :=
  let m := base <| mf_complete := false |> <| mf_reason := "output_limit_exceeded" |> <| mf_chunks := [] |> in
  encoded ← TranscriptEncode m;
  if (safeTextLimitMarkerReserve <? byte_length encoded) || (safeTextMaximumSources <=? sourceCount u)
     || (safeTextMaximumStorage - byte_length encoded <? storageBytes u)
  then None else Some (m, [], encoded, false).
Definition prepareSafeTextManifest (hash : string -> string) (base : Manifest) (value : string) (u : safeTextUsage) (incomplete : bool)
    : option (Manifest * list (Chunk * string) * string * bool) :=
  if negb incomplete && (byte_length value <=? MaximumTextBytes) then
    spans ← safe_text_chunks hash (mf_text base) value;
    let m := base <| mf_complete := true |> <| mf_chunks := List.map fst spans |> in
    encoded ← TranscriptEncode m;
    if safeTextCanStoreComplete u (byte_length value) (byte_length value + byte_length encoded) (Z.of_nat (List.length spans))
    then Some (m, spans, encoded, true)
    else limit_marker base u
  else limit_marker base u.
