(* ===== verification/SafeTextFacts.v ===== *)
(** * Facts of safe text
    The chunk loop covers every well-formed text, the usage counters round-trip
    through their column and stay in bounds, and the marker of a text that was
    not kept always fits. *)
From stdpp Require Import base tactics list strings gmap pretty.
From Stdlib Require Import ZArith Lia Ascii String.
From S2P Require Import Prelude Json Parse ParseFacts Wire Store Tx Adapter Events TranscriptView Frames Files TranscriptFacts SafeText.
Open Scope string_scope.
Open Scope list_scope.
Open Scope Z_scope.
Open Scope harness_scope.

(** ** UTF-8 and concatenation *)
Lemma utf8_app a b : valid_utf8 a = true -> valid_utf8 (a +:+ b) = valid_utf8 b.
Proof.
  remember (String.length a) as n eqn:Hn. assert (String.length a <= n)%nat as Hle by lia. clear Hn. revert a Hle.
  induction n as [|n IH]; intros a Hle; [by destruct a; cbn in Hle; [|lia]|].
  destruct a as [|c1 a]; [done|]. rewrite append_cons. cbn [valid_utf8 String.length] in *.
  destruct (N_of_ascii c1 <? 128)%N; [apply IH; lia|].
  destruct a as [|c2 a]; [done|]. rewrite append_cons. cbn [String.length] in *.
  destruct (second_byte _ c2); [cbn [andb]|done]. destruct (_ && _)%N; [apply IH; lia|].
  destruct a as [|c3 a]; [done|]. rewrite append_cons. cbn [String.length] in *.
  destruct (continuation c3); [cbn [andb]|done]. destruct (_ && _)%N; [apply IH; lia|].
  destruct a as [|c4 a]; [done|]. rewrite append_cons. cbn [String.length] in *.
  destruct (continuation c4); [cbn [andb]|done].
  destruct ((240 <=? _) && (_ <=? 244))%N; [apply IH; lia|done].
Qed.
Lemma substring_0_cons c s n : String.substring 0 (S n) (String c s) = String c (String.substring 0 n s).
Proof. reflexivity. Qed.
(** The first code point of a well-formed text is at most four bytes long. *)
Lemma utf8_first s : valid_utf8 s = true -> s <> "" ->
  exists n, (1 <= n <= 4)%nat /\ (n <= String.length s)%nat /\ valid_utf8 (String.substring 0 n s) = true.
Proof.
  intros H Hne. destruct s as [|c1 s]; [done|]. cbn [valid_utf8] in H. destruct (N_of_ascii c1 <? 128)%N eqn:E1.
  { exists 1%nat. rewrite substring_0_cons. cbn [valid_utf8 String.length]. rewrite E1. split_and!; [lia..|by destruct s]. }
  destruct s as [|c2 s]; [done|]. destruct (second_byte (N_of_ascii c1) c2) eqn:E2; [cbn [andb] in H|done].
  destruct ((194 <=? N_of_ascii c1) && (N_of_ascii c1 <=? 223))%N eqn:E3.
  { exists 2%nat. rewrite !substring_0_cons. cbn [valid_utf8 String.length]. rewrite E1, E2, E3. split_and!; [lia..|by destruct s]. }
  destruct s as [|c3 s]; [done|]. destruct (continuation c3) eqn:E4; [cbn [andb] in H|done].
  destruct ((224 <=? N_of_ascii c1) && (N_of_ascii c1 <=? 239))%N eqn:E5.
  { exists 3%nat. rewrite !substring_0_cons. cbn [valid_utf8 String.length]. rewrite E1, E2, E3, E4, E5. split_and!; [lia..|by destruct s]. }
  destruct s as [|c4 s]; [done|]. destruct (continuation c4) eqn:E6; [cbn [andb] in H|done].
  destruct ((240 <=? N_of_ascii c1) && (N_of_ascii c1 <=? 244))%N eqn:E7; [|done].
  exists 4%nat. rewrite !substring_0_cons. cbn [valid_utf8 String.length]. rewrite E1, E2, E3, E4, E5, E6, E7. split_and!; [lia..|by destruct s].
Qed.

(** ** The chunk loop *)
Lemma well_formed_spec value start n :
  (well_formed_length value start n <= n)%nat
  /\ valid_utf8 (String.substring start (well_formed_length value start n) value) = true
  /\ forall k, (k <= n)%nat -> valid_utf8 (String.substring start k value) = true -> (k <= well_formed_length value start n)%nat.
Proof.
  induction n as [|n (H1 & H2 & H3)]; cbn [well_formed_length].
  - split_and!; [lia| |intros; lia]. assert (forall s i, String.substring i 0 s = "") as ->; [|done].
    induction s; intros [|i]; cbn; auto.
  - destruct (valid_utf8 (String.substring start (S n) value)) eqn:E; [split_and!; [lia|done|intros; lia]|].
    split_and!; [lia|done|]. intros k Hk Hv. destruct (decide (k = S n)) as [->|]; [congruence|]. apply H3; [lia|done].
Qed.
Lemma substring_add s : forall i a b, String.substring i (a + b) s = String.substring i a s +:+ String.substring (i + a) b s.
Proof.
  induction s as [|c s IH]; intros i a b; [by destruct i, a, b|].
  destruct i as [|i]; [|apply (IH i)]. destruct a as [|a]; [done|]. cbn [Nat.add String.substring]. rewrite append_cons. f_equal. apply (IH 0%nat).
Qed.
Lemma length_substring s : forall i n, (i + n <= String.length s)%nat -> String.length (String.substring i n s) = n.
Proof.
  induction s as [|c s IH]; intros [|i] [|n] H; cbn [String.length String.substring] in *; try lia; try done.
  - f_equal. apply (IH 0%nat). lia.
  - apply (IH i 0%nat). lia.
  - apply (IH i (S n)). lia.
Qed.

(** The chunks from byte [offset] on: numbered, consecutive, bounded and each of
    them well-formed. *)
Fixpoint chunks_exact (hash : string -> string) (textID : string) (index offset : Z) (spans : list (Chunk * string)) : Prop :=
  match spans with
  | [] => True
  | (c, bytes) :: rest =>
      c = mkChunk index offset (safeTextChunkID hash textID index) (byte_length bytes) (hash bytes)
      /\ 1 <= byte_length bytes <= MaximumChunkBytes /\ valid_utf8 bytes = true
      /\ chunks_exact hash textID (index + 1) (offset + byte_length bytes) rest
  end.
Definition chunk_text (spans : list (Chunk * string)) : string := List.fold_right (fun s t => s +:+ t) "" (List.map snd spans).

Lemma chunk_loop_covers hash textID value fuel : forall start index,
  (start <= String.length value)%nat -> (String.length value - start <= fuel)%nat ->
  valid_utf8 (String.substring start (String.length value - start) value) = true ->
  exists spans, chunk_loop hash textID value fuel start index = Some spans
    /\ chunks_exact hash textID index (Z.of_nat start) spans
    /\ chunk_text spans = String.substring start (String.length value - start) value.
Proof.
  set (len := String.length value). induction fuel as [|fuel IH]; intros start index Hs Hf Hv; cbn [chunk_loop].
  - fold len. rewrite (proj2 (Nat.leb_le len start)) by lia. replace (len - start)%nat with 0%nat by lia.
    exists []. split_and!; [done..|]. assert (forall s i, String.substring i 0 s = "") as H0 by (induction s; intros [|i]; cbn; auto). by rewrite H0.
  - fold len. destruct (Nat.leb_spec len start) as [Hle|Hlt].
    { exists []. replace (len - start)%nat with 0%nat by lia. split_and!; [done..|].
      assert (forall s i, String.substring i 0 s = "") as H0 by (induction s; intros [|i]; cbn; auto). by rewrite H0. }
    cbv zeta. set (limit := Z.to_nat _).
    assert (limit <= len - start)%nat as Hlim by (unfold limit, byte_length; fold len; lia).
    assert (limit <= Z.to_nat MaximumChunkBytes)%nat as Hmax by (unfold limit; lia).
    destruct (utf8_first _ Hv) as (k & Hk & Hkl & Hkv).
    { intros H0. apply (f_equal String.length) in H0. rewrite length_substring in H0; [cbn in H0; lia|]. unfold len in *. lia. }
    rewrite length_substring in Hkl by (unfold len in *; lia).
    assert (String.substring 0 k (String.substring start (len - start) value) = String.substring start k value) as Hkk.
    { pose proof (substring_add value start k (len - start - k)) as Ha. replace (k + (len - start - k))%nat with (len - start)%nat in Ha by lia.
      rewrite Ha. pose proof (length_substring value start k ltac:(unfold len in *; lia)) as Hl.
      rewrite <- Hl at 1. generalize (String.substring start k value) (String.substring (start + k) (len - start - k) value).
      intros x y. induction x as [|c x IHx]; [by destruct y|]. rewrite append_cons. cbn [String.length]. rewrite substring_0_cons. by rewrite IHx. }
    rewrite Hkk in Hkv. destruct (well_formed_spec value start limit) as (W1 & W2 & W3).
    assert (k <= limit)%nat as Hkl2 by (unfold limit, byte_length, MaximumChunkBytes; fold len; lia).
    pose proof (W3 k Hkl2 Hkv) as Hpos. destruct (well_formed_length value start limit) as [|n'] eqn:En; [lia|]. set (n := S n') in *.
    pose proof (substring_add value start n (len - start - n)) as Ha. replace (n + (len - start - n))%nat with (len - start)%nat in Ha by lia.
    pose proof (length_substring value start n ltac:(unfold len in *; lia)) as Hl.
    destruct (IH (start + n)%nat (index + 1)) as (spans & E & Hex & Htx); [lia..| |].
    { rewrite Ha, utf8_app in Hv by done. by replace (len - (start + n))%nat with (len - start - n)%nat by lia. }
    rewrite E. cbn [mbind option_bind]. eexists. split; [reflexivity|]. unfold byte_length in *. rewrite Hl in *. split.
    + cbn [chunks_exact]. unfold byte_length. rewrite Hl. split; [done|]. split; [unfold MaximumChunkBytes in *; lia|]. split; [done|].
      by replace (Z.of_nat start + Z.of_nat n) with (Z.of_nat (start + n)) by lia.
    + rewrite Ha. unfold chunk_text in *. cbn [List.map List.fold_right snd]. rewrite Htx. by replace (len - (start + n))%nat with (len - start - n)%nat by lia.
Qed.

(** ** Usage *)
Lemma split_on_app sep w r : all_chars (fun c => negb (c =? sep)%char) w = true -> split_on sep (w +:+ String sep r) = w :: split_on sep r.
Proof.
  induction w as [|c w IH]; cbn [all_chars]; [intros _; change ("" +:+ ?x) with x; cbn [split_on]; by rewrite Ascii.eqb_refl|].
  intros [Hc Hw]%andb_true_iff. apply negb_true_iff in Hc. rewrite append_cons. cbn [split_on]. by rewrite Hc, (IH Hw).
Qed.
Lemma split_on_single sep w : all_chars (fun c => negb (c =? sep)%char) w = true -> split_on sep w = [w].
Proof.
  induction w as [|c w IH]; cbn [all_chars]; [done|]. intros [Hc Hw]%andb_true_iff. apply negb_true_iff in Hc. cbn [split_on]. by rewrite Hc, (IH Hw).
Qed.
Lemma all_chars_mono (p q : ascii -> bool) s : (forall c, p c = true -> q c = true) -> all_chars p s = true -> all_chars q s = true.
Proof. intros Hpq. induction s as [|c s IH]; [done|]. cbn [all_chars]. intros [Hc Hs]%andb_true_iff. by rewrite (Hpq c Hc), (IH Hs). Qed.
Lemma itoa_no_colon z : 0 <= z -> all_chars (fun c => negb (c =? ":")%char) (itoa z) = true.
Proof.
  intros (c & t & _ & _ & H)%itoa_digits. eapply all_chars_mono; [|exact H].
  clear. intros c. destruct c as [[] [] [] [] [] [] [] []]; by vm_compute.
Qed.
Lemma usage_number_itoa z : 0 <= z -> z <= int64_max -> usage_number (itoa z) = Some z.
Proof. intros. unfold usage_number. rewrite parse_int64_itoa by done. cbn [mbind option_bind]. by rewrite str_eqb_refl. Qed.

Lemma usage_split a b c d : 0 <= a -> 0 <= b -> 0 <= c -> 0 <= d ->
  split_on ":" ("v1:" +:+ itoa a +:+ ":" +:+ itoa b +:+ ":" +:+ itoa c +:+ ":" +:+ itoa d) = ["v1"; itoa a; itoa b; itoa c; itoa d].
Proof.
  intros Ha Hb Hc Hd. change ("v1:" +:+ ?x) with ("v1" +:+ String ":" x). rewrite split_on_app by done. f_equal.
  assert (forall r, ":" +:+ r = String ":" r) as Hcolon by reflexivity. rewrite !Hcolon.
  rewrite split_on_app by (by apply itoa_no_colon). f_equal. rewrite split_on_app by (by apply itoa_no_colon). f_equal.
  rewrite split_on_app by (by apply itoa_no_colon). f_equal. by apply split_on_single, itoa_no_colon.
Qed.

(** The counters of a usage that was written through [updateSafeTextUsage]
    leave room for the marker unless it was written already. *)
Definition usage_ok (u : safeTextUsage) : Prop :=
  validSafeTextUsage u = true
  /\ (sealed u = false -> storageBytes u <= safeTextMaximumStorage - safeTextLimitMarkerReserve /\ sourceCount u <= safeTextMaximumSources - 1).
Definition marker (base : Manifest) : Manifest :=
  base <| mf_complete := false |> <| mf_reason := "output_limit_exceeded" |> <| mf_chunks := [] |>.

(** ** The size of a marker *)
Lemma length_marshal_char c r : (String.length (marshal_char c r) <= 6 + String.length r)%nat.
Proof.
  unfold marshal_char, canonical_char. cbv zeta. repeat (match goal with |- context [if ?b then _ else _] => destruct b end; [rewrite ?length_append; cbn [String.length]; lia|]). cbn [String.length]. lia.
Qed.
Lemma length_marshal_chars s : (String.length (marshal_chars s) <= 6 * String.length s)%nat.
Proof.
  remember (String.length s) as n eqn:Hn. assert (String.length s <= n)%nat as Hle by lia. rewrite Hn. clear Hn. revert s Hle.
  induction n as [|n IH]; intros s Hle; [by destruct s; cbn in Hle; [|lia]|].
  destruct s as [|c s]; [cbn; lia|]. cbn [String.length] in Hle.
  destruct (marshal_chars_step c s) as [->|(x & s' & Hx & -> & -> & ->)].
  - pose proof (length_marshal_char c (marshal_chars s)). pose proof (IH s ltac:(lia)). cbn [String.length]. lia.
  - rewrite length_append. cbn [String.length] in *. pose proof (IH s' ltac:(lia)). destruct (x =? 168)%N; cbn; lia.
Qed.
Lemma length_marshal_string s : (String.length (marshal_string s) <= 6 * String.length s + 2)%nat.
Proof. unfold marshal_string. cbn [String.length]. rewrite length_append. cbn [String.length]. pose proof (length_marshal_chars s). lia. Qed.
Lemma length_matches classes s : matches classes s = true -> String.length s = List.length classes.
Proof.
  unfold matches. revert s. induction classes as [|p classes IH]; intros s; cbn [match_classes]; [by destruct s|].
  destruct s as [|c s]; [done|]. destruct (p c); [|done]. intros H. cbn. by rewrite (IH s H).
Qed.
Lemma length_pretty (k : nat) : forall (x : N) s, (x < 10 ^ N.of_nat k)%N -> (String.length (pretty_N_go x s) <= k + String.length s)%nat.
Proof.
  induction k as [|k IH]; intros x s Hx.
  - assert (x = 0)%N as -> by (cbn in Hx; lia). by rewrite pretty_N_go_0.
  - destruct (N.eq_dec x 0) as [->|Hne]; [rewrite pretty_N_go_0; lia|]. rewrite pretty_N_go_step by lia.
    etrans; [apply IH|cbn [String.length]; lia]. rewrite Nat2N.inj_succ, N.pow_succ_r' in Hx. apply N.Div0.div_lt_upper_bound. lia.
Qed.
Lemma length_itoa z : 0 <= z <= MaximumSafeInteger -> (String.length (itoa z) <= 16)%nat.
Proof.
  intros [Hz Hm]. unfold itoa, pretty, pretty_Z. destruct z as [|p|p]; [cbn; lia| |lia].
  unfold pretty, pretty_positive, pretty, pretty_N. rewrite decide_False by done.
  pose proof (length_pretty 16 (N.pos p) "") as H. cbn [String.length] in H. rewrite Nat.add_0_r in H. apply H.
  unfold MaximumSafeInteger in Hm. change (10 ^ N.of_nat 16)%N with 10000000000000000%N. lia.
Qed.
Lemma in_set_length s l n : in_set s l = true -> forallb (fun t => Nat.leb (String.length t) n) l = true -> (String.length s <= n)%nat.
Proof. intros (t & Ht & ->%String.eqb_eq)%existsb_exists H. rewrite forallb_forall in H. by apply Nat.leb_le, H. Qed.
Lemma length_join l : (String.length (join "," l) <= List.fold_right (fun s n => String.length s + 1 + n) 0 l)%nat.
Proof.
  induction l as [|x [|y l] IH]; [cbn; lia|cbn; lia|]. rewrite join_cons, !length_append. cbn [List.fold_right String.length] in *. lia.
Qed.
Lemma length_obj m : (String.length (marshal (JObj m)) <= 2 + List.fold_right (fun kv n => String.length (member_text kv) + 1 + n) 0 m)%nat.
Proof.
  rewrite marshal_obj, !length_append. pose proof (length_join (List.map member_text m)) as H. cbn [String.length].
  assert (List.fold_right (fun s n => String.length s + 1 + n) 0 (List.map member_text m)
          = List.fold_right (fun kv n => String.length (member_text kv) + 1 + n) 0 m)%nat as E by (clear; induction m; cbn; congruence). lia.
Qed.
(** Sizes of members, by the kind of their value. *)
Lemma length_member k v : String.length (member_text (k, v)) = (String.length (marshal_string k) + 1 + String.length (marshal v))%nat.
Proof. unfold member_text. cbn [fst snd]. rewrite !length_append. cbn [String.length]. lia. Qed.
Lemma length_str_member k s n : (String.length s <= n -> String.length (member_text (k, JStr s)) <= String.length (marshal_string k) + 3 + 6 * n)%nat.
Proof. intros H. rewrite length_member. pose proof (length_marshal_string s). change (marshal (JStr s)) with (marshal_string s). lia. Qed.
Lemma length_int_member k z : 0 <= z <= MaximumSafeInteger -> (String.length (member_text (k, JInt z)) <= String.length (marshal_string k) + 17)%nat.
Proof. intros H. rewrite length_member. pose proof (length_itoa z H). change (marshal (JInt z)) with (itoa z). lia. Qed.
Lemma length_bool_member k b : (String.length (member_text (k, JBool b)) <= String.length (marshal_string k) + 6)%nat.
Proof. rewrite length_member. destruct b; cbn [marshal String.length]; lia. Qed.

Ltac name_lengths :=
  repeat match goal with
  | H : context [String.length (marshal_string ?k)] |- _ =>
      let n := eval vm_compute in (String.length (marshal_string k)) in change (String.length (marshal_string k)) with n in H
  end.

Lemma length_source s : validSource s = true -> (String.length (marshal (Source_json s)) <= 500)%nat.
Proof.
  unfold validSource. intros H. simplify_bool. rename select (uuidPattern _ = true) into Hid. apply length_matches in Hid. cbn in Hid.
  assert ((String.length (src_kind s) <= 20)%nat /\ (String.length (src_stream s) <= 10)%nat /\ 0 <= src_index s <= MaximumSafeInteger) as (Hk & Hst & Hi).
  { destruct (in_set (src_kind s) _) eqn:E; simplify_bool.
    - split; [by eapply in_set_length; [exact E|]|]. match goal with H : src_stream s = _ |- _ => rewrite H end.
      match goal with H : src_index s = _ |- _ => rewrite H end. unfold MaximumSafeInteger. split; [cbn; lia|lia].
    - match goal with H : src_kind s = _ |- _ => rewrite H end. split; [cbn; lia|]. split; [by eapply in_set_length; [eassumption|]|lia]. }
  etrans; [apply length_obj|]. cbn [List.fold_right].
  pose proof (length_str_member "kind" (src_kind s) 20 Hk). pose proof (length_str_member "id" (src_id s) 36 ltac:(lia)).
  pose proof (length_int_member "index" (src_index s) Hi). pose proof (length_str_member "stream" (src_stream s) 10 Hst).
  name_lengths. lia.
Qed.
Lemma marshal_chunkless m : TranscriptValidate m = true -> mf_reason m = "output_limit_exceeded" -> mf_chunks m = [] ->
  byte_length (marshal (Manifest_json m)) <= 6 * byte_length (mf_preview m) + 4000.
Proof.
  intros Hv Hr Hc. unfold TranscriptValidate in Hv. simplify_bool. pose proof (length_source (mf_source m) ltac:(done)) as Hsrc.
  repeat match goal with H : uuidPattern _ = true |- _ => apply length_matches in H | H : sha256Pattern _ = true |- _ => apply length_matches in H end.
  cbn [List.length List.app List.repeat] in *.
  unfold byte_length. enough (String.length (marshal (Manifest_json m)) <= 6 * String.length (mf_preview m) + 4000)%nat by lia.
  etrans; [apply length_obj|]. rewrite Hr, Hc. cbn [List.fold_right app String.eqb Ascii.eqb Bool.eqb List.map].
  pose proof (length_str_member "schemaId" (mf_schema m) 20 ltac:(match goal with H : mf_schema m = _ |- _ => rewrite H end; cbn; lia)).
  pose proof (length_str_member "nodeId" (mf_node m) 36 ltac:(lia)). pose proof (length_str_member "dialogId" (mf_dialog m) 36 ltac:(lia)).
  pose proof (length_str_member "attemptId" (mf_attempt m) 36 ltac:(lia)). pose proof (length_int_member "generation" (mf_generation m) ltac:(lia)).
  pose proof (length_str_member "textId" (mf_text m) 36 ltac:(lia)). pose proof (length_member "source" (Source_json (mf_source m))).
  pose proof (length_str_member "preview" (mf_preview m) _ (le_n _)). pose proof (length_bool_member "previewTruncated" (mf_truncated m)).
  pose proof (length_str_member "redaction" (mf_redaction m) 10 ltac:(eapply in_set_length; [eassumption|done])).
  pose proof (length_bool_member "complete" (mf_complete m)). pose proof (length_str_member "reason" "output_limit_exceeded" 30 ltac:(cbn; lia)).
  pose proof (length_int_member "sizeBytes" (mf_size m) ltac:(lia)). pose proof (length_str_member "sha256" (mf_sha256 m) 64 ltac:(lia)).
  pose proof (length_member "chunks" (JArr [])). change (String.length (marshal (JArr []))) with 2%nat in *.
  name_lengths. lia.
Qed.
Lemma marker_small base encoded : TranscriptEncode (marker base) = Some encoded -> byte_length encoded <= safeTextLimitMarkerReserve.
Proof.
  unfold TranscriptEncode. destruct (TranscriptValidate (marker base)) eqn:Hv; [|done]. intros H. apply Some_inj in H. subst encoded.
  pose proof (marshal_chunkless _ Hv eq_refl eq_refl) as H. unfold TranscriptValidate in Hv. simplify_bool.
  unfold MaximumPreview, safeTextLimitMarkerReserve in *. lia.
Qed.

(** ** Claims *)
(** C19: chunking terminates and covers the text.  For every well-formed text
    the chunk loop succeeds (a chunk never has to be empty, and as many turns
    as the text has bytes are enough); its chunks are numbered from 0, each
    starts where the previous one ended, none is empty or above
    [MaximumChunkBytes], none splits a code point, and together their bytes are
    the text. *)
Theorem safe_text_chunks_cover hash textID value : valid_utf8 value = true ->
  exists spans, safe_text_chunks hash textID value = Some spans /\ chunks_exact hash textID 0 0 spans /\ chunk_text spans = value.
Proof.
  intros Hv. destruct (chunk_loop_covers hash textID value (String.length value) 0 0) as (spans & E & Hex & Htx); [lia..| |].
  - by rewrite Nat.sub_0_r, substring_all.
  - rewrite Nat.sub_0_r, substring_all in Htx. by exists spans.
Qed.
Lemma safe_text_chunks_cover_witness : exists spans, safe_text_chunks (fun s => s) "text" "abc" = Some spans /\ chunk_text spans = "abc".
Proof.
  destruct (safe_text_chunks_cover (fun s => s) "text" "abc" eq_refl) as (spans & E & _ & H). by exists spans.
Defined.

(** The usage counters survive their column.  What [updateSafeTextUsage]
    writes into [call_id] and [truncated], [loadSafeTextUsage] decodes to the
    same counters. *)
Theorem safe_text_usage_roundtrip u : validSafeTextUsage u = true -> decodeSafeTextUsage (encodeSafeTextUsage u) (sealed u) = Some u.
Proof.
  intros Hv. pose proof Hv as Hb. unfold validSafeTextUsage in Hb. simplify_bool.
  unfold MaximumTextBytes, safeTextMaximumStorage, safeTextMaximumSources, safeTextMaximumChunks in *.
  unfold decodeSafeTextUsage, encodeSafeTextUsage. rewrite usage_split by done. cbn [negb].
  change (negb ("v1" =s "v1")) with false. cbn iota. rewrite !usage_number_itoa by (unfold int64_max; lia). cbn [mbind option_bind].
  assert (mkTextUsage (textBytes u) (storageBytes u) (sourceCount u) (chunkCount u) (sealed u) = u) as -> by (by destruct u). by rewrite Hv.
Qed.
Lemma safe_text_usage_roundtrip_witness :
  validSafeTextUsage (mkTextUsage 8 713 1 1 false) = true
  /\ decodeSafeTextUsage (encodeSafeTextUsage (mkTextUsage 8 713 1 1 false)) false = Some (mkTextUsage 8 713 1 1 false).
Proof. split; [reflexivity|]. exact (safe_text_usage_roundtrip (mkTextUsage 8 713 1 1 false) eq_refl). Defined.

Lemma limit_marker_total base u : usage_ok u -> sealed u = false -> TranscriptValidate (marker base) = true ->
  exists encoded, limit_marker base u = Some (marker base, [], encoded, false) /\ usage_ok (next_usage u (marker base) (byte_length encoded)).
Proof.
  intros [Hv Hroom] Hs Hm. destruct (Hroom Hs) as [Hst Hsrc]. pose proof (marker_small base (marshal (Manifest_json (marker base)))) as Hsmall.
  unfold limit_marker. change (base <| mf_complete := false |> <| mf_reason := "output_limit_exceeded" |> <| mf_chunks := [] |>) with (marker base).
  cbv zeta. unfold TranscriptEncode in *. rewrite Hm in *. specialize (Hsmall eq_refl). cbn [mbind option_bind].
  set (n := byte_length (marshal (Manifest_json (marker base)))) in *. assert (0 <= n) as Hn by (unfold n, byte_length; lia).
  destruct (_ || _) eqn:Hg.
  - exfalso. unfold safeTextLimitMarkerReserve, safeTextMaximumSources, safeTextMaximumStorage in *.
    repeat (apply orb_true_iff in Hg as [Hg|Hg]); simplify_bool; lia.
  - eexists. split; [reflexivity|]. simplify_bool. fold n. unfold validSafeTextUsage in Hv. simplify_bool.
    split; [|done]. unfold validSafeTextUsage. cbn. rewrite !andb_true_iff, !Z.leb_le.
    unfold safeTextMaximumSources, safeTextMaximumStorage in *. split_and!; try lia. apply Z.ltb_lt. lia.
Qed.

(** C20: the reserve for the limit marker suffices.  From counters that leave
    the reserve, [prepareSafeTextManifest] either keeps the text complete, or
    falls back to the incomplete marker, and it fails only when the complete
    manifest itself cannot be built; the counters [updateSafeTextUsage] then
    computes are within their bounds and leave the reserve again.  So a text
    that does not fit never makes an observation fail. *)
Theorem safe_text_reserve_suffices hash base value u incomplete :
  usage_ok u -> sealed u = false -> mf_size base = byte_length value -> TranscriptValidate (marker base) = true ->
  match prepareSafeTextManifest hash base value u incomplete with
  | Some (m, spans, encoded, complete) =>
      usage_ok (next_usage u m (byte_length encoded)) /\ mf_complete m = complete
      /\ (if complete then safe_text_chunks hash (mf_text base) value = Some spans else m = marker base)
  | None => incomplete = false /\ (safe_text_chunks hash (mf_text base) value = None
                                   \/ exists spans, safe_text_chunks hash (mf_text base) value = Some spans
                                        /\ TranscriptValidate (base <| mf_complete := true |> <| mf_chunks := List.map fst spans |>) = false)
  end.
Proof.
  intros Hu Hs Hsize Hm. destruct (limit_marker_total base u Hu Hs Hm) as (encoded & El & Hnext).
  unfold prepareSafeTextManifest. destruct (negb incomplete && _) eqn:Hfit; [|by rewrite El].
  simplify_bool. destruct (safe_text_chunks _ _ _) as [spans|] eqn:Ec; cbn [mbind option_bind]; [|by auto].
  unfold TranscriptEncode.
  destruct (TranscriptValidate (base <| mf_complete := true |> <| mf_chunks := List.map fst spans |>)) eqn:Ev; cbn [mbind option_bind]; [|by eauto].
  destruct (safeTextCanStoreComplete _ _ _ _) eqn:Hcan; [|by rewrite El].
  split; [|by split]. unfold safeTextCanStoreComplete, validSafeTextUsage in Hcan. simplify_bool.
  unfold safeTextLimitMarkerReserve, safeTextMaximumSources, safeTextMaximumStorage, safeTextMaximumChunks in *.
  unfold next_usage, usage_ok, validSafeTextUsage. cbn [mf_complete field_upd]. cbn -[Z.leb Z.ltb Z.of_nat byte_length marshal Z.mul].
  rewrite length_map, Hs, Hsize, !andb_true_iff, !Z.leb_le. unfold MaximumTextBytes, safeTextMaximumSources, safeTextMaximumStorage, safeTextMaximumChunks in *.
  match goal with |- context [byte_length (marshal ?v)] => set (n := byte_length (marshal v)) in *; assert (0 <= n) by (unfold n, byte_length; lia) end.
  unfold safeTextLimitMarkerReserve. split_and!; try lia; try done.
Qed.
Lemma safe_text_reserve_suffices_witness :
  let id n := "00000000-0000-4000-8000-00000000000" +:+ n in
  let sha := "0123456789abcdef0123456789abcdef0123456789abcdef0123456789abcdef" in
  let base := mkManifest TranscriptSchemaID (id "1") (id "2") (id "3") 1 (id "4") (mkSource "tool_output" (id "5") 7 "stdout")
                "abc" false "none" false "" 3 sha [] in
  exists r, prepareSafeTextManifest (fun _ => sha) base "abc" no_usage false = Some r /\ usage_ok (next_usage no_usage r.1.1.1 (byte_length r.1.2)).
Proof.
  intros id sha base. pose proof (safe_text_reserve_suffices (fun _ => sha) base "abc" no_usage false) as H.
  destruct (prepareSafeTextManifest (fun _ => sha) base "abc" no_usage false) as [[[[m spans] encoded] complete]|] eqn:E;
    [|vm_compute in E; discriminate].
  eexists. split; [reflexivity|]. apply H; [|reflexivity..]. split; [reflexivity|]. intros _. split; vm_compute; discriminate.
Defined.
