(* ===== verification/Capture.v ===== *)
(** * Capturing safe text: the interface and its publication
    [SafeText] is what the observation handlers need of [runtime/safe_text.go]:
    a replay check that changes nothing, and a capture that writes artifact rows
    and files only.  [with_publication] is the deferred
    [cleanupKnownRollback]: files published by a transaction whose commit was
    never attempted are removed again. *)
From stdpp Require Import base tactics list strings gmap pretty.
From Stdlib Require Import ZArith Lia Ascii String.
From S2P Require Import Prelude Json Wire Store Tx Adapter Events TranscriptView Frames Files.
Open Scope string_scope.
Open Scope list_scope.
Open Scope Z_scope.
Open Scope harness_scope.

Definition with_capture (arts : list artifact_row) (fs : list (string * string)) (made : list string) (c : Core) : Core :=
  c <| tx ::= fun db => db <| artifacts := arts |> |> <| files := fs |> <| created := made |>.

Class SafeText := {
  validateExistingSafeTextReplay : AttemptRef -> Source -> SafeContent -> option string -> bool -> M unit;
  captureSafeText : AttemptRef -> Source -> SafeContent -> option string -> bool -> M unit;
  safe_text_replay : forall env reference source content full incomplete (Q : unit -> Core -> Prop) E c,
    Q tt c -> (forall e, is_return e = false -> E e c) ->
    wp env (validateExistingSafeTextReplay reference source content full incomplete) Q E c;
  safe_text_capture : forall env reference source content full incomplete (Q : unit -> Core -> Prop) E c,
    (forall arts fs made, Q tt (with_capture arts fs made c)) ->
    (forall e arts fs made, is_return e = false -> E e (with_capture arts fs made c)) ->
    wp env (captureSafeText reference source content full incomplete) Q E c }.

Definition retainForCommit : M unit := modify (fun c => c <| retained := true |>).

Definition with_publication {A} (m : M A) : M A := fun env x c =>
  let '(r, x', c') := m env x (c <| created := [] |> <| retained := false |>) in
  if retained c' || match created c' with [] => true | _ => false end then (r, x', c') else
  let '(cleanup, x'', c'') := removeArtifactFiles (created c') env x' c' in
  (match r, cleanup with
   | inl e, _ => inl e
   | inr a, inl e => inl e
   | inr a, inr _ => inr a
   end, x'', c'').

Lemma wp_with_publication {A} env (m : M A) (Q : A -> Core -> Prop) (E : err -> Core -> Prop) c :
  wp env m (fun a c1 => (forall fs, Q a (c1 <| files := fs |>)) /\
                        (retained c1 = false -> forall e fs, is_return e = false -> E e (c1 <| files := fs |>)))
           (fun e c1 => forall fs, E e (c1 <| files := fs |>)) (c <| created := [] |> <| retained := false |>) ->
  wp env (with_publication m) Q E c.
Proof.
  intros H x. specialize (H x). unfold with_publication.
  destruct (m env x _) as [[r x'] c'].
  assert (c' <| files := files c' |> = c') as Hc by (by destruct c').
  assert (match r with inr a => Q a c' | inl e => E e c' end) as Hsame
    by (destruct r; [specialize (H (files c'))|destruct H as [H _]; specialize (H (files c'))]; by rewrite Hc in H).
  destruct (retained c') eqn:Hret; [by destruct r|]. destruct (match created c' with [] => true | _ => false end); [by destruct r|].
  cbn [orb]. destruct r as [e|a].
  - pose proof (wp_removeArtifactFiles env (created c') (fun _ => E e) (fun _ => E e) c' H (fun _ fs _ => H fs) x') as Hw.
    by destruct (removeArtifactFiles _ _ _ _) as [[[] ?] ?].
  - destruct H as [HQ HE]. specialize (HE eq_refl).
    pose proof (wp_removeArtifactFiles env (created c') (fun _ => Q a) E c' HQ HE x') as Hw.
    by destruct (removeArtifactFiles _ _ _ _) as [[[] ?] ?].
Qed.

(** The events that carry a text, with the source they name. *)
Definition adapterEventSafeText (e : Event) : option (Source * SafeContent * option string * bool) :=
  match event_kind e with
  | AssistantMessageEvent m content _ full incomplete => Some (mkSource "assistant_message" m 0 "none", content, full, incomplete)
  | ToolStartedEvent call _ _ input full incomplete => Some (mkSource "tool_input" call 0 "none", input, full, incomplete)
  | ToolOutputEvent call i stream output full incomplete => Some (mkSource "tool_output" call i stream, output, full, incomplete)
  | ToolCompletedEvent call _ result _ _ full incomplete => Some (mkSource "tool_result" call 0 "none", result, full, incomplete)
  | _ => None
  end.

Section Capture.
Context {T : SafeText}.

Definition captureAdapterEventSafeText (reference : AttemptRef) (e : Event) : M unit :=
  match adapterEventSafeText e with
  | None => mret tt
  | Some (source, content, full, incomplete) => captureSafeText reference source content full incomplete
  end.
Definition validateAdapterEventSafeTextReplay (reference : AttemptRef) (e : Event) : M unit :=
  match adapterEventSafeText e with
  | None => mret tt
  | Some (source, content, full, incomplete) => validateExistingSafeTextReplay reference source content full incomplete
  end.

Lemma wp_capture env reference e (Q : unit -> Core -> Prop) E c :
  (forall arts fs made, Q tt (with_capture arts fs made c)) ->
  (forall err arts fs made, is_return err = false -> E err (with_capture arts fs made c)) ->
  wp env (captureAdapterEventSafeText reference e) Q E c.
Proof.
  intros HQ HE. unfold captureAdapterEventSafeText. destruct (adapterEventSafeText e) as [[[[]]]|].
  - by apply safe_text_capture.
  - apply wp_ret. specialize (HQ (artifacts (tx c)) (files c) (created c)). destruct c as [? []]. exact HQ.
Qed.
Lemma wp_replay_text env reference e (Q : unit -> Core -> Prop) E c :
  Q tt c -> (forall err, is_return err = false -> E err c) ->
  wp env (validateAdapterEventSafeTextReplay reference e) Q E c.
Proof.
  intros HQ HE. unfold validateAdapterEventSafeTextReplay. destruct (adapterEventSafeText e) as [[[[]]]|].
  - by apply safe_text_replay.
  - by apply wp_ret.
Qed.
End Capture.
