(* ===== verification/SafeTextStore.v ===== *)
(** * Safe text: capture and replay, [runtime/safe_text.go]
    The transaction steps that read and write the artifacts of a safe text, on
    the definitions of [SafeText]; they discharge the interface
    [Capture.SafeText]. *)
From stdpp Require Import base tactics list strings gmap pretty.
From Stdlib Require Import ZArith Lia Ascii String.
From S2P Require Import Prelude Json Parse Wire Store Tx Adapter Events TranscriptView Frames Files SafeText Capture.
Open Scope string_scope.
Open Scope list_scope.
Open Scope Z_scope.
Open Scope harness_scope.

Definition artifact_call (row : artifact_row) : string := default "" (art_call row).
Definition select_artifact (id : string) (db : Db) : option artifact_row := select1 (fun a => art_id a =s id) (artifacts db).

Definition readSafeTextArtifact (row : artifact_row) : M string :=
  readArtifactFile (art_path row) (art_id row) (art_size row) (art_sha256 row).

Definition safe_text_manifest_row (hash : string -> string) (row : artifact_row) (raw : string) (m : Manifest) (reference : AttemptRef) : bool :=
  (mf_node m =s ref_node reference) && (mf_dialog m =s ref_dialog reference) && (mf_attempt m =s ref_attempt reference)
  && (mf_generation m =? ref_generation reference) && (mf_text m =s safeTextID hash reference (mf_source m))
  && (art_id row =s safeTextManifestID hash (mf_text m)) && (art_dialog row =s ref_dialog reference)
  && (art_attempt row =s ref_attempt reference) && (artifact_call row =s expectedSafeTextCallID (mf_source m))
  && (art_name row =s safeTextManifestName (mf_text m)) && (art_media row =s safeTextManifestMediaType)
  && (art_size row =? byte_length raw) && (art_sha256 row =s hash raw) && (art_redaction row =s mf_redaction m)
  && negb (art_truncated row) && (art_disposition row =s safeTextDisposition) && (art_path row =s artifact_path (art_id row)).
Definition validateSafeTextManifestRow (row : artifact_row) (raw : string) (m : Manifest) (reference : AttemptRef) : M unit :=
  hash ← ask sha256_hex;
  if safe_text_manifest_row hash row raw m reference then mret tt else fail (Broken "safe text manifest binding mismatch").

Definition safe_text_chunk_row (hash : string -> string) (m : Manifest) (c : Chunk) (row : artifact_row) : bool :=
  (ch_artifact c =s safeTextChunkID hash (mf_text m) (ch_index c)) && (art_id row =s ch_artifact c)
  && (art_dialog row =s mf_dialog m) && (art_attempt row =s mf_attempt m)
  && (artifact_call row =s expectedSafeTextCallID (mf_source m)) && (art_name row =s safeTextChunkName (mf_text m) (ch_index c))
  && (art_media row =s safeTextChunkMediaType) && (art_size row =? ch_size c) && (art_sha256 row =s ch_sha256 c)
  && (art_redaction row =s mf_redaction m) && negb (art_truncated row) && (art_disposition row =s safeTextDisposition)
  && (art_path row =s artifact_path (art_id row)).
Fixpoint validate_chunk_rows (m : Manifest) (chunks : list Chunk) : M unit :=
  match chunks with
  | [] => mret tt
  | c :: rest =>
      row ← query_row (select_artifact (ch_artifact c));
      hash ← ask sha256_hex;
      if safe_text_chunk_row hash m c row then validate_chunk_rows m rest else fail (Broken "safe text chunk binding mismatch")
  end.
Definition validateSafeTextRows (m : Manifest) : M unit := validate_chunk_rows m (mf_chunks m).

Definition readSafeTextManifest (reference : AttemptRef) (source : Source) : M (Manifest * string) :=
  hash ← ask sha256_hex;
  let textID := safeTextID hash reference source in
  row ← query_row (select_artifact (safeTextManifestID hash textID));
  raw ← readSafeTextArtifact row;
  match TranscriptDecode raw with
  | None => fail (Broken "safe text manifest is invalid")
  | Some m =>
      if negb (bool_decide (mf_source m = source)) || negb (mf_text m =s textID) then fail (Broken "safe text manifest is invalid") else
      validateSafeTextManifestRow row raw m reference ;;
      validateSafeTextRows m ;;
      mret (m, raw)
  end.

(** [errors.Is(err, sql.ErrNoRows)] *)
Definition found {A} (m : M A) : M (option A) :=
  catch (a ← m; mret (Some a)) (fun e => match e with NoRows => mret None | _ => fail e end).

Definition safe_value (content : SafeContent) (full : option string) (incomplete : bool) : M (option string) :=
  match safeTextValue content full incomplete with
  | None => fail (Broken "safe text is invalid")
  | Some v => mret v
  end.

(** [validateExistingSafeTextReplay] *)
Definition replay_safe_text (reference : AttemptRef) (source : Source) (content : SafeContent) (full : option string)
    (incomplete : bool) : M unit :=
  available ← safe_value content full incomplete;
  match available with
  | None => mret tt
  | Some value =>
      if negb (ValidateSource source) then fail (Broken "transcript source is invalid") else
      existing ← found (readSafeTextManifest reference source);
      match existing with
      | None => mret tt
      | Some (m, _) =>
          sum ← digestBytes value;
          if safeTextManifestMatches m reference source (safeTextPreview value) (sc_redaction content) (byte_length value) sum incomplete
          then mret tt else fail (Broken "conflicting safe text source")
      end
  end.

(** ** Capture *)
Definition insertSafeTextArtifact (reference : AttemptRef) (callID id name media : string) (size : Z) (sha256 relative redaction : string)
    : M unit :=
  exec (insert_artifact (mkArtifact id (ref_dialog reference) (ref_attempt reference) (nullText callID) name media size sha256
                           redaction false safeTextDisposition relative)).

Definition loadSafeTextUsage (reference : AttemptRef) : M safeTextUsage :=
  hash ← ask sha256_hex;
  let artifactID := safeTextUsageID hash (ref_attempt reference) in
  existing ← found (query_row (select_artifact artifactID));
  match existing with
  | None =>
      relative ← publish artifactID "";
      exec (insert_artifact (mkArtifact artifactID (ref_dialog reference) (ref_attempt reference) (Some (encodeSafeTextUsage no_usage))
                               (safeTextUsageName (ref_attempt reference)) safeTextUsageMediaType 0 safeTextEmptySHA256 "none" false
                               safeTextDisposition relative)) ;;
      mret no_usage
  | Some row =>
      if negb ((art_id row =s artifactID) && (art_dialog row =s ref_dialog reference) && (art_attempt row =s ref_attempt reference)
               && (art_name row =s safeTextUsageName (ref_attempt reference)) && (art_media row =s safeTextUsageMediaType)
               && (art_size row =? 0) && (art_sha256 row =s safeTextEmptySHA256) && (art_redaction row =s "none")
               && (art_disposition row =s safeTextDisposition) && (art_path row =s artifact_path artifactID))
      then fail (Broken "safe text usage binding mismatch") else
      body ← catch (readSafeTextArtifact row) (fun _ => fail (Broken "safe text usage artifact mismatch"));
      if negb (body =s "") then fail (Broken "safe text usage artifact mismatch") else
      match decodeSafeTextUsage (artifact_call row) (art_truncated row) with
      | None => fail (Broken "safe text usage is invalid")
      | Some u => mret u
      end
  end.

Definition updateSafeTextUsage (attemptID : string) (prior : safeTextUsage) (m : Manifest) (manifestBytes : Z) : M unit :=
  let next := next_usage prior m manifestBytes in
  if negb (validSafeTextUsage next) then fail (Broken "safe text usage update exceeds bound") else
  hash ← ask sha256_hex;
  changed ← exec_changed (update_artifacts
    (fun a => (art_id a =s safeTextUsageID hash attemptID) && is_text (art_call a) (encodeSafeTextUsage prior)
              && Bool.eqb (art_truncated a) (sealed prior) && (art_media a =s safeTextUsageMediaType)
              && (art_disposition a =s safeTextDisposition))
    (fun a => a <| art_call := Some (encodeSafeTextUsage next) |> <| art_truncated := sealed next |>));
  if negb (changed =? 1) then fail (Broken "safe text usage fence changed") else mret tt.

(** The chunk files, then the chunk rows. *)
Fixpoint publish_chunks (spans : list (Chunk * string)) : M (list (Chunk * string)) :=
  match spans with
  | [] => mret []
  | (c, bytes) :: rest =>
      relative ← publish (ch_artifact c) bytes;
      published ← publish_chunks rest;
      mret ((c, relative) :: published)
  end.
Fixpoint insert_chunks (reference : AttemptRef) (callID textID redaction : string) (published : list (Chunk * string)) : M unit :=
  match published with
  | [] => mret tt
  | (c, relative) :: rest =>
      insertSafeTextArtifact reference callID (ch_artifact c) (safeTextChunkName textID (ch_index c)) safeTextChunkMediaType
        (ch_size c) (ch_sha256 c) relative redaction ;;
      insert_chunks reference callID textID redaction rest
  end.

(** The manifest of a text before its chunks are cut. *)
Definition manifest_base (reference : AttemptRef) (source : Source) (textID value redaction sha256 : string) (incomplete : bool) : Manifest :=
  let preview := safeTextPreview value in
  mkManifest TranscriptSchemaID (ref_node reference) (ref_dialog reference) (ref_attempt reference) (ref_generation reference) textID
    source preview (incomplete || negb (byte_length preview =? byte_length value)) redaction false "" (byte_length value) sha256 [].

Definition store_safe_text (reference : AttemptRef) (source : Source) (value redaction : string) (incomplete : bool) (u : safeTextUsage) : M unit :=
  hash ← ask sha256_hex;
  let textID := safeTextID hash reference source in
  match prepareSafeTextManifest hash (manifest_base reference source textID value redaction (hash value) incomplete) value u incomplete with
  | None => fail (Broken "safe text usage reserve is invalid")
  | Some (m, spans, manifestJSON, complete) =>
      published ← publish_chunks (if (complete : bool) then spans else []);
      let manifestID := safeTextManifestID hash textID in
      relative ← publish manifestID manifestJSON;
      let callID := expectedSafeTextCallID source in
      insert_chunks reference callID textID redaction published ;;
      insertSafeTextArtifact reference callID manifestID (safeTextManifestName textID) safeTextManifestMediaType
        (byte_length manifestJSON) (hash manifestJSON) relative redaction ;;
      updateSafeTextUsage (ref_attempt reference) u m (byte_length manifestJSON)
  end.

(** [captureSafeText] *)
Definition capture_safe_text (reference : AttemptRef) (source : Source) (content : SafeContent) (full : option string)
    (incomplete : bool) : M unit :=
  available ← safe_value content full incomplete;
  match available with
  | None => mret tt
  | Some value =>
      if negb (ValidateSource source) then fail (Broken "transcript source is invalid") else
      u ← loadSafeTextUsage reference;
      existing ← found (readSafeTextManifest reference source);
      match existing with
      | Some (m, _) =>
          sum ← digestBytes value;
          if safeTextManifestMatches m reference source (safeTextPreview value) (sc_redaction content) (byte_length value) sum incomplete
          then mret tt else fail (Broken "conflicting safe text source")
      | None => if sealed u then mret tt else store_safe_text reference source value (sc_redaction content) incomplete u
      end
  end.

(** ** What the operations change
    Reads change nothing; a capture writes artifact rows, artifact files and the
    open publication. *)
Definition captured (c c' : Core) : Prop := exists arts fs made, c' = with_capture arts fs made c.
#[export] Instance captured_preorder : PreOrder captured.
Proof.
  split; [intros c; exists (artifacts (tx c)), (files c), (created c); by destruct c as [? []]|].
  intros c1 c2 c3 (a & fs & made & ->) (a' & fs' & made' & ->). exists a', fs', made'. by destruct c1 as [? []].
Qed.
Lemma filed_captured {A} (m : M A) : confined filed m -> confined captured m.
Proof. apply confined_sub. intros c c' (fs & made & ->). exists (artifacts (tx c)), fs, made. by destruct c as [? []]. Qed.
Lemma captured_exec_changed {A} (f : Db -> option (A * Db)) :
  (forall db a db', f db = Some (a, db') -> exists arts, db' = db <| artifacts := arts |>) -> confined captured (exec_changed f).
Proof.
  intros Hf env c. apply wp_exec_changed; [|by split|by split].
  intros a db' (arts & ->)%Hf. exists arts, (files c), (created c). by destruct c as [? []].
Qed.
Lemma insert_artifact_rows row db db' : insert_artifact row db = Some db' -> exists arts, db' = db <| artifacts := arts |>.
Proof. intros [_ ->]%guard_Some. eexists. reflexivity. Qed.
Lemma captured_insert row : confined captured (exec (insert_artifact row)).
Proof. apply captured_exec_changed. intros db [] db' H. apply bind_Some in H as (d & H & [= <-]). by eapply insert_artifact_rows. Qed.
Lemma captured_update p f : confined captured (exec_changed (update_artifacts p f)).
Proof. apply captured_exec_changed. intros db a db' [= <- <-]. eexists. reflexivity. Qed.
Lemma captured_publish id content : confined captured (publish id content).
Proof. apply filed_captured, filed_publish. Qed.
#[export] Hint Resolve captured_insert captured_update captured_publish : confined.

Section Reads.
Context (R : Core -> Core -> Prop) `{!PreOrder R}.
Lemma confined_found {A} (m : M A) : confined R m -> confined R (found m).
Proof using Type*. intros Hm. unfold found. confined_tac; auto. Qed.
Lemma confined_safe_value content full incomplete : confined R (safe_value content full incomplete).
Proof using Type*. unfold safe_value. confined_tac. Qed.
Lemma confined_chunk_rows m chunks : confined R (validate_chunk_rows m chunks).
Proof using Type*. induction chunks; cbn [validate_chunk_rows]; confined_tac. Qed.
Lemma confined_readSafeTextManifest reference source : confined R (readSafeTextManifest reference source).
Proof using Type*.
  unfold readSafeTextManifest, readSafeTextArtifact, validateSafeTextManifestRow, validateSafeTextRows.
  pose proof confined_chunk_rows. confined_tac.
Qed.
End Reads.
#[export] Hint Resolve confined_found confined_safe_value confined_chunk_rows confined_readSafeTextManifest : confined.

Lemma replay_reads reference source content full incomplete : confined eq (replay_safe_text reference source content full incomplete).
Proof. unfold replay_safe_text. confined_tac. Qed.

Lemma captured_load reference : confined captured (loadSafeTextUsage reference).
Proof. unfold loadSafeTextUsage, readSafeTextArtifact. confined_tac. apply confined_found; [exact _|confined_tac]. Qed.
Lemma captured_update_usage attempt u m bytes : confined captured (updateSafeTextUsage attempt u m bytes).
Proof. unfold updateSafeTextUsage. confined_tac. Qed.
Lemma captured_publish_chunks spans : confined captured (publish_chunks spans).
Proof. induction spans; cbn [publish_chunks]; confined_tac. Qed.
Lemma captured_insert_chunks reference call text redaction l : confined captured (insert_chunks reference call text redaction l).
Proof. induction l as [|[] ?]; cbn [insert_chunks]; unfold insertSafeTextArtifact; confined_tac. Qed.
#[export] Hint Resolve captured_load captured_update_usage captured_publish_chunks captured_insert_chunks : confined.
Lemma captured_store reference source value redaction incomplete u : confined captured (store_safe_text reference source value redaction incomplete u).
Proof. unfold store_safe_text, insertSafeTextArtifact. confined_tac. Qed.
#[export] Hint Resolve captured_store : confined.
Lemma captured_capture reference source content full incomplete : confined captured (capture_safe_text reference source content full incomplete).
Proof. unfold capture_safe_text. confined_tac. Qed.

#[export] Instance safe_text : SafeText.
Proof.
  refine {| validateExistingSafeTextReplay := replay_safe_text; captureSafeText := capture_safe_text |}.
  - intros env reference source content full incomplete Q E c HQ HE. apply (confined_wp eq); [apply replay_reads|..].
    + by intros [] c' <-.
    + intros e c' He <-. by apply HE.
  - intros env reference source content full incomplete Q E c HQ HE. apply (confined_wp captured); [apply captured_capture|..].
    + intros [] c' (arts & fs & made & ->). apply HQ.
    + intros e c' He (arts & fs & made & ->). by apply HE.
Defined.
