(* ===== verification/DialogView.v ===== *)
(** * Dialog views, [runtime/dialog_view.go] and [contracts/dialogview]
    The dialogs by their last activity, with what each of them does: a listing
    whose cursor names the last dialog shown, and the view of one dialog. *)
From stdpp Require Import base tactics list strings gmap pretty.
From Stdlib Require Import ZArith Lia Ascii String.
From S2P Require Import Prelude Json Parse Wire Store Tx TranscriptView Adapter Events Commands Barrier Hold Submit Read Replay Paging Pages SafeTextStore.
Open Scope string_scope.
Open Scope list_scope.
Open Scope Z_scope.
Open Scope harness_scope.

Definition DialogViewSchemaID := "dialog-view-v1".

(** ** The contract *)
Record DialogItem := mkDialogItem {
  dv_id : string; dv_version : Z; dv_title : string; dv_created : string; dv_activity : string; dv_state : string;
  dv_request : string; dv_attempt : string }.
#[export] Instance dialogItem_eta : Eta DialogItem := fun r =>
  mkDialogItem (dv_id r) (dv_version r) (dv_title r) (dv_created r) (dv_activity r) (dv_state r) (dv_request r) (dv_attempt r).
Definition DialogItem_json (d : DialogItem) : json :=
  JObj ([("dialogId", JStr (dv_id d)); ("version", JInt (dv_version d))] ++ optional_member "title" (dv_title d)
        ++ [("createdAt", JStr (dv_created d)); ("lastActivityAt", JStr (dv_activity d)); ("state", JStr (dv_state d))]
        ++ optional_member "activeRequestId" (dv_request d) ++ optional_member "activeAttemptId" (dv_attempt d)).
Definition DialogPage_json (s : durableState) (items : list DialogItem) (next : option string) : json :=
  JObj [("protocolVersion", JInt 1); ("schemaId", JStr DialogViewSchemaID); ("nodeId", JStr (NodeID s)); ("epoch", JInt (Epoch s));
        ("snapshotStateVersion", JInt (StateVersion s)); ("lastEventSeq", JInt (LastEventSeq s));
        ("items", JArr (List.map DialogItem_json items)); ("nextCursor", json_text_or_null next); ("pageType", JStr "dialogs")].
Definition DialogRead_json (s : durableState) (item : DialogItem) : json :=
  JObj [("protocolVersion", JInt 1); ("schemaId", JStr DialogViewSchemaID); ("nodeId", JStr (NodeID s)); ("epoch", JInt (Epoch s));
        ("stateVersion", JInt (StateVersion s)); ("lastEventSeq", JInt (LastEventSeq s)); ("dialog", DialogItem_json item)].

(** ** The cursor *)
Record dialogActivityCursor := mkActivityCursor { ac_epoch : Z; ac_state : Z; ac_activity : string; ac_dialog : string }.
#[export] Instance dialogActivityCursor_eta : Eta dialogActivityCursor := fun r =>
  mkActivityCursor (ac_epoch r) (ac_state r) (ac_activity r) (ac_dialog r).
Definition activityCursor_json (c : dialogActivityCursor) : json :=
  JObj [("e", JInt (ac_epoch c)); ("s", JInt (ac_state c)); ("a", JStr (ac_activity c)); ("d", JStr (ac_dialog c))].
Definition set_activity_cursor (name : string) (v : json) (c : dialogActivityCursor) : option dialogActivityCursor :=
  if name =s "E" then x ← into_int v (ac_epoch c); Some (c <| ac_epoch := x |>)
  else if name =s "S" then x ← into_int v (ac_state c); Some (c <| ac_state := x |>)
  else if name =s "A" then x ← into_string v (ac_activity c); Some (c <| ac_activity := x |>)
  else if name =s "D" then x ← into_string v (ac_dialog c); Some (c <| ac_dialog := x |>)
  else Some c.
Definition no_activity : dialogActivityCursor := mkActivityCursor 0 0 "" "".
Definition activityCursor_of (decoded : string) : option dialogActivityCursor :=
  v ← parse_json decoded; into_struct set_activity_cursor v no_activity.
Definition encodeDialogActivityCursor (c : dialogActivityCursor) : string := EncodeToString (marshal (activityCursor_json c)).
(** The shape of a timestamp; the calendar is not looked at. *)
Definition dialogActivityTimestampPattern (s : string) : bool :=
  match match_classes date_time s with
  | Some rest => match fraction rest with Some (_, z) => zone 23 z | None => false end
  | None => false
  end.
Definition decodeDialogActivityCursor (raw : string) (s : durableState) : commandFailure + dialogActivityCursor :=
  if raw =s "" then inr no_activity else
  match cursor_bytes raw with
  | None => inl (invalid_cursor "dialog cursor is invalid")
  | Some decoded =>
      match activityCursor_of decoded with
      | None => inl (stale_cursor "dialog cursor is invalid or stale")
      | Some c =>
          if negb (ac_epoch c =? Epoch s) || negb (ac_state c =? StateVersion s) || negb (dialogActivityTimestampPattern (ac_activity c))
             || negb (uuidPattern (ac_dialog c))
          then inl (stale_cursor "dialog cursor is invalid or stale") else inr c
      end
  end.

(** ** One dialog *)
(** The greatest of a list of texts, by bytes. *)
Definition text_max (a b : string) : string := if String.leb a b then b else a.
Definition latest_text (l : list string) : option string :=
  match l with [] => None | a :: l' => Some (fold_left text_max l' a) end.
Definition happenings (dialog : string) (db : Db) : list string :=
  List.map msg_created (List.filter (fun m => msg_dialog m =s dialog) (messages db))
  ++ List.map req_updated (List.filter (fun r => req_dialog r =s dialog) (requests db))
  ++ List.map evt_created (List.filter (fun e => is_text (evt_dialog e) dialog) (events db)).
(** [ORDER BY generation DESC]; no two attempts of a node are active at once. *)
Definition active_attempt_of (dialog : string) (db : Db) : option attempt_row :=
  head (order_by (fun a b => att_generation b <=? att_generation a)
          (List.filter (fun a => (att_dialog a =s dialog) && active_attempt a) (attempts db))).
(** Queued requests first, and of them the one queued last. *)
Definition shown_before (a b : request_row) : bool :=
  let rank r := if req_status r =s "queued" then 0 else 1 in
  if rank a =? rank b then req_sequence b <=? req_sequence a else rank a <? rank b.
Definition shown_request (dialog : string) (db : Db) : option request_row :=
  head (order_by shown_before (List.filter (fun r => req_dialog r =s dialog) (requests db))).
Definition request_view_states : list string :=
  ["queued"; "cancelled"; "dispatching"; "active"; "completed"; "failed"; "interrupted"; "unknown"].
Definition attempt_view_state (state : string) : option string :=
  if state =s "dispatching" then Some "dispatching"
  else if state =s "unknown" then Some "unknown"
  else if in_set state ["running"; "waiting_input"; "stopping"] then Some "active" else None.

Definition loadDialogView (dialogID : string) : M DialogItem :=
  d ← query_row (fun db => select1 (fun d => dlg_id d =s dialogID) (dialogs db));
  activity ← found (query_row (fun db => latest_text (happenings dialogID db)));
  active ← found (query_row (active_attempt_of dialogID));
  let item := mkDialogItem (dlg_id d) (dlg_version d) (default "" (dlg_title d)) (dlg_created d) (default (dlg_created d) activity) "idle" "" "" in
  item ← match active with
         | None => mret item
         | Some a =>
             match attempt_view_state (att_state a) with
             | Some state => mret (item <| dv_request := att_request a |> <| dv_attempt := att_id a |> <| dv_state := state |>)
             | None => fail (Broken "dialog attempt state is invalid")
             end
         end;
  if negb (dv_attempt item =s "") then mret item else
  request ← found (query_row (shown_request dialogID));
  match request with
  | None => mret item
  | Some r =>
      if negb (in_set (req_status r) request_view_states) then fail (Broken "dialog request state is invalid") else
      mret (if in_set (req_status r) ["queued"; "dispatching"; "active"; "unknown"]
            then item <| dv_state := req_status r |> <| dv_request := req_id r |>
            else item <| dv_state := req_status r |>)
  end.

(** ** The handlers *)
(** The struct is marshalled without a schema, and only its size is checked. *)
Definition dialogViewResult (value : json) : M Result :=
  if MaximumWireBytes <? byte_length (marshal value) then errorResult 503 "not_durable" "dialog view response is invalid" "" None ""
  else mret (mkResult 200 value false).

(** The last activity of a dialog is never before its creation here. *)
Definition last_activity (db : Db) (d : dialog_row) : string := fold_left text_max (happenings (dlg_id d) db) (dlg_created d).
Definition activity_keys (s : durableState) (db : Db) : list (string * string) :=
  List.map (fun d => (dlg_id d, last_activity db d))
    (List.filter (fun d => (dlg_node d =s NodeID s) && (dlg_owner d =s OwnerID s) && negb (dialog_deleted db (dlg_id d))) (dialogs db)).
(** [ORDER BY last_activity_at DESC,dialog_id] *)
Definition key_before (a b : string * string) : bool :=
  if a.2 =s b.2 then String.leb a.1 b.1 else String.leb b.2 a.2.
(** [?='' OR last_activity_at<? OR (last_activity_at=? AND dialog_id>?)] *)
Definition text_ltb (a b : string) : bool := negb (String.leb b a).
Definition past_cursor (c : dialogActivityCursor) (k : string * string) : bool :=
  (ac_activity c =s "") || text_ltb k.2 (ac_activity c) || ((k.2 =s ac_activity c) && text_ltb (ac_dialog c) k.1).
Definition listed_keys (s : durableState) (c : dialogActivityCursor) (db : Db) : list (string * string) :=
  order_by key_before (List.filter (past_cursor c) (activity_keys s db)).
Definition next_keys (s : durableState) (keys : list (string * string)) (more : bool) : option string :=
  if (more : bool) then
    match last keys with
    | Some k => Some (encodeDialogActivityCursor (mkActivityCursor (Epoch s) (StateVersion s) k.2 k.1))
    | None => None
    end
  else None.
Fixpoint dialog_items (keys : list (string * string)) : M (list DialogItem) :=
  match keys with
  | [] => mret []
  | k :: keys' =>
      item ← or_not_durable (loadDialogView k.1) "dialog view is invalid" k.1;
      items ← dialog_items keys'; mret (item :: items)
  end.

Definition DialogViews (trust : TrustContext) (cursor : string) (limit : Z) : M Result :=
  authorizeRead trust ;;
  limit ← or_limit limit "limit is invalid";
  s ← open_read "dialog views are unavailable" "";
  before ← match decodeDialogActivityCursor cursor s with inl f => commandError (Failure f) "" | inr c => mret c end;
  page ← or_not_durable (query (fun db => page_rows limit 0 (listed_keys s before db))) "dialog views are unavailable" "";
  items ← dialog_items page.1;
  dialogViewResult (DialogPage_json s items (next_keys s page.1 page.2)).

Definition DialogView (trust : TrustContext) (dialogID : string) : M Result :=
  authorizeRead trust ;;
  if negb (uuidPattern dialogID) then Invalid "dialog id is invalid" else
  s ← open_read "dialog view is unavailable" dialogID;
  in_read_scope (dialog_scope s dialogID) "dialog was not found" "dialog view is unavailable" dialogID ;;
  item ← or_not_durable (loadDialogView dialogID) "dialog view is invalid" dialogID;
  dialogViewResult (DialogRead_json s item).
