(* ===== verification/ToolTimeline.v ===== *)
(** * The tool timeline, [runtime/tool_timeline.go] and [contracts/tooltimeline]
    The tool calls of an attempt in the order they started, and one call with
    its input, its outputs and its result, read from the event log. *)
From stdpp Require Import base tactics list strings gmap pretty.
From Stdlib Require Import ZArith Lia Ascii String.
From S2P Require Import Prelude Json Parse Wire Store Tx TranscriptView Adapter Events Commands Barrier Hold Submit Read Replay Paging Pages SafeTextStore DialogView.
Open Scope string_scope.
Open Scope list_scope.
Open Scope Z_scope.
Open Scope harness_scope.

Definition ToolTimelineSchemaID := "tool-timeline-v1".

(** ** The contract *)
Record Summary := mkSummary { su_call : string; su_name : string; su_state : string; su_started : string; su_finished : string; su_version : Z }.
#[export] Instance summary_eta : Eta Summary := fun r =>
  mkSummary (su_call r) (su_name r) (su_state r) (su_started r) (su_finished r) (su_version r).
Record Output := mkOutput { ou_index : Z; ou_stream : string; ou_content : SafeContent; ou_observed : string }.
Record Detail := mkDetail { de_summary : Summary; de_input : SafeContent; de_result : option SafeContent; de_outputs : list Output; de_next : option string }.
Definition Summary_members (i : Summary) : list (string * json) :=
  [("toolCallId", JStr (su_call i)); ("toolName", JStr (su_name i)); ("state", JStr (su_state i)); ("startedAt", JStr (su_started i))]
  ++ optional_member "finishedAt" (su_finished i) ++ [("detailVersion", JInt (su_version i))].
Definition Output_json (o : Output) : json :=
  JObj [("index", JInt (ou_index o)); ("stream", JStr (ou_stream o)); ("content", SafeContent_json (ou_content o)); ("observedAt", JStr (ou_observed o))].
Definition Detail_json (d : Detail) : json :=
  JObj (Summary_members (de_summary d) ++ [("input", SafeContent_json (de_input d))]
        ++ match de_result d with Some r => [("result", SafeContent_json r)] | None => [] end
        ++ [("outputs", JArr (List.map Output_json (de_outputs d))); ("nextOutputCursor", json_text_or_null (de_next d))]).
Definition ToolPage_json (s : durableState) (dialog request attempt : string) (items : list Summary) (next : option string) : json :=
  JObj [("protocolVersion", JInt 1); ("schemaId", JStr ToolTimelineSchemaID); ("nodeId", JStr (NodeID s)); ("epoch", JInt (Epoch s));
        ("snapshotStateVersion", JInt (StateVersion s)); ("lastEventSeq", JInt (LastEventSeq s)); ("dialogId", JStr dialog);
        ("requestId", JStr request); ("attemptId", JStr attempt); ("items", JArr (List.map (fun i => JObj (Summary_members i)) items));
        ("nextCursor", json_text_or_null next); ("pageType", JStr "tool_calls")].
Definition DetailRead_json (s : durableState) (dialog request attempt : string) (d : Detail) : json :=
  JObj [("protocolVersion", JInt 1); ("schemaId", JStr ToolTimelineSchemaID); ("nodeId", JStr (NodeID s)); ("epoch", JInt (Epoch s));
        ("stateVersion", JInt (StateVersion s)); ("lastEventSeq", JInt (LastEventSeq s)); ("dialogId", JStr dialog);
        ("requestId", JStr request); ("attemptId", JStr attempt); ("toolCall", Detail_json d)].

(** ** The cursor *)
Record toolCursor := mkToolCursor { tc_epoch : Z; tc_after : Z; tc_scope : string }.
#[export] Instance toolCursor_eta : Eta toolCursor := fun r => mkToolCursor (tc_epoch r) (tc_after r) (tc_scope r).
Definition toolCursor_json (c : toolCursor) : json :=
  JObj [("e", JInt (tc_epoch c)); ("a", JInt (tc_after c)); ("s", JStr (tc_scope c))].
Definition set_tool_cursor (name : string) (v : json) (c : toolCursor) : option toolCursor :=
  if name =s "E" then x ← into_int v (tc_epoch c); Some (c <| tc_epoch := x |>)
  else if name =s "A" then x ← into_int v (tc_after c); Some (c <| tc_after := x |>)
  else if name =s "S" then x ← into_string v (tc_scope c); Some (c <| tc_scope := x |>)
  else Some c.
Definition toolCursor_of (decoded : string) : option toolCursor :=
  v ← parse_json decoded; into_struct set_tool_cursor v (mkToolCursor 0 0 "").
Definition encodeToolCursor (c : toolCursor) : string := EncodeToString (marshal (toolCursor_json c)).
Definition decodeToolCursor (raw scope : string) (epoch : Z) : commandFailure + Z :=
  if raw =s "" then inr 0 else
  match cursor_bytes raw with
  | None => inl (invalid_cursor "tool cursor is invalid")
  | Some decoded =>
      match toolCursor_of decoded with
      | None => inl (stale_cursor "tool cursor is invalid or stale")
      | Some c =>
          if negb (tc_epoch c =? epoch) || negb (tc_scope c =s scope) || (tc_after c <? 0) || (MaximumSafeInteger <? tc_after c)
          then inl (stale_cursor "tool cursor is invalid or stale") else inr (tc_after c)
      end
  end.

(** ** Events of tools *)
Record ToolEvent := mkToolEvent { te_entity : string; te_observed : string; te_payload : json }.
Definition validatedToolEvent (raw : json) (attemptID dialogID eventType callID : string) : option ToolEvent :=
  if negb (Validate "event" (document_of raw)) then None else
  m ← decodeStruct eventEnvelope_fields raw;
  if negb (read_string m "type" =s eventType) || negb (read_string m "attemptId" =s attemptID) || negb (read_string m "dialogId" =s dialogID)
     || (negb (callID =s "") && negb (read_string m "entityId" =s callID)) then None
  else Some (mkToolEvent (read_string m "entityId") (read_string m "observedAt") (read_raw m "payload")).

Definition startedPayload_fields : list (string * field_type) := [("callId", FieldString); ("toolName", FieldString); ("actionHash", FieldString)].
Definition outputPayload_fields : list (string * field_type) := [("callId", FieldString); ("chunkIndex", FieldInt); ("stream", FieldString)].
Definition completedPayload_fields : list (string * field_type) :=
  [("callId", FieldString); ("status", FieldString); ("effectStatus", FieldString); ("effectRef", FieldString)].
(** The payloads, each with the member that is a content. *)
Definition payload_of (fields : list (string * field_type)) (member : string) (v : json) : option (list (string * json) * SafeContent) :=
  m ← decodeStruct fields v; content ← SafeContent_of_json (read_raw m member); Some (m, content).
Definition startedPayload (e : ToolEvent) := payload_of startedPayload_fields "input" (te_payload e).
Definition outputPayload (e : ToolEvent) := payload_of outputPayload_fields "output" (te_payload e).
Definition completedPayload (e : ToolEvent) := payload_of completedPayload_fields "result" (te_payload e).

(** The log of an attempt under a projection key, or the key it was archived
    under. *)
Definition keyed (key : string) (e : event_row) : bool := is_text (evt_key e) key || is_text (evt_key e) ("archive:" +:+ key).
Definition keyed_events (attempt key : string) (db : Db) : list event_row :=
  sort_by evt_seq (List.filter (fun e => is_text (evt_attempt e) attempt && keyed key e) (events db)).
(** [projection_key LIKE '<prefix>%']: ASCII letters are compared without case. *)
Definition ascii_lower (c : ascii) : ascii := if char_between "A" "Z" c then ascii_of_N (N_of_ascii c + 32) else c.
Fixpoint lower (s : string) : string := match s with EmptyString => "" | String c s' => String (ascii_lower c) (lower s') end.
Definition like_prefix (prefix : string) (key : option string) : bool :=
  match key with Some k => String.prefix (lower prefix) (lower k) | None => false end.
Definition started_events (node attempt : string) (after limit : Z) (db : Db) : list event_row :=
  take (Z.to_nat limit)
    (sort_by evt_seq (List.filter (fun e => (evt_node e =s node) && is_text (evt_attempt e) attempt && (after <? evt_seq e)
                                            && like_prefix "tool.started:" (evt_key e)) (events db))).
Definition output_events (node attempt call : string) (after limit : Z) (db : Db) : list event_row :=
  take (Z.to_nat limit)
    (sort_by evt_seq (List.filter (fun e => (evt_node e =s node) && is_text (evt_attempt e) attempt && (after <? evt_seq e)
                                            && (like_prefix ("tool.output:" +:+ call +:+ ":") (evt_key e)
                                                || like_prefix ("archive:tool.output:" +:+ call +:+ ":") (evt_key e))) (events db))).

(** [SELECT a.dialog_id,a.request_id ..] with the scope of the dialog *)
Definition toolAttemptScope (s : durableState) (attemptID : string) (db : Db) : option (string * string) :=
  a ← visible_attempt s attemptID db; Some (att_dialog a, att_request a).
Definition tool_status_known (state : string) : bool := in_set state ["running"; "succeeded"; "failed"; "unknown"].

Definition loadToolSummary (attemptID dialogID : string) (started : ToolEvent) : M Summary :=
  match startedPayload started with
  | None => fail (Broken "tool start is invalid")
  | Some (m, _) =>
      let call := read_string m "callId" in
      if negb (call =s te_entity started) then fail (Broken "tool start is invalid") else
      t ← query_row (fun db => select1 (fun t => (tool_id t =s call) && (tool_attempt t =s attemptID)) (tool_calls db));
      if negb (tool_status_known (tool_status t)) then fail (Broken "tool state is invalid") else
      let item := mkSummary call (read_string m "toolName") (tool_status t) (te_observed started) "" (tool_version t) in
      completed ← found (query_row (fun db => last (keyed_events attemptID ("tool.completed:" +:+ call) db)));
      match completed with
      | Some row =>
          match validatedToolEvent (evt_json row) attemptID dialogID "tool.completed" call with
          | Some e => mret (item <| su_finished := te_observed e |>)
          | None => fail (Broken "tool event scope is invalid")
          end
      | None => if negb (tool_status t =s "running") then fail (Broken "terminal tool is missing completion event") else mret item
      end
  end.

(** ** The handlers *)
Definition toolTimelineResult (value : json) : M Result :=
  if MaximumWireBytes <? byte_length (marshal value) then errorResult 503 "not_durable" "tool timeline response is invalid" "" None ""
  else mret (mkResult 200 value false).

(** The rows of a page; the sequence of each item is kept with it, and [true]
    says that a row was left. *)
Fixpoint tool_items (attemptID dialogID : string) (limit : Z) (count : Z) (rows : list event_row) : M (list (Z * Summary) * bool) :=
  match rows with
  | [] => mret ([], false)
  | row :: rows' =>
      if count =? limit then mret ([], true) else
      match validatedToolEvent (evt_json row) attemptID dialogID "tool.started" "" with
      | None => answer 503 "not_durable" "tool timeline is invalid" attemptID None ""
      | Some started =>
          item ← or_not_durable (loadToolSummary attemptID dialogID started) "tool timeline is invalid" attemptID;
          '(items, more) ← tool_items attemptID dialogID limit (count + 1) rows';
          mret ((evt_seq row, item) :: items, more)
      end
  end.
Definition tool_scope (attemptID : string) : string := "tool_calls:" +:+ attemptID.
Definition next_tools (s : durableState) (scope : string) (items : list (Z * Summary)) (more : bool) : option string :=
  if (more : bool) then
    match last items with Some (seq, _) => Some (encodeToolCursor (mkToolCursor (Epoch s) seq scope)) | None => None end
  else None.

Definition ToolCalls (trust : TrustContext) (attemptID cursor : string) (limit : Z) : M Result :=
  authorizeRead trust ;;
  match normalizedLimit limit with
  | None => Invalid "tool timeline query is invalid"
  | Some limit =>
      if negb (uuidPattern attemptID) then Invalid "tool timeline query is invalid" else
      s ← open_read "tool timeline is unavailable" attemptID;
      '(dialogID, requestID) ← in_read_scope (toolAttemptScope s attemptID) "attempt was not found" "tool timeline is unavailable" attemptID;
      after ← or_cursor (decodeToolCursor cursor (tool_scope attemptID) (Epoch s)) attemptID;
      rows ← or_not_durable (query (started_events (NodeID s) attemptID after (limit + 1))) "tool timeline is unavailable" attemptID;
      '(items, more) ← tool_items attemptID dialogID limit 0 rows;
      toolTimelineResult (ToolPage_json s dialogID requestID attemptID (List.map snd items) (next_tools s (tool_scope attemptID) items more))
  end.

(** The outputs of a call, up to a count and a size; [None] is a row that does
    not fit the call. *)
Definition output_bytes : Z := MaximumWireBytes - 128 * 1024.
Definition output_item (attemptID dialogID callID : string) (row : event_row) : option (Z * Output) :=
  e ← validatedToolEvent (evt_json row) attemptID dialogID "tool.output" callID;
  '(m, content) ← outputPayload e;
  if negb (read_string m "callId" =s callID) then None
  else Some (evt_seq row, mkOutput (read_int m "chunkIndex") (read_string m "stream") content (te_observed e)).
Definition output_walk_item (attemptID dialogID callID : string) (row : event_row) : string + (Z * Output) :=
  match output_item attemptID dialogID callID row with Some o => inr o | None => inl "tool detail is invalid" end.
Definition next_outputs (items : list (Z * Output)) (more : bool) : option string :=
  if (more : bool) then
    match last items with Some (seq, _) => if 0 <? seq then Some (itoa seq) else None | None => None end
  else None.
(** The result of a call that completed. *)
Definition load_result (attemptID dialogID callID : string) : M (option SafeContent) :=
  completed ← or_not_durable (found (query_row (fun db => last (keyed_events attemptID ("tool.completed:" +:+ callID) db))))
                "tool detail is unavailable" callID;
  match completed with
  | None => mret None
  | Some row =>
      match validatedToolEvent (evt_json row) attemptID dialogID "tool.completed" callID ≫= completedPayload with
      | Some (m, result) =>
          if negb (read_string m "callId" =s callID) then answer 503 "not_durable" "tool detail is invalid" callID None ""
          else mret (Some result)
      | None => answer 503 "not_durable" "tool detail is invalid" callID None ""
      end
  end.
Definition started_input (e : ToolEvent) : SafeContent :=
  match startedPayload e with Some (_, input) => input | None => mkContent "" "" "" None "" "" "" false end.

(** The attempt that is missing is named, the call otherwise. *)
Definition detail_scope (s : durableState) (attemptID callID : string) : M (string * string) :=
  catch (query_row (toolAttemptScope s attemptID))
    (fun e => match e with
              | NoRows => answer 404 "not_found" "attempt was not found" attemptID None ""
              | _ => answer 503 "not_durable" "tool detail is unavailable" callID None ""
              end).

Definition ToolCall (trust : TrustContext) (attemptID callID : string) (after limit : Z) : M Result :=
  authorizeRead trust ;;
  match normalizedLimit limit with
  | None => Invalid "tool detail query is invalid"
  | Some limit =>
      if negb (uuidPattern attemptID) || negb (uuidPattern callID) || (after <? 0) || (MaximumSafeInteger <? after)
      then Invalid "tool detail query is invalid" else
      s ← open_read "tool detail is unavailable" callID;
      '(dialogID, requestID) ← detail_scope s attemptID callID;
      row ← in_read_scope (fun db => head (keyed_events attemptID ("tool.started:" +:+ callID) db)) "tool call was not found"
              "tool detail is unavailable" callID;
      match validatedToolEvent (evt_json row) attemptID dialogID "tool.started" callID with
      | None => answer 503 "not_durable" "tool detail is invalid" callID None ""
      | Some started =>
          summary ← or_not_durable (loadToolSummary attemptID dialogID started) "tool detail is invalid" callID;
          result ← load_result attemptID dialogID callID;
          rows ← or_not_durable (query (output_events (NodeID s) attemptID callID after (limit + 1))) "tool detail is unavailable" callID;
          match page_walk (output_walk_item attemptID dialogID callID) (fun o => json_size (Output_json o.2)) limit output_bytes 0 0 rows with
          | inl message => answer 503 "not_durable" message callID None ""
          | inr (items, more) =>
              toolTimelineResult (DetailRead_json s dialogID requestID attemptID
                (mkDetail summary (started_input started) result (List.map snd items) (next_outputs items more)))
          end
      end
  end.
