(* ===== verification/HistoryReplica.v ===== *)
(** * The history replica contract, [contracts/history-replica/types.go]
    Records of a hash chain, the checkpoint that sums a chain up, and the page
    that carries a part of it; and [ValidatePage], which the exporter runs on
    what it sends.  [hash] is the hex SHA-256 of the bytes.  A [RawMessage] is
    the value whose bytes it is, [None] where it is nil. *)
From stdpp Require Import base tactics list strings gmap pretty.
From Stdlib Require Import ZArith Lia Ascii String.
From S2P Require Import Prelude Json Parse Wire Store Tx TranscriptView SafeText Paging.
Open Scope string_scope.
Open Scope list_scope.
Open Scope Z_scope.
Open Scope harness_scope.

Definition ReplicaSchemaID : string := "harness-history-export-v1".
Definition ReplicaSchemaSHA256 : string := "0bf89d20d3e8a5235248257fca1d64ce3af00c33eab3dbfc83a1c680f15ec221".
Definition ReplicaPageSize : Z := 200.
Definition ReplicaPageBytes : Z := 8 * 1024 * 1024.
Definition ReplicaChunkBytes : Z := 1024 * 1024.
Definition GenesisHash : string := "e3b0c44298fc1c149afbf4c8996fb92427ae41e4649b934ca495991b7852b855".
Definition RecordEntry : string := "entry".
Definition RecordExecutionFact : string := "execution_fact".
Definition RecordReceipt : string := "receipt_revision".
Definition RecordTextManifest : string := "text_manifest".
Definition RecordTextChunk : string := "text_chunk".
Definition RecordAssetManifest : string := "asset_manifest".

(** ** Data *)
Record StreamIdentity := mkStreamIdentity {
  sid_owner : string; sid_logical : string; sid_node : string; sid_dialog : string; sid_binding : Z }.
#[export] Instance StreamIdentity_eq_dec : EqDecision StreamIdentity.
Proof. solve_decision. Defined.
Record Origin := mkOrigin { org_node : string; org_dialog : string; org_event : string }.
Record ReplicaRecord := mkReplicaRecord {
  rec_seq : Z; rec_type : string; rec_id : string; rec_entity : string; rec_revision : Z; rec_payload : option json;
  rec_hash : string; rec_prev : string; rec_chain : string }.
#[export] Instance ReplicaRecord_eta : Eta ReplicaRecord := fun r =>
  mkReplicaRecord (rec_seq r) (rec_type r) (rec_id r) (rec_entity r) (rec_revision r) (rec_payload r) (rec_hash r) (rec_prev r)
    (rec_chain r).
Record EffectsSummary := mkEffects {
  EntryCount : Z; FactCount : Z; ReceiptRevisionCount : Z; TextManifestCount : Z; TextChunkCount : Z; AssetManifestCount : Z }.
#[export] Instance EffectsSummary_eta : Eta EffectsSummary := fun r =>
  mkEffects (EntryCount r) (FactCount r) (ReceiptRevisionCount r) (TextManifestCount r) (TextChunkCount r) (AssetManifestCount r).
Record Checkpoint := mkCheckpoint {
  ThroughSeq : Z; ChainHash : string; DialogVersion : Z; QueueRevision : Z; EntriesHash : string; FactsHash : string;
  ReceiptsHash : string; TextHash : string; AssetManifestHash : string; Effects : EffectsSummary; Ready : bool;
  IncompleteReason : string; CapturedAt : string }.
Record ExportPage := mkExportPage {
  xp_schema : string; xp_sha256 : string; xp_stream : string; xp_identity : StreamIdentity; xp_after : Z;
  xp_records : list ReplicaRecord; xp_next : option Z; xp_checkpoint : Checkpoint }.
#[export] Instance ExportPage_eta : Eta ExportPage := fun p =>
  mkExportPage (xp_schema p) (xp_sha256 p) (xp_stream p) (xp_identity p) (xp_after p) (xp_records p) (xp_next p) (xp_checkpoint p).

(** ** JSON forms *)
Definition StreamIdentity_json (i : StreamIdentity) : json :=
  JObj [("ownerId", JStr (sid_owner i)); ("logicalDialogId", JStr (sid_logical i)); ("nodeId", JStr (sid_node i));
        ("nodeDialogId", JStr (sid_dialog i)); ("bindingGeneration", JInt (sid_binding i))].
Definition Origin_json (o : Origin) : json :=
  JObj [("nodeId", JStr (org_node o)); ("nodeDialogId", JStr (org_dialog o)); ("authorEventId", JStr (org_event o))].
Definition raw_json (v : option json) : json := default JNull v.
Definition ReplicaRecord_json (r : ReplicaRecord) : json :=
  JObj [("streamSeq", JInt (rec_seq r)); ("type", JStr (rec_type r)); ("recordId", JStr (rec_id r)); ("entityId", JStr (rec_entity r));
        ("revision", JInt (rec_revision r)); ("payload", raw_json (rec_payload r)); ("recordHash", JStr (rec_hash r));
        ("prevHash", JStr (rec_prev r)); ("chainHash", JStr (rec_chain r))].
Definition EffectsSummary_json (e : EffectsSummary) : json :=
  JObj [("entryCount", JInt (EntryCount e)); ("factCount", JInt (FactCount e)); ("receiptRevisionCount", JInt (ReceiptRevisionCount e));
        ("textManifestCount", JInt (TextManifestCount e)); ("textChunkCount", JInt (TextChunkCount e));
        ("assetManifestCount", JInt (AssetManifestCount e))].
Definition Checkpoint_json (c : Checkpoint) : json :=
  JObj ([("throughSeq", JInt (ThroughSeq c)); ("chainHash", JStr (ChainHash c)); ("dialogVersion", JInt (DialogVersion c));
         ("queueRevision", JInt (QueueRevision c)); ("entriesHash", JStr (EntriesHash c)); ("factsHash", JStr (FactsHash c));
         ("receiptsHash", JStr (ReceiptsHash c)); ("textHash", JStr (TextHash c)); ("assetManifestHash", JStr (AssetManifestHash c));
         ("effectsSummary", EffectsSummary_json (Effects c)); ("ready", JBool (Ready c))]
        ++ optional_member "incompleteReason" (IncompleteReason c) ++ [("capturedAt", JStr (CapturedAt c))]).
Definition ExportPage_json (p : ExportPage) : json :=
  JObj [("schemaId", JStr (xp_schema p)); ("schemaSHA256", JStr (xp_sha256 p)); ("streamId", JStr (xp_stream p));
        ("identity", StreamIdentity_json (xp_identity p)); ("afterSeq", JInt (xp_after p));
        ("records", JArr (List.map ReplicaRecord_json (xp_records p)));
        ("nextAfterSeq", match xp_next p with Some n => JInt n | None => JNull end);
        ("checkpoint", Checkpoint_json (xp_checkpoint p))].

(** The payloads of the six record types. *)
Record TranscriptEntry := mkEntry {
  te_id : string; te_origin : Origin; te_logical : string; te_message : string; te_request : string; te_attempt : string;
  te_kind : string; te_role : string; te_content : json; te_created : string; te_profile : string; te_generation : Z;
  te_ordinal : Z; te_status : string }.
Definition TranscriptEntry_json (e : TranscriptEntry) : json :=
  JObj ([("entryId", JStr (te_id e)); ("origin", Origin_json (te_origin e)); ("logicalDialogId", JStr (te_logical e));
         ("messageId", JStr (te_message e))]
        ++ optional_member "requestId" (te_request e) ++ optional_member "attemptId" (te_attempt e)
        ++ [("kind", JStr (te_kind e)); ("role", JStr (te_role e)); ("content", te_content e); ("createdAt", JStr (te_created e))]
        ++ optional_member "profileHash" (te_profile e)
        ++ [("sourceGeneration", JInt (te_generation e)); ("executionOrdinal", JInt (te_ordinal e)); ("executionStatus", JStr (te_status e))]).
Record ExecutionFact := mkFact {
  ef_id : string; ef_origin : Origin; ef_logical : string; ef_request : string; ef_attempt : string; ef_kind : string;
  ef_status : string; ef_seq : Z; ef_occurred : string; ef_event : json }.
Definition ExecutionFact_json (f : ExecutionFact) : json :=
  JObj ([("factId", JStr (ef_id f)); ("origin", Origin_json (ef_origin f)); ("logicalDialogId", JStr (ef_logical f))]
        ++ optional_member "requestId" (ef_request f) ++ optional_member "attemptId" (ef_attempt f)
        ++ [("kind", JStr (ef_kind f)); ("status", JStr (ef_status f)); ("eventSeq", JInt (ef_seq f)); ("occurredAt", JStr (ef_occurred f));
            ("event", ef_event f)]).
Record ReceiptRevision := mkRevision {
  rr_id : string; rr_origin : Origin; rr_logical : string; rr_command : string; rr_kind : string; rr_fingerprint : string;
  rr_request : string; rr_attempt : string; rr_revision : Z; rr_predecessor : string; rr_admission : string; rr_outcome : string;
  rr_receipt : json; rr_accepted : string }.
Definition ReceiptRevision_json (r : ReceiptRevision) : json :=
  JObj ([("receiptRevisionId", JStr (rr_id r)); ("origin", Origin_json (rr_origin r)); ("logicalDialogId", JStr (rr_logical r));
         ("commandId", JStr (rr_command r)); ("commandKind", JStr (rr_kind r)); ("fingerprint", JStr (rr_fingerprint r))]
        ++ optional_member "requestId" (rr_request r) ++ optional_member "attemptId" (rr_attempt r)
        ++ [("revision", JInt (rr_revision r)); ("predecessorHash", JStr (rr_predecessor r)); ("admission", JStr (rr_admission r));
            ("outcome", JStr (rr_outcome r)); ("receipt", rr_receipt r); ("acceptedAt", JStr (rr_accepted r))]).
Record TextManifest := mkTextManifest {
  tm_id : string; tm_origin : Origin; tm_logical : string; tm_attempt : string; tm_source : json; tm_preview : string;
  tm_redaction : string; tm_complete : bool; tm_reason : string; tm_size : Z; tm_sha256 : string; tm_chunks : Z }.
Definition TextManifest_json (t : TextManifest) : json :=
  JObj ([("textId", JStr (tm_id t)); ("origin", Origin_json (tm_origin t)); ("logicalDialogId", JStr (tm_logical t));
         ("attemptId", JStr (tm_attempt t)); ("source", tm_source t); ("preview", JStr (tm_preview t));
         ("redaction", JStr (tm_redaction t)); ("complete", JBool (tm_complete t))]
        ++ optional_member "reason" (tm_reason t)
        ++ [("sizeBytes", JInt (tm_size t)); ("sha256", JStr (tm_sha256 t)); ("chunkCount", JInt (tm_chunks t))]).

(** [encoding/json] writes a byte slice in the standard base64, padded. *)
Fixpoint standard_alphabet (s : string) : string :=
  match s with
  | EmptyString => ""
  | String c r => String (if (N_of_ascii c =? 45)%N then "+"%char else if (N_of_ascii c =? 95)%N then "/"%char else c) (standard_alphabet r)
  end.
Definition base64_padding (s : string) : string :=
  match (String.length s mod 3)%nat with 1%nat => "==" | 2%nat => "=" | _ => "" end.
Definition bytes_json (s : string) : json := JStr (standard_alphabet (EncodeToString s) +:+ base64_padding s).
Record TextChunk := mkTextChunk {
  tc_text : string; tc_logical : string; tc_index : Z; tc_offset : Z; tc_size : Z; tc_sha256 : string; tc_bytes : string }.
Definition TextChunk_json (c : TextChunk) : json :=
  JObj [("textId", JStr (tc_text c)); ("logicalDialogId", JStr (tc_logical c)); ("chunkIndex", JInt (tc_index c));
        ("offsetBytes", JInt (tc_offset c)); ("sizeBytes", JInt (tc_size c)); ("sha256", JStr (tc_sha256 c)); ("bytes", bytes_json (tc_bytes c))].
Record Asset := mkAsset {
  as_artifact : string; as_attempt : string; as_call : string; as_name : string; as_media : string; as_size : Z;
  as_sha256 : string; as_redaction : string; as_truncated : bool }.
Definition Asset_json (a : Asset) : json :=
  JObj ([("artifactId", JStr (as_artifact a)); ("attemptId", JStr (as_attempt a))] ++ optional_member "callId" (as_call a)
        ++ [("name", JStr (as_name a)); ("mediaType", JStr (as_media a)); ("sizeBytes", JInt (as_size a)); ("sha256", JStr (as_sha256 a));
            ("redaction", JStr (as_redaction a)); ("truncated", JBool (as_truncated a))]).
Definition AssetManifest_json (logical : string) (assets : list Asset) : json :=
  JObj [("logicalDialogId", JStr logical); ("assets", JArr (List.map Asset_json assets))].

(** ** [json.Unmarshal] of a record; members of no field are skipped *)
Definition set_record (name : string) (v : json) (r : ReplicaRecord) : option ReplicaRecord :=
  if name =s "STREAMSEQ" then x ← into_int v (rec_seq r); Some (r <| rec_seq := x |>)
  else if name =s "TYPE" then x ← into_string v (rec_type r); Some (r <| rec_type := x |>)
  else if name =s "RECORDID" then x ← into_string v (rec_id r); Some (r <| rec_id := x |>)
  else if name =s "ENTITYID" then x ← into_string v (rec_entity r); Some (r <| rec_entity := x |>)
  else if name =s "REVISION" then x ← into_int v (rec_revision r); Some (r <| rec_revision := x |>)
  else if name =s "PAYLOAD" then Some (r <| rec_payload := Some v |>)
  else if name =s "RECORDHASH" then x ← into_string v (rec_hash r); Some (r <| rec_hash := x |>)
  else if name =s "PREVHASH" then x ← into_string v (rec_prev r); Some (r <| rec_prev := x |>)
  else if name =s "CHAINHASH" then x ← into_string v (rec_chain r); Some (r <| rec_chain := x |>)
  else Some r.
Definition ReplicaRecord_of_json (v : json) : option ReplicaRecord :=
  into_struct set_record v (mkReplicaRecord 0 "" "" "" 0 None "" "" "").

(** ** Identities and hashes *)
Section Contract.
Variable hash : string -> string.

Definition StableUUID (namespace value : string) : string :=
  let encoded := hash (namespace +:+ nul +:+ value) in
  let part from n := String.substring from n encoded in
  part 0%nat 8%nat +:+ "-" +:+ part 8%nat 4%nat +:+ "-5" +:+ part 13%nat 3%nat +:+ "-" +:+ variant_text (part 16%nat 4%nat)
  +:+ "-" +:+ part 20%nat 12%nat.
Definition StreamID (i : StreamIdentity) : string :=
  StableUUID "history-stream-v1" (join nul [sid_owner i; sid_logical i; sid_node i; sid_dialog i; itoa (sid_binding i)]).
Definition FoldCoverageHash (previous value : string) : string := hash ("history-coverage-v1" +:+ nul +:+ previous +:+ nul +:+ value).
Definition ChainGenesis (streamID : string) : string := hash ("history-chain-genesis-v1" +:+ nul +:+ streamID).
Definition HashJSON (v : json) : string := hash (marshal v).

Definition recordCore_json (r : ReplicaRecord) : json :=
  JObj [("type", JStr (rec_type r)); ("recordId", JStr (rec_id r)); ("entityId", JStr (rec_entity r)); ("revision", JInt (rec_revision r));
        ("payload", raw_json (rec_payload r))].
Definition chain_preimage (streamID : string) (sequence : Z) (previous recordHash : string) : string :=
  "history-chain-v1" +:+ nul +:+ streamID +:+ nul +:+ itoa sequence +:+ nul +:+ previous +:+ nul +:+ recordHash.
Definition chain_hash (streamID : string) (sequence : Z) (previous recordHash : string) : string :=
  hash (chain_preimage streamID sequence previous recordHash).

Definition record_types : list string :=
  [RecordEntry; RecordExecutionFact; RecordReceipt; RecordTextManifest; RecordTextChunk; RecordAssetManifest].
(** The core is an object, so its bytes have no space to trim. *)
Definition validateRecordCore (r : ReplicaRecord) : bool :=
  in_set (rec_type r) record_types && uuidPattern (rec_id r) && uuidPattern (rec_entity r)
  && (1 <=? rec_revision r) && (rec_revision r <=? MaximumSafeInteger) && sha256Pattern (rec_hash r)
  && match rec_payload r with Some v => strict_valid (marshal v) | None => false end
  && (HashJSON (recordCore_json r) =s rec_hash r).

Definition NewRecord (recordType recordID entityID : string) (revision : Z) (payload : json) : option ReplicaRecord :=
  if negb (strict_valid (marshal payload)) then None else
  let r := mkReplicaRecord 0 recordType recordID entityID revision (Some payload) "" "" "" in
  let r := r <| rec_hash := HashJSON (recordCore_json r) |> in
  if validateRecordCore r then Some r else None.

Definition SealRecord (r : ReplicaRecord) (streamID : string) (sequence : Z) (previous : string) : option ReplicaRecord :=
  if negb (validateRecordCore r) || negb (uuidPattern streamID) || (sequence <? 1) || (MaximumSafeInteger <? sequence)
     || negb (sha256Pattern previous)
  then None
  else Some (r <| rec_seq := sequence |> <| rec_prev := previous |> <| rec_chain := chain_hash streamID sequence previous (rec_hash r) |>).

(** ** Validation *)
Definition ValidIdentity (i : StreamIdentity) : bool :=
  negb (sid_owner i =s "") && valid_utf8 (sid_owner i) && (byte_length (sid_owner i) <=? 200)
  && uuidPattern (sid_logical i) && uuidPattern (sid_node i) && uuidPattern (sid_dialog i)
  && (1 <=? sid_binding i) && (sid_binding i <=? MaximumSafeInteger).

Definition validateRecord (streamID : string) (r : ReplicaRecord) : bool :=
  validateRecordCore r && (1 <=? rec_seq r) && (rec_seq r <=? MaximumSafeInteger) && sha256Pattern (rec_prev r)
  && sha256Pattern (rec_chain r) && (rec_chain r =s chain_hash streamID (rec_seq r) (rec_prev r) (rec_hash r)).

(** The sum of the counts is one of [int64]: it wraps around. *)
Definition wrap64 (z : Z) : Z := (z + 2 ^ 63) mod 2 ^ 64 - 2 ^ 63.
Definition effects_total (e : EffectsSummary) : Z :=
  wrap64 (EntryCount e + FactCount e + ReceiptRevisionCount e + TextManifestCount e + TextChunkCount e + AssetManifestCount e).
Definition validCheckpoint (c : Checkpoint) : bool :=
  (0 <=? ThroughSeq c) && (ThroughSeq c <=? MaximumSafeInteger) && (1 <=? DialogVersion c) && (DialogVersion c <=? MaximumSafeInteger)
  && (1 <=? QueueRevision c) && (QueueRevision c <=? MaximumSafeInteger) && negb (CapturedAt c =s "")
  && sha256Pattern (ChainHash c) && sha256Pattern (EntriesHash c) && sha256Pattern (FactsHash c) && sha256Pattern (ReceiptsHash c)
  && sha256Pattern (TextHash c) && sha256Pattern (AssetManifestHash c)
  && (0 <=? EntryCount (Effects c)) && (0 <=? FactCount (Effects c)) && (0 <=? ReceiptRevisionCount (Effects c))
  && (0 <=? TextManifestCount (Effects c)) && (0 <=? TextChunkCount (Effects c)) && (0 <=? AssetManifestCount (Effects c))
  && (effects_total (Effects c) =? ThroughSeq c)
  && ((Ready c && (IncompleteReason c =s "")) || (negb (Ready c) && negb (IncompleteReason c =s ""))).

(** The loop over the records: each one's number, predecessor and seal. *)
Fixpoint valid_chain (streamID : string) (sequence : Z) (previous : string) (records : list ReplicaRecord) : bool :=
  match records with
  | [] => true
  | r :: rest =>
      (rec_seq r =? sequence) && (rec_prev r =s previous) && validateRecord streamID r
      && valid_chain streamID (sequence + 1) (rec_chain r) rest
  end.
Definition page_start (p : ExportPage) : string :=
  if 0 <? xp_after p
  then match xp_records p with [] => ChainHash (xp_checkpoint p) | r :: _ => rec_prev r end
  else ChainGenesis (xp_stream p).
Definition page_boundary (p : ExportPage) : bool :=
  match xp_next p with
  | Some n => match last (xp_records p) with Some r => (n =? rec_seq r) && (n <? ThroughSeq (xp_checkpoint p)) | None => false end
  | None =>
      match last (xp_records p) with
      | Some r => rec_seq r =? ThroughSeq (xp_checkpoint p)
      | None => xp_after p =? ThroughSeq (xp_checkpoint p)
      end
      && negb ((ThroughSeq (xp_checkpoint p) =? 0) && negb (ChainHash (xp_checkpoint p) =s ChainGenesis (xp_stream p)))
  end.
Definition ValidatePage (p : ExportPage) : bool :=
  (xp_schema p =s ReplicaSchemaID) && (xp_sha256 p =s ReplicaSchemaSHA256) && ValidIdentity (xp_identity p)
  && (xp_stream p =s StreamID (xp_identity p)) && (0 <=? xp_after p) && (xp_after p <=? MaximumSafeInteger)
  && (Z.of_nat (List.length (xp_records p)) <=? ReplicaPageSize) && (xp_after p <=? ThroughSeq (xp_checkpoint p))
  && validCheckpoint (xp_checkpoint p)
  && valid_chain (xp_stream p) (xp_after p + 1) (page_start p) (xp_records p) && page_boundary p
  && (byte_length (marshal (ExportPage_json p)) <=? ReplicaPageBytes).
End Contract.
