(* ===== verification/HistoryExport.v ===== *)
(** * History export, [runtime/history_export.go]
    [ExportHistory] brings the replica stream of a dialog up to date (one sealed
    record per message, event, command receipt, safe text, text chunk and asset
    list it does not hold yet) and answers one page of it. *)
From stdpp Require Import base tactics list strings gmap pretty.
From Stdlib Require Import ZArith Lia Ascii String.
From S2P Require Import Prelude Json Parse Wire Store Tx Adapter Events Commands Barrier Hold Submit TranscriptView Read Replay Paging Pages.
From S2P Require Import Frames Files SafeText Capture SafeTextStore HistoryReplica.
Open Scope string_scope.
Open Scope list_scope.
Open Scope Z_scope.
Open Scope harness_scope.

Fixpoint each {A} (f : A -> M unit) (l : list A) : M unit :=
  match l with [] => mret tt | a :: rest => f a ;; each f rest end.

(** ** The replica stream *)
Definition stream_rows (streamID : string) (db : Db) : list replica_record_row :=
  sort_by rrr_seq (List.filter (fun r => rrr_stream r =s streamID) (replica_records db)).
Definition replica_row (streamID : string) (r : ReplicaRecord) (created : string) : replica_record_row :=
  mkReplicaRow streamID (rec_seq r) (rec_id r) (rec_type r) (rec_entity r) (rec_revision r) (ReplicaRecord_json r) (rec_hash r)
    (rec_prev r) (rec_chain r) created.
Definition chain_at (streamID : string) (sequence : Z) (db : Db) : option string :=
  rrr_chain <$> select1 (fun r => (rrr_stream r =s streamID) && (rrr_seq r =? sequence)) (replica_records db).
Definition or_broken {A} (o : option A) (what : string) : M A := match o with Some a => mret a | None => fail (Broken what) end.

Definition appendReplicaRecord (streamID : string) (candidate : ReplicaRecord) (now : string) : M ReplicaRecord :=
  hash ← ask sha256_hex;
  stored ← query (fun db => rrr_json <$> select1 (fun r => (rrr_stream r =s streamID) && (rrr_record r =s rec_id candidate)) (replica_records db));
  match stored with
  | Some raw =>
      match ReplicaRecord_of_json raw with
      | Some existing =>
          if rec_hash existing =s rec_hash candidate then mret existing else fail (Broken "history record identity conflict")
      | None => fail (Broken "history record identity conflict")
      end
  | None =>
      next ← query_row (fun db => rst_next <$> select1 (fun s => rst_id s =s streamID) (replica_streams db));
      previous ← (if 1 <? next then query_row (chain_at streamID (next - 1)) else mret (ChainGenesis hash streamID));
      sealed ← or_broken (SealRecord hash candidate streamID next previous) "record chain input is invalid";
      exec (insert_replica_record (replica_row streamID sealed now)) ;;
      changed ← exec_changed (advance_replica_stream streamID next);
      if changed =? 1 then mret sealed else fail (Broken "history stream sequence changed")
  end.

(** [NewRecord] and [appendReplicaRecord], as every materializer ends. *)
Definition append_new (streamID now recordType recordID entityID : string) (revision : Z) (payload : json) : M unit :=
  hash ← ask sha256_hex;
  record ← or_broken (NewRecord hash recordType recordID entityID revision payload) "record payload is invalid";
  appendReplicaRecord streamID record now ;; mret tt.

Record replicaStreamState := mkReplicaState { rs_next : Z; rs_entries : string; rs_facts : string; rs_receipts : string;
  rs_text : string; rs_assets : string; rs_effects : EffectsSummary }.
#[export] Instance replicaStreamState_eta : Eta replicaStreamState := fun s =>
  mkReplicaState (rs_next s) (rs_entries s) (rs_facts s) (rs_receipts s) (rs_text s) (rs_assets s) (rs_effects s).
Definition replica_fold (hash : string -> string) (s : replicaStreamState) (r : replica_record_row) : replicaStreamState :=
  let fold previous := FoldCoverageHash hash previous (rrr_hash r) in
  let s :=
    if rrr_type r =s RecordEntry then s <| rs_entries ::= fold |> <| rs_effects ::= fun e => e <| EntryCount ::= Z.succ |> |>
    else if rrr_type r =s RecordExecutionFact then s <| rs_facts ::= fold |> <| rs_effects ::= fun e => e <| FactCount ::= Z.succ |> |>
    else if rrr_type r =s RecordReceipt then s <| rs_receipts ::= fold |> <| rs_effects ::= fun e => e <| ReceiptRevisionCount ::= Z.succ |> |>
    else if rrr_type r =s RecordTextManifest then s <| rs_text ::= fold |> <| rs_effects ::= fun e => e <| TextManifestCount ::= Z.succ |> |>
    else if rrr_type r =s RecordTextChunk then s <| rs_text ::= fold |> <| rs_effects ::= fun e => e <| TextChunkCount ::= Z.succ |> |>
    else if rrr_type r =s RecordAssetManifest then s <| rs_assets ::= fold |> <| rs_effects ::= fun e => e <| AssetManifestCount ::= Z.succ |> |>
    else s in
  s <| rs_next ::= Z.succ |>.
Definition replica_genesis : replicaStreamState :=
  mkReplicaState 1 GenesisHash GenesisHash GenesisHash GenesisHash GenesisHash (mkEffects 0 0 0 0 0 0).
Definition replicaHashes (streamID : string) : M replicaStreamState :=
  hash ← ask sha256_hex;
  rows ← query (stream_rows streamID);
  mret (fold_left (replica_fold hash) rows replica_genesis).

(** ** Messages *)
(** [json_extract(CAST(event_json AS TEXT),'$.entityId')=?]. *)
Definition extracts (path : string) (value : string) (v : json) : bool := match field path v with Some (JStr s) => s =s value | _ => false end.
Definition author_event (node : string) (message : string) (db : Db) : option Z :=
  evt_seq <$> first_by evt_seq (List.filter (fun e => (evt_node e =s node) && extracts "entityId" message (evt_json e)) (events db)).
Definition attempt_of (id : option string) (db : Db) : option attempt_row :=
  id ← id; select1 (fun a => att_id a =s id) (attempts db).

Definition entry_content (m : message_row) : option json :=
  if msg_role m =s "user" then Some (JObj [("kind", JStr "inline"); ("content", JStr (default "" (msg_text m)))]) else msg_content m.
(** A queued user message can acquire an attempt later: its entry stays at
    generation zero, without attempt and profile. *)
Definition entry_of (i : StreamIdentity) (m : message_row) (a : option attempt_row) (author : string) (content : json) : TranscriptEntry :=
  let assistant := msg_role m =s "assistant" in
  mkEntry (msg_id m) (mkOrigin (sid_node i) (sid_dialog i) author) (sid_logical i) (msg_id m) (default "" (msg_request m))
    (if assistant then default "" (msg_attempt m) else "") "message" (msg_role m) content (msg_created m)
    (if assistant then default "" (a ≫= att_policy) else "")
    (if assistant then default 0 (att_generation <$> a) else 0) (msg_sequence m) "recorded".
Definition entry_record_id (hash : string -> string) (message : string) : string := StableUUID hash "history-record-entry-v1" message.
Definition materialize_entry (i : StreamIdentity) (streamID now : string) (row : message_row * option attempt_row) : M unit :=
  let '(m, a) := row in
  hash ← ask sha256_hex;
  content ← or_broken (entry_content m) "history entry content is invalid";
  seq ← query (author_event (sid_node i) (msg_id m));
  let author := match seq with Some n => sid_node i +:+ ":" +:+ itoa n | None => "message:" +:+ msg_id m end in
  append_new streamID now RecordEntry (entry_record_id hash (msg_id m)) (msg_id m) 1
    (TranscriptEntry_json (entry_of i m a author content)).
Definition messages_with_attempts (dialog : string) (db : Db) : list (message_row * option attempt_row) :=
  List.map (fun m => (m, attempt_of (msg_attempt m) db)) (dialog_messages dialog db).
Definition materializeReplicaEntries (i : StreamIdentity) (streamID now : string) : M unit :=
  rows ← query (messages_with_attempts (sid_dialog i));
  each (materialize_entry i streamID now) rows.

(** ** Events *)
Definition fact_event (i : StreamIdentity) (db : Db) (e : event_row) : bool :=
  let extracts_of path ids := List.existsb (fun id => extracts path id (evt_json e)) ids in
  (evt_node e =s sid_node i)
  && (is_text (evt_dialog e) (sid_dialog i)
      || match evt_attempt e with
         | Some id => exists_where (fun a => (att_id a =s id) && (att_dialog a =s sid_dialog i)) (attempts db)
         | None => false
         end
      || match field "payload" (evt_json e) with Some p => extracts "dialogId" (sid_dialog i) p | None => false end
      || extracts_of "entityId" (List.map msg_id (List.filter (fun m => msg_dialog m =s sid_dialog i) (messages db)))
      || extracts_of "entityId" (List.map req_id (List.filter (fun r => req_dialog r =s sid_dialog i) (requests db)))).
Definition dialog_events (i : StreamIdentity) (db : Db) : list event_row :=
  sort_by evt_seq (List.filter (fact_event i db) (events db)).
Definition decoded_event (e : event_row) : option (event_row * EventView) := v ← EventView_of (evt_json e); Some (e, v).
Definition payload_request (v : EventView) : string :=
  match field "requestId" (ev_payload v) with Some (JStr s) => s | _ => "" end.
Definition fact_id (hash : string -> string) (node : string) (seq : Z) : string :=
  StableUUID hash "history-execution-fact-v1" (node +:+ nul +:+ itoa seq).
Definition fact_record_id (hash : string -> string) (fact : string) : string := StableUUID hash "history-record-fact-v1" fact.
Definition materialize_fact (i : StreamIdentity) (streamID now : string) (row : event_row * EventView) : M unit :=
  let '(e, v) := row in
  hash ← ask sha256_hex;
  let attempt := default "" (evt_attempt e) in
  request ← (if (payload_request v =s "") && negb (attempt =s "")
             then catch (query_row (fun db => att_request <$> select1 (fun a => att_id a =s attempt) (attempts db))) (fun _ => mret "")
             else mret (payload_request v));
  let id := fact_id hash (sid_node i) (evt_seq e) in
  append_new streamID now RecordExecutionFact (fact_record_id hash id) id 1
    (ExecutionFact_json (mkFact id (mkOrigin (sid_node i) (sid_dialog i) (sid_node i +:+ ":" +:+ itoa (evt_seq e))) (sid_logical i)
       request attempt (ev_type v) (ev_type v) (evt_seq e) (evt_created e) (evt_json e))).
Definition materializeReplicaFacts (i : StreamIdentity) (streamID now : string) : M unit :=
  rows ← query (dialog_events i);
  decoded ← or_broken (sequence (List.map decoded_event rows)) "history event is invalid";
  each (materialize_fact i streamID now) decoded.

(** ** Receipts *)
(** The members of an object that decode into a Go string; of two with one
    name the later counts. *)
Definition text_members (v : json) : list (string * string) :=
  match v with
  | JObj m => List.flat_map (fun kv => match kv.2 with JStr s => [(kv.1, s)] | JNull => [(kv.1, "")] | _ => [] end) (List.rev m)
  | _ => []
  end.
Definition text_value (values : list (string * string)) (key : string) : string :=
  match List.find (fun kv => kv.1 =s key) values with Some (_, s) => s | None => "" end.

(** The loop over [attemptId] and [priorAttemptId]. *)
Fixpoint scope_of_attempts (values : list (string * string)) (dialogID : string) (keys : list string) (requestID attemptID : string)
    : M (option (string * string)) :=
  match keys with
  | [] => mret None
  | key :: rest =>
      let id := text_value values key in
      if id =s "" then scope_of_attempts values dialogID rest requestID attemptID else
      row ← query (fun db => select1 (fun a => att_id a =s id) (attempts db));
      match row with
      | Some a =>
          if att_dialog a =s dialogID
          then mret (Some (if requestID =s "" then att_request a else requestID, if attemptID =s "" then id else attemptID))
          else scope_of_attempts values dialogID rest requestID attemptID
      | None => scope_of_attempts values dialogID rest requestID attemptID
      end
  end.
(** [Some]: the request and the attempt of a command of the dialog. *)
Definition command_scope (dialogID : string) (target references : json) : M (option (string * string)) :=
  let values := text_members references ++ text_members target in
  let requestID := text_value values "requestId" in
  let attemptID := text_value values "attemptId" in
  if text_value values "dialogId" =s dialogID then mret (Some (requestID, attemptID)) else
  found ← (if requestID =s "" then mret None
           else query (fun db => req_dialog <$> select1 (fun r => req_id r =s requestID) (requests db)));
  if is_text found dialogID then mret (Some (requestID, attemptID)) else
  scope_of_attempts values dialogID ["attemptId"; "priorAttemptId"] requestID attemptID.
Definition replicaCommandScope (dialogID : string) (c : command_row) : M (list (string * json) * option (string * string)) :=
  match CommandEnvelope_of_json (cmd_canonical c), decodeStruct receipt_fields (cmd_receipt c) with
  | Some envelope, Some receipt =>
      scope ← command_scope dialogID (env_target envelope) (read_raw receipt "references");
      mret (receipt, scope)
  | _, _ => fail (Broken "history command is invalid")
  end.

Definition command_before (a b : command_row) : bool :=
  if cmd_accepted a =s cmd_accepted b then string_before (cmd_id a) (cmd_id b) else string_before (cmd_accepted a) (cmd_accepted b).
Definition node_commands (node : string) (db : Db) : list command_row :=
  order_by command_before (List.filter (fun c => cmd_node c =s node) (commands db)).
Definition revision_id (hash : string -> string) (node command : string) : string :=
  StableUUID hash "history-receipt-revision-v1" (node +:+ nul +:+ command +:+ nul +:+ "1").
Definition materialize_receipt (i : StreamIdentity) (streamID now : string) (c : command_row) : M unit :=
  hash ← ask sha256_hex;
  scoped ← replicaCommandScope (sid_dialog i) c;
  match scoped with
  | (_, None) => mret tt
  | (receipt, Some (requestID, attemptID)) =>
      let id := revision_id hash (sid_node i) (cmd_id c) in
      append_new streamID now RecordReceipt id id 1
        (ReceiptRevision_json (mkRevision id
           (mkOrigin (sid_node i) (sid_dialog i) (sid_node i +:+ ":" +:+ itoa (read_int receipt "eventSeq"))) (sid_logical i) (cmd_id c)
           (cmd_kind c) (cmd_hash c) requestID attemptID 1 GenesisHash "accepted" (read_string receipt "result") (cmd_receipt c)
           (cmd_accepted c)))
  end.
Definition materializeReplicaReceipts (i : StreamIdentity) (streamID now : string) : M unit :=
  rows ← query (node_commands (sid_node i));
  each (materialize_receipt i streamID now) rows.

(** ** Safe texts *)
Definition manifest_rows (dialog : string) (db : Db) : list artifact_row :=
  order_by (fun a b => string_before (art_id a) (art_id b))
    (List.filter (fun a => (art_dialog a =s dialog) && (art_media a =s safeTextManifestMediaType)) (artifacts db)).
Definition replica_chunk_count (m : Manifest) : Z :=
  if mf_complete m then (mf_size m + ReplicaChunkBytes - 1) / ReplicaChunkBytes else 0.
Definition TextManifest_of (i : StreamIdentity) (m : Manifest) : TextManifest :=
  mkTextManifest (mf_text m) (mkOrigin (sid_node i) (sid_dialog i) ("text:" +:+ mf_text m)) (sid_logical i) (mf_attempt m)
    (Source_json (mf_source m)) (mf_preview m) (mf_redaction m) (mf_complete m) (mf_reason m) (mf_size m) (mf_sha256 m)
    (replica_chunk_count m).

(** [for start := 0; start < len(content); start += MaximumChunkBytes]; every
    part but the last is whole, so the length is fuel enough. *)
Fixpoint byte_parts (fuel start : nat) (content : string) : list (Z * string) :=
  match fuel with
  | O => []
  | S fuel' =>
      if Nat.leb (String.length content) start then [] else
      let part := String.substring start (Z.to_nat (Z.min ReplicaChunkBytes (byte_length content - Z.of_nat start))) content in
      (Z.of_nat start, part) :: byte_parts fuel' (start + String.length part)%nat content
  end.
Definition text_chunk_record_id (hash : string -> string) (entity part : string) : string :=
  StableUUID hash "history-record-text-chunk-v1" (entity +:+ nul +:+ hash part).
Fixpoint materialize_parts (i : StreamIdentity) (streamID now textID : string) (total index : Z) (parts : list (Z * string)) : M Z :=
  match parts with
  | [] => mret index
  | (start, part) :: rest =>
      hash ← ask sha256_hex;
      let entity := StableUUID hash "history-text-chunk-v1" (textID +:+ nul +:+ itoa (total + start)) in
      append_new streamID now RecordTextChunk (text_chunk_record_id hash entity part) entity 1
        (TextChunk_json (mkTextChunk textID (sid_logical i) index (total + start) (byte_length part) (hash part) part)) ;;
      materialize_parts i streamID now textID total (index + 1) rest
  end.
(** The chunks of a text, with the bytes seen so far: what the running hash was
    fed. *)
Fixpoint materialize_chunks (i : StreamIdentity) (streamID now textID : string) (seen : string) (index : Z) (chunks : list Chunk)
    : M (string * Z) :=
  match chunks with
  | [] => mret (seen, index)
  | c :: rest =>
      row ← query_row (select_artifact (ch_artifact c));
      content ← readSafeTextArtifact row;
      index ← materialize_parts i streamID now textID (byte_length seen) index (byte_parts (String.length content) 0 content);
      materialize_chunks i streamID now textID (seen +:+ content) index rest
  end.
Definition materialize_text (i : StreamIdentity) (streamID now : string) (row : artifact_row) : M bool :=
  hash ← ask sha256_hex;
  raw ← readSafeTextArtifact row;
  observed ← or_broken (TranscriptDecode raw) "safe text manifest is invalid";
  a ← query_row (fun db => select1 (fun a => att_id a =s art_attempt row) (attempts db));
  stored ← readSafeTextManifest (mkRef (sid_node i) (sid_dialog i) (att_request a) (art_attempt row) (att_generation a)) (mf_source observed);
  let m := stored.1 in
  append_new streamID now RecordTextManifest (StableUUID hash "history-record-text-manifest-v1" (mf_text m)) (mf_text m) 1
    (TextManifest_json (TextManifest_of i m)) ;;
  if negb (mf_complete m) then mret false else
  covered ← materialize_chunks i streamID now (mf_text m) "" 0 (mf_chunks m);
  if negb (byte_length covered.1 =? mf_size m) || negb (hash covered.1 =s mf_sha256 m) || negb (covered.2 =? replica_chunk_count m)
  then fail (Broken "history text bytes do not match manifest") else mret true.
Fixpoint materialize_texts (i : StreamIdentity) (streamID now : string) (rows : list artifact_row) : M bool :=
  match rows with
  | [] => mret true
  | row :: rest =>
      complete ← materialize_text i streamID now row;
      others ← materialize_texts i streamID now rest;
      mret ((complete : bool) && (others : bool))
  end.
Definition materializeReplicaText (i : StreamIdentity) (streamID now : string) : M bool :=
  rows ← query (manifest_rows (sid_dialog i));
  materialize_texts i streamID now rows.

(** ** Assets *)
Definition Asset_of (a : artifact_row) : Asset :=
  mkAsset (art_id a) (art_attempt a) (default "" (art_call a)) (art_name a) (art_media a) (art_size a) (art_sha256 a) (art_redaction a)
    (art_truncated a).
Definition asset_before (a b : Asset) : bool := string_before (as_artifact a) (as_artifact b).
Definition dialog_assets (dialog : string) (db : Db) : list Asset :=
  order_by asset_before
    (List.map Asset_of (List.filter (fun a => (art_dialog a =s dialog) && negb (art_disposition a =s safeTextDisposition)) (artifacts db))).
Definition asset_entity (hash : string -> string) (dialog : string) : string := StableUUID hash "history-asset-manifest-entity-v1" dialog.
Definition asset_record_id (hash : string -> string) (entity : string) (manifest : json) : string :=
  StableUUID hash "history-record-asset-manifest-v1" (entity +:+ nul +:+ HashJSON hash manifest).
Definition asset_revision (recordID entityID : string) : M Z :=
  known ← query (fun db => rrr_revision <$> first_by rrr_revision (List.filter (fun r => rrr_record r =s recordID) (replica_records db)));
  match known with
  | Some revision => mret revision
  | None => query (fun db => default 0 (max_by rrr_revision
      (List.filter (fun r => (rrr_type r =s RecordAssetManifest) && (rrr_entity r =s entityID)) (replica_records db))) + 1)
  end.
Definition materializeReplicaAssets (i : StreamIdentity) (streamID now : string) : M unit :=
  hash ← ask sha256_hex;
  assets ← query (dialog_assets (sid_dialog i));
  let manifest := AssetManifest_json (sid_logical i) assets in
  let entityID := asset_entity hash (sid_dialog i) in
  let recordID := asset_record_id hash entityID manifest in
  revision ← asset_revision recordID entityID;
  append_new streamID now RecordAssetManifest recordID entityID revision manifest.

(** ** The stream of a dialog *)
Definition export_dialog (i : StreamIdentity) (db : Db) : option Z :=
  dlg_version <$> select1 (fun d => (dlg_id d =s sid_dialog i) && (dlg_node d =s sid_node i) && (dlg_owner d =s sid_owner i)
                                    && negb (dialog_deleted db (dlg_id d))) (dialogs db).
Definition export_queue (i : StreamIdentity) (db : Db) : option Z :=
  qsr_queue <$> select1 (fun q => qsr_key q =s dialog_key (sid_dialog i)) (quiescence_scope_revisions db).
Definition stored_identity (s : replica_stream_row) : StreamIdentity :=
  mkStreamIdentity (rst_owner s) (rst_logical s) (rst_node s) (rst_dialog s) (rst_binding s).
Definition replica_hashes (s : replicaStreamState) : list string :=
  [rs_entries s; rs_facts s; rs_receipts s; rs_text s; rs_assets s].

Definition open_stream (i : StreamIdentity) (streamID now : string) (version queue : Z) : M unit :=
  exec (insert_replica_stream (mkReplicaStream streamID (sid_owner i) (sid_logical i) (sid_node i) (sid_dialog i) (sid_binding i) 1
                                 version queue false (Some "materializing")
                                 [GenesisHash; GenesisHash; GenesisHash; GenesisHash; GenesisHash] now)) ;;
  stored ← query (fun db => select1 (fun s => rst_id s =s streamID) (replica_streams db));
  match stored with
  | Some s => if bool_decide (stored_identity s = i) then mret tt else fail (Broken "history stream identity conflict")
  | None => fail (Broken "history stream identity conflict")
  end.
Definition fill_stream (i : StreamIdentity) (streamID now : string) : M bool :=
  materializeReplicaEntries i streamID now ;;
  materializeReplicaFacts i streamID now ;;
  materializeReplicaReceipts i streamID now ;;
  complete ← materializeReplicaText i streamID now;
  materializeReplicaAssets i streamID now ;;
  mret complete.
Definition materializeHistoryReplica (i : StreamIdentity) (streamID : string) : M Checkpoint :=
  hash ← ask sha256_hex;
  version ← query_row (export_dialog i);
  queue ← query_row (export_queue i);
  now ← now;
  open_stream i streamID now version queue ;;
  ready ← fill_stream i streamID now;
  stream ← replicaHashes streamID;
  let reason := if (ready : bool) then "" else "safe_text_incomplete" in
  let through := rs_next stream - 1 in
  chain ← (if 0 <? through then query_row (chain_at streamID through) else mret (ChainGenesis hash streamID));
  exec (update_replica_stream streamID version queue ready (nullText reason) (replica_hashes stream) now) ;;
  mret (mkCheckpoint through chain version queue (rs_entries stream) (rs_facts stream) (rs_receipts stream) (rs_text stream)
          (rs_assets stream) (rs_effects stream) ready reason now).

(** ** The page *)
Definition page_with (p : ExportPage) (records : list ReplicaRecord) : ExportPage :=
  p <| xp_records := records |>
    <| xp_next := match last records with
                  | Some r => if rec_seq r <? ThroughSeq (xp_checkpoint p) then Some (rec_seq r) else None
                  | None => None
                  end |>.
(** A page too large loses its last record; the fuel is the number of records,
    so that none is left with none to drop. *)
Fixpoint encode_page (hash : string -> string) (fuel : nat) (p : ExportPage) (records : list ReplicaRecord) : option ExportPage :=
  let page := page_with p records in
  if byte_length (marshal (ExportPage_json page)) <=? ReplicaPageBytes
  then if ValidatePage hash page then Some page else None
  else match fuel with O => None | S fuel' => encode_page hash fuel' p (removelast records) end.
Definition encodeHistoryExportPage (hash : string -> string) (p : ExportPage) (records : list ReplicaRecord) : option ExportPage :=
  encode_page hash (List.length records) p records.

Definition stream_page (streamID : string) (after limit : Z) (db : Db) : list json :=
  List.map rrr_json (take (Z.to_nat limit) (List.filter (fun r => after <? rrr_seq r) (stream_rows streamID db))).
Definition valid_export_query (node owner : string) (i : StreamIdentity) (after limit : Z) : bool :=
  ValidIdentity i && (sid_owner i =s owner) && (sid_node i =s node) && negb (sid_dialog i =s "") && (0 <=? after)
  && (after <=? MaximumSafeInteger) && (1 <=? limit) && (limit <=? ReplicaPageSize).

Definition ExportHistory (trust : TrustContext) (i : StreamIdentity) (after limit : Z) : M Result :=
  authorizeRead trust ;;
  node ← ask cfg_node;
  owner ← ask cfg_owner;
  hash ← ask sha256_hex;
  if negb (valid_export_query node owner i after limit) then Invalid "history export query is invalid" else
  let streamID := StreamID hash i in
  or_not_durable begin "history export is unavailable" streamID ;;
  or_not_durable loadState "history export identity is unavailable" streamID ;;
  s ← get st;
  if negb (NodeID s =s sid_node i) || negb (OwnerID s =s sid_owner i)
  then answer 503 "not_durable" "history export identity is unavailable" streamID None "" else
  checkpoint ← catch (materializeHistoryReplica i streamID) (fun e => match e with
    | NoRows => answer 404 "not_found" "dialog was not found" (sid_dialog i) None ""
    | _ => answer 503 "not_durable" "history export is unavailable" streamID None ""
    end);
  if ThroughSeq checkpoint <? after
  then answer 409 "stale" "history export cursor is ahead of the durable checkpoint" streamID None "" else
  rows ← or_not_durable (query (stream_page streamID after limit)) "history export page is unavailable" streamID;
  match sequence (List.map ReplicaRecord_of_json rows) with
  | None => answer 503 "not_durable" "history export record is invalid" streamID None ""
  | Some records =>
      match encodeHistoryExportPage hash (mkExportPage ReplicaSchemaID ReplicaSchemaSHA256 streamID i after [] None checkpoint) records with
      | None => answer 503 "not_durable" "history export proof is invalid" streamID None ""
      | Some page =>
          or_not_durable commit "history export commit failed" streamID ;;
          mret (mkResult 200 (ExportPage_json page) true)
      end
  end.
