(* ===== verification/Observe.v ===== *)
(** * Adapter observations, [runtime/observe.go]
    [ObserveAdapterEvent] projects one event of the adapter's stream into the
    durable store: once per projection key, within the output budget, and into
    the archive of late observations when the attempt no longer holds the slot. *)
From stdpp Require Import base tactics list strings gmap pretty.
From Stdlib Require Import ZArith Lia Ascii String.
From S2P Require Import Prelude Json Wire Store Tx Adapter Events Commands Barrier Hold TranscriptView Capture Budget.
Open Scope string_scope.
Open Scope list_scope.
Open Scope Z_scope.
Open Scope harness_scope.

(** ** Projections *)
Inductive projection_payload :=
  | PStarted (request : string) (generation : Z)
  | PWaiting (request : string) (generation : Z) (kind : string)
  | PDelta (message : string) (index : Z) (content : SafeContent)
  | PMessage (message : string) (content : SafeContent) (finish : string)
  | PToolStarted (call tool hash : string) (input : SafeContent)
  | PToolOutput (call : string) (index : Z) (stream : string) (output : SafeContent)
  | PToolCompleted (call status : string) (result : SafeContent) (effect effectRef : string)
  | PApproval (approval call hash prompt : string)
  | PInput (input : string) (prompt : SafeContent)
  | PCompleted (generation : Z) (output : option string) (usage : option Usage)
  | PFailed (generation : Z) (failure : AdapterFailure) (effect : string)
  | PInterrupted (generation : Z) (effect : string)
  | PUnknown (generation : Z) (reason effect : string).

Definition payload_json (p : projection_payload) : json :=
  match p with
  | PStarted r g => AttemptStartedPayload r g
  | PWaiting r g k => AttemptWaitingPayload r g k
  | PDelta m i c => AssistantDeltaPayload m i c
  | PMessage m c f => AssistantMessagePayload m c f
  | PToolStarted c t h i => ToolStartedPayload c t h i
  | PToolOutput c i s o => ToolOutputPayload c i s o
  | PToolCompleted c s r e ref => ToolCompletedPayload c s r e ref
  | PApproval a c h p => ApprovalRequestedPayload a c h p
  | PInput i p => InputRequestedPayload i p
  | PCompleted g o u => AttemptCompletedPayload g o u
  | PFailed g f e => AttemptFailedPayload g (fail_class f) (fail_code f) (fail_message f) (fail_retryable f) e
  | PInterrupted g e => AttemptInterruptedPayload g "provider_interrupt" e
  | PUnknown g r e => AttemptUnknownPayload g r e
  end.

Record archivedTerminalIdentity := mkIdentity {
  id_outcome : ReconcileOutcome; id_output : option SafeContent; id_usage : option Usage;
  id_failure : option AdapterFailure; id_effect : string }.
Definition identity_json (i : archivedTerminalIdentity) : json :=
  JObj (terminal_members (id_outcome i) (id_output i) (id_usage i) (id_failure i) (id_effect i)).

(** What is hashed when it is not the payload. *)
Inductive hash_payload := HashPayload (p : projection_payload) | HashIdentity (i : archivedTerminalIdentity).

Record adapterProjection := mkProjection {
  pj_type : string; pj_entity : string; pj_version : Z; pj_payload : projection_payload; pj_hash : option hash_payload;
  pj_key : string; pj_limit : bool; pj_marker : bool }.
#[export] Instance projection_eta : Eta adapterProjection := fun r =>
  mkProjection (pj_type r) (pj_entity r) (pj_version r) (pj_payload r) (pj_hash r) (pj_key r) (pj_limit r) (pj_marker r).

(** ** Digests *)
Definition adapterProjectionHash (payload : json) : M string := digest ← ask sha256_hex; mret (digest (marshal payload)).
Definition hashed_json (p : adapterProjection) : json :=
  match pj_hash p with
  | None => payload_json (pj_payload p)
  | Some (HashPayload q) => payload_json q
  | Some (HashIdentity i) => identity_json i
  end.
Definition adapterProjectionDigest (p : adapterProjection) : M string := adapterProjectionHash (hashed_json p).
Definition safeContentEqual (left right : SafeContent) : M bool :=
  l ← adapterProjectionHash (SafeContent_json left); r ← adapterProjectionHash (SafeContent_json right); mret (l =s r).

(** The stored hash of a projection key; the column is scanned into a string. *)
Definition stored_hash_of (attempt key : string) (db : Db) : option (option string) :=
  evt_hash <$> select1 (event_projects attempt key) (events db).
Definition scan_text (o : option string) : M string :=
  match o with Some s => mret s | None => fail (Broken "sql: converting NULL to string is unsupported") end.

Definition adapterProjectionExists (attemptID : string) (p : adapterProjection) : M bool :=
  want ← adapterProjectionDigest p;
  row ← query (stored_hash_of attemptID (pj_key p));
  match row with
  | None => mret false
  | Some hash =>
      stored ← scan_text hash;
      if stored =s want then mret true else fail (Broken "conflicting duplicate adapter event")
  end.

Definition recordAdapterProjection (eventSeq : Z) (attemptID : string) (p : adapterProjection) : M unit :=
  if pj_key p =s "" then mret tt else
  hash ← adapterProjectionDigest p;
  changed ← exec_changed (bind_projection (fun e => (evt_seq e =? eventSeq) && is_text (evt_attempt e) attemptID) (pj_key p) (Some hash));
  if changed =? 1 then mret tt else fail (Broken "adapter projection event binding failed").

Definition validateAdapterProjectionEnvelope (s : durableState) (reference : AttemptRef) (p : adapterProjection) : M unit :=
  observed ← now;
  if Validate "event" (document_of (EventEnvelope (NodeID s) (LastEventSeq s + 1) (Epoch s) (pj_type p) (pj_entity p) (pj_version p)
                                     (ref_attempt reference) (ref_dialog reference) observed (payload_json (pj_payload p))))
  then mret tt else fail (Broken "event envelope is invalid").

(** The answer of a charge: [None] when the projection is a duplicate. *)
Definition charge_projection (s : durableState) (reference : AttemptRef) (p : adapterProjection) (bytes : Z) : M (option outputCharge) :=
  validateAdapterProjectionEnvelope s reference p ;;
  duplicate ← adapterProjectionExists (ref_attempt reference) p;
  if (duplicate : bool) then mret None else
  charge ← chargeAttemptOutput (ref_attempt reference) bytes; mret (Some charge).
Definition chargeSafeAdapterProjection (s : durableState) (reference : AttemptRef) (p : adapterProjection) (content : SafeContent)
    : M (option outputCharge) := charge_projection s reference p (inline_bytes content).
Definition chargeAdapterProjection : durableState -> AttemptRef -> adapterProjection -> Z -> M (option outputCharge) := charge_projection.

(** [validateSafeContentReference]: an artifact reference names a stored one exactly. *)
Definition validateSafeContentReference (reference : AttemptRef) (content : SafeContent) (expectedCall : option string) : M unit :=
  if negb (sc_kind content =s "artifact") then mret tt else
  match sc_size content with
  | None => fail (Broken "artifact safe content is missing size")
  | Some size =>
      a ← query_row (fun db => select1 (fun a => (art_id a =s sc_artifact content) && (art_dialog a =s ref_dialog reference)
                                                && (art_attempt a =s ref_attempt reference)) (artifacts db));
      if negb (art_size a =? size) || negb (art_sha256 a =s sc_sha256 content) || negb (art_redaction a =s sc_redaction content)
         || negb (Bool.eqb (art_truncated a) (sc_truncated content))
         || negb (in_set (art_disposition a) ["inline"; "attachment"])
         || match expectedCall with Some call => negb (default "" (art_call a) =s call) | None => false end
      then fail (Broken "artifact safe content binding mismatch") else mret tt
  end.

(** ** Attempt transitions *)
Definition transitionWaiting (reference : AttemptRef) (attemptVersion : Z) (attemptState waitKind : string) : M unit :=
  if negb (in_set attemptState ["running"; "waiting_input"]) then fail (Broken "attempt cannot enter waiting_input") else
  exec (update_attempt (ref_attempt reference) (fun a => a <| att_version ::= Z.succ |> <| att_state := "waiting_input" |>)) ;;
  setst (fun s => s <| StateVersion ::= Z.succ |>) ;;
  appendEvent "attempt.waiting_input" (ref_attempt reference) (attemptVersion + 1) (ref_attempt reference) (ref_dialog reference)
    (AttemptWaitingPayload (ref_request reference) (ref_generation reference) waitKind) false ;;
  mret tt.

Definition scheduleOutputLimitStop (reference : AttemptRef) : M unit :=
  s ← get st;
  if negb (is_text (ActiveAttemptID s) (ref_attempt reference)) then mret tt else
  a ← attempt_by_id (ref_attempt reference);
  if negb (att_generation a =? ref_generation reference) || negb (in_set (att_state a) ["running"; "waiting_input"]) then mret tt else
  commandID ← newID;
  exec (update_attempt (ref_attempt reference) (fun a => a <| att_version ::= Z.succ |> <| att_state := "stopping" |>)) ;;
  setst (fun s => s <| StateVersion ::= Z.succ |>) ;;
  appendEvent "attempt.stop_requested" (ref_attempt reference) (att_version a + 1) (ref_attempt reference) (ref_dialog reference)
    (AttemptStopRequestedPayload (ref_generation reference) commandID) false ;;
  exec (insert_action (mkAction commandID CommandAttemptStop (ref_attempt reference) None None
                         (attempt_scope_payload (ref_generation reference) (ref_dialog reference) (ref_request reference)) "pending")).

Definition setAttemptUnknown (reference : AttemptRef) (reason effectStatus : string) : M unit :=
  a ← query_row (fun db => select1 (fun a => (att_id a =s ref_attempt reference) && (att_generation a =? ref_generation reference)) (attempts db));
  if att_state a =s "unknown" then mret tt else
  let effect := if effectStatus =s "" then "unknown" else effectStatus in
  exec (update_attempt (ref_attempt reference) (fun a => a <| att_version ::= Z.succ |> <| att_state := "unknown" |> <| att_effect := effect |>)) ;;
  t ← now;
  exec (update_request (ref_request reference) (fun r => r <| req_version ::= Z.succ |> <| req_status := "unknown" |> <| req_updated := t |>)) ;;
  setst (fun s => s <| StateVersion ::= Z.succ |> <| EngineReadiness := "unknown" |> <| Occupancy := "unknown" |>
                    <| ActiveAttemptID := Some (ref_attempt reference) |> <| BlockedReasons ::= fun l => addReason l "execution_unknown" |>) ;;
  appendEvent "attempt.unknown" (ref_attempt reference) (att_version a + 1) (ref_attempt reference) (ref_dialog reference)
    (AttemptUnknownPayload (ref_generation reference) reason effect) false ;;
  appendNodeEvent.

(** ** Archived events *)
Definition late_terminal (reference : AttemptRef) (version : Z) (outcome : ReconcileOutcome) (output : option SafeContent)
    (usage : option Usage) (failure : option AdapterFailure) (effectStatus : string) : option adapterProjection :=
  let effect := if effectStatus =s "" then "none" else effectStatus in
  let identity := HashIdentity (mkIdentity outcome output usage failure effect) in
  let projection type payload := mkProjection type (ref_attempt reference) version payload (Some identity) "archive:terminal" false false in
  match outcome with
  | ReconcileCompleted => Some (projection "attempt.completed" (PCompleted (ref_generation reference) None usage))
  | ReconcileFailed => f ← failure; Some (projection "attempt.failed" (PFailed (ref_generation reference) f effect))
  | ReconcileInterrupted => Some (projection "attempt.interrupted" (PInterrupted (ref_generation reference) effect))
  | _ => None
  end.

Definition prepareLateProjection (e : Event) (version : Z) : option adapterProjection :=
  let reference := event_reference e in
  let attempt := ref_attempt reference in
  let projection type entity version payload key := Some (mkProjection type entity version payload (Some (HashPayload payload)) key false false) in
  match event_kind e with
  | StartedEvent => projection "attempt.started" attempt version (PStarted (ref_request reference) (ref_generation reference)) "archive:started"
  | WaitingEvent kind =>
      projection "attempt.waiting_input" attempt version (PWaiting (ref_request reference) (ref_generation reference) kind)
        ("archive:waiting:" +:+ itoa version)
  | AssistantDeltaEvent m i c => projection "assistant.delta" m (i + 1) (PDelta m i c) ("archive:assistant.delta:" +:+ m +:+ ":" +:+ itoa i)
  | AssistantMessageEvent m c finish _ _ => projection "assistant.message" m 1 (PMessage m c finish) ("archive:assistant.message:" +:+ m)
  | ToolStartedEvent call tool hash input _ _ => projection "tool.started" call 1 (PToolStarted call tool hash input) ("archive:tool.started:" +:+ call)
  | ToolOutputEvent call i stream output _ _ =>
      projection "tool.output" call (i + 1) (PToolOutput call i stream output) ("archive:tool.output:" +:+ call +:+ ":" +:+ itoa i)
  | ToolCompletedEvent call status result effect effectRef _ _ =>
      projection "tool.completed" call 1 (PToolCompleted call status result effect effectRef) ("archive:tool.completed:" +:+ call)
  | ApprovalRequestedEvent a call hash prompt => projection "approval.requested" a 1 (PApproval a call hash prompt) ("archive:approval.requested:" +:+ a)
  | InputRequestedEvent i prompt => projection "input.requested" i 1 (PInput i prompt) ("archive:input.requested:" +:+ i)
  | TerminalEvent outcome output usage failure effect => late_terminal reference version outcome output usage failure effect
  | UnknownEvent reason effect => projection "attempt.unknown" attempt version (PUnknown (ref_generation reference) reason effect) "archive:unknown"
  end.

(** The content an archived event carries, and the call it must be bound to. *)
Definition event_content (k : EventKind) : option (SafeContent * option string) :=
  match k with
  | AssistantDeltaEvent _ _ c | AssistantMessageEvent _ c _ _ _ => Some (c, None)
  | ToolStartedEvent call _ _ c _ _ | ToolOutputEvent call _ _ c _ _ | ToolCompletedEvent call _ c _ _ _ _ => Some (c, Some call)
  | InputRequestedEvent _ c => Some (c, None)
  | TerminalEvent _ (Some c) _ _ _ => Some (c, None)
  | _ => None
  end.
Definition validateAdapterEventSafeContent (reference : AttemptRef) (e : Event) : M unit :=
  match event_content (event_kind e) with
  | Some (content, call) => if sc_kind content =s "" then mret tt else validateSafeContentReference reference content call
  | None => mret tt
  end.

Definition tool_call (reference : AttemptRef) (call : string) : M tool_row :=
  query_row (fun db => select1 (fun t => (tool_id t =s call) && (tool_attempt t =s ref_attempt reference)) (tool_calls db)).

Definition validateArchivedAdapterEvent (s : durableState) (e : Event) (p : adapterProjection) : M unit :=
  let reference := event_reference e in
  validateAdapterEventSafeContent reference e ;;
  match event_kind e with
  | ToolOutputEvent call _ _ _ _ _ | ToolCompletedEvent call _ _ _ _ _ _ => tool_call reference call ;; mret tt
  | ApprovalRequestedEvent _ call hash _ =>
      t ← tool_call reference call;
      if tool_hash t =s hash then mret tt else fail (Broken "archived approval action hash mismatch")
  | TerminalEvent _ _ _ _ effect =>
      if in_set effect ["none"; "known"; "unknown"] then mret tt else fail (Broken "archived terminal effect status is invalid")
  | _ => mret tt
  end ;;
  validateAdapterProjectionEnvelope s reference p.

(** The assistant message an attempt ended with. *)
Definition last_assistant (attempt : string) (db : Db) : option message_row :=
  let rows := List.filter (fun m => is_text (msg_attempt m) attempt && (msg_role m =s "assistant")) (messages db) in
  first_by (fun m => - msg_sequence m) rows.
Definition stored_content (m : message_row) : option SafeContent := c ← msg_content m; SafeContent_of_json c.

(** [activeTerminalProjectionDigest]: the empty digest matches nothing. *)
Definition activeTerminalProjectionDigest (attemptID : string) (p : adapterProjection) : M string :=
  match pj_payload p with
  | PCompleted generation _ usage =>
      let output := match pj_hash p with Some (HashIdentity i) => id_output i | _ => None end in
      row ← query (last_assistant attemptID);
      match row with
      | Some m =>
          same ← match output with
                 | None => mret true
                 | Some o => match stored_content m with Some stored => safeContentEqual stored o | None => mret false end
                 end;
          if (same : bool) then adapterProjectionDigest (p <| pj_payload := PCompleted generation (Some (msg_id m)) usage |> <| pj_hash := None |>)
          else mret ""
      | None => match output with
                | Some _ => mret ""
                | None => adapterProjectionDigest (p <| pj_hash := None |>)
                end
      end
  | _ => adapterProjectionDigest (p <| pj_hash := None |>)
  end.

Definition trim_prefix (prefix s : string) : string :=
  if String.prefix prefix s then String.substring (String.length prefix) (String.length s - String.length prefix) s else s.

Definition late_hash_of (attempt key : string) (db : Db) : option (option string) :=
  late_hash <$> select1 (fun l => (late_attempt l =s attempt) && is_text (late_key l) key) (late_observations db).

Definition same_or_conflict (want : string) (row : option (option string)) : M bool :=
  match row with
  | None => mret false
  | Some hash => stored ← scan_text hash;
                 if stored =s want then mret true else fail (Broken "conflicting duplicate archived adapter event")
  end.

Definition archivedProjectionExists (attemptID : string) (p : adapterProjection) : M bool :=
  want ← adapterProjectionDigest p;
  exact ← query (fun db => exists_where (fun e => is_text (evt_attempt e) attemptID && is_text (evt_hash e) want
                                                  && match evt_key e with Some _ => true | None => false end) (events db));
  if (exact : bool) then mret true else
  let suffix := trim_prefix "archive:" (pj_key p) in
  let terminal := (suffix =s "terminal") || String.prefix "terminal:" suffix in
  let activeKey := if String.prefix "terminal:" suffix then "terminal" else if suffix =s "unknown" then "" else suffix in
  row ← (if activeKey =s "" then mret None else query (stored_hash_of attemptID activeKey));
  known ← match row with
          | None => mret false
          | Some hash =>
              stored ← scan_text hash;
              compatible ← (if terminal then digest ← activeTerminalProjectionDigest attemptID p; mret (stored =s digest) else mret false);
              if (compatible : bool) then mret true
              else if negb (stored =s want) && negb terminal && negb (String.prefix "waiting:" activeKey)
              then fail (Broken "conflicting duplicate archived adapter event")
              else mret false
          end;
  if (known : bool) then mret true else
  row ← query (stored_hash_of attemptID (pj_key p));
  found ← same_or_conflict want row;
  if (found : bool) then mret true else
  row ← query (late_hash_of attemptID (pj_key p));
  same_or_conflict want row.

Definition archivedAdapterOutputBytes (k : EventKind) : Z :=
  match k with
  | AssistantDeltaEvent _ _ c | AssistantMessageEvent _ c _ _ _ | ToolStartedEvent _ _ _ c _ _ | ToolOutputEvent _ _ _ c _ _
  | ToolCompletedEvent _ _ c _ _ _ _ | InputRequestedEvent _ c => inline_bytes c
  | TerminalEvent _ output _ failure _ =>
      match failure with Some f => byte_length (fail_message f) | None => 0 end
      + match output with Some c => inline_bytes c | None => 0 end
  | ApprovalRequestedEvent _ _ _ prompt => byte_length prompt
  | _ => 0
  end.

Definition archivedOutputLimitProjection (p : adapterProjection) : M adapterProjection :=
  let limited := outputLimitContent in
  match pj_payload p with
  | PDelta m i _ => mret (p <| pj_payload := PDelta m i limited |>)
  | PMessage m _ f => mret (p <| pj_payload := PMessage m limited f |>)
  | PToolStarted c t h _ => mret (p <| pj_payload := PToolStarted c t h limited |>)
  | PToolOutput c i s _ => mret (p <| pj_payload := PToolOutput c i s limited |>)
  | PToolCompleted c s _ e r => mret (p <| pj_payload := PToolCompleted c s limited e r |>)
  | PInput i _ => mret (p <| pj_payload := PInput i limited |>)
  | _ => messageID ← newID;
         mret (p <| pj_type := "assistant.message" |> <| pj_entity := messageID |> <| pj_version := 1 |>
                 <| pj_payload := PMessage messageID limited "length" |>)
  end.

Definition assistant_message (reference : AttemptRef) (message finish : string) (content : SafeContent) : M unit :=
  s ← get st; t ← now;
  exec (insert_message (mkMessage message (ref_dialog reference) (NextMessageSequence s) 1 "assistant" None (Some (SafeContent_json content))
                          None None None (Some (ref_attempt reference)) (Some finish) t)) ;;
  setst (fun s => s <| NextMessageSequence ::= Z.succ |>).

Definition appendAdapterOutputLimitMarker (reference : AttemptRef) (source : adapterProjection) : M unit :=
  messageID ← newID;
  assistant_message reference messageID "length" outputLimitContent ;;
  setst (fun s => s <| StateVersion ::= Z.succ |>) ;;
  appendEvent "assistant.message" messageID 1 (ref_attempt reference) (ref_dialog reference)
    (AssistantMessagePayload messageID outputLimitContent "length") false ;;
  s ← get st;
  recordAdapterProjection (LastEventSeq s) (ref_attempt reference) source.

Section Observe.
Context {T : SafeText}.

(** [suppressed] events are archived without an event of the log. *)
Definition archiveAdapterEvent (e : Event) (attemptVersion : Z) (suppressed : bool) (kindOverride : string) : M unit :=
  let reference := event_reference e in
  match prepareLateProjection e attemptVersion with
  | None => fail (Broken "unsupported late adapter event")
  | Some p =>
      s ← get st;
      validateArchivedAdapterEvent s e p ;;
      duplicate ← archivedProjectionExists (ref_attempt reference) p;
      if (duplicate : bool) then validateAdapterEventSafeTextReplay reference e else
      captureAdapterEventSafeText reference e ;;
      charged ← chargeArchivedAttemptOutput (ref_attempt reference) (archivedAdapterOutputBytes (event_kind e));
      let '(charge, ledgerBytes) := charged in
      if Exceeded charge && negb (NewlyExceeded charge) then mret tt else
      archived ← (if NewlyExceeded charge
                  then p' ← archivedOutputLimitProjection p;
                       validateAdapterProjectionEnvelope s reference p' ;; mret p'
                  else mret p);
      (if suppressed then mret tt else
       appendEvent (pj_type archived) (pj_entity archived) (pj_version archived) (ref_attempt reference) (ref_dialog reference)
         (payload_json (pj_payload archived)) true ;;
       s ← get st;
       recordAdapterProjection (LastEventSeq s) (ref_attempt reference) p) ;;
      hash ← adapterProjectionDigest p;
      let kind := if kindOverride =s "" then (if suppressed then "suppressed." +:+ pj_type p else pj_type p) else kindOverride in
      s ← get st;
      t ← now;
      exec (insert_late (mkLate (ref_attempt reference) (ref_generation reference) kind
                           (if NewlyExceeded charge then SafeContent_json outputLimitContent else Event_json e)
                           (LastEventSeq s) t (Some (pj_key p)) (Some hash) ledgerBytes)) ;;
      if NewlyExceeded charge then scheduleOutputLimitStop reference else mret tt
  end.

(** ** Terminal events *)
Definition unresolved_responses (attempt : string) (db : Db) : Z :=
  count_where (fun c => (act_attempt c =s attempt)
                        && in_set (act_kind c) [CommandMessageSteer; CommandApprovalRespond; CommandInputRespond]
                        && in_set (act_status c) ["pending"; "inflight"; "unknown"]) (control_actions db).

(** The output of a completed attempt, and the agreement of the event's output
    with the durable assistant message. *)
Definition terminal_output (reference : AttemptRef) (output : option SafeContent) : M (option string) :=
  row ← query (last_assistant (ref_attempt reference));
  match row with
  | Some m =>
      match output with
      | None => mret tt
      | Some o =>
          match stored_content m with
          | None => fail (Broken "terminal output does not match assistant message")
          | Some stored =>
              marker ← safeContentEqual stored outputLimitContent;
              limited ← (if (marker : bool) then attemptOutputExceeded (ref_attempt reference) else mret false);
              if (limited : bool) then mret tt else
              same ← safeContentEqual stored o;
              if (same : bool) then mret tt else fail (Broken "terminal output does not match assistant message")
          end
      end ;;
      mret (Some (msg_id m))
  | None =>
      match output with
      | None => mret None
      | Some _ =>
          limited ← attemptOutputExceeded (ref_attempt reference);
          if (limited : bool) then mret None else fail (Broken "terminal output has no durable assistant message")
      end
  end.

Definition failure_reason (class : string) : option string :=
  if class =s FailureNode then Some "engine_unavailable"
  else if class =s FailurePolicy then Some "policy_unavailable"
  else if class =s FailureProtocol then Some "adapter_protocol" else None.

(** The node is free again; a failure of its class blocks the engine. *)
Definition release_slot (reason : option string) (s : durableState) : durableState :=
  let reasons := removeReason (BlockedReasons s) "execution_unknown" in
  let reasons := match reason with Some r => addReason reasons r | None => reasons end in
  s <| ActiveAttemptID := None |> <| Occupancy := "idle" |> <| BlockedReasons := reasons |>
    <| EngineReadiness := match reasons with [] => "ready" | _ => "blocked" end |>.

Definition settle_terminal (reference : AttemptRef) (version : Z) (state type effect : string) (payload : projection_payload)
    (reason : option string) : M (option adapterProjection * bool) :=
  let p := mkProjection type (ref_attempt reference) (version + 1) payload None "terminal" false false in
  duplicate ← adapterProjectionExists (ref_attempt reference) p;
  if (duplicate : bool) then mret (None, true) else
  t ← now;
  exec (update_attempt (ref_attempt reference)
          (fun a => a <| att_version ::= Z.succ |> <| att_state := state |> <| att_effect := effect |> <| att_finished := Some t |>)) ;;
  exec (update_request (ref_request reference) (fun r => r <| req_version ::= Z.succ |> <| req_status := state |> <| req_updated := t |>)) ;;
  setst (release_slot reason) ;;
  mret (Some p, true).

Definition prepareTerminalProjection (reference : AttemptRef) (version : Z) (outcome : ReconcileOutcome)
    (output : option SafeContent) (usage : option Usage) (failure : option AdapterFailure) (effect : string)
    : M (option adapterProjection * bool) :=
  if negb (in_set effect ["none"; "known"; "unknown"]) then fail (Broken "adapter terminal effect status is invalid") else
  unresolved ← query (unresolved_responses (ref_attempt reference));
  if (0 <? unresolved) || (effect =s "unknown") then
    setAttemptUnknown reference "provider_state" "unknown" ;;
    a ← attempt_by_id (ref_attempt reference);
    archiveAdapterEvent (mkAdapterEvent reference (TerminalEvent outcome output usage failure effect)) (att_version a) true
      "terminal_while_steer_unresolved" ;;
    mret (None, true)
  else
  match outcome with
  | ReconcileCompleted =>
      message ← terminal_output reference output;
      settle_terminal reference version "completed" "attempt.completed" effect (PCompleted (ref_generation reference) message usage) None
  | ReconcileFailed =>
      match failure with
      | None => fail (Broken "failed terminal is missing failure")
      | Some f => settle_terminal reference version "failed" "attempt.failed" effect (PFailed (ref_generation reference) f effect)
                    (failure_reason (fail_class f))
      end
  | ReconcileInterrupted =>
      settle_terminal reference version "interrupted" "attempt.interrupted" effect (PInterrupted (ref_generation reference) effect) None
  | ReconcileUnknown => setAttemptUnknown reference "provider_state" effect ;; mret (None, true)
  | _ => fail (Broken "adapter terminal outcome is not terminal")
  end.

(** ** Preparing a projection *)
(** A charged projection: dropped as a duplicate or over the budget, replaced by
    the limit marker when this one crossed it, or taken as it is. *)
Definition charged (charge : option outputCharge) (p limited : adapterProjection) : option adapterProjection :=
  match charge with
  | None => None
  | Some c => if Exceeded c then (if NewlyExceeded c then Some limited else None) else Some p
  end.
Definition limit_payload (payload : projection_payload) (p : adapterProjection) : adapterProjection :=
  p <| pj_payload := payload |> <| pj_limit := true |>.
Definition own_projection (type entity : string) (version : Z) (payload : projection_payload) (key : string) : adapterProjection :=
  mkProjection type entity version payload (Some (HashPayload payload)) key false false.

(** The projection with its content limited, when the event is not dropped. *)
Definition charge_content (reference : AttemptRef) (content : SafeContent) (p : adapterProjection)
    (limited : projection_payload) : M (option adapterProjection) :=
  s ← get st;
  charge ← chargeSafeAdapterProjection s reference p content;
  mret (charged charge p (limit_payload limited p)).

Definition prepareWaiting (reference : AttemptRef) (version : Z) (state kind : string) : M (option adapterProjection) :=
  if negb (in_set kind ["approval"; "input"]) then fail (Broken "adapter wait kind is invalid") else
  if state =s "waiting_input" then mret None else
  if state =s "running" then
    exec (update_attempt (ref_attempt reference) (fun a => a <| att_version ::= Z.succ |> <| att_state := "waiting_input" |>)) ;;
    mret (Some (mkProjection "attempt.waiting_input" (ref_attempt reference) (version + 1)
                  (PWaiting (ref_request reference) (ref_generation reference) kind) None ("waiting:" +:+ itoa (version + 1)) false false))
  else fail (Broken "attempt cannot enter waiting_input").

Definition prepareAssistantMessage (reference : AttemptRef) (message : string) (content : SafeContent) (finish : string)
    : M (option adapterProjection) :=
  validateSafeContentReference reference content None ;;
  taken ← charge_content reference content
            (own_projection "assistant.message" message 1 (PMessage message content finish) ("assistant.message:" +:+ message))
            (PMessage message outputLimitContent finish);
  match taken with
  | None => mret None
  | Some p =>
      assistant_message reference message finish (if pj_limit p then outputLimitContent else content) ;;
      mret (Some p)
  end.

Definition prepareToolStarted (reference : AttemptRef) (call tool hash : string) (input : SafeContent) : M (option adapterProjection) :=
  validateSafeContentReference reference input (Some call) ;;
  taken ← charge_content reference input
            (own_projection "tool.started" call 1 (PToolStarted call tool hash input) ("tool.started:" +:+ call))
            (PToolStarted call tool hash outputLimitContent);
  match taken with
  | None => mret None
  | Some p =>
      exec (insert_tool (mkTool call (ref_attempt reference) hash 1 "running"
              (SafeContent_json (if pj_limit p then outputLimitContent else input)) None None)) ;;
      mret (Some p)
  end.

Definition prepareToolOutput (reference : AttemptRef) (call : string) (index : Z) (stream : string) (output : SafeContent)
    : M (option adapterProjection) :=
  validateSafeContentReference reference output (Some call) ;;
  tool_call reference call ;;
  charge_content reference output
    (own_projection "tool.output" call (index + 1) (PToolOutput call index stream output) ("tool.output:" +:+ call +:+ ":" +:+ itoa index))
    (PToolOutput call index stream outputLimitContent).

Definition prepareToolCompleted (reference : AttemptRef) (call status : string) (result : SafeContent) (effect effectRef : string)
    : M (option adapterProjection) :=
  validateSafeContentReference reference result (Some call) ;;
  t ← tool_call reference call;
  taken ← charge_content reference result
            (own_projection "tool.completed" call (tool_version t + 1) (PToolCompleted call status result effect effectRef)
               ("tool.completed:" +:+ call))
            (PToolCompleted call status outputLimitContent effect effectRef);
  match taken with
  | None => mret None
  | Some p =>
      exec (update_tool call (fun t => t <| tool_version ::= Z.succ |> <| tool_status := status |>
              <| tool_result := Some (SafeContent_json (if pj_limit p then outputLimitContent else result)) |>
              <| tool_effect_ref := nullText effectRef |>)) ;;
      mret (Some p)
  end.

Definition prepareApproval (reference : AttemptRef) (version : Z) (state approval call hash prompt : string) : M (option adapterProjection) :=
  t ← tool_call reference call;
  if negb (tool_hash t =s hash) then fail (Broken "approval action hash mismatch") else
  let p := own_projection "approval.requested" approval 1 (PApproval approval call hash prompt) ("approval.requested:" +:+ approval) in
  s ← get st;
  charge ← chargeAdapterProjection s reference p (byte_length prompt);
  match charge with
  | None => mret None
  | Some c =>
      if Exceeded c then mret (if NewlyExceeded c then Some (p <| pj_limit := true |> <| pj_marker := true |>) else None) else
      exec (insert_approval (mkApproval approval (ref_attempt reference) call hash 1 "pending" None None)) ;;
      transitionWaiting reference version state "approval" ;;
      mret (Some p)
  end.

Definition prepareInput (reference : AttemptRef) (version : Z) (state input : string) (prompt : SafeContent) : M (option adapterProjection) :=
  validateSafeContentReference reference prompt None ;;
  taken ← charge_content reference prompt
            (own_projection "input.requested" input 1 (PInput input prompt) ("input.requested:" +:+ input))
            (PInput input outputLimitContent);
  match taken with
  | None => mret None
  | Some p =>
      exec (insert_input (mkInput input (ref_attempt reference) 1 "pending"
              (SafeContent_json (if pj_limit p then outputLimitContent else prompt)) None)) ;;
      (if pj_limit p then mret tt else transitionWaiting reference version state "input") ;;
      mret (Some p)
  end.

(** [None] is the empty projection: there is nothing to append. *)
Definition prepareProjection (reference : AttemptRef) (version : Z) (state : string) (e : Event) : M (option adapterProjection * bool) :=
  let open_ m := p ← m; mret (p, false) in
  match event_kind e with
  | StartedEvent =>
      mret (Some (mkProjection "attempt.started" (ref_attempt reference) version
                    (PStarted (ref_request reference) (ref_generation reference)) None "started" false false), false)
  | WaitingEvent kind => open_ (prepareWaiting reference version state kind)
  | AssistantDeltaEvent m i content =>
      open_ (validateSafeContentReference reference content None ;;
             charge_content reference content
               (own_projection "assistant.delta" m (i + 1) (PDelta m i content) ("assistant.delta:" +:+ m +:+ ":" +:+ itoa i))
               (PDelta m i outputLimitContent))
  | AssistantMessageEvent m content finish _ _ => open_ (prepareAssistantMessage reference m content finish)
  | ToolStartedEvent call tool hash input _ _ => open_ (prepareToolStarted reference call tool hash input)
  | ToolOutputEvent call i stream output _ _ => open_ (prepareToolOutput reference call i stream output)
  | ToolCompletedEvent call status result effect effectRef _ _ => open_ (prepareToolCompleted reference call status result effect effectRef)
  | ApprovalRequestedEvent a call hash prompt => open_ (prepareApproval reference version state a call hash prompt)
  | InputRequestedEvent i prompt => open_ (prepareInput reference version state i prompt)
  | TerminalEvent outcome output usage failure effect => prepareTerminalProjection reference version outcome output usage failure effect
  | UnknownEvent reason effect => setAttemptUnknown reference reason effect ;; mret (None, true)
  end.

(** ** Projecting *)
(** Whether the event ended the attempt, and whether the action loop is woken. *)
Definition projectAdapterEvent (reference : AttemptRef) (version : Z) (state : string) (e : Event) : M (bool * bool) :=
  validateAdapterEventSafeTextReplay reference e ;;
  prepared ← prepareProjection reference version state e;
  let '(projection, terminal) := prepared in
  match projection with
  | None => mret (terminal, false)
  | Some p =>
      duplicate ← adapterProjectionExists (ref_attempt reference) p;
      if (duplicate : bool) then validateAdapterEventSafeTextReplay reference e ;; mret (terminal, false) else
      captureAdapterEventSafeText reference e ;;
      if pj_marker p then
        appendAdapterOutputLimitMarker reference p ;;
        scheduleOutputLimitStop reference ;;
        mret (false, true)
      else
        setst (fun s => s <| StateVersion ::= Z.succ |>) ;;
        appendEvent (pj_type p) (pj_entity p) (pj_version p) (ref_attempt reference) (ref_dialog reference) (payload_json (pj_payload p)) false ;;
        s ← get st;
        recordAdapterProjection (LastEventSeq s) (ref_attempt reference) p ;;
        (if pj_limit p then scheduleOutputLimitStop reference else mret tt) ;;
        (if (terminal : bool) then appendNodeEvent else mret tt) ;;
        mret (terminal, pj_limit p)
  end.

Definition live_attempt (attempt : string) (db : Db) : option attempt_row :=
  select1 (fun a => (att_id a =s attempt) && negb (dialog_deleted db (att_dialog a))) (attempts db).
Definition attempt_reference (s : durableState) (a : attempt_row) : AttemptRef :=
  mkRef (NodeID s) (att_dialog a) (att_request a) (att_id a) (att_generation a).

Definition observe_locked (expected : AttemptRef) (e : Event) : M unit :=
  begin ;;
  loadState ;;
  s ← get st;
  a ← query_row (live_attempt (ref_attempt expected));
  if negb (bool_decide (attempt_reference s a = expected)) then fail (Broken "adapter event durable scope mismatch") else
  if in_set (att_state a) ["stopping"; "unknown"] && isInteractiveWaitEvent e then
    archiveAdapterEvent e (att_version a) true "" ;;
    checkFault FaultBeforeCommit ;;
    retainForCommit ;;
    commit
  else if negb (is_text (ActiveAttemptID s) (ref_attempt expected)) || negb (active_attempt a) then
    archiveAdapterEvent e (att_version a) false "" ;;
    saveState ;;
    checkFault FaultBeforeCommit ;;
    retainForCommit ;;
    commit
  else
    done ← projectAdapterEvent expected (att_version a) (att_state a) e;
    saveState ;;
    checkFault FaultBeforeCommit ;;
    retainForCommit ;;
    commit ;;
    if done.1 || done.2 then afterCommit else mret tt.

Definition ObserveAdapterEvent (expected : AttemptRef) (e : Event) : M unit :=
  if negb (bool_decide (event_reference e = expected)) then fail (Broken "adapter event attempt scope mismatch")
  else with_publication (observe_locked expected e).
End Observe.

(** ** [Observe] and [markAttemptUnknown] *)
Record Observation := mkObservation {
  ob_attempt : string; ob_generation : Z; ob_kind : string; ob_terminal : string; ob_reason : string; ob_effect : string;
  ob_confirmed : bool }.
Definition Observation_json (o : Observation) : json :=
  JObj [("AttemptID", JStr (ob_attempt o)); ("Generation", JInt (ob_generation o)); ("Kind", JStr (ob_kind o));
        ("TerminalState", JStr (ob_terminal o)); ("Reason", JStr (ob_reason o)); ("EffectStatus", JStr (ob_effect o));
        ("Confirmed", JBool (ob_confirmed o))].

Definition terminal_payload (o : Observation) (generation : Z) (code message : string) : option (string * projection_payload) :=
  if ob_terminal o =s "completed" then Some ("attempt.completed", PCompleted generation None None)
  else if ob_terminal o =s "failed" then Some ("attempt.failed", PFailed generation (mkAdapterFailure "task" code message false) (ob_effect o))
  else if ob_terminal o =s "interrupted" then Some ("attempt.interrupted", PInterrupted generation (ob_effect o))
  else None.

Definition applyTerminal (reference : AttemptRef) (version : Z) (o : Observation) : M unit :=
  match terminal_payload o (ref_generation reference) "adapter_failed" "attempt failed" with
  | None => fail (Broken "unsupported terminal state")
  | Some (type, payload) =>
      t ← now;
      exec (update_attempt (ref_attempt reference)
              (fun a => a <| att_version ::= Z.succ |> <| att_state := ob_terminal o |> <| att_effect := ob_effect o |> <| att_finished := Some t |>)) ;;
      exec (update_request (ref_request reference)
              (fun r => r <| req_version ::= Z.succ |> <| req_status := ob_terminal o |> <| req_updated := t |>)) ;;
      setst (fun s => s <| StateVersion ::= Z.succ |> <| ActiveAttemptID := None |> <| Occupancy := "idle" |>
                        <| EngineReadiness := if EngineReadiness s =s "unknown" then "blocked" else EngineReadiness s |>) ;;
      appendEvent type (ref_attempt reference) (version + 1) (ref_attempt reference) (ref_dialog reference) (payload_json payload) false ;;
      appendNodeEvent
  end.

Definition archiveLateObservation (o : Observation) (version : Z) (dialog : string) : M unit :=
  match (if ob_kind o =s "terminal" then terminal_payload o (ob_generation o) "late_failure" "late attempt failure"
         else Some ("attempt.unknown", PUnknown (ob_generation o) "provider_state" (ob_effect o))) with
  | None => fail (Broken "unsupported late terminal state")
  | Some (type, payload) =>
      appendEvent type (ob_attempt o) version (ob_attempt o) dialog (payload_json payload) true ;;
      s ← get st;
      t ← now;
      exec (insert_late (mkLate (ob_attempt o) (ob_generation o) (ob_kind o) (Observation_json o) (LastEventSeq s) t None None 0)) ;;
      saveState ;;
      commit
  end.

Definition ObserveAttempt (o : Observation) : M unit :=
  begin ;;
  loadState ;;
  s ← get st;
  a ← query_row (live_attempt (ob_attempt o));
  if negb (ob_generation o =? att_generation a) || negb (is_text (ActiveAttemptID s) (ob_attempt o))
  then archiveLateObservation o (att_version a) (att_dialog a) else
  let reference := attempt_reference s a in
  (if ob_kind o =s "unknown" then setAttemptUnknown reference (ob_reason o) (ob_effect o)
   else if ob_kind o =s "terminal" then
     if negb (ob_confirmed o) then fail (Broken "unconfirmed terminal observation") else applyTerminal reference (att_version a) o
   else fail (Broken "unsupported observation kind")) ;;
  saveState ;;
  commit ;;
  if ob_kind o =s "terminal" then afterCommit else mret tt.

(** Its errors are dropped: a transaction that failed was rolled back. *)
Definition markAttemptUnknown (reference : AttemptRef) (reason effectStatus : string) : M unit :=
  catch (begin ;;
         loadState ;;
         s ← get st;
         if negb (is_text (ActiveAttemptID s) (ref_attempt reference)) then mret tt else
         setAttemptUnknown reference reason effectStatus ;;
         saveState ;;
         commit) (fun _ => mret tt).
