(* ===== verification/Artifacts.v ===== *)
(** * Artifacts, [runtime/artifact.go] and the reads of [runtime/safe_text.go]
    [StoreArtifact] publishes bytes of the adapter in a file, charges them to the
    attempt and commits a row that references the file; the reads answer a row
    and the bytes of its file, or one chunk of a safe text. *)
From stdpp Require Import base tactics list strings gmap pretty.
From Stdlib Require Import ZArith Lia Ascii String.
From S2P Require Import Prelude Json Parse Wire Store Tx Adapter Events Commands Barrier Hold Submit TranscriptView Read Replay Paging Pages Frames Files SafeText Capture SafeTextStore Budget Observe.
Open Scope string_scope.
Open Scope list_scope.
Open Scope Z_scope.
Open Scope harness_scope.

(** ** The contract *)
Record ArtifactInput := mkArtifactInput {
  in_attempt : AttemptRef; in_call : string; in_name : string; in_media : string; in_redaction : string; in_truncated : bool;
  in_disposition : string }.
Record Metadata := mkMetadata {
  md_protocol : Z; md_schema : string; md_node : string; md_dialog : string; md_attempt : string; md_artifact : string; md_call : string;
  md_name : string; md_media : string; md_size : Z; md_sha256 : string; md_redaction : string; md_truncated : bool;
  md_disposition : string }.
Definition Metadata_json (m : Metadata) : json :=
  JObj ([("protocolVersion", JInt (md_protocol m)); ("schemaId", JStr (md_schema m)); ("nodeId", JStr (md_node m));
         ("dialogId", JStr (md_dialog m)); ("attemptId", JStr (md_attempt m)); ("artifactId", JStr (md_artifact m))]
        ++ optional_member "callId" (md_call m)
        ++ [("name", JStr (md_name m)); ("mediaType", JStr (md_media m)); ("sizeBytes", JInt (md_size m)); ("sha256", JStr (md_sha256 m));
            ("redaction", JStr (md_redaction m)); ("truncated", JBool (md_truncated m)); ("disposition", JStr (md_disposition m))]).
Definition metadata_fields : list (string * field_type) :=
  [("protocolVersion", FieldInt); ("schemaId", FieldString); ("nodeId", FieldString); ("dialogId", FieldString);
   ("attemptId", FieldString); ("artifactId", FieldString); ("callId", FieldString); ("name", FieldString); ("mediaType", FieldString);
   ("sizeBytes", FieldInt); ("sha256", FieldString); ("redaction", FieldString); ("truncated", FieldBool); ("disposition", FieldString)].
Definition Metadata_of_json (v : json) : option Metadata :=
  m ← decodeStruct metadata_fields v;
  Some (mkMetadata (read_int m "protocolVersion") (read_string m "schemaId") (read_string m "nodeId") (read_string m "dialogId")
          (read_string m "attemptId") (read_string m "artifactId") (read_string m "callId") (read_string m "name")
          (read_string m "mediaType") (read_int m "sizeBytes") (read_string m "sha256") (read_string m "redaction")
          (read_bool m "truncated") (read_string m "disposition")).
Record ArtifactBlob := mkBlob { ab_metadata : Metadata; ab_bytes : string }.
Definition ArtifactAvailablePayload (artifact call name media : string) (size : Z) (sha256 redaction : string) (truncated : bool) : json :=
  JObj ([("artifactId", JStr artifact)] ++ optional_member "callId" call
        ++ [("name", JStr name); ("mediaType", JStr media); ("sizeBytes", JInt size); ("sha256", JStr sha256);
            ("redaction", JStr redaction); ("truncated", JBool truncated)]).

(** ** The input *)
Definition boundedArtifactText (value : string) : bool :=
  negb (value =s "") && valid_utf8 value && (rune_count value <=? 200) && (byte_length value <=? 200).
Fixpoint contains_any (p : ascii -> bool) (s : string) : bool :=
  match s with EmptyString => false | String c s' => p c || contains_any p s' end.
(** [/], [\], NUL, CR and LF *)
Definition path_char (c : ascii) : bool := List.existsb (N.eqb (N_of_ascii c)) [47; 92; 0; 13; 10]%N.
Definition valid_artifact_input (node : string) (i : ArtifactInput) (content : string) : bool :=
  negb ((MaximumArtifactBytes <? byte_length content) || negb (ref_node (in_attempt i) =s node)
        || negb (uuidPattern (ref_dialog (in_attempt i))) || negb (uuidPattern (ref_request (in_attempt i)))
        || negb (uuidPattern (ref_attempt (in_attempt i))) || (ref_generation (in_attempt i) <? 1)
        || (negb (in_call i =s "") && negb (uuidPattern (in_call i)))
        || negb (boundedArtifactText (in_name i)) || contains_any path_char (in_name i)
        || negb (boundedArtifactText (in_media i)) || reservedSafeTextArtifact (in_name i) (in_media i)
        || (negb (in_redaction i =s "none") && negb (in_redaction i =s "applied"))
        || (negb (in_disposition i =s "inline") && negb (in_disposition i =s "attachment"))).

(** ** The file *)
Definition temporary_name (artifactID : string) : string := "." +:+ artifactID +:+ ".tmp".
Definition drop_file (name : string) : M unit := catch (io ;; modify (fun c => c <| files ::= without_file name |>)) (fun _ => mret tt).
Definition discard_artifact (artifactID : string) : M unit :=
  drop_file (temporary_name artifactID) ;; drop_file artifactID ;; catch io (fun _ => mret tt).
(** The file that [keep] does not retain is removed when the handler is done;
    the errors of the removal are dropped. *)
Definition discarding {A} (artifactID : string) (m : M A) : M A := fun env x c =>
  let '(r, x', c') := m env x (c <| retained := false |>) in
  if retained c' then (r, x', c') else
  let '(_, x'', c'') := discard_artifact artifactID env x' c' in (r, x'', c'').
Definition keep (b : bool) : M unit := modify (fun c => c <| retained := b |>).

(** Copied and synced, then renamed; the directory is synced last. *)
Definition fill_artifact_file (artifactID content : string) : M unit :=
  io ;; put_file (temporary_name artifactID) content ;;
  io ;; modify (fun c => c <| files ::= without_file (temporary_name artifactID) |>) ;; put_file artifactID content ;;
  io.

(** ** The transaction *)
Definition artifact_limit_projection (message : string) (version : Z) : adapterProjection :=
  mkProjection "assistant.message" message version (PMessage message outputLimitContent "length") None "output_limit:artifact" false false.
Definition appendArtifactOutputLimitMarker (reference : AttemptRef) (attemptVersion : Z) : M unit :=
  messageID ← newID;
  assistant_message reference messageID "length" outputLimitContent ;;
  setst (fun s => s <| StateVersion ::= Z.succ |>) ;;
  s ← get st;
  appendEvent "assistant.message" messageID 1 (ref_attempt reference) (ref_dialog reference)
    (AssistantMessagePayload messageID outputLimitContent "length") (negb (is_text (ActiveAttemptID s) (ref_attempt reference))) ;;
  s ← get st;
  recordAdapterProjection (LastEventSeq s) (ref_attempt reference) (artifact_limit_projection messageID attemptVersion).

Definition artifact_scope (i : ArtifactInput) : M attempt_row :=
  s ← get st;
  a ← query_row (visible_attempt s (ref_attempt (in_attempt i)));
  if negb (att_dialog a =s ref_dialog (in_attempt i)) || negb (att_request a =s ref_request (in_attempt i))
     || negb (att_generation a =? ref_generation (in_attempt i))
  then fail (Broken "artifact attempt scope mismatch") else
  (if in_call i =s "" then mret tt else tool_call (in_attempt i) (in_call i) ;; mret tt) ;;
  mret a.

Definition ErrOutputLimit : err := Broken "attempt output limit exceeded".
(** The first refusal is recorded; its commit keeps no file. *)
Definition artifact_over_budget (i : ArtifactInput) (a : attempt_row) (newly : bool) : M unit :=
  if (newly : bool) then
    appendArtifactOutputLimitMarker (in_attempt i) (att_version a) ;;
    s ← get st;
    (if is_text (ActiveAttemptID s) (ref_attempt (in_attempt i)) && in_set (att_state a) ["running"; "waiting_input"]
     then scheduleOutputLimitStop (in_attempt i) else mret tt) ;;
    saveState ;;
    checkFault FaultBeforeCommit ;;
    keep true ;;
    commit ;;
    afterCommit ;;
    keep false
  else mret tt.

Definition artifact_metadata (s : durableState) (i : ArtifactInput) (dialog artifactID content sha256 : string) : Metadata :=
  mkMetadata 1 SchemaID (NodeID s) dialog (ref_attempt (in_attempt i)) artifactID (in_call i) (in_name i) (in_media i)
    (byte_length content) sha256 (in_redaction i) (in_truncated i) (in_disposition i).
Definition artifact_record (m : Metadata) : artifact_row :=
  mkArtifact (md_artifact m) (md_dialog m) (md_attempt m) (nullText (md_call m)) (md_name m) (md_media m) (md_size m) (md_sha256 m)
    (md_redaction m) (md_truncated m) (md_disposition m) (artifact_path (md_artifact m)).

Definition record_artifact (i : ArtifactInput) (m : Metadata) : M Metadata :=
  valid ← wireResult "artifactMetadata" (Metadata_json m);
  if negb (HTTPStatus valid =? 200) then fail (Broken "artifact metadata violates wire contract") else
  exec (insert_artifact (artifact_record m)) ;;
  appendEvent "artifact.available" (md_artifact m) 1 (ref_attempt (in_attempt i)) (md_dialog m)
    (ArtifactAvailablePayload (md_artifact m) (in_call i) (in_name i) (in_media i) (md_size m) (md_sha256 m) (in_redaction i) (in_truncated i))
    false ;;
  saveState ;;
  checkFault FaultBeforeCommit ;;
  keep true ;;
  commit ;;
  checkFault FaultAfterCommit ;;
  mret m.

Definition store_locked (i : ArtifactInput) (artifactID content : string) : M Metadata :=
  begin ;;
  loadState ;;
  a ← artifact_scope i;
  charge ← chargeAttemptOutput (ref_attempt (in_attempt i)) (byte_length content);
  if Exceeded charge then artifact_over_budget i a (NewlyExceeded charge) ;; fail ErrOutputLimit else
  s ← get st;
  sum ← digestBytes content;
  record_artifact i (artifact_metadata s i (att_dialog a) artifactID content sum).

Definition StoreArtifact (i : ArtifactInput) (content : string) : M Metadata :=
  node ← ask cfg_node;
  if negb (valid_artifact_input node i content) then fail (Broken "artifact input is invalid") else
  artifactID ← newID;
  io ;;
  io ;; put_file (temporary_name artifactID) "" ;;
  discarding artifactID (fill_artifact_file artifactID content ;; store_locked i artifactID content).

(** ** Reading artifacts *)
Definition visible_artifact (s : durableState) (artifactID : string) (db : Db) : option artifact_row :=
  a ← select1 (fun a => (art_id a =s artifactID) && negb (art_disposition a =s "transcript_internal")) (artifacts db);
  if visible_dialog s db (art_dialog a) then Some a else None.
Definition row_metadata (s : durableState) (a : artifact_row) : Metadata :=
  mkMetadata 1 SchemaID (NodeID s) (art_dialog a) (art_attempt a) (art_id a) (artifact_call a) (art_name a) (art_media a) (art_size a)
    (art_sha256 a) (art_redaction a) (art_truncated a) (art_disposition a).
Definition read_metadata_file (relative : string) (m : Metadata) : M string :=
  readArtifactFile relative (md_artifact m) (md_size m) (md_sha256 m).

Definition ArtifactMetadata (trust : TrustContext) (artifactID : string) : M Result :=
  authorizeRead trust ;;
  or_not_durable (autocommit loadState) "artifact is unavailable" artifactID ;;
  s ← get st;
  a ← autocommit (in_read_scope (visible_artifact s artifactID) "artifact was not found" "artifact is unavailable" artifactID);
  or_not_durable (read_metadata_file (art_path a) (row_metadata s a)) "artifact bytes mismatch" artifactID ;;
  wireResult "artifactMetadata" (Metadata_json (row_metadata s a)).

Definition Artifact (trust : TrustContext) (artifactID : string) : M ArtifactBlob :=
  r ← ArtifactMetadata trust artifactID;
  if negb (HTTPStatus r =? 200) then fail (Return r) else
  match Metadata_of_json (Body r) with
  | None => answer 503 "not_durable" "artifact is unavailable" artifactID None ""
  | Some m =>
      a ← or_not_durable (autocommit (query_row (select_artifact artifactID))) "artifact is unavailable" artifactID;
      body ← or_not_durable (read_metadata_file (art_path a) m) "artifact bytes mismatch" artifactID;
      mret (mkBlob m body)
  end.

(** ** Reading safe texts *)
Definition safeTextReference (s : durableState) (dialogID attemptID : string) (db : Db) : option AttemptRef :=
  a ← select1 (fun a => (att_id a =s attemptID) && (att_dialog a =s dialogID)) (attempts db);
  if visible_dialog s db (att_dialog a) then Some (mkRef (NodeID s) dialogID (att_request a) attemptID (att_generation a)) else None.

(** Absent and failing reads of a manifest. *)
Definition or_no_text {A} (m : M A) (message correlation : string) : M A :=
  catch m (fun e => match e with
                    | NoRows => answer 404 "not_found" "safe text was not found" correlation None ""
                    | _ => answer 503 "not_durable" message correlation None ""
                    end).
Definition open_safe_text (dialogID attemptID : string) (source : Source) : M (Manifest * string) :=
  s ← open_read "safe text is unavailable" (src_id source);
  reference ← or_no_text (query_row (safeTextReference s dialogID attemptID)) "safe text is unavailable" (src_id source);
  or_no_text (readSafeTextManifest reference source) "safe text manifest mismatch" (src_id source).

(** The body of the answer is the manifest as it is stored. *)
Definition SafeTextManifest (trust : TrustContext) (dialogID attemptID : string) (source : Source) : M string :=
  authorizeRead trust ;;
  if negb (uuidPattern dialogID) || negb (uuidPattern attemptID) || negb (ValidateSource source)
  then Invalid "transcript source is invalid" else
  '(_, raw) ← open_safe_text dialogID attemptID source;
  mret raw.

Definition validSafeTextHash : string -> bool := sha256Pattern.
Record SafeTextChunkBlob := mkChunkBlob { cb_text : string; cb_chunk : Chunk; cb_bytes : string }.
Definition SafeTextChunk (trust : TrustContext) (dialogID attemptID textID : string) (source : Source) (chunkIndex : Z)
    (artifactID : string) (sizeBytes : Z) (hash : string) : M SafeTextChunkBlob :=
  authorizeRead trust ;;
  if negb (uuidPattern dialogID) || negb (uuidPattern attemptID) || negb (uuidPattern textID) || negb (uuidPattern artifactID)
     || (chunkIndex <? 0) || (MaximumSafeInteger <? chunkIndex) || (sizeBytes <? 1) || (MaximumChunkBytes <? sizeBytes)
     || negb (validSafeTextHash hash) || negb (ValidateSource source)
  then Invalid "transcript chunk is invalid" else
  '(m, _) ← open_safe_text dialogID attemptID source;
  if negb (mf_complete m) || negb (mf_text m =s textID) || (Z.of_nat (List.length (mf_chunks m)) <=? chunkIndex)
  then answer 404 "not_found" "safe text chunk was not found" (src_id source) None "" else
  match mf_chunks m !! Z.to_nat chunkIndex with
  | None => answer 404 "not_found" "safe text chunk was not found" (src_id source) None ""
  | Some chunk =>
      if negb (ch_index chunk =? chunkIndex) || negb (ch_artifact chunk =s artifactID) || negb (ch_size chunk =? sizeBytes)
         || negb (ch_sha256 chunk =s hash)
      then answer 404 "not_found" "safe text chunk was not found" (src_id source) None "" else
      row ← or_not_durable (query_row (select_artifact artifactID)) "safe text chunk is unavailable" (src_id source);
      body ← or_not_durable (readSafeTextArtifact row) "safe text chunk mismatch" (src_id source);
      mret (mkChunkBlob (mf_text m) chunk body)
  end.
