(* ===== verification/Actions.v ===== *)
(** * The action worker, [runtime/actions.go]
    [claimAction] takes the next intent of a lane, [performAction] carries it to
    the adapter and settles it.  The adapter is called without [node.mu], so
    every transaction here is a handler of its own and reads the state again. *)
From stdpp Require Import base tactics list strings gmap pretty.
From Stdlib Require Import ZArith Lia Ascii String.
From S2P Require Import Prelude Json Wire Store Tx Adapter Events Commands Barrier Hold Dispatch TranscriptView Capture Budget Observe.
Open Scope string_scope.
Open Scope list_scope.
Open Scope Z_scope.
Open Scope harness_scope.

(** ** The adapter
    One method per call of the contract; [None] is a Go error. *)
Record Adapter := mkAdapter {
  NativeReady : bool;
  ProviderAuthReady : bool;
  Start : AttemptRef -> string -> PolicySnapshot -> string * Z -> option StartOutcome;
  Resume : AttemptRef -> string -> PolicySnapshot -> string * Z -> option ResumeOutcome;
  Cancel : AttemptRef -> option CancelOutcome;
  Steer : AttemptRef -> string -> string -> option SteerOutcome;
  RespondApproval : AttemptRef -> string -> Z -> string -> string -> option ResponseOutcome;
  RespondInput : AttemptRef -> string -> Z -> string -> option ResponseOutcome;
  Reconcile : AttemptRef -> option ReconcileResult }.

(** ** Claiming *)
Inductive lane := StopLane | DispatchLane | ControlLane.

(** The lane's rows; [rowid] order is insertion order. *)
Definition in_lane (l : lane) (db : Db) (c : action_row) : bool :=
  (act_status c =s "pending")
  && match l with
     | StopLane => act_kind c =s CommandAttemptStop
     | ControlLane => negb (in_set (act_kind c) [actionDispatchStart; CommandAttemptStop])
     | DispatchLane =>
         (act_kind c =s actionDispatchStart)
         && match select1 (fun a => att_id a =s act_attempt c) (attempts db) with
            | Some a => negb (covered db (att_node a) (att_dialog a))
            | None => false
            end
     end.

(** [UPDATE control_actions SET status=? WHERE command_id=? AND status=?] *)
Definition move_action (command from to : string) : Db -> option Db :=
  update_actions (fun c => (act_id c =s command) && (act_status c =s from)) to.

Definition claimAction (adapter : Adapter) (l : lane) : M (option action_row) :=
  if match l with DispatchLane => negb (ProviderAuthReady adapter) | _ => false end then mret None else
  catch (begin ;;
         c ← query_row (fun db => select1 (in_lane l db) (control_actions db));
         exec (move_action (act_id c) "pending" "inflight") ;;
         commit ;;
         mret (Some c)) (fun _ => mret None).

Definition finishAction (commandID status : string) : M unit :=
  catch (autocommit (exec (move_action commandID "inflight" status))) (fun _ => mret tt).
Definition requeueAction (commandID : string) : M unit :=
  catch (autocommit (exec (move_action commandID "inflight" "pending"))) (fun _ => mret tt).

(** ** Payloads *)
Record actionPayload := mkActionPayload {
  pl_generation : Z; pl_dialog : string; pl_request : string; pl_text : string; pl_approval : string; pl_approval_version : Z;
  pl_call : string; pl_hash : string; pl_decision : string; pl_input : string; pl_input_version : Z }.
Definition actionPayload_of_json (v : json) : option actionPayload :=
  if negb (is_object v) then None else
  generation ← get_int "generation" v; dialog ← get_string "dialogId" v; request ← get_string "requestId" v;
  text ← get_string "text" v; approval ← get_string "approvalId" v; approvalVersion ← get_int "approvalVersion" v;
  call ← get_string "callId" v; hash ← get_string "actionHash" v; decision ← get_string "decision" v;
  input ← get_string "inputRequestId" v; inputVersion ← get_int "inputVersion" v;
  Some (mkActionPayload generation dialog request text approval approvalVersion call hash decision input inputVersion).

Definition action_reference (node : string) (action : action_row) (p : actionPayload) : AttemptRef :=
  mkRef node (pl_dialog p) (pl_request p) (act_attempt action) (pl_generation p).

(** ** Starting *)
Definition started_projection (reference : AttemptRef) (version : Z) : adapterProjection :=
  mkProjection "attempt.started" (ref_attempt reference) version (PStarted (ref_request reference) (ref_generation reference)) None
    "started" false false.

Definition markStarted (reference : AttemptRef) : M unit :=
  begin ;;
  loadState ;;
  s ← get st;
  if negb (is_text (ActiveAttemptID s) (ref_attempt reference)) then fail (Broken "dispatch attempt is no longer active") else
  a ← attempt_by_id (ref_attempt reference);
  if negb (att_state a =s "dispatching") then fail (Broken "attempt is not dispatching") else
  t ← now;
  exec (update_attempt (ref_attempt reference) (fun a => a <| att_version ::= Z.succ |> <| att_state := "running" |> <| att_started := Some t |>)) ;;
  exec (update_request (ref_request reference) (fun r => r <| req_version ::= Z.succ |> <| req_status := "active" |> <| req_updated := t |>)) ;;
  setst (fun s => s <| StateVersion ::= Z.succ |>) ;;
  let p := started_projection reference (att_version a + 1) in
  appendEvent (pj_type p) (pj_entity p) (pj_version p) (ref_attempt reference) (ref_dialog reference) (payload_json (pj_payload p)) false ;;
  s ← get st;
  recordAdapterProjection (LastEventSeq s) (ref_attempt reference) p ;;
  appendNodeEvent ;;
  saveState ;;
  commit.

(** What [performDispatch] reads of a dispatching attempt. *)
Record dispatchInput := mkDispatchInput {
  di_prompt : string; di_boundary : string * Z; di_policy : PolicySnapshot; di_resume : bool }.
Definition policy_of_row (p : policy_row) : PolicySnapshot :=
  mkPolicy (pol_revision p) (pol_content p) (pol_content_hash p) (pol_tools p) (pol_tools_hash p) (pol_approval p) (pol_effective p).
Definition dispatch_input (attempt : string) (db : Db) : option dispatchInput :=
  a ← select1 (fun a => (att_id a =s attempt) && (att_state a =s "dispatching")) (attempts db);
  r ← select1 (fun r => req_id r =s att_request a) (requests db);
  m ← select1 (fun m => msg_id m =s req_message r) (messages db);
  hash ← att_policy a;
  p ← select1 (fun p => pol_effective p =s hash) (policy_snapshots db);
  prompt ← msg_text m;
  boundary ← att_boundary a;
  Some (mkDispatchInput prompt (boundary, msg_sequence m) (policy_of_row p)
          (exists_where (fun x => (att_dialog x =s att_dialog a) && negb (att_id x =s att_id a)
                                  && in_set (att_state x) ["completed"; "failed"; "interrupted"]) (attempts db))).

Definition rejected_start (reference : AttemptRef) : Observation :=
  mkObservation (ref_attempt reference) (ref_generation reference) "terminal" "failed" "" "none" true.

Definition abandon (reference : AttemptRef) (command reason : string) : M unit :=
  markAttemptUnknown reference reason "unknown" ;; finishAction command "unknown".
Definition refuse_start (reference : AttemptRef) (command : string) : M unit :=
  catch (ObserveAttempt (rejected_start reference)) (fun _ => mret tt) ;; finishAction command "rejected".

Inductive started_answer := AnswerStarted | AnswerRejected | AnswerUncertain | AnswerInvalid.
Definition start_answer (adapter : Adapter) (reference : AttemptRef) (i : dispatchInput) (policy : PolicySnapshot) : started_answer :=
  if di_resume i then
    match Resume adapter reference (di_prompt i) policy (di_boundary i) with
    | None | Some ResumeUnknown => AnswerUncertain
    | Some ResumeContextMissing | Some ResumeRejected => AnswerRejected
    | Some ResumeStarted => AnswerStarted
    | Some ResumeOther => AnswerInvalid
    end
  else
    match Start adapter reference (di_prompt i) policy (di_boundary i) with
    | None | Some StartUnknown => AnswerUncertain
    | Some StartRejected => AnswerRejected
    | Some StartStarted => AnswerStarted
    | Some StartOther => AnswerInvalid
    end.

(** Until the attempt streams; [observeAdapterStream] follows a [true]. *)
Definition performDispatch (adapter : Adapter) (action : action_row) (reference : AttemptRef) : M bool :=
  let command := act_id action in
  let abandoned reason := abandon reference command reason ;; mret false in
  if negb (ProviderAuthReady adapter) || negb (NativeReady adapter) then requeueAction command ;; mret false else
  hash ← ask sha256_hex;
  read ← catch (i ← autocommit (query_row (dispatch_input (ref_attempt reference))); mret (Some i)) (fun _ => mret None);
  match read with
  | None => abandoned "dispatch_uncertain"
  | Some i =>
      match PreparePolicySnapshot hash (di_policy i) with
      | None => abandoned "adapter_protocol"
      | Some policy =>
          match start_answer adapter reference i policy with
          | AnswerUncertain => abandoned "dispatch_uncertain"
          | AnswerRejected => refuse_start reference command ;; mret false
          | AnswerInvalid => abandoned "adapter_protocol"
          | AnswerStarted =>
              running ← catch (markStarted reference ;; mret true) (fun _ => mret false);
              if (running : bool) then finishAction command "acknowledged" ;; mret true else abandoned "dispatch_uncertain"
          end
      end
  end.

(** ** Settling the responses *)
Definition actionStatus (outcome : ResponseOutcome) : string :=
  match outcome with ResponseApplied => "acknowledged" | ResponseRejected => "rejected" | _ => "unknown" end.
Definition responseOutcome (answer : option ResponseOutcome) : ResponseOutcome * bool :=
  match answer with
  | None => (ResponseUnknown, false)
  | Some ResponseOther => (ResponseUnknown, true)
  | Some outcome => (outcome, false)
  end.

(** The columns [finishSteer] scans; a NULL one is an error. *)
Definition steered_message (message : string) (db : Db) : option (message_row * string * string) :=
  m ← select1 (fun m => msg_id m =s message) (messages db);
  disposition ← msg_disposition m;
  request ← msg_request m;
  Some (m, disposition, request).

Definition steer_disposition (outcome : SteerOutcome) : string * string :=
  match outcome with
  | SteerApplied => ("applied", "steer_applied")
  | SteerUnknown => ("unknown", "steer_unknown")
  | _ => ("queued", "steer_fallback")
  end.

(** The request leaves the queue when the steer took its message. *)
Definition take_steered_request (outcome : SteerOutcome) (request : string) : M unit :=
  let leave status :=
    setst (fun s => s <| PendingCount ::= Z.pred |>) ;;
    t ← now;
    exec (update_request request (fun r => r <| req_version ::= Z.succ |> <| req_status := status |> <| req_updated := t |>)) in
  match outcome with
  | SteerApplied => leave "completed"
  | SteerUnknown => leave "unknown"
  | _ => mret tt
  end.

Definition steer_transaction (reference : AttemptRef) (message : string) (outcome : SteerOutcome) : M unit :=
  begin ;;
  loadState ;;
  row ← query_row (steered_message message);
  let '(m, disposition, request) := row in
  if negb (disposition =s "steer_pending") then mret tt else
  let '(to, reason) := steer_disposition outcome in
  take_steered_request outcome request ;;
  exec (update_message message (fun m => m <| msg_version ::= Z.succ |> <| msg_disposition := Some to |>)) ;;
  setst (fun s => s <| QueueVersion ::= Z.succ |> <| StateVersion ::= Z.succ |>) ;;
  appendEvent "message.disposition_changed" message (msg_version m + 1) "" ""
    (MessageDispositionPayload message "steer_pending" to reason) false ;;
  (if bool_decide (outcome = SteerUnknown) then setAttemptUnknown reference "provider_state" "unknown" else mret tt) ;;
  appendQueueEvent ;;
  saveState ;;
  commit.
Definition finishSteer (reference : AttemptRef) (message : string) (outcome : SteerOutcome) : M unit :=
  catch (steer_transaction reference message outcome) (fun _ => mret tt).

Definition response_status (outcome : ResponseOutcome) : string :=
  match outcome with ResponseApplied => "resolved" | ResponseUnknown => "unknown" | _ => "pending" end.

Definition finishResponse (reference : AttemptRef) (outcome : ResponseOutcome) (mutate : M unit) : M unit :=
  catch (begin ;;
         loadState ;;
         mutate ;;
         (if bool_decide (outcome = ResponseUnknown) then setAttemptUnknown reference "provider_state" "unknown" else mret tt) ;;
         saveState ;;
         commit) (fun _ => mret tt).

Definition settle_approval (reference : AttemptRef) (actor : string) (p : actionPayload) (outcome : ResponseOutcome) : M unit :=
  exec (update_approval (fun a => (apr_id a =s pl_approval p) && (apr_version a =? pl_approval_version p))
          (fun a => a <| apr_status := response_status outcome |>)) ;;
  if bool_decide (outcome = ResponseApplied) then
    appendEvent "approval.resolved" (pl_approval p) (pl_approval_version p) (ref_attempt reference) (ref_dialog reference)
      (ApprovalResolvedPayload (pl_approval p) (pl_decision p) actor (pl_approval_version p)) false ;; mret tt
  else mret tt.
Definition finishApproval (reference : AttemptRef) (actor : string) (p : actionPayload) (outcome : ResponseOutcome) : M unit :=
  finishResponse reference outcome (settle_approval reference actor p outcome).

Definition settle_input (reference : AttemptRef) (message : string) (p : actionPayload) (outcome : ResponseOutcome) : M unit :=
  exec (update_input (fun i => (inp_id i =s pl_input p) && (inp_version i =? pl_input_version p))
          (fun i => i <| inp_status := response_status outcome |>)) ;;
  if bool_decide (outcome = ResponseApplied) then
    appendEvent "input.resolved" (pl_input p) (pl_input_version p) (ref_attempt reference) (ref_dialog reference)
      (InputResolvedPayload (pl_input p) message (pl_input_version p)) false ;; mret tt
  else mret tt.
Definition finishInput (reference : AttemptRef) (message : string) (p : actionPayload) (outcome : ResponseOutcome) : M unit :=
  finishResponse reference outcome (settle_input reference message p outcome).

(** ** [performAction] *)
Definition steer_status (outcome : SteerOutcome) : string :=
  match outcome with SteerUnknown => "unknown" | SteerRejected => "rejected" | _ => "acknowledged" end.

Definition performAction (adapter : Adapter) (action : action_row) : M unit :=
  node ← ask cfg_node;
  match actionPayload_of_json (act_payload action) with
  | None => mret tt
  | Some p =>
      let reference := action_reference node action p in
      let command := act_id action in
      let message := default "" (act_message action) in
      let kind := act_kind action in
      if kind =s actionDispatchStart then performDispatch adapter action reference ;; mret tt
      else if kind =s CommandAttemptStop then
        match Cancel adapter reference with
        | None | Some CancelUnknown => abandon reference command "cancel_unconfirmed"
        | Some CancelRejected => finishAction command "rejected"
        | Some CancelAcknowledged => finishAction command "acknowledged"
        | Some CancelOther => abandon reference command "adapter_protocol"
        end
      else if kind =s CommandMessageSteer then
        match Steer adapter reference message (pl_text p) with
        | None => finishSteer reference message SteerUnknown ;; finishAction command "unknown"
        | Some SteerOther =>
            markAttemptUnknown reference "adapter_protocol" "unknown" ;;
            finishSteer reference message SteerUnknown ;;
            finishAction command "unknown"
        | Some outcome => finishSteer reference message outcome ;; finishAction command (steer_status outcome)
        end
      else if kind =s CommandApprovalRespond then
        let '(outcome, invalid) := responseOutcome (RespondApproval adapter reference (pl_approval p) (pl_approval_version p) (pl_hash p) (pl_decision p)) in
        (if (invalid : bool) then markAttemptUnknown reference "adapter_protocol" "unknown" else mret tt) ;;
        finishApproval reference (default "" (act_actor action)) p outcome ;;
        finishAction command (actionStatus outcome)
      else if kind =s CommandInputRespond then
        let '(outcome, invalid) := responseOutcome (RespondInput adapter reference (pl_input p) (pl_input_version p) (pl_text p)) in
        (if (invalid : bool) then markAttemptUnknown reference "adapter_protocol" "unknown" else mret tt) ;;
        finishInput reference message p outcome ;;
        finishAction command (actionStatus outcome)
      else mret tt
  end.
