(* ===== verification/Recovery.v ===== *)
(** * Startup recovery and reconciliation
    [runtime/recovery.go] and [runtime/reconcile.go]: what a restart does to the
    work it finds, the upgrade of an unused volume, and the operation that lets
    a host settle an attempt of unknown outcome. *)
From stdpp Require Import base tactics list strings gmap pretty.
From Stdlib Require Import ZArith Lia Ascii String.
From S2P Require Import Prelude Json Wire Store Tx Adapter Events Commands Barrier Hold Dispatch TranscriptView Capture Budget Observe Actions.
Open Scope string_scope.
Open Scope list_scope.
Open Scope Z_scope.
Open Scope harness_scope.

(** ** [recoverStartup] *)
Definition recoverStartup : M unit :=
  begin ;;
  loadState ;;
  exec (update_actions (fun c => in_set (act_status c) ["pending"; "inflight"]) "unknown") ;;
  s ← get st;
  match ActiveAttemptID s with
  | None => commit
  | Some active =>
      a ← catch (attempt_by_id active)
            (fun e => match e with NoRows => fail (Broken "node active attempt reference is missing") | _ => fail e end);
      if att_state a =s "unknown" then commit else
      if negb (in_set (att_state a) ["dispatching"; "running"; "waiting_input"; "stopping"])
      then fail (Broken "node active attempt is not active") else
      setAttemptUnknown (attempt_reference s a) "dispatch_uncertain" "unknown" ;;
      saveState ;;
      commit
  end.

(** ** [recoverPristinePolicy] *)
Definition isPristinePolicySentinel (s : durableState) : bool :=
  (StateVersion s =? 0) && (LastEventSeq s =? 0) && (QueueVersion s =? 0) && negb (QueuePaused s)
  && (TransportAvailability s =s "online") && (EngineReadiness s =s "blocked") && (Occupancy s =s "idle")
  && bool_decide (ActiveAttemptID s = None) && (PendingCount s =? 0) && bool_decide (BlockedReasons s = ["policy_unavailable"])
  && (NextQueueSequence s =? 1) && (NextMessageSequence s =? 1).

Definition rows {A} (l : list A) : Z := Z.of_nat (List.length l).
Definition durable_rows (db : Db) : Z :=
  rows (dialogs db) + rows (messages db) + rows (requests db) + rows (attempts db) + rows (commands db)
  + rows (control_actions db) + rows (events db) + rows (tool_calls db) + rows (approvals db) + rows (input_requests db)
  + rows (artifacts db) + rows (late_observations db) + rows (policy_snapshots db) + rows (administrative_holds db)
  + rows (administrative_hold_outcomes db) + rows (command_rejections db).

(** [policy] is the policy source's answer for no dialog. *)
Definition recoverPristinePolicy (policy : option PolicySnapshot) : M unit :=
  hash ← ask sha256_hex;
  match (p ← policy; PreparePolicySnapshot hash p) with
  | None => mret tt
  | Some _ =>
      begin ;;
      loadState ;;
      s ← get st;
      if negb (isPristinePolicySentinel s) then commit else
      used ← query durable_rows;
      if negb (used =? 0) then commit else
      setst (fun s => s <| EngineReadiness := "ready" |> <| BlockedReasons := [] |> <| StateVersion ::= Z.succ |>) ;;
      appendNodeEvent ;;
      saveState ;;
      commit
  end.

(** ** Reconciliation *)
Definition verifyActiveUnknown (s : durableState) (reference : AttemptRef) : M unit :=
  if negb (is_text (ActiveAttemptID s) (ref_attempt reference)) then fail (Broken "reconciliation attempt is not the active slot") else
  a ← attempt_by_id (ref_attempt reference);
  if negb (bool_decide (attempt_reference s a = reference)) || negb (att_state a =s "unknown")
  then fail (Broken "reconciliation attempt fence changed") else mret tt.

Definition verifyUnknownReference (reference : AttemptRef) : M unit :=
  node ← ask cfg_node;
  if negb (ref_node reference =s node) || negb (uuidPattern (ref_dialog reference)) || negb (uuidPattern (ref_request reference))
     || negb (uuidPattern (ref_attempt reference)) || (ref_generation reference <? 1)
  then fail (Broken "reconciliation attempt reference is invalid") else
  autocommit (loadState ;; s ← get st; verifyActiveUnknown s reference).

Definition unresolved_effects (attempt : string) (db : Db) : Z :=
  unresolved_responses attempt db
  + count_where (fun t => (tool_attempt t =s attempt) && (tool_status t =s "running")) (tool_calls db)
  + count_where (fun p => (apr_attempt p =s attempt) && in_set (apr_status p) ["pending"; "responding"; "unknown"]) (approvals db)
  + count_where (fun i => (inp_attempt i =s attempt) && in_set (inp_status i) ["pending"; "responding"; "unknown"]) (input_requests db)
  + count_where (fun e => is_text (evt_attempt e) attempt && is_tool_completion e
                          && bool_decide (payload_effect_status e = Some "unknown")) (events db).
Definition unresolvedReconciliationEffects (attempt : string) : M bool :=
  n ← query (unresolved_effects attempt); mret (0 <? n).

Section Reconcile.
Context {T : SafeText}.

Definition ensureReconciledAssistantMessage (reference : AttemptRef) (version : Z) (result : ReconcileResult) : M unit :=
  match rec_outcome result, rec_output result with
  | ReconcileCompleted, Some output =>
      row ← query (last_assistant (ref_attempt reference));
      present ← match row with
                | None => mret false
                | Some m => match stored_content m with
                            | None => fail (Broken "durable assistant content is invalid")
                            | Some stored => safeContentEqual stored output
                            end
                end;
      if (present : bool) then mret tt else
      messageID ← newID;
      done ← projectAdapterEvent reference version "unknown"
               (mkAdapterEvent reference (AssistantMessageEvent messageID output "complete" None false));
      if (done.1 : bool) then fail (Broken "reconciled assistant output produced a terminal projection") else mret tt
  | _, _ => mret tt
  end.

Definition reconcile_locked (reference : AttemptRef) (result : ReconcileResult) : M unit :=
  begin ;;
  loadState ;;
  s ← get st;
  verifyActiveUnknown s reference ;;
  unresolved ← unresolvedReconciliationEffects (ref_attempt reference);
  if (unresolved : bool) then fail (Broken "reconciliation has unresolved control or effect outcomes") else
  a ← attempt_by_id (ref_attempt reference);
  ensureReconciledAssistantMessage reference (att_version a) result ;;
  done ← projectAdapterEvent reference (att_version a) "unknown"
           (mkAdapterEvent reference (TerminalEvent (rec_outcome result) (rec_output result) (rec_usage result)
                                        (rec_failure result) (rec_effect result)));
  if negb done.1 then fail (Broken "reconciliation did not produce a terminal projection") else
  saveState ;;
  checkFault FaultBeforeCommit ;;
  retainForCommit ;;
  commit ;;
  afterCommit.
Definition applyReconciledTerminal (reference : AttemptRef) (result : ReconcileResult) : M unit :=
  with_publication (reconcile_locked reference result).

(** The adapter's answer is its own; only a terminal one is applied. *)
Definition ReconcileUnknownAttempt (adapter : Adapter) (reference : AttemptRef) : M ReconcileResult :=
  verifyUnknownReference reference ;;
  match Reconcile adapter reference with
  | None => fail (Broken "adapter reconciliation failed")
  | Some result =>
      match rec_outcome result with
      | ReconcileRunning | ReconcileWaitingInput | ReconcileUnknown => mret result
      | ReconcileCompleted | ReconcileFailed | ReconcileInterrupted =>
          if negb (in_set (rec_effect result) ["known"; "none"])
          then fail (Broken "terminal reconciliation did not prove an effect status")
          else applyReconciledTerminal reference result ;; mret result
      | ReconcileOther _ => fail (Broken "adapter returned an invalid reconciliation outcome")
      end
  end.
End Reconcile.
