(* ===== verification/Atomic.v ===== *)
(** * Commit discipline and totality
    Two compositional properties of handlers, proved by walking their syntax:
    [nocommit] computations leave the committed database alone on every path,
    [settles] computations end with a value or at a [return] of the handler,
    never with a Go error nobody turned into an answer.  [atomic] handlers
    change the committed database only when they say so. *)
From stdpp Require Import base tactics list strings gmap pretty.
From Stdlib Require Import ZArith Lia Ascii String.
From S2P Require Import Prelude Json Wire Store Tx Adapter Events Commands Barrier Hold Submit Dispatch Frames.
Open Scope string_scope.
Open Scope list_scope.
Open Scope Z_scope.
Open Scope harness_scope.

(** A relation between the core a computation finds and the one it leaves. *)
Definition nocommit {A} (m : M A) : Prop := forall env x c, durable (m env x c).2 = durable c.
Definition settles {A} (m : M A) : Prop := forall env x c,
  match m env x c with (inl e, _, _) => is_return e = true | _ => True end.
Definition atomic (m : M Result) : Prop := forall env x c,
  match m env x c with
  | (inr r, _, c') | (inl (Return r), _, c') => Committed r = false -> durable c' = durable c
  | (_, _, c') => durable c' = durable c
  end.

Section NoCommit.
Context {A B : Type}.
Implicit Types m : M A.

Lemma nocommit_readonly m : readonly m -> nocommit m.
Proof. intros H env x c. by rewrite H. Qed.
Lemma nocommit_modify f : (forall c, durable (f c) = durable c) -> nocommit (modify f).
Proof. intros H env x c. apply H. Qed.
Lemma nocommit_bind m (k : A -> M B) : nocommit m -> (forall a, nocommit (k a)) -> nocommit (m ≫= k).
Proof.
  intros Hm Hk env x c. specialize (Hm env x c). unfold mbind, M_bind.
  destruct (m env x c) as [[[e|a] x'] c']; simpl in Hm; [done|]. by rewrite Hk.
Qed.
Lemma nocommit_catch m h : nocommit m -> (forall e, nocommit (h e)) -> nocommit (catch m h).
Proof.
  intros Hm Hh env x c. specialize (Hm env x c). unfold catch.
  destruct (m env x c) as [[[[]|a] x'] c']; simpl in Hm; try done; by rewrite Hh.
Qed.
Lemma nocommit_with_reserve m : nocommit m -> nocommit (with_reserve m).
Proof.
  intros Hm env x c. specialize (Hm env x (c <| reserveReleased := false |>)). unfold with_reserve.
  destruct (m env x _) as [[r x'] c'] eqn:E. pose proof (@replenish_same env x' c') as Hs.
  destruct (replenishControlReserve env x' c') as [[? ?] c'']. by rewrite Hs.
Qed.

Lemma nocommit_autocommit m : readonly m -> nocommit (autocommit m).
Proof.
  intros Hm env x c. unfold autocommit, modify, mbind, M_bind.
  specialize (Hm env x (c <| tx := durable c |>)).
  destruct (m env x _) as [[[e|a] x'] c'] eqn:E; simpl in Hm; by subst.
Qed.
End NoCommit.

Create HintDb nocommit discriminated.

Lemma nocommit_setst f : nocommit (setst f). Proof. by apply nocommit_modify. Qed.
Lemma nocommit_begin : nocommit begin.
Proof. apply nocommit_bind; [apply nocommit_readonly, readonly_io|]. intros. by apply nocommit_modify. Qed.
Lemma nocommit_afterCommit : nocommit afterCommit. Proof. by apply nocommit_modify. Qed.
Lemma nocommit_loadState : nocommit loadState.
Proof. apply nocommit_bind; [apply nocommit_readonly, readonly_query|]. intros. by apply nocommit_modify. Qed.
Lemma nocommit_exec_changed {T} (f : Db -> option (T * Db)) : nocommit (exec_changed f).
Proof.
  apply nocommit_bind; [apply nocommit_readonly, readonly_io|]. intros.
  apply nocommit_bind; [apply nocommit_readonly, readonly_get|]. intros db.
  destruct (f db) as [[y db']|]; [|apply nocommit_readonly, readonly_fail].
  apply nocommit_bind; [by apply nocommit_modify|]. intros. apply nocommit_readonly, readonly_ret.
Qed.
Lemma nocommit_exec f : nocommit (exec f). Proof. apply nocommit_exec_changed. Qed.
Lemma nocommit_saveState : nocommit saveState.
Proof. apply nocommit_bind; [apply nocommit_readonly, readonly_get|]. intros. apply nocommit_exec. Qed.
Lemma nocommit_or_not_durable {A} (m : M A) message correlation : nocommit m -> nocommit (or_not_durable m message correlation).
Proof. intros. apply nocommit_catch; [done|]. intros. apply nocommit_readonly, readonly_answer. Qed.
Lemma nocommit_releaseControlReserve : nocommit releaseControlReserve.
Proof.
  apply nocommit_bind; [apply nocommit_readonly, readonly_io|]. intros.
  apply nocommit_bind; [apply nocommit_readonly, readonly_get|]. intros [].
  - apply nocommit_readonly, readonly_ret.
  - apply nocommit_readonly, readonly_fail.
  - apply nocommit_bind; [apply nocommit_readonly, readonly_io|]. intros.
    apply nocommit_bind; [by apply nocommit_modify|]. intros.
    apply nocommit_bind; [apply nocommit_readonly, readonly_io|]. intros. apply nocommit_readonly, readonly_ret.
Qed.
Lemma nocommit_require_reserve correlation : nocommit (require_reserve correlation).
Proof.
  apply nocommit_bind; [apply nocommit_or_not_durable, nocommit_releaseControlReserve|].
  intros []; apply nocommit_readonly; [apply readonly_ret|apply readonly_answer].
Qed.
#[export] Hint Resolve nocommit_setst nocommit_begin nocommit_loadState nocommit_exec_changed nocommit_exec nocommit_saveState
  nocommit_or_not_durable nocommit_afterCommit nocommit_require_reserve nocommit_releaseControlReserve : nocommit.
#[export] Hint Extern 1 (nocommit _) => apply nocommit_readonly; solve [eauto with readonly nocore] : nocommit.

(** The walk through a handler's syntax. *)
Ltac nocommit_tac :=
  cbv zeta;
  lazymatch goal with
  | |- nocommit (_ ≫= _) => apply nocommit_bind; [nocommit_tac|intros ?; nocommit_tac]
  | |- nocommit (catch _ _) => apply nocommit_catch; [nocommit_tac|intros ?; nocommit_tac]
  | |- nocommit (or_not_durable _ _ _) => apply nocommit_or_not_durable; nocommit_tac
  | |- nocommit (with_reserve _) => apply nocommit_with_reserve; nocommit_tac
  | |- nocommit (autocommit _) => apply nocommit_autocommit; readonly_tac
  | |- nocommit (if ?b then _ else _) => destruct b; nocommit_tac
  | |- nocommit (match ?x with _ => _ end) => destruct x; nocommit_tac
  | |- nocommit _ => solve [eauto with nocommit nocore]
  end.

Lemma nocommit_appendEvent type entity version attempt dialog payload late :
  nocommit (appendEvent type entity version attempt dialog payload late).
Proof. unfold appendEvent. nocommit_tac. Qed.
#[export] Hint Resolve nocommit_appendEvent : nocommit.
Lemma nocommit_appendNodeEvent : nocommit appendNodeEvent.
Proof. unfold appendNodeEvent. nocommit_tac. Qed.
Lemma nocommit_appendQueueEvent : nocommit appendQueueEvent.
Proof. unfold appendQueueEvent. nocommit_tac. Qed.
Lemma nocommit_reject {A} status code message : nocommit (reject (A := A) status code message).
Proof. apply nocommit_readonly, readonly_fail. Qed.
Lemma nocommit_stale {A} version state : nocommit (stale (A := A) version state).
Proof. apply nocommit_readonly, readonly_fail. Qed.
#[export] Hint Resolve nocommit_appendNodeEvent nocommit_appendQueueEvent nocommit_reject nocommit_stale : nocommit.

(** ** Totality *)
Section Settles.
Context {A B : Type}.
Implicit Types m : M A.

Lemma settles_bind m (k : A -> M B) : settles m -> (forall a, settles (k a)) -> settles (m ≫= k).
Proof.
  intros Hm Hk env x c. specialize (Hm env x c). unfold mbind, M_bind.
  destruct (m env x c) as [[[e|a] x'] c']; [done|]. apply Hk.
Qed.
Lemma settles_catch m h : (forall e, settles (h e)) -> settles (catch m h).
Proof.
  intros Hh env x c. unfold catch. destruct (m env x c) as [[[[]|a] x'] c']; try done; apply Hh.
Qed.
Lemma settles_ret (a : A) : settles (mret a). Proof. done. Qed.
Lemma settles_ask (f : Env -> A) : settles (ask f). Proof. done. Qed.
Lemma settles_get (f : Core -> A) : settles (get f). Proof. done. Qed.
Lemma settles_with_reserve m : settles m -> settles (with_reserve m).
Proof.
  intros Hm env x c. specialize (Hm env x (c <| reserveReleased := false |>)). unfold with_reserve.
  destruct (m env x _) as [[r x'] c'] eqn:E.
  by destruct (replenishControlReserve env x' c') as [[? ?] c''].
Qed.
End Settles.

Lemma settles_modify f : settles (modify f). Proof. done. Qed.
Lemma settles_setst f : settles (setst f). Proof. done. Qed.
Lemma settles_now : settles now. Proof. done. Qed.
Lemma settles_measure : settles measure. Proof. done. Qed.
Lemma settles_errorResult status code message correlation version state :
  settles (errorResult status code message correlation version state).
Proof.
  apply settles_bind; [|intros; apply settles_ret].
  destruct (correlation =s ""); [apply settles_catch; intros; apply settles_ret|apply settles_ret].
Qed.
Lemma settles_answer {A} status code message correlation version state :
  settles (answer (A := A) status code message correlation version state).
Proof. apply settles_bind; [apply settles_errorResult|]. intros r env x c. done. Qed.
Lemma settles_or_not_durable {A} (m : M A) message correlation : settles (or_not_durable m message correlation).
Proof. apply settles_catch. intros. apply settles_answer. Qed.
Lemma settles_commandError {A} e correlation : settles (commandError (A := A) e correlation).
Proof. destruct e; try apply settles_answer. done. Qed.
Lemma settles_require_reserve correlation : settles (require_reserve correlation).
Proof.
  apply settles_bind; [apply settles_or_not_durable|]. intros []; [apply settles_ret|apply settles_answer].
Qed.
Lemma settles_interrupted message correlation : settles (interrupted message correlation).
Proof. apply settles_bind; [apply settles_errorResult|]. intros. apply settles_ret. Qed.

Create HintDb settles discriminated.
#[export] Hint Resolve settles_ret settles_ask settles_get settles_modify settles_setst settles_now settles_measure
  settles_errorResult settles_answer settles_or_not_durable settles_commandError settles_require_reserve
  settles_interrupted : settles.
#[export] Hint Extern 2 (settles afterCommit) => apply settles_modify : settles.

Ltac settles_tac :=
  cbv zeta;
  lazymatch goal with
  | |- settles (_ ≫= _) => apply settles_bind; [settles_tac|intros ?; settles_tac]
  | |- settles (catch _ _) => apply settles_catch; intros ?; settles_tac
  | |- settles (with_reserve _) => apply settles_with_reserve; settles_tac
  | |- settles (if ?b then _ else _) => destruct b; settles_tac
  | |- settles (match ?x with _ => _ end) => destruct x; settles_tac
  | |- settles _ => solve [eauto with settles nocore]
  end.

(** ** Computations without a [return] statement of their own *)
Definition silent {A} (m : M A) : Prop := forall env x c,
  match m env x c with (inl e, _, _) => is_return e = false | _ => True end.

Section Silent.
Context {A B : Type}.
Implicit Types m : M A.
Lemma silent_ret (a : A) : silent (mret a). Proof. done. Qed.
Lemma silent_ask (f : Env -> A) : silent (ask f). Proof. done. Qed.
Lemma silent_get (f : Core -> A) : silent (get f). Proof. done. Qed.
Lemma silent_fail e : is_return e = false -> silent (fail (A := A) e). Proof. intros H env x c. done. Qed.
Lemma silent_bind m (k : A -> M B) : silent m -> (forall a, silent (k a)) -> silent (m ≫= k).
Proof.
  intros Hm Hk env x c. specialize (Hm env x c). unfold mbind, M_bind.
  destruct (m env x c) as [[[e|a] x'] c']; [done|]. apply Hk.
Qed.
Lemma silent_catch m h : silent m -> (forall e, is_return e = false -> silent (h e)) -> silent (catch m h).
Proof.
  intros Hm Hh env x c. specialize (Hm env x c). unfold catch.
  destruct (m env x c) as [[[[]|a] x'] c']; simpl in Hm; try done; by apply Hh.
Qed.
End Silent.
Lemma silent_modify f : silent (modify f). Proof. done. Qed.
Lemma silent_setst f : silent (setst f). Proof. done. Qed.
Lemma silent_now : silent now. Proof. done. Qed.
Lemma silent_io : silent io.
Proof. intros env x c. unfold io. by destruct (env_ok _ _). Qed.
Lemma silent_newID : silent newID.
Proof. intros env x c. unfold newID. by destruct (env_id _ _). Qed.
Lemma silent_query {A} (f : Db -> A) : silent (query f).
Proof. apply silent_bind; [apply silent_io|]. intros. apply silent_get. Qed.
Lemma silent_query_row {A} (f : Db -> option A) : silent (query_row f).
Proof. apply silent_bind; [apply silent_query|]. intros [a|]; [apply silent_ret|by apply silent_fail]. Qed.
Lemma silent_exec_changed {T} (f : Db -> option (T * Db)) : silent (exec_changed f).
Proof.
  apply silent_bind; [apply silent_io|]. intros. apply silent_bind; [apply silent_get|]. intros db.
  destruct (f db) as [[]|]; [|by apply silent_fail].
  apply silent_bind; [apply silent_modify|]. intros. apply silent_ret.
Qed.
Lemma silent_exec f : silent (exec f). Proof. apply silent_exec_changed. Qed.
Lemma silent_loadState : silent loadState.
Proof. apply silent_bind; [apply silent_query|]. intros. apply silent_modify. Qed.
Lemma silent_saveState : silent saveState.
Proof. apply silent_bind; [apply silent_get|]. intros. apply silent_exec. Qed.
Lemma silent_decode_part {A} part (f : json -> option A) : silent (decode_part part f).
Proof. unfold decode_part. destruct (if is_object part then f part else None); [apply silent_ret|by apply silent_fail]. Qed.
Lemma silent_checkFault p : silent (checkFault p).
Proof. apply silent_bind; [apply silent_ask|]. intros []; [by apply silent_fail|apply silent_ret]. Qed.

Create HintDb silent discriminated.
#[export] Hint Resolve silent_ret silent_ask silent_get silent_modify silent_setst silent_now silent_io silent_newID silent_query
  silent_query_row silent_exec_changed silent_exec silent_loadState silent_saveState silent_decode_part silent_checkFault : silent.
#[export] Hint Extern 1 (silent (fail _)) => by apply silent_fail : silent.
#[export] Hint Extern 1 (silent (reject _ _ _)) => by apply silent_fail : silent.
#[export] Hint Extern 1 (silent (stale _ _)) => by apply silent_fail : silent.

Ltac silent_tac :=
  cbv zeta;
  lazymatch goal with
  | |- silent (_ ≫= _) => apply silent_bind; [silent_tac|intros ?; silent_tac]
  | |- silent (catch _ _) => apply silent_catch; [silent_tac|intros ? ?; silent_tac]
  | |- silent (if ?b then _ else _) => destruct b; silent_tac
  | |- silent (match ?x with _ => _ end) => destruct x; try done; silent_tac
  | |- silent _ => solve [eauto with silent nocore]
  end.
Lemma silent_appendEvent type entity version attempt dialog payload late :
  silent (appendEvent type entity version attempt dialog payload late).
Proof. unfold appendEvent. silent_tac. Qed.
#[export] Hint Resolve silent_appendEvent : silent.
Lemma silent_appendNodeEvent : silent appendNodeEvent.
Proof. unfold appendNodeEvent. silent_tac. Qed.
Lemma silent_appendQueueEvent : silent appendQueueEvent.
Proof. unfold appendQueueEvent. silent_tac. Qed.
#[export] Hint Resolve silent_appendNodeEvent silent_appendQueueEvent : silent.

(** The postcondition of a computation with its silence. *)
Lemma wp_silent {A} env (m : M A) (Q : A -> Core -> Prop) (E : err -> Core -> Prop) c :
  silent m -> wp env m Q (fun e c' => is_return e = false -> E e c') c -> wp env m Q E c.
Proof. intros Hs H x. specialize (Hs env x c). specialize (H x). destruct (m env x c) as [[[e|a] x'] c']; auto. Qed.

(** ** Atomicity *)
Lemma atomic_nocommit m : nocommit m -> atomic m.
Proof. intros Hm env x c. specialize (Hm env x c). by destruct (m env x c) as [[[[]|] ?] ?]. Qed.

Lemma atomic_bind {A} (m : M A) (k : A -> M Result) : nocommit m -> (forall a, atomic (k a)) -> atomic (m ≫= k).
Proof.
  intros Hm Hk env x c. specialize (Hm env x c). unfold mbind, M_bind.
  destruct (m env x c) as [[[e|a] x'] c']; simpl in Hm; [by destruct e|].
  specialize (Hk a env x' c'). by rewrite Hm in Hk.
Qed.

Lemma atomic_with_reserve m : atomic m -> atomic (with_reserve m).
Proof.
  intros Hm env x c. specialize (Hm env x (c <| reserveReleased := false |>)). unfold with_reserve.
  destruct (m env x _) as [[r x'] c'] eqn:E. pose proof (@replenish_same env x' c') as Hs.
  destruct (replenishControlReserve env x' c') as [[? ?] c'']. rewrite Hs. by destruct r as [[]|].
Qed.

(** The commit and what follows it: a failed commit changed nothing, and every
    answer after it says [Committed]. *)
Lemma atomic_commit commitMessage correlation point status receipt faultMessage faultCorrelation wake :
  nocommit wake ->
  (forall env x c, is_Some (match wake env x c with (inr tt, _, _) => Some tt | _ => None end)) ->
  atomic (or_not_durable commit commitMessage correlation ;; wake ;;
          catch (checkFault point ;; mret (mkResult status receipt true)) (fun _ => interrupted faultMessage faultCorrelation)).
Proof.
  intros Hwake Htotal env x c. unfold or_not_durable, commit, io, modify, mbind, M_bind, catch.
  destruct (env_ok env (n_op x)).
  - specialize (Htotal env (mkAux (n_id x) (n_now x) (S (n_op x)) (n_space x)) (c <| durable := tx c |>)).
    destruct (wake env _ _) as [[[e|[]] x'] c']; [by destruct Htotal|].
    unfold checkFault, ask, mbind, M_bind. destruct (env_fault env point); [|done].
    unfold interrupted, mbind, M_bind, fail.
    by destruct (errorResult_run 503 "node_unavailable" faultMessage faultCorrelation None "" env x' c') as (? & ? & ->).
  - edestruct (answer_run (A := unit) 503 "not_durable" commitMessage correlation None "" env) as (? & ? & ->). done.
Qed.

Lemma atomic_commit_silent commitMessage correlation point status receipt faultMessage faultCorrelation :
  atomic (or_not_durable commit commitMessage correlation ;;
          catch (checkFault point ;; mret (mkResult status receipt true)) (fun _ => interrupted faultMessage faultCorrelation)).
Proof.
  intros env x c.
  pose proof (atomic_commit commitMessage correlation point status receipt faultMessage faultCorrelation (mret tt)
                ltac:(nocommit_tac) ltac:(by eexists) env x c) as H.
  revert H. unfold mbind, M_bind, mret, M_ret. by destruct (or_not_durable commit _ _ env x c) as [[[?|[]] ?] ?].
Qed.

Create HintDb atomic discriminated.

Ltac atomic_tac :=
  cbv zeta;
  lazymatch goal with
  | |- atomic (or_not_durable commit _ _ ≫= _) =>
      first [apply atomic_commit_silent | apply atomic_commit; [nocommit_tac|by eexists]]
  | |- atomic (_ ≫= _) => apply atomic_bind; [nocommit_tac|intros ?; atomic_tac]
  | |- atomic (with_reserve _) => apply atomic_with_reserve; atomic_tac
  | |- atomic (if ?b then _ else _) => destruct b; atomic_tac
  | |- atomic (match ?x with _ => _ end) => destruct x; atomic_tac
  | |- atomic _ => first [solve [eauto with atomic nocore] | apply atomic_nocommit; nocommit_tac]
  end.

(** A handler that settles and is atomic always answers, and the answer tells
    whether the committed database changed. *)
Lemma respond_settled (m : M Result) env x c :
  settles m -> atomic m ->
  exists r c', respond m env x c = (Some r, c') /\ (Committed r = false -> durable c' = durable c).
Proof.
  intros Hs Ha. specialize (Hs env x c). specialize (Ha env x c). unfold respond, run.
  destruct (m env x c) as [[[e|r] x'] c']; [|eauto]. destruct e; try done. eauto.
Qed.
