(* ===== verification/Append.v ===== *)
(** * The durable history is append-only
    [extends db db'] says that the log, the outcome tables, the hold tables, the
    dialogs and the replica records of [db'] start with those of [db].  Every
    statement the handlers execute extends its database, hence every handler
    does; all but those of the history export also keep the replica tables. *)
From stdpp Require Import base tactics list strings gmap pretty.
From Stdlib Require Import ZArith Lia Ascii String.
From S2P Require Import Prelude Json Wire Store Tx Adapter Events Commands Barrier Hold Submit Dispatch Frames.
From S2P Require Import Atomic.
Open Scope string_scope.
Open Scope list_scope.
Open Scope Z_scope.
Open Scope harness_scope.

(** What of an event never changes; binding a projection key adds to it. *)
Definition event_core (e : event_row) : string * Z * Z * json := (evt_node e, evt_seq e, evt_epoch e, evt_json e).

(** An attempt keeps its identity and its request. *)
Definition attempt_key (a : attempt_row) : string * string := (att_id a, att_request a).

Record extends (db db' : Db) : Prop := {
  ext_events : List.map event_core (events db) `prefix_of` List.map event_core (events db');
  ext_commands : commands db `prefix_of` commands db';
  ext_rejections : command_rejections db `prefix_of` command_rejections db';
  ext_holds : administrative_holds db `prefix_of` administrative_holds db';
  ext_outcomes : administrative_hold_outcomes db `prefix_of` administrative_hold_outcomes db';
  ext_deletes : logical_delete_receipts db `prefix_of` logical_delete_receipts db';
  ext_dialogs : List.map dlg_id (dialogs db) `prefix_of` List.map dlg_id (dialogs db');
  ext_attempts : List.map attempt_key (attempts db) `prefix_of` List.map attempt_key (attempts db');
  ext_late : late_observations db `prefix_of` late_observations db';
  ext_clock : hold_clock db <= hold_clock db';
  ext_replica : replica_records db `prefix_of` replica_records db' }.

#[export] Instance extends_preorder : PreOrder extends.
Proof.
  split.
  - intros db. by constructor.
  - intros a b c [] []. constructor; (etrans; eassumption) || lia.
Qed.

(** Outside the history export, the replica tables stay as they are. *)
Record kept (db db' : Db) : Prop := {
  kept_extends : extends db db';
  kept_streams : replica_streams db' = replica_streams db;
  kept_records : replica_records db' = replica_records db }.
#[export] Instance kept_preorder : PreOrder kept.
Proof.
  split.
  - intros db. by constructor.
  - intros a b c [] []. constructor; etrans; eassumption.
Qed.

Definition appends (f : Db -> option Db) : Prop := forall db db', f db = Some db' -> kept db db'.

Lemma extends_update_dialog p f l :
  (forall d, dlg_id (f d) = dlg_id d) -> List.map dlg_id l `prefix_of` List.map dlg_id (update_where p f l).
Proof. intros Hf. by rewrite map_update_where. Qed.

Lemma extends_rows {R} (l : list R) row : l `prefix_of` l ++ [row].
Proof. by apply prefix_app_r. Qed.
Lemma extends_mapped {R K} (k : R -> K) (l : list R) row : List.map k l `prefix_of` List.map k (l ++ [row]).
Proof. rewrite List.map_app. by apply prefix_app_r. Qed.

Ltac kept_tac :=
  constructor; rcbn; [|reflexivity..]; constructor; rcbn; first [reflexivity | apply extends_rows | apply extends_mapped | lia | idtac].
(** A statement whose frame touches none of the listed tables, or appends. *)
Ltac appends_tac :=
  let H := fresh in
  intros ? ? H; frame_in H; kept_tac.

Lemma appends_insert_dialog row : appends (insert_dialog row). Proof. appends_tac. Qed.
Lemma appends_update_dialog id f : (forall d, dlg_id (f d) = dlg_id d) -> appends (update_dialog id f).
Proof. intros Hf. appends_tac. by apply extends_update_dialog. Qed.
Lemma appends_insert_message row : appends (insert_message row). Proof. appends_tac. Qed.
Lemma appends_update_message id f : appends (update_message id f). Proof. appends_tac. Qed.
Lemma appends_insert_request row : appends (insert_request row). Proof. appends_tac. Qed.
Lemma appends_update_request id f : appends (update_request id f). Proof. appends_tac. Qed.
Lemma appends_insert_attempt row : appends (insert_attempt row). Proof. appends_tac. Qed.
Lemma appends_update_attempt id f : (forall a, attempt_key (f a) = attempt_key a) -> appends (update_attempt id f).
Proof. intros Hf. appends_tac. by rewrite map_update_where. Qed.
Lemma appends_insert_command row : appends (insert_command row). Proof. appends_tac. Qed.
Lemma appends_insert_action row : appends (insert_action row). Proof. appends_tac. Qed.
Lemma appends_update_actions p status : appends (update_actions p status). Proof. appends_tac. Qed.
Lemma appends_insert_tool row : appends (insert_tool row). Proof. appends_tac. Qed.
Lemma appends_update_tool id f : appends (update_tool id f). Proof. appends_tac. Qed.
Lemma appends_insert_approval row : appends (insert_approval row). Proof. appends_tac. Qed.
Lemma appends_update_approval p f : appends (update_approval p f). Proof. appends_tac. Qed.
Lemma appends_insert_input row : appends (insert_input row). Proof. appends_tac. Qed.
Lemma appends_update_input p f : appends (update_input p f). Proof. appends_tac. Qed.
Lemma appends_insert_late row : appends (insert_late row). Proof. appends_tac. Qed.
Lemma appends_insert_policy row : appends (insert_policy row). Proof. appends_tac. Qed.
Lemma appends_advance_hold_clock expected : appends (advance_hold_clock expected).
Proof. appends_tac. destruct (_ =? _); lia. Qed.
Lemma appends_upsert_scope_revision key revision : appends (upsert_scope_revision key revision). Proof. appends_tac. Qed.
Lemma appends_update_scope_revision key expected revision : appends (update_scope_revision key expected revision).
Proof. appends_tac. Qed.
Lemma appends_insert_hold row : appends (insert_hold row). Proof. appends_tac. Qed.
Lemma appends_insert_outcome row : appends (insert_outcome row). Proof. appends_tac. Qed.
Lemma appends_insert_rejection row : appends (insert_rejection row). Proof. appends_tac. Qed.
Lemma appends_insert_logical_delete row : appends (insert_logical_delete row). Proof. appends_tac. Qed.
Lemma appends_insert_event row : appends (insert_event row).
Proof.
  intros db db' H. apply insert_event_frame in H. rewrite H. kept_tac.
Qed.
Lemma appends_store_state s : appends (store_state s).
Proof.
  intros db db' H. unfold store_state in H.
  assert (forall f a b d d', fire f a b d = Some d' -> kept d d') as Hfire.
  { intros f a b d d' Hf. apply fire_frame in Hf. rewrite Hf. kept_tac. }
  apply bind_Some in H as (db1 & H1 & H2).
  assert (kept db db1) as E1.
  { destruct (_ =? _); [simplify_eq; kept_tac|]. etrans; [|by eapply Hfire]. kept_tac. }
  etrans; [exact E1|]. destruct (Bool.eqb _ _); [by simplify_eq|by eapply Hfire].
Qed.
Lemma appends_bind_projection p key hash db n db' : bind_projection p key hash db = Some (n, db') -> kept db db'.
Proof.
  intros H. apply bind_projection_frame in H as [_ ->]. kept_tac.
  by rewrite map_update_where.
Qed.

Lemma appends_charge id expected next db n db' : charge_attempt id expected next db = Some (n, db') -> kept db db'.
Proof.
  intros H. apply charge_attempt_frame in H as (q & _ & ->). kept_tac.
  rewrite map_update_where; [done|]. intros a. by destruct (_ && _).
Qed.

Create HintDb appends discriminated.
#[export] Hint Resolve appends_insert_dialog appends_insert_message appends_update_message appends_insert_request
  appends_update_request appends_insert_attempt appends_insert_command appends_insert_action
  appends_update_actions appends_insert_tool appends_update_tool appends_insert_approval appends_update_approval
  appends_insert_input appends_update_input appends_insert_late appends_insert_policy appends_advance_hold_clock
  appends_upsert_scope_revision appends_update_scope_revision appends_insert_hold appends_insert_outcome
  appends_insert_rejection appends_insert_logical_delete appends_insert_event appends_store_state : appends.
#[export] Hint Extern 1 (appends (update_dialog _ _)) => apply appends_update_dialog; reflexivity : appends.
#[export] Hint Extern 1 (appends (update_attempt _ _)) => apply appends_update_attempt; reflexivity : appends.

(** ** Computations *)
(** Inside a transaction: both databases keep extending a common past. *)
Definition growing (db : Db) (c : Core) : Prop := kept db (durable c) /\ kept db (tx c).
Definition grows {A} (m : M A) : Prop := forall db env x c, growing db c -> growing db (m env x c).2.
(** From outside one: whatever view was left over, [begin] comes first. *)
Definition history {A} (m : M A) : Prop := forall env x c, kept (durable c) (durable (m env x c).2).

Section Grows.
Context {A B : Type}.
Implicit Types m : M A.

Lemma grows_readonly m : readonly m -> grows m.
Proof. intros H db env x c. by rewrite H. Qed.
Lemma grows_modify f : (forall c, durable (f c) = durable c /\ tx (f c) = tx c) -> grows (modify f).
Proof. intros H db env x c [H1 H2]. destruct (H c) as [E1 E2]. unfold growing, modify. simpl. by rewrite E1, E2. Qed.
Lemma grows_bind m (k : A -> M B) : grows m -> (forall a, grows (k a)) -> grows (m ≫= k).
Proof.
  intros Hm Hk db env x c H. specialize (Hm db env x c H). unfold mbind, M_bind.
  destruct (m env x c) as [[[e|a] x'] c']; simpl in Hm; [done|]. by apply Hk.
Qed.
Lemma grows_catch m h : grows m -> (forall e, grows (h e)) -> grows (catch m h).
Proof.
  intros Hm Hh db env x c H. specialize (Hm db env x c H). unfold catch.
  destruct (m env x c) as [[[[]|a] x'] c']; simpl in Hm; try done; by apply Hh.
Qed.

Lemma history_readonly m : readonly m -> history m.
Proof. intros H env x c. by rewrite H. Qed.
Lemma history_nocommit m : nocommit m -> history m.
Proof. intros H env x c. by rewrite H. Qed.
Lemma history_bind m (k : A -> M B) : nocommit m -> (forall a, history (k a)) -> history (m ≫= k).
Proof.
  intros Hm Hk env x c. specialize (Hm env x c). unfold mbind, M_bind.
  destruct (m env x c) as [[[e|a] x'] c']; simpl in Hm; rewrite <- Hm; [done|]. apply Hk.
Qed.
Lemma history_with_reserve m : history m -> history (with_reserve m).
Proof.
  intros Hm env x c. specialize (Hm env x (c <| reserveReleased := false |>)). unfold with_reserve.
  destruct (m env x _) as [[r x'] c'] eqn:E. pose proof (@replenish_same env x' c') as Hs.
  destruct (replenishControlReserve env x' c') as [[? ?] c'']. rewrite Hs. exact Hm.
Qed.
Lemma history_autocommit m : grows m -> history (autocommit m).
Proof.
  intros Hm env x c. unfold autocommit, modify, mbind, M_bind.
  destruct (Hm (durable c) env x (c <| tx := durable c |>)) as [H1 H2]; [by split|].
  by destruct (m env x _) as [[[e|a] x'] c'].
Qed.
Lemma history_begin (k : unit -> M A) : (forall u, grows (k u)) -> history (begin ≫= k).
Proof.
  intros Hk env x c. unfold begin, io, modify, mbind, M_bind.
  destruct (env_ok env (n_op x)); [|done]. by apply Hk.
Qed.
Lemma history_begin_or message correlation (k : unit -> M A) :
  (forall u, grows (k u)) -> history (or_not_durable begin message correlation ≫= k).
Proof.
  intros Hk env x c. unfold or_not_durable, catch, begin, io, modify, mbind, M_bind.
  destruct (env_ok env (n_op x)); [by apply Hk|].
  by edestruct (answer_run (A := unit) 503 "not_durable" message correlation None "" env) as (? & ? & ->).
Qed.
End Grows.

Lemma grows_setst f : grows (setst f). Proof. by apply grows_modify. Qed.
Lemma grows_begin : grows begin.
Proof.
  apply grows_bind; [apply grows_readonly, readonly_io|]. intros _ db env x c [H1 H2]. by split.
Qed.
Lemma grows_commit : grows commit.
Proof.
  apply grows_bind; [apply grows_readonly, readonly_io|]. intros _ db env x c [H1 H2]. by split.
Qed.
Lemma grows_afterCommit : grows afterCommit. Proof. by apply grows_modify. Qed.
Lemma grows_loadState : grows loadState.
Proof. apply grows_bind; [apply grows_readonly, readonly_query|]. intros. by apply grows_modify. Qed.
Lemma grows_exec_changed {T} (f : Db -> option (T * Db)) :
  (forall db a db', f db = Some (a, db') -> kept db db') -> grows (exec_changed f).
Proof.
  intros Hf. apply grows_bind; [apply grows_readonly, readonly_io|]. intros.
  intros db env x c [H1 H2]. unfold mbind, M_bind, get.
  destruct (f (tx c)) as [[y db']|] eqn:E; [|done]. split; [done|]. cbn. etrans; [exact H2|by eapply Hf].
Qed.
Lemma grows_exec f : appends f -> grows (exec f).
Proof.
  intros Hf. apply grows_exec_changed. intros db [] db' H. destruct (f db) eqn:E; [|done].
  injection H as <-. by apply Hf.
Qed.
Lemma grows_saveState : grows saveState.
Proof. apply grows_bind; [apply grows_readonly, readonly_get|]. intros. apply grows_exec, appends_store_state. Qed.
Lemma grows_or_not_durable {A} (m : M A) message correlation : grows m -> grows (or_not_durable m message correlation).
Proof. intros. apply grows_catch; [done|]. intros. apply grows_readonly, readonly_answer. Qed.
Lemma grows_releaseControlReserve : grows releaseControlReserve.
Proof.
  intros db env x c H.
  assert (wp env releaseControlReserve (fun _ => growing db) (fun _ => growing db) c) as Hw
    by (apply wp_releaseControlReserve; intros; exact H).
  specialize (Hw x). by destruct (releaseControlReserve env x c) as [[[]] ?].
Qed.
Lemma grows_require_reserve correlation : grows (require_reserve correlation).
Proof.
  apply grows_bind; [apply grows_or_not_durable, grows_releaseControlReserve|].
  intros []; apply grows_readonly; [apply readonly_ret|apply readonly_answer].
Qed.
Lemma grows_bind_projection p key hash : grows (exec_changed (bind_projection p key hash)).
Proof. apply grows_exec_changed. intros db n db'. apply appends_bind_projection. Qed.

Lemma grows_charge id expected next : grows (exec_changed (charge_attempt id expected next)).
Proof. apply grows_exec_changed. intros db n db'. apply appends_charge. Qed.

Create HintDb grows discriminated.
#[export] Hint Resolve grows_setst grows_begin grows_commit grows_loadState grows_saveState grows_afterCommit
  grows_require_reserve grows_releaseControlReserve grows_bind_projection grows_charge : grows.
#[export] Hint Extern 1 (grows (exec _)) => apply grows_exec; solve [eauto with appends nocore] : grows.
#[export] Hint Extern 2 (grows _) => apply grows_readonly; solve [eauto with readonly nocore] : grows.

Ltac grows_tac :=
  cbv zeta;
  lazymatch goal with
  | |- grows (_ ≫= _) => apply grows_bind; [grows_tac|intros ?; grows_tac]
  | |- grows (catch _ _) => apply grows_catch; [grows_tac|intros ?; grows_tac]
  | |- grows (or_not_durable _ _ _) => apply grows_or_not_durable; grows_tac
  | |- grows (if ?b then _ else _) => destruct b; grows_tac
  | |- grows (match ?x with _ => _ end) => destruct x; grows_tac
  | |- grows _ => solve [eauto with grows nocore]
  end.
Ltac history_tac :=
  cbv zeta;
  lazymatch goal with
  | |- history (begin ≫= _) => apply history_begin; intros ?; grows_tac
  | |- history (or_not_durable begin _ _ ≫= _) => apply history_begin_or; intros ?; grows_tac
  | |- history (_ ≫= _) => apply history_bind; [nocommit_tac|intros ?; history_tac]
  | |- history (autocommit _) => apply history_autocommit; grows_tac
  | |- history (with_reserve _) => apply history_with_reserve; history_tac
  | |- history (if ?b then _ else _) => destruct b; history_tac
  | |- history (match ?x with _ => _ end) => destruct x; history_tac
  | |- history _ => apply history_nocommit; nocommit_tac
  end.

Lemma grows_appendEvent type entity version attempt dialog payload late :
  grows (appendEvent type entity version attempt dialog payload late).
Proof. unfold appendEvent. grows_tac. Qed.
#[export] Hint Resolve grows_appendEvent : grows.
Lemma grows_appendNodeEvent : grows appendNodeEvent.
Proof. unfold appendNodeEvent. grows_tac. Qed.
Lemma grows_appendQueueEvent : grows appendQueueEvent.
Proof. unfold appendQueueEvent. grows_tac. Qed.
Lemma grows_interrupted message correlation : grows (interrupted message correlation).
Proof. unfold interrupted. grows_tac. Qed.
Lemma grows_reject {A} status code message : grows (reject (A := A) status code message).
Proof. apply grows_readonly, readonly_fail. Qed.
Lemma grows_stale {A} version state : grows (stale (A := A) version state).
Proof. apply grows_readonly, readonly_fail. Qed.
#[export] Hint Resolve grows_appendNodeEvent grows_appendQueueEvent grows_interrupted grows_reject grows_stale : grows.
