(* ===== verification/Invariant.v ===== *)
(** * The node invariant
    [Inv node s db] relates the local [durableState] of a handler to the
    tables of its transaction; on a committed database it holds with the stored
    state.  Every handler that finds it on begin leaves it on commit. *)
From stdpp Require Import base tactics list strings gmap pretty.
From Stdlib Require Import ZArith Lia Ascii String.
From S2P Require Import Prelude Json Wire Store Tx Adapter Events Commands Barrier Hold Submit Dispatch Frames.
Open Scope string_scope.
Open Scope list_scope.
Open Scope Z_scope.
Open Scope harness_scope.

Definition queued (r : request_row) : bool := req_status r =s "queued".

(** Requests carry distinct identities and increasing queue sequences below
    the next one. *)
Record requests_ok (next : Z) (rows : list request_row) : Prop := {
  req_ids : NoDup (List.map req_id rows);
  req_sequences : NoDup (List.map req_sequence rows);
  req_below : forall r, r ∈ rows -> req_sequence r < next }.

(** [ActiveAttemptID] names exactly the attempt in an active state. *)
Record attempts_ok (active : option string) (rows : list attempt_row) : Prop := {
  att_ids : NoDup (List.map att_id rows);
  att_active : forall a, a ∈ rows -> active_attempt a = true <-> active = Some (att_id a);
  att_present : forall id, active = Some id -> exists a, a ∈ rows /\ att_id a = id }.

Definition released (outcomes : list outcome_row) (h : hold_row) : bool :=
  exists_where (fun o => out_operation o =s hold_operation h) outcomes.
Definition overlap (h1 h2 : hold_row) : bool :=
  (hold_scope h1 =s "node") || (hold_scope h2 =s "node") || bool_decide (hold_dialog h1 = hold_dialog h2).

Record holds_ok (node : string) (clock : Z) (revisions : list scope_revision) (holds : list hold_row)
    (outcomes : list outcome_row) : Prop := {
  hold_operations : NoDup (List.map hold_operation holds);
  hold_facts : forall h, h ∈ holds -> hold_node h = node /\ hold_version h < clock /\ scope_shape h = true;
  hold_keys : NoDup (List.map hsr_key revisions);
  hold_outcomes : forall o, o ∈ outcomes -> exists h, h ∈ holds /\ hold_operation h = out_operation o;
  hold_disjoint : forall h1 h2, h1 ∈ holds -> h2 ∈ holds -> released outcomes h1 = false -> released outcomes h2 = false ->
    overlap h1 h2 = true -> hold_operation h1 = hold_operation h2;
  hold_current : forall h, h ∈ holds -> released outcomes h = false ->
    exists r, r ∈ revisions /\ hsr_key r = scope_key (durableHold_scope h) /\ hsr_revision r = hold_revision h }.

Definition commands_ok (rows : list command_row) (rejections : list rejection_row) : Prop :=
  NoDup (List.map cmd_id rows ++ List.map rej_id rejections).

(** Every attempt runs a request that left the queue. *)
Definition slots_ok (rows : list attempt_row) (reqs : list request_row) : Prop :=
  forall a, a ∈ rows -> exists r, r ∈ reqs /\ req_id r = att_request a /\ queued r = false.

(** A message of the queue: its own request waits for it. *)
Definition waits (m : message_row) (reqs : list request_row) : Prop :=
  exists r, r ∈ reqs /\ msg_request m = Some (req_id r) /\ req_message r = msg_id m /\ queued r = true.
Record messages_ok (rows : list message_row) (reqs : list request_row) : Prop := {
  msg_ids : NoDup (List.map msg_id rows);
  msg_queued : forall m, m ∈ rows -> msg_disposition m = Some "queued" -> waits m reqs }.

(** The attempts are the node's own. *)
Definition owned (node : string) (rows : list attempt_row) : Prop := forall a, a ∈ rows -> att_node a = node.

(** Attempts that run were started, those being dispatched were not.  Control actions address an attempt and its
    request; a steer addresses the attempt in the slot, but its payload carries
    the request of the message it steers, which is still in the queue while the
    message is [steer_pending] and the steer not settled. *)
Definition addresses (rows : list attempt_row) (attempt : string) (payload : json) : Prop :=
  exists a, a ∈ rows /\ att_id a = attempt /\ get_string "requestId" payload = Some (att_request a).
Definition begun_row (a : attempt_row) : Prop :=
  (in_set (att_state a) ["running"; "waiting_input"] = true -> att_started a <> None) /\ (att_state a = "dispatching" -> att_started a = None).
Definition begun (rows : list attempt_row) : Prop := forall a, a ∈ rows -> begun_row a.
Definition steer_action (c : action_row) : bool := act_kind c =s CommandMessageSteer.
Definition open_steer (c : action_row) : bool := steer_action c && in_set (act_status c) ["pending"; "inflight"].
Definition steers (active : option string) (atts : list attempt_row) (msgs : list message_row) (reqs : list request_row)
    (attempt message : string) (payload : json) : Prop :=
  active = Some attempt
  /\ (exists a, a ∈ atts /\ att_id a = attempt /\ att_started a <> None)
  /\ exists m, m ∈ msgs /\ msg_id m = message /\ msg_request m = get_string "requestId" payload
       /\ (msg_disposition m = Some "steer_pending" -> waits m reqs).
Record actions_ok (active : option string) (atts : list attempt_row) (msgs : list message_row) (reqs : list request_row)
    (acts : list action_row) : Prop := {
  att_begun : begun atts;
  act_addressed : forall c, c ∈ acts -> steer_action c = false -> addresses atts (act_attempt c) (act_payload c);
  act_steers : forall c, c ∈ acts -> open_steer c = true ->
    steers active atts msgs reqs (act_attempt c) (default "" (act_message c)) (act_payload c) }.

Record Inv (node : string) (s : durableState) (db : Db) : Prop := {
  inv_identity : same_identity (node_state db) s;
  inv_node : NodeID s = node;
  inv_log : log_ok (NodeID s) (Epoch s) (LastEventSeq s) (events db);
  inv_pending : PendingCount s = count_where queued (requests db);
  inv_requests : requests_ok (NextQueueSequence s) (requests db);
  inv_attempts : attempts_ok (ActiveAttemptID s) (attempts db);
  inv_holds : holds_ok node (hold_clock db) (hold_scope_revisions db) (administrative_holds db) (administrative_hold_outcomes db);
  inv_commands : commands_ok (commands db) (command_rejections db);
  inv_slots : slots_ok (attempts db) (requests db);
  inv_messages : messages_ok (messages db) (requests db);
  inv_actions : actions_ok (ActiveAttemptID s) (attempts db) (messages db) (requests db) (control_actions db);
  inv_owned : owned node (attempts db) }.

Definition DbInv (node : string) (db : Db) : Prop := Inv node (node_state db) db.

(** ** Rows *)
Lemma in_set_iff s l : in_set s l = true <-> s ∈ l.
Proof.
  unfold in_set. rewrite existsb_exists. split.
  - intros (y & Hy & He). simplify_bool. subst. by apply list_elem_of_In.
  - intros Hs. exists s. split; [by apply list_elem_of_In|]. apply str_eqb_refl.
Qed.

Lemma exists_where_key_false {R} (k : R -> string) (key : string) (l : list R) :
  exists_where (fun r => k r =s key) l = false -> key ∉ List.map k l.
Proof.
  rewrite exists_where_false. intros H Hin.
  apply list_elem_of_In, List.in_map_iff in Hin as (r & <- & Hr).
  apply list_elem_of_In in Hr. specialize (H r Hr). by rewrite str_eqb_refl in H.
Qed.

Lemma NoDup_snoc_key {R} (k : R -> string) (row : R) (l : list R) :
  NoDup (List.map k l) -> exists_where (fun r => k r =s k row) l = false -> NoDup (List.map k (l ++ [row])).
Proof.
  intros Hnd Hnew. apply exists_where_key_false in Hnew. rewrite List.map_app. simpl.
  apply NoDup_app. split; [done|]. split; [|apply NoDup_singleton]. set_solver.
Qed.

Lemma requests_ok_snoc next rows row :
  requests_ok next rows -> exists_where (fun r => req_id r =s req_id row) rows = false ->
  exists_where (fun r => req_sequence r =? req_sequence row) rows = false ->
  req_sequence row = next -> requests_ok (Z.succ next) (rows ++ [row]).
Proof.
  intros [H1 H2 H3] Hid Hseq Hnext. split.
  - by apply NoDup_snoc_key.
  - rewrite List.map_app. simpl. apply NoDup_app. split; [done|]. split; [|apply NoDup_singleton].
    intros x Hx Hin. apply list_elem_of_singleton in Hin as ->.
    apply list_elem_of_In, List.in_map_iff in Hx as (r & He & Hr). apply list_elem_of_In in Hr.
    rewrite exists_where_false in Hseq. specialize (Hseq r Hr). simplify_bool. lia.
  - intros r Hr. apply elem_of_app in Hr as [Hr|Hr].
    + specialize (H3 r Hr). lia.
    + apply list_elem_of_singleton in Hr as ->. lia.
Qed.

Lemma requests_ok_update next rows p f :
  (forall r, req_id (f r) = req_id r /\ req_sequence (f r) = req_sequence r) ->
  requests_ok next rows -> requests_ok next (update_where p f rows).
Proof.
  intros Hf [H1 H2 H3]. split.
  - rewrite map_update_where; [done|]. intros. apply Hf.
  - rewrite map_update_where; [done|]. intros. apply Hf.
  - intros r Hr. apply elem_of_update_where in Hr as (r0 & Hr0 & ->).
    specialize (H3 r0 Hr0). destruct (p r0); [|done]. destruct (Hf r0) as [_ ->]. done.
Qed.

(** An update of one attempt that keeps its identity, and that is active
    afterwards exactly when it is the new active one. *)
Lemma attempts_ok_update active active' rows id f :
  attempts_ok active rows ->
  (forall a, att_id (f a) = att_id a) ->
  (forall a, a ∈ rows -> att_id a = id -> active_attempt (f a) = true <-> active' = Some id) ->
  (active = active' \/ (active = Some id /\ active' = None)) ->
  attempts_ok active' (update_where (fun a => att_id a =s id) f rows).
Proof.
  intros [H1 H2 H3] Hid Hf Hact. split.
  - by rewrite map_update_where by (intros; apply Hid).
  - intros a Ha. apply elem_of_update_where in Ha as (a0 & Ha0 & ->).
    destruct (att_id a0 =s id) eqn:He; simplify_bool.
    + rewrite Hid, He. by apply Hf.
    + rewrite (H2 a0 Ha0). destruct Hact as [->|[-> ->]]; [done|]. split; [intros; congruence|done].
  - intros x Hx. destruct Hact as [->|[-> ->]]; [|done].
    destruct (H3 x Hx) as (a & Ha & Hax).
    exists (if att_id a =s id then f a else a). split; [apply elem_of_update_where; eauto|].
    destruct (_ =s _); [by rewrite Hid|done].
Qed.

Lemma attempts_ok_snoc rows row id :
  att_id row = id -> attempts_ok None rows -> exists_where (fun a => att_id a =s att_id row) rows = false ->
  active_attempt row = true -> attempts_ok (Some id) (rows ++ [row]).
Proof.
  intros <- [H1 H2 H3] Hid Hact. split.
  - by apply NoDup_snoc_key.
  - intros a Ha. apply elem_of_app in Ha as [Ha|Ha].
    + pose proof (exists_where_key_false _ _ _ Hid) as Hnew. rewrite (H2 a Ha). split; [done|].
      intros [= He]. exfalso. apply Hnew. rewrite He. apply list_elem_of_In, List.in_map, list_elem_of_In, Ha.
    + apply list_elem_of_singleton in Ha as ->. done.
  - intros id [= <-]. exists row. split; [|done]. apply elem_of_app. right. set_solver.
Qed.

(** The unique index on active attempts: the one that becomes active takes the slot. *)
Lemma attempts_ok_activate node active rows id f a :
  attempts_ok active rows -> owned node rows -> a ∈ rows -> att_id a = id ->
  one_active_attempt (update_where (fun a => att_id a =s id) f rows) = true ->
  (forall a, att_id (f a) = att_id a /\ att_node (f a) = att_node a /\ active_attempt (f a) = true) ->
  attempts_ok (Some id) (update_where (fun a => att_id a =s id) f rows) /\ (active = None \/ active = Some id).
Proof.
  intros Hok Hown Hin Hid Hone Hf. pose proof Hok as [H1 H2 H3].
  assert (active = None \/ active = Some id) as Hact.
  { destruct active as [other|]; [right|by left]. destruct (decide (other = id)) as [->|Hne]; [done|]. exfalso.
    destruct (H3 other eq_refl) as (b & Hb & Eb). unfold one_active_attempt in Hone. rewrite forallb_forall in Hone.
    assert (f a ∈ update_where (fun a => att_id a =s id) f rows) as Hfa
      by (apply elem_of_update_where; exists a; split; [done|]; by rewrite Hid, str_eqb_refl).
    assert (b ∈ update_where (fun a => att_id a =s id) f rows) as Hfb.
    { apply elem_of_update_where. exists b. split; [done|]. destruct (_ =s _) eqn:He; [simplify_bool; congruence|done]. }
    specialize (Hone (f a) ltac:(by apply list_elem_of_In)). destruct (Hf a) as (E1 & E2 & E3).
    rewrite E3, E2, (Hown a Hin) in Hone. cbn [negb orb] in Hone. apply Z.leb_le in Hone.
    eapply (count_where_two _ _ (f a) b); [exact Hfa|exact Hfb|intros E; rewrite <- E in Eb; congruence|..|exact Hone].
    - cbv beta. rewrite E3, E2, (Hown a Hin). by rewrite str_eqb_refl.
    - cbv beta. rewrite (Hown b Hb), str_eqb_refl. rewrite andb_true_r. apply (H2 b Hb). congruence. }
  split; [|done]. split.
  - by rewrite map_update_where by (intros; apply Hf).
  - intros x Hx. apply elem_of_update_where in Hx as (x0 & Hx0 & ->). destruct (att_id x0 =s id) eqn:He; simplify_bool.
    + destruct (Hf x0) as (-> & _ & ->). by rewrite He.
    + rewrite (H2 x0 Hx0). destruct Hact as [->| ->]; [|done]. split; [done|]. intros [= ->]. done.
  - intros x [= <-]. exists (f a). destruct (Hf a) as (-> & _). split; [|done].
    apply elem_of_update_where. exists a. by rewrite Hid, str_eqb_refl.
Qed.

Lemma owned_update node rows p f : (forall a, att_node (f a) = att_node a) -> owned node rows -> owned node (update_where p f rows).
Proof. intros Hf H a Ha. apply elem_of_update_where in Ha as (x & Hx & ->). destruct (p x); [rewrite Hf|]; by apply H. Qed.
Lemma owned_app node rows row : att_node row = node -> owned node rows -> owned node (rows ++ [row]).
Proof. intros Hr H a Ha. apply elem_of_app in Ha as [Ha|Ha]; [by apply H|]. by apply list_elem_of_singleton in Ha as ->. Qed.

Lemma slots_ok_request rows reqs row : slots_ok rows reqs -> slots_ok rows (reqs ++ [row]).
Proof. intros H a Ha. destruct (H a Ha) as (r & Hr & ?). exists r. split; [set_solver|done]. Qed.

Lemma slots_ok_update_request rows reqs p f :
  (forall r, req_id (f r) = req_id r) -> (forall r, queued r = false -> queued (f r) = false) ->
  slots_ok rows reqs -> slots_ok rows (update_where p f reqs).
Proof.
  intros Hid Hq H a Ha. destruct (H a Ha) as (r & Hr & He & Hr2).
  exists (if p r then f r else r). split; [apply elem_of_update_where; eauto|].
  destruct (p r); [|done]. rewrite Hid. auto.
Qed.

Lemma slots_ok_update_attempt rows reqs p f :
  (forall a, att_request (f a) = att_request a) -> slots_ok rows reqs -> slots_ok (update_where p f rows) reqs.
Proof.
  intros Hf H a Ha. apply elem_of_update_where in Ha as (a0 & Ha0 & ->).
  destruct (p a0) eqn:Hp; [|by apply H]. rewrite Hf. by apply H.
Qed.

(** A dispatched request takes the slot. *)
Lemma slots_ok_dispatch rows reqs row f id :
  slots_ok rows reqs -> att_request row = id -> exists_where (fun r => req_id r =s id) reqs = true ->
  (forall r, req_id (f r) = req_id r) -> (forall r, queued (f r) = false) ->
  slots_ok (rows ++ [row]) (update_where (fun r => req_id r =s id) f reqs).
Proof.
  intros H Hrow Hex Hid Hq a Ha. apply elem_of_app in Ha as [Ha|Ha].
  - by apply (slots_ok_update_request rows); [| |apply H|..]; auto.
  - apply list_elem_of_singleton in Ha as ->. apply exists_where_true in Hex as (r & Hr & He).
    exists (f r). rewrite Hid, Hq. simplify_bool. split_and!; [|congruence|done].
    apply elem_of_update_where. exists r. split; [done|]. by rewrite He, str_eqb_refl.
Qed.

Lemma queued_row r : req_status r = "queued" -> queued r = true.
Proof. unfold queued. intros ->. done. Qed.

Lemma count_queued_snoc rows row :
  req_status row = "queued" -> count_where queued (rows ++ [row]) = Z.succ (count_where queued rows).
Proof. intros H. autorewrite with table. rewrite (queued_row _ H). lia. Qed.

(** Taking a queued request out of the queue. *)
Lemma count_queued_update rows id r f :
  NoDup (List.map req_id rows) -> select1 (fun r => req_id r =s id) rows = Some r ->
  queued r = true -> queued (f r) = false ->
  count_where queued (update_where (fun r => req_id r =s id) f rows) = count_where queued rows - 1.
Proof.
  intros Hnd Hsel Hq Hf. apply select1_Some in Hsel as [Hin He]. simplify_bool. subst id.
  rewrite count_where_update_key by done. rewrite Hq, Hf. lia.
Qed.

Lemma count_queued_same rows p f :
  (forall r, r ∈ rows -> p r = true -> queued (f r) = queued r) ->
  count_where queued (update_where p f rows) = count_where queued rows.
Proof. apply count_where_update_same. Qed.

(** A row found by its key is every row with that key. *)
Lemma select1_unique {R} (k : R -> string) rows id r r' :
  NoDup (List.map k rows) -> select1 (fun x => k x =s id) rows = Some r -> r' ∈ rows -> k r' = id -> r' = r.
Proof.
  intros Hnd Hsel Hin Hk. rewrite (select1_key_unique k rows r' id) in Hsel by done. congruence.
Qed.

(** ** Holds *)
Lemma default_nullText d : default "" (nullText d) = d.
Proof. unfold nullText. destruct (d =s "") eqn:?; [by simplify_bool|done]. Qed.

(** Scopes with the same revision key overlap. *)
Lemma scope_key_overlap h1 h2 :
  scope_shape h1 = true -> scope_shape h2 = true ->
  scope_key (durableHold_scope h1) = scope_key (durableHold_scope h2) -> overlap h1 h2 = true.
Proof.
  unfold scope_shape, scope_key, overlap, durableHold_scope. cbn [scope_kind scope_dialog].
  destruct (hold_dialog h1) as [d1|] eqn:E1, (hold_dialog h2) as [d2|] eqn:E2; intros H1 H2;
    simplify_bool; rewrite H1, H2; cbn; intros He; try done.
  rewrite bool_decide_true; [done|]. injection He as He. change (d1 = d2) in He. by subst.
Qed.

Lemma released_app outcomes o h : released (outcomes ++ [o]) h = released outcomes h || (out_operation o =s hold_operation h).
Proof. unfold released. rewrite exists_where_app. simpl. by rewrite orb_false_r. Qed.

Lemma upsert_keys key revision rows :
  NoDup (List.map hsr_key rows) -> NoDup (List.map hsr_key (upsert key revision rows)).
Proof.
  intros H. unfold upsert. destruct (exists_where _ _) eqn:He.
  - by rewrite map_update_where.
  - apply (NoDup_snoc_key hsr_key (mkScopeRevision key revision)); done.
Qed.

Lemma upsert_new key revision rows :
  exists r, r ∈ upsert key revision rows /\ hsr_key r = key /\ hsr_revision r = revision.
Proof.
  unfold upsert. destruct (exists_where _ _) eqn:He.
  - apply exists_where_true in He as (r & Hr & Hk). exists (mkScopeRevision (hsr_key r) revision).
    split; [|by simplify_bool]. apply elem_of_update_where. exists r. by rewrite Hk.
  - exists (mkScopeRevision key revision). split; [|done]. apply elem_of_app. right. set_solver.
Qed.

Lemma upsert_other key revision rows r :
  r ∈ rows -> hsr_key r <> key -> r ∈ upsert key revision rows.
Proof.
  intros Hr Hk. unfold upsert. destruct (exists_where _ _); [|set_solver].
  apply elem_of_update_where. exists r. split; [done|]. destruct (_ =s _) eqn:?; [by simplify_bool|done].
Qed.

(** An old active hold does not overlap the scope that passed the conflict check. *)
Lemma no_conflict_no_overlap node clock revisions holds outcomes db s row h :
  holds_ok node clock revisions holds outcomes ->
  administrative_holds db = holds -> administrative_hold_outcomes db = outcomes ->
  count_where (hold_conflicts db node s) holds = 0 -> h ∈ holds -> released outcomes h = false ->
  hold_scope row = scope_kind s -> hold_dialog row = nullText (scope_dialog s) -> overlap h row = false.
Proof.
  intros Hok Hh Ho Hc Hin Hrel Hsc Hd. destruct (hold_facts _ _ _ _ _ Hok h Hin) as (Hn & _ & Hsh).
  assert (hold_conflicts db node s h = false) as Hno.
  { pose proof (exists_where_count (hold_conflicts db node s) holds) as He. rewrite Hc in He. cbn in He.
    rewrite exists_where_false in He. by apply He. }
  unfold hold_conflicts, hold_active in Hno. rewrite Ho, Hn, str_eqb_refl in Hno.
  unfold released in Hrel. rewrite Hrel in Hno. cbn in Hno.
  apply orb_false_iff in Hno as [Hno H0]. apply orb_false_iff in Hno as [Ha Hb].
  unfold overlap. rewrite Hsc, Ha, Hb. cbn. apply bool_decide_false. intros He. rewrite Hd in He.
  unfold scope_shape in Hsh. rewrite He in Hsh. unfold nullText in *.
  destruct (scope_dialog s =s "") eqn:Hempty; [congruence|].
  unfold is_text in H0. rewrite Hsh, He in H0. cbn in H0. by rewrite str_eqb_refl in H0.
Qed.

Lemma holds_ok_install node clock revisions holds outcomes db s row revision :
  holds_ok node clock revisions holds outcomes ->
  administrative_holds db = holds -> administrative_hold_outcomes db = outcomes ->
  count_where (hold_conflicts db node s) holds = 0 ->
  exists_where (fun h => hold_operation h =s hold_operation row) holds = false -> scope_shape row = true ->
  hold_scope row = scope_kind s -> hold_dialog row = nullText (scope_dialog s) ->
  hold_node row = node -> hold_version row = clock -> hold_revision row = revision ->
  holds_ok node (Z.succ clock) (upsert (scope_key s) revision revisions) (holds ++ [row]) outcomes.
Proof.
  intros Hok Hh Ho Hc Hnew Hshape Hsc Hd Hn Hv <-.
  assert (forall h, h ∈ holds -> released outcomes h = false -> overlap h row = false) as Hno.
  { intros. by eapply no_conflict_no_overlap. }
  assert (scope_key s = scope_key (durableHold_scope row)) as Hkey.
  { unfold durableHold_scope. rewrite Hd, Hsc, default_nullText. by destruct s. }
  destruct Hok as [H1 H2 H3 H4 H5 H6]. split.
  - by apply NoDup_snoc_key.
  - intros h Hin. apply elem_of_app in Hin as [Hin|Hin].
    + destruct (H2 h Hin) as (? & ? & ?). split_and!; [done|lia|done].
    + apply list_elem_of_singleton in Hin as ->. split_and!; [done|lia|done].
  - by apply upsert_keys.
  - intros o Hin. destruct (H4 o Hin) as (h & Hh' & He). exists h. set_solver.
  - assert (forall h1 h2, overlap h1 h2 = overlap h2 h1) as Hsym.
    { intros h1 h2. unfold overlap. rewrite (orb_comm (hold_scope h1 =s "node")). f_equal.
      by apply bool_decide_ext. }
    intros h1 h2 Hin1 Hin2 R1 R2 Hov.
    apply elem_of_app in Hin1 as [Hin1|Hin1]; apply elem_of_app in Hin2 as [Hin2|Hin2];
      repeat match goal with H : _ ∈ [_] |- _ => apply list_elem_of_singleton in H; subst end.
    + by apply H5.
    + by rewrite Hno in Hov.
    + rewrite Hsym in Hov. by rewrite Hno in Hov.
    + done.
  - intros h Hin Hrel. apply elem_of_app in Hin as [Hin|Hin].
    + destruct (H6 h Hin Hrel) as (r & Hr & Hk & Hrev). exists r. split; [|done]. apply upsert_other; [done|].
      intros He. specialize (Hno h Hin Hrel). destruct (H2 h Hin) as (_ & _ & Hsh).
      rewrite (scope_key_overlap h row) in Hno; [done..|]. congruence.
    + apply list_elem_of_singleton in Hin as ->. rewrite Hkey. apply upsert_new.
Qed.

Lemma holds_ok_release node clock revisions holds outcomes h o expected revision :
  holds_ok node clock revisions holds outcomes -> h ∈ holds -> released outcomes h = false ->
  out_operation o = hold_operation h ->
  holds_ok node clock
    (update_where (fun r => (hsr_key r =s scope_key (durableHold_scope h)) && (hsr_revision r =? expected))
       (fun r => r <| hsr_revision := revision |>) revisions)
    holds (outcomes ++ [o]).
Proof.
  intros [H1 H2 H3 H4 H5 H6] Hin Hrel Ho. split; try done.
  - by rewrite map_update_where.
  - intros x Hx. apply elem_of_app in Hx as [Hx|Hx]; [by apply H4|].
    apply list_elem_of_singleton in Hx as ->. eauto.
  - intros h1 h2 Hin1 Hin2 R1 R2. rewrite released_app in R1, R2. simplify_bool. by apply H5.
  - intros h' Hin' Hrel'. rewrite released_app in Hrel'. simplify_bool.
    destruct (H6 h' Hin') as (r & Hr & Hk & Hrev); [done|]. exists r. split; [|done].
    apply elem_of_update_where. exists r. split; [done|].
    destruct (hsr_key r =s scope_key (durableHold_scope h)) eqn:He; [|done]. simplify_bool.
    destruct (H2 h Hin) as (_ & _ & ?), (H2 h' Hin') as (_ & _ & ?).
    exfalso. apply H0. rewrite Ho. apply H5; try done. apply scope_key_overlap; [done..|congruence].
Qed.
