(* ===== verification/Steering.v ===== *)
(** * Messages of the queue and control actions
    How the statements of the handlers keep [messages_ok] and [actions_ok]:
    a waiting message keeps its queued request, an open steer keeps the slot. *)
From stdpp Require Import base tactics list strings gmap pretty.
From Stdlib Require Import ZArith Lia Ascii String.
From S2P Require Import Prelude Json Wire Store Tx Adapter Events Commands Barrier Hold Submit Dispatch Frames.
From S2P Require Import Invariant.
Open Scope string_scope.
Open Scope list_scope.
Open Scope Z_scope.
Open Scope harness_scope.

(** ** Waiting messages *)
Lemma waits_update m reqs id f :
  (forall r, r ∈ reqs -> req_id r = id -> queued r = true -> req_message r <> msg_id m) ->
  waits m reqs -> waits m (update_where (fun r => req_id r =s id) f reqs).
Proof.
  intros Hne (r & Hr & H1 & H2 & H3). exists r. split_and!; try done.
  apply elem_of_update_where. exists r. split; [done|].
  destruct (_ =s _) eqn:He; [|done]. simplify_bool. by destruct (Hne r).
Qed.
Lemma waits_app m reqs row : waits m reqs -> waits m (reqs ++ [row]).
Proof. intros (r & Hr & H). exists r. split; [set_solver|done]. Qed.

(** The rows that wait afterwards waited before. *)
Definition kept_waiting (d : string) (msgs msgs' : list message_row) (reqs reqs' : list request_row) : Prop :=
  forall m, m ∈ msgs' -> msg_disposition m = Some d -> waits m reqs' \/ (m ∈ msgs /\ (waits m reqs -> waits m reqs')).

Lemma messages_ok_step msgs msgs' reqs reqs' :
  messages_ok msgs reqs -> NoDup (List.map msg_id msgs') -> kept_waiting "queued" msgs msgs' reqs reqs' -> messages_ok msgs' reqs'.
Proof.
  intros [H1 H2] Hnd Hk. split; [done|]. intros m Hm Hd. destruct (Hk m Hm Hd) as [?|[Hin Hw]]; [done|]. by apply Hw, H2.
Qed.

Lemma kept_same d msgs reqs : kept_waiting d msgs msgs reqs reqs.
Proof. intros m Hm _. right. auto. Qed.
Lemma kept_request d msgs reqs row : kept_waiting d msgs msgs reqs (reqs ++ [row]).
Proof. intros m Hm _. right. split; [done|]. apply waits_app. Qed.
Lemma kept_update_request d msgs reqs id f :
  (forall r, r ∈ reqs -> req_id r = id -> queued r = false) ->
  kept_waiting d msgs msgs reqs (update_where (fun r => req_id r =s id) f reqs).
Proof. intros Hq m Hm _. right. split; [done|]. apply waits_update. intros r Hr He. rewrite Hq; done. Qed.

(** A message out of the queue leaves it with its request. *)
Lemma kept_leave d msgs reqs id mid f g :
  (forall r, r ∈ reqs -> req_id r = id -> queued r = true -> req_message r = mid) ->
  (forall m, msg_disposition (g m) <> Some d) ->
  kept_waiting d msgs (update_where (fun m => msg_id m =s mid) g msgs) reqs (update_where (fun r => req_id r =s id) f reqs).
Proof.
  intros Hr Hg m Hm Hd. apply elem_of_update_where in Hm as (m0 & Hm & ->).
  destruct (msg_id m0 =s mid) eqn:He; [by destruct (Hg m0)|]. right. split; [done|].
  apply waits_update. intros r Hin Hid Hq. rewrite (Hr r Hin Hid Hq). simplify_bool. congruence.
Qed.

(** The same when the message is settled already. *)
Lemma kept_leave_settled d msgs reqs id mid f :
  (forall r, r ∈ reqs -> req_id r = id -> queued r = true -> req_message r = mid) ->
  (forall m, m ∈ msgs -> msg_id m = mid -> msg_disposition m <> Some d) ->
  kept_waiting d msgs msgs reqs (update_where (fun r => req_id r =s id) f reqs).
Proof.
  intros Hr Hm m Hin Hd. right. split; [done|]. apply waits_update. intros r Hinr Hid Hq.
  rewrite (Hr r Hinr Hid Hq). intros He. by destruct (Hm m Hin).
Qed.

(** A changed disposition of messages that wait. *)
Lemma kept_change d msgs reqs mid g :
  (forall m, m ∈ msgs -> msg_id m = mid -> msg_disposition (g m) = Some d -> waits (g m) reqs) ->
  kept_waiting d msgs (update_where (fun m => msg_id m =s mid) g msgs) reqs reqs.
Proof.
  intros Hg m Hm Hd. apply elem_of_update_where in Hm as (m0 & Hm & ->).
  destruct (msg_id m0 =s mid) eqn:He; simplify_bool; [left; by apply Hg|by right].
Qed.

Lemma kept_message d msgs reqs row :
  (msg_disposition row = Some d -> waits row reqs) -> kept_waiting d msgs (msgs ++ [row]) reqs reqs.
Proof.
  intros Hrow m Hm Hd. apply elem_of_app in Hm as [Hm|Hm]; [by right|].
  apply list_elem_of_singleton in Hm as ->. left. auto.
Qed.
Lemma kept_enqueue d msgs reqs row r :
  msg_request row = Some (req_id r) -> req_message r = msg_id row -> queued r = true ->
  kept_waiting d msgs (msgs ++ [row]) reqs (reqs ++ [r]).
Proof.
  intros H1 H2 H3 m Hm Hd. apply elem_of_app in Hm as [Hm|Hm]; [right; split; [done|]; apply waits_app|].
  apply list_elem_of_singleton in Hm as ->. left. exists r. split; [set_solver|done].
Qed.

Lemma waits_same m m' reqs : msg_id m' = msg_id m -> msg_request m' = msg_request m -> waits m reqs -> waits m' reqs.
Proof. intros H1 H2 (r & Hr & H). exists r. by rewrite H1, H2. Qed.

Lemma update_message_ids msgs p g : (forall m, msg_id (g m) = msg_id m) -> NoDup (List.map msg_id msgs) ->
  NoDup (List.map msg_id (update_where p g msgs)).
Proof. intros Hg H. by rewrite map_update_where. Qed.

(** ** Control actions *)
Definition attempts_kept (atts atts' : list attempt_row) : Prop := forall a, a ∈ atts ->
  exists a', a' ∈ atts' /\ att_id a' = att_id a /\ att_request a' = att_request a /\ (att_started a <> None -> att_started a' <> None).

Lemma attempts_kept_refl atts : attempts_kept atts atts.
Proof. intros a Ha. exists a. auto. Qed.
Lemma attempts_kept_app atts row : attempts_kept atts (atts ++ [row]).
Proof. intros a Ha. exists a. split; [set_solver|done]. Qed.
Lemma attempts_kept_update atts p f :
  (forall a, a ∈ atts -> att_id (f a) = att_id a /\ att_request (f a) = att_request a /\ (att_started a <> None -> att_started (f a) <> None)) ->
  attempts_kept atts (update_where p f atts).
Proof.
  intros Hf a Ha. exists (if p a then f a else a). split; [apply elem_of_update_where; eauto|].
  destruct (p a); [by apply Hf|done].
Qed.
Lemma begun_update atts p f :
  (forall a, a ∈ atts -> p a = true -> begun_row (f a)) ->
  begun atts -> begun (update_where p f atts).
Proof.
  intros Hf H a Ha. apply elem_of_update_where in Ha as (a0 & Ha & ->). destruct (p a0) eqn:?; [by apply Hf|by apply H].
Qed.
Lemma begun_app atts row : begun_row row -> begun atts -> begun (atts ++ [row]).
Proof. intros Hr H a Ha. apply elem_of_app in Ha as [Ha|Ha]; [by apply H|]. by apply list_elem_of_singleton in Ha as ->. Qed.

Lemma addresses_kept atts atts' id payload : attempts_kept atts atts' -> addresses atts id payload -> addresses atts' id payload.
Proof. intros Hk (a & Ha & <- & He). destruct (Hk a Ha) as (a' & Ha' & H1 & H2 & _). exists a'. by rewrite H1, H2. Qed.

(** The message a steer names, afterwards: one that is [steer_pending] now
    waits if it waited before, or waits for a reason of its own. *)
Definition steers_kept (msgs msgs' : list message_row) (reqs reqs' : list request_row) : Prop := forall m, m ∈ msgs ->
  exists m', m' ∈ msgs' /\ msg_id m' = msg_id m /\ msg_request m' = msg_request m
    /\ ((msg_disposition m = Some "steer_pending" -> waits m reqs) -> msg_disposition m' = Some "steer_pending" -> waits m' reqs').

Lemma steers_kept_same msgs reqs reqs' :
  (forall m, m ∈ msgs -> msg_disposition m = Some "steer_pending" -> waits m reqs -> waits m reqs') -> steers_kept msgs msgs reqs reqs'.
Proof. intros H m Hm. exists m. split_and!; auto. Qed.
Lemma steers_kept_refl msgs reqs : steers_kept msgs msgs reqs reqs.
Proof. by apply steers_kept_same. Qed.
Lemma steers_kept_app msgs reqs row : steers_kept msgs (msgs ++ [row]) reqs reqs.
Proof. intros m Hm. exists m. split_and!; auto. set_solver. Qed.
Lemma steers_kept_request msgs reqs row : steers_kept msgs msgs reqs (reqs ++ [row]).
Proof. apply steers_kept_same. intros m _ _. apply waits_app. Qed.
Lemma steers_kept_trans msgs msgs' msgs'' reqs reqs' reqs'' :
  steers_kept msgs msgs' reqs reqs' -> steers_kept msgs' msgs'' reqs' reqs'' -> steers_kept msgs msgs'' reqs reqs''.
Proof.
  intros H1 H2 m Hm. destruct (H1 m Hm) as (m1 & Hm1 & E1 & E2 & E3). destruct (H2 m1 Hm1) as (m2 & Hm2 & F1 & F2 & F3).
  exists m2. split_and!; [done|congruence..|auto].
Qed.
Lemma steers_kept_update_request msgs reqs id f :
  (forall r, r ∈ reqs -> req_id r = id -> queued r = false) ->
  steers_kept msgs msgs reqs (update_where (fun r => req_id r =s id) f reqs).
Proof. intros Hq. apply steers_kept_same. intros m Hm _. apply waits_update. intros r Hr He. rewrite Hq; done. Qed.
Lemma steers_kept_leave msgs reqs id mid f g :
  (forall r, r ∈ reqs -> req_id r = id -> queued r = true -> req_message r = mid) ->
  (forall m, msg_id (g m) = msg_id m /\ msg_request (g m) = msg_request m /\ msg_disposition (g m) <> Some "steer_pending") ->
  steers_kept msgs (update_where (fun m => msg_id m =s mid) g msgs) reqs (update_where (fun r => req_id r =s id) f reqs).
Proof.
  intros Hr Hg m Hm. destruct (Hg m) as (G1 & G2 & G3). exists (if msg_id m =s mid then g m else m).
  split; [apply elem_of_update_where; eauto|]. destruct (msg_id m =s mid) eqn:He; [done|]. split_and!; [done..|].
  intros Hw Hd. apply waits_update; [|auto]. intros r Hin Hid Hq. rewrite (Hr r Hin Hid Hq). simplify_bool. congruence.
Qed.
Lemma steers_kept_change msgs reqs mid g :
  (forall m, m ∈ msgs -> msg_id m = mid -> msg_disposition (g m) = Some "steer_pending" -> waits (g m) reqs) ->
  (forall m, msg_id (g m) = msg_id m /\ msg_request (g m) = msg_request m) ->
  steers_kept msgs (update_where (fun m => msg_id m =s mid) g msgs) reqs reqs.
Proof.
  intros Hw Hg m Hm. destruct (Hg m) as (G1 & G2). exists (if msg_id m =s mid then g m else m).
  split; [apply elem_of_update_where; eauto|]. destruct (msg_id m =s mid) eqn:He; simplify_bool; [|by auto]. split_and!; auto.
Qed.

Lemma steers_step active atts atts' msgs msgs' reqs reqs' attempt message payload :
  attempts_kept atts atts' -> steers_kept msgs msgs' reqs reqs' ->
  steers active atts msgs reqs attempt message payload -> steers active atts' msgs' reqs' attempt message payload.
Proof.
  intros Ha Hk (E & (a & Hin & Eid & Hs) & (m & Hm & Em & Er & Hw)). split_and!; [done| |].
  - destruct (Ha a Hin) as (a' & Ha' & E1 & _ & E3). exists a'. split_and!; [done|congruence|auto].
  - destruct (Hk m Hm) as (m' & Hm' & E1 & E2 & E3). exists m'. split_and!; [done|congruence..|auto].
Qed.

Lemma actions_ok_step active atts atts' msgs msgs' reqs reqs' acts :
  actions_ok active atts msgs reqs acts -> attempts_kept atts atts' -> begun atts' ->
  steers_kept msgs msgs' reqs reqs' -> actions_ok active atts' msgs' reqs' acts.
Proof.
  intros [H1 H2 H3] Ha Hb Hk. split; [done| |].
  - intros c Hc Hs. eapply addresses_kept; [done|by apply H2].
  - intros c Hc Ho. eapply steers_step; [done..|by apply H3].
Qed.

(** No steer is open. *)
Definition steered (acts : list action_row) : bool := exists_where open_steer acts.
Lemma actions_ok_closed active active' atts atts' msgs msgs' reqs reqs' acts :
  actions_ok active atts msgs reqs acts -> attempts_kept atts atts' -> begun atts' -> steered acts = false ->
  actions_ok active' atts' msgs' reqs' acts.
Proof.
  intros [H1 H2 H3] Ha Hb Hc. split; [done| |].
  - intros c Hin Hs. eapply addresses_kept; [done|by apply H2].
  - intros c Hin Ho. unfold steered in Hc. rewrite exists_where_false in Hc. by rewrite Hc in Ho.
Qed.
Lemma idle_closed atts msgs reqs acts : actions_ok None atts msgs reqs acts -> steered acts = false.
Proof.
  intros [_ _ H3]. apply exists_where_false. intros c Hc. destruct (open_steer c) eqn:Ho; [|done].
  destruct (H3 c Hc Ho) as [? _]. done.
Qed.

Lemma actions_ok_insert active atts msgs reqs acts c :
  actions_ok active atts msgs reqs acts -> (steer_action c = false -> addresses atts (act_attempt c) (act_payload c)) ->
  (steer_action c = true -> steers active atts msgs reqs (act_attempt c) (default "" (act_message c)) (act_payload c)) ->
  actions_ok active atts msgs reqs (acts ++ [c]).
Proof.
  intros [H1 H2 H3] Ha Hs. split; [done|..]; intros c' Hc'; apply elem_of_app in Hc' as [Hc'|Hc'];
    try apply list_elem_of_singleton in Hc' as ->; auto.
  intros Ho. apply Hs. unfold open_steer in Ho. by simplify_bool.
Qed.

Lemma actions_ok_move active atts msgs reqs acts p status :
  (forall c, c ∈ acts -> p c = true -> in_set status ["pending"; "inflight"] = true -> in_set (act_status c) ["pending"; "inflight"] = true) ->
  actions_ok active atts msgs reqs acts -> actions_ok active atts msgs reqs (update_where p (fun c => c <| act_status := status |>) acts).
Proof.
  intros Hp [H1 H2 H3]. split; [done|..]; intros c' Hc'; apply elem_of_update_where in Hc' as (c & Hc & ->).
  - specialize (H2 c Hc). by destruct (p c).
  - intros Ho. destruct (p c) eqn:Hpc; [|by apply H3].
    cbn [act_attempt act_message act_payload field_upd]. apply (H3 c Hc). unfold open_steer in *. simplify_bool.
    apply andb_true_iff. split; [done|]. by apply Hp.
Qed.
