(* ===== verification/Handlers.v ===== *)
(** * Command handlers keep the node invariant
    Every handler of [Commands], run on a transaction that satisfies the
    invariant, leaves one that satisfies it, and touches the committed database
    on no path. *)
From stdpp Require Import base tactics list strings gmap pretty.
From Stdlib Require Import ZArith Lia Ascii String.
From S2P Require Import Prelude Json Wire Store Tx Adapter Events Commands Barrier Hold Submit Dispatch Frames.
From S2P Require Import Invariant Steering.
Open Scope string_scope.
Open Scope list_scope.
Open Scope Z_scope.
Open Scope harness_scope.

(** A handler writes neither the command tables nor the hold tables. *)
Definition handler_frame (c c' : Core) : Prop :=
  durable c' = durable c /\ commands (tx c') = commands (tx c)
  /\ command_rejections (tx c') = command_rejections (tx c)
  /\ administrative_holds (tx c') = administrative_holds (tx c)
  /\ administrative_hold_outcomes (tx c') = administrative_hold_outcomes (tx c).

(** The intent a handler leaves for the worker is one the invariant admits. *)
Definition posted (p : postCommitAction) (s : durableState) (db : Db) : Prop :=
  post_kind p = ""
  \/ (post_kind p <> CommandMessageSteer /\ addresses (attempts db) (post_attempt p) (post_payload p))
  \/ (post_kind p = CommandMessageSteer
      /\ steers (ActiveAttemptID s) (attempts db) (messages db) (requests db) (post_attempt p) (post_message p) (post_payload p)).

Definition keeps (m : M applied) : Prop := forall env c,
  Inv (cfg_node env) (st c) (tx c) ->
  wp env m (fun a c' => handler_frame c c' /\ Inv (cfg_node env) (st c') (tx c') /\ posted (app_action a) (st c') (tx c'))
           (fun _ c' => durable c' = durable c) c.

(** The end of a symbolic run: the conjuncts no statement touched are the
    hypotheses, the others remain. *)
Ltac inv_done HI :=
  split; [by split_and!|];
  destruct HI as [Hident Hnode Hlog Hpending Hrequests Hattempts Hholds Hcommands Hslots Hmessages Hactions Howned];
  split; [constructor; rcbn; try assumption; try (by apply slots_ok_request); try (by apply slots_ok_update_request); try (by apply owned_update)
         |rcbn; try (by left)].
(** The intent of a handler other than message.steer. *)
Ltac posted_by Hk := right; left; cbn [app_action post_attempt post_payload post_kind]; split; [rewrite Hk; discriminate|].
Ltac handler_start :=
  intros env c HI; pose proof (inv_log _ _ _ HI).

(** An update of requests and messages, as steps of the two invariants. *)
Ltac queue_step :=
  match goal with
  | H : messages_ok _ _ |- messages_ok _ _ =>
      eapply messages_ok_step; [exact H|try (by destruct H); try (apply update_message_ids; [done|by destruct H])|]
  | H : actions_ok _ _ _ _ _ |- actions_ok _ _ _ _ _ =>
      eapply actions_ok_step; [exact H|try apply attempts_kept_refl|try (by destruct H)|]
  end.

Lemma row_addressed a rows payload :
  a ∈ rows -> get_string "requestId" payload = Some (att_request a) -> addresses rows (att_id a) payload.
Proof. intros H1 H2. by exists a. Qed.

Lemma keeps_dialog_create e : keeps (applyDialogCreate e).
Proof. handler_start. unfold applyDialogCreate. repeat wp_step. inv_done HI. Qed.

Lemma keeps_message_enqueue e : keeps (applyMessageEnqueue e).
Proof.
  handler_start. unfold applyMessageEnqueue. repeat wp_step. inv_done HI.
  - rewrite count_queued_snoc by done. lia.
  - by apply requests_ok_snoc.
  - queue_step; [by apply NoDup_snoc_key; [destruct Hmessages|]|by apply kept_enqueue].
  - queue_step. eapply steers_kept_trans; [apply steers_kept_request|apply steers_kept_app].
Qed.

Lemma keeps_queue_resume e : keeps (applyQueueResume e).
Proof. handler_start. unfold applyQueueResume. repeat wp_step. inv_done HI. Qed.

Lemma request_message reqs id r : NoDup (List.map req_id reqs) -> select1 (fun r => req_id r =s id) reqs = Some r ->
  forall r', r' ∈ reqs -> req_id r' = id -> queued r' = true -> req_message r' = req_message r.
Proof. intros Hnd Hs r' Hr' Hid _. by rewrite (select1_unique req_id reqs id r r'). Qed.

Lemma keeps_request_cancel e : keeps (applyRequestCancel e).
Proof.
  handler_start. unfold applyRequestCancel. repeat wp_step. inv_done HI.
  - simplify_bool. erewrite count_queued_update; [|by destruct Hrequests|done|by apply queued_row|done]. lia.
  - by apply requests_ok_update.
  - queue_step. apply kept_leave; [|done]. eapply request_message; [by destruct Hrequests|done].
  - queue_step. apply steers_kept_leave; [|done]. eapply request_message; [by destruct Hrequests|done].
Qed.

(** The attempt read and updated, as the action addresses it. *)
Lemma updated_addressed a rows id f payload :
  select1 (fun a => att_id a =s id) rows = Some a -> (forall a, att_id (f a) = att_id a /\ att_request (f a) = att_request a) ->
  get_string "requestId" payload = Some (att_request a) -> addresses (update_where (fun a => att_id a =s id) f rows) id payload.
Proof.
  intros Hs Hf Hp. apply select1_Some in Hs as [Hin He]. exists (f a). destruct (Hf a) as [-> ->]. simplify_bool. split_and!; [|done..].
  apply elem_of_update_where. exists a. split; [done|]. by rewrite He, str_eqb_refl.
Qed.
Lemma selected_addressed a rows id payload :
  select1 (fun a => att_id a =s id) rows = Some a -> get_string "requestId" payload = Some (att_request a) -> addresses rows id payload.
Proof. intros Hs Hp. apply select1_Some in Hs as [Hin He]. simplify_bool. by exists a. Qed.

Lemma keeps_attempt_stop e : env_kind e = CommandAttemptStop -> keeps (applyAttemptStop e).
Proof.
  intros Hkind. handler_start. unfold applyAttemptStop. repeat wp_step. inv_done HI.
  all: simplify_bool; unfold active_is, is_text in *; destruct (ActiveAttemptID (st c)) eqn:Hactive; [|done]; simplify_bool; subst.
  - eapply attempts_ok_update; [done|done| |by left]. done.
  - by apply slots_ok_update_attempt.
  - eapply actions_ok_step; [exact Hactions|by apply attempts_kept_update|by apply begun_update; [|destruct Hactions]|apply steers_kept_refl].
  - posted_by Hkind. by eapply updated_addressed.
Qed.

Lemma keeps_attempt_retry e : keeps (applyAttemptRetry e).
Proof.
  handler_start. unfold applyAttemptRetry. repeat wp_step. inv_done HI.
  - rewrite count_queued_snoc by done. lia.
  - by apply requests_ok_snoc.
  - queue_step. apply kept_request.
  - queue_step. apply steers_kept_request.
Qed.

(** A queued message selected by its key is every message of that key. *)
Lemma queued_waits msgs reqs id p m0 : messages_ok msgs reqs ->
  select1 (fun m => (msg_id m =s id) && p m) msgs = Some m0 -> msg_disposition m0 = Some "queued" ->
  m0 ∈ msgs /\ msg_id m0 = id /\ forall m, m ∈ msgs -> msg_id m = id -> m = m0 /\ waits m reqs.
Proof.
  intros [Hnd Hq] Hs Hd. apply select1_Some in Hs as [Hin Hp]. simplify_bool. split_and!; [done..|].
  intros m Hm He. assert (m = m0) as -> by (eapply (select1_unique msg_id); [done|by apply select1_key_unique|done..]).
  split; [done|]. by apply Hq.
Qed.

Lemma keeps_message_steer e : env_kind e = CommandMessageSteer -> keeps (applyMessageSteer e).
Proof.
  intros Hkind. handler_start. unfold applyMessageSteer. repeat wp_step. inv_done HI.
  all: simplify_bool; subst; unfold active_is, is_text in *.
  all: match goal with Hs : select1 (fun m => (msg_id m =s _) && _) _ = Some ?m0, Hr : msg_request ?m0 = Some _ |- _ =>
         pose proof (queued_waits _ _ _ _ _ Hmessages Hs ltac:(done)) as (Hin0 & Hid0 & Hall) end.
  - queue_step. by apply kept_change.
  - queue_step. apply steers_kept_change; [|done]. intros m' Hm' Hid' _. destruct (Hall m' Hm' Hid') as [_ Hw].
    by eapply (waits_same m').
  - right. right. split; [done|]. cbn [app_action post_attempt post_payload post_message].
    destruct (ActiveAttemptID (st c)) as [active|] eqn:Hactive; [|done]. simplify_bool. subst.
    match goal with Hs : select1 (fun a => att_id a =s _) _ = Some ?a0 |- _ => apply select1_Some in Hs as [Hina Hida]; simplify_bool;
      split_and!; [done|exists a0; split_and!; [done..|by apply (att_begun _ _ _ _ _ Hactions)]|] end.
    eexists. split_and!; [apply elem_of_update_where; exists a5; split; [done|]; by rewrite str_eqb_refl|done..|].
    intros _. eapply (waits_same a5); [done..|]. by apply Hall.
Qed.

(** The attempt joined to the row the command answers. *)
Lemma joined_addressed {R} (p : R -> bool) (k : R -> string) (rows : list R) atts id r a payload :
  (x ← select1 (fun x => p x && (k x =s id)) rows; y ← select1 (fun a => att_id a =s k x) atts; Some (x, y)) = Some (r, a) ->
  get_string "requestId" payload = Some (att_request a) -> addresses atts id payload.
Proof.
  intros H Hp. apply bind_Some in H as (x & Hx & H). apply bind_Some in H as (y & Hy & H). injection H as -> ->.
  apply select1_Some in Hx as [_ Hx], Hy as [Hin Hy]. simplify_bool. exists a. split_and!; [done|congruence|done].
Qed.

Lemma keeps_approval e : env_kind e = CommandApprovalRespond -> keeps (applyApproval e).
Proof.
  intros Hkind. handler_start. unfold applyApproval. repeat wp_step. inv_done HI.
  posted_by Hkind. by eapply (joined_addressed (fun p => apr_id p =s _) apr_attempt).
Qed.

Lemma keeps_input e : env_kind e = CommandInputRespond -> keeps (applyInput e).
Proof.
  intros Hkind. handler_start. unfold applyInput. repeat wp_step. inv_done HI.
  - queue_step; [by apply NoDup_snoc_key; [destruct Hmessages|]|by apply kept_message].
  - queue_step. apply steers_kept_app.
  - posted_by Hkind. by eapply (joined_addressed (fun i => inp_id i =s _) inp_attempt).
Qed.

Lemma keeps_dialog_delete e : keeps (applyDialogDelete e).
Proof.
  handler_start. unfold applyDialogDelete. repeat wp_step. inv_done HI.
  by apply log_ok_update.
Qed.

Lemma keeps_command e : keeps (applyCommand e).
Proof.
  unfold applyCommand.
  repeat match goal with |- keeps (if ?b then _ else _) => destruct b eqn:? end; simplify_bool;
    eauto using keeps_dialog_create, keeps_message_enqueue, keeps_request_cancel, keeps_queue_resume, keeps_attempt_stop,
      keeps_attempt_retry, keeps_message_steer, keeps_approval, keeps_input.
  intros env c HI. apply wp_fail. done.
Qed.
