(* ===== verification/Keeping.v ===== *)
(** * Computations that keep the node invariant, compositionally
    [turning P Q m]: [m] run on a transaction satisfying the invariant and [P]
    leaves one satisfying it and [Q], and touches the committed database on no
    path; [keeping P] is the case where both are [P].
    [Stable] predicates depend on the slot and on the request and start of each
    attempt; every statement that is not about the queue or the slot keeps them. *)
From stdpp Require Import base tactics list strings gmap pretty.
From Stdlib Require Import ZArith Lia Ascii String.
From S2P Require Import Prelude Json Wire Store Tx Adapter Events Commands Barrier Hold Submit Dispatch Frames.
From S2P Require Import TranscriptView Capture Budget Observe Invariant Steering Handlers.
Open Scope string_scope.
Open Scope list_scope.
Open Scope Z_scope.
Open Scope harness_scope.

Definition turning (P Q : durableState -> Db -> Prop) {A} (m : M A) : Prop := forall env c,
  Inv (cfg_node env) (st c) (tx c) -> P (st c) (tx c) ->
  wp env m (fun _ c' => handler_frame c c' /\ Inv (cfg_node env) (st c') (tx c') /\ Q (st c') (tx c'))
           (fun _ c' => durable c' = durable c) c.
Abbreviation keeping P m := (turning P P m).

Definition attempt_facts (a : attempt_row) : string * string * option string := (att_id a, att_request a, att_started a).
Definition attempt_scope (db : Db) : list (string * string * option string) := List.map attempt_facts (attempts db).
Class Stable (P : durableState -> Db -> Prop) : Prop := stable : forall s s' db db',
  ActiveAttemptID s' = ActiveAttemptID s -> attempt_scope db' = attempt_scope db -> P s db -> P s' db'.

#[export] Instance stable_True : Stable (fun _ _ => True).
Proof. by intros ? ? ? ? ? ?. Qed.

Lemma frame_refl c : handler_frame c c.
Proof. by split_and!. Qed.
Lemma frame_trans c1 c2 c3 : handler_frame c1 c2 -> handler_frame c2 c3 -> handler_frame c1 c3.
Proof. intros (?&?&?&?&?) (?&?&?&?&?). split_and!; congruence. Qed.

(** Statements outside the invariant's tables. *)
Record untouched (db db' : Db) : Prop := {
  un_state : node_state db' = node_state db; un_events : events db' = events db; un_requests : requests db' = requests db;
  un_attempts : attempts db' = attempts db; un_messages : messages db' = messages db;
  un_actions : control_actions db' = control_actions db; un_commands : commands db' = commands db;
  un_rejections : command_rejections db' = command_rejections db; un_clock : hold_clock db' = hold_clock db;
  un_revisions : hold_scope_revisions db' = hold_scope_revisions db; un_holds : administrative_holds db' = administrative_holds db;
  un_outcomes : administrative_hold_outcomes db' = administrative_hold_outcomes db }.
Definition harmless (f : Db -> option Db) : Prop := forall db db', f db = Some db' -> untouched db db'.

Lemma Inv_untouched node s db db' : untouched db db' -> Inv node s db -> Inv node s db'.
Proof. intros [E1 E2 E3 E4 E5 E6 E7 E8 E9 E10 E11 E12] []. by constructor; rewrite ?E1, ?E2, ?E3, ?E4, ?E5, ?E6, ?E7, ?E8, ?E9, ?E10, ?E11, ?E12. Qed.

(** Changes of the local state outside the invariant. *)
Definition quiet (f : durableState -> durableState) : Prop := forall s,
  same_identity s (f s) /\ Epoch (f s) = Epoch s /\ LastEventSeq (f s) = LastEventSeq s /\ PendingCount (f s) = PendingCount s
  /\ NextQueueSequence (f s) = NextQueueSequence s /\ ActiveAttemptID (f s) = ActiveAttemptID s.
Lemma Inv_quiet node f s db : quiet f -> Inv node s db -> Inv node (f s) db.
Proof.
  intros Hf []. destruct (Hf s) as ((E1 & E2 & E3) & E4 & E5 & E6 & E7 & E8).
  constructor; rewrite ?E1, ?E4, ?E5, ?E6, ?E7, ?E8; try assumption.
  unfold same_identity in *. intuition congruence.
Qed.

Ltac harmless_tac := intros ? ? H; frame_in H; constructor; rcbn; reflexivity.
Lemma harmless_insert_tool row : harmless (insert_tool row). Proof. harmless_tac. Qed.
Lemma harmless_update_tool id f : harmless (update_tool id f). Proof. harmless_tac. Qed.
Lemma harmless_insert_approval row : harmless (insert_approval row). Proof. harmless_tac. Qed.
Lemma harmless_update_approval p f : harmless (update_approval p f). Proof. harmless_tac. Qed.
Lemma harmless_insert_input row : harmless (insert_input row). Proof. harmless_tac. Qed.
Lemma harmless_update_input p f : harmless (update_input p f). Proof. harmless_tac. Qed.
Lemma harmless_insert_late row : harmless (insert_late row). Proof. harmless_tac. Qed.
Create HintDb harmless discriminated.
#[export] Hint Resolve harmless_insert_tool harmless_update_tool harmless_insert_approval harmless_update_approval harmless_insert_input
  harmless_update_input harmless_insert_late : harmless.

Section Keeping.
Context {P : durableState -> Db -> Prop} `{!Stable P}.

Lemma keeping_ret {A} (a : A) : keeping P (mret a).
Proof using Type*. intros env c HI HP. apply wp_ret. by split_and!; [apply frame_refl|..]. Qed.
Lemma keeping_fail {A} e : keeping P (fail (A := A) e).
Proof using Type*. intros env c HI HP. by apply wp_fail. Qed.
Lemma keeping_readonly {A} (m : M A) : readonly m -> keeping P m.
Proof using Type*. intros Hm env c HI HP. apply wp_readonly; [done| |done]. intros a. by split_and!; [apply frame_refl|..]. Qed.
Lemma turning_bind {A B} Q R (m : M A) (k : A -> M B) : turning P Q m -> (forall a, turning Q R (k a)) -> turning P R (m ≫= k).
Proof using.
  intros Hm Hk env c HI HP. apply wp_bind. eapply wp_mono; [by apply Hm| |done].
  intros a c' (Hf & HI' & HP'). eapply wp_mono; [by apply Hk|..].
  - intros b c2 (Hf2 & ?). split; [by eapply frame_trans|done].
  - intros e c2 ->. apply Hf.
Qed.
Lemma keeping_bind {A B} (m : M A) (k : A -> M B) : keeping P m -> (forall a, keeping P (k a)) -> keeping P (m ≫= k).
Proof using. apply turning_bind. Qed.
Lemma keeping_exec f : harmless f -> keeping P (exec f).
Proof using Type*.
  intros Hf env c HI HP. apply wp_exec; [|done..]. intros db' H. apply Hf in H. split_and!.
  - by destruct H.
  - by apply (Inv_untouched _ _ (tx c)).
  - apply (stable (st c) _ (tx c)); try done. unfold attempt_scope. rcbn. by rewrite (un_attempts _ _ H).
Qed.
Lemma keeping_setst f : quiet f -> keeping P (setst f).
Proof using Type*.
  intros Hf env c HI HP. apply wp_setst. split_and!; try done.
  - by apply Inv_quiet.
  - apply (stable (st c) _ (tx c)); [|done..]. apply Hf.
Qed.
Lemma keeping_appendEvent type entity version attempt dialog payload late :
  keeping P (appendEvent type entity version attempt dialog payload late).
Proof using Type*.
  intros env c HI HP. apply wp_appendEvent; [by destruct HI| |done].
  intros event row q _ Hlog. split_and!; try done.
  - destruct HI as [Hident Hnode Hlog0 Hpending Hrequests Hattempts Hholds Hcommands Hslots Hmessages Hactions Howned]. constructor; rcbn; done.
  - by apply (stable (st c) _ (tx c)).
Qed.
Lemma keeping_bind_projection p key hash : keeping P (exec_changed (bind_projection p key hash)).
Proof using Type*.
  intros env c HI HP. apply wp_exec_changed; [|done..]. intros n db' H. apply bind_projection_frame in H as [_ ->].
  split_and!; try done.
  - destruct HI as [Hident Hnode Hlog Hpending Hrequests Hattempts Hholds Hcommands Hslots Hmessages Hactions Howned]. constructor; rcbn; try done.
    by apply log_ok_update.
  - by apply (stable (st c) _ (tx c)).
Qed.
Lemma scope_update p f l : (forall a, attempt_facts (f a) = attempt_facts a) ->
  List.map attempt_facts (update_where p f l) = List.map attempt_facts l.
Proof using. intros Hf. unfold update_where. rewrite List.map_map. apply List.map_ext. intros a. by destruct (p a). Qed.
Lemma kept_scope p f l : (forall a, attempt_facts (f a) = attempt_facts a) -> attempts_kept l (update_where p f l).
Proof using. intros Hf. apply attempts_kept_update. intros a _. specialize (Hf a). unfold attempt_facts in Hf. by injection Hf as -> -> ->. Qed.

(** An attempt changed in place, neither its state nor its scope. *)
Lemma keeping_charge id expected next : keeping P (exec_changed (charge_attempt id expected next)).
Proof using Type*.
  intros env c HI HP. apply wp_exec_changed; [|done..]. intros n db' H. apply charge_attempt_frame in H as (q & _ & ->).
  pose (f := fun a => if (n =? 1) && (att_output a =? expected) then a <| att_output := next |> else a). fold f.
  assert (forall a, attempt_facts (f a) = attempt_facts a) as Hf by (intros a; unfold f; by destruct (_ && _)).
  assert (forall a, att_id (f a) = att_id a /\ att_request (f a) = att_request a /\ att_state (f a) = att_state a /\ att_started (f a) = att_started a) as Hg
    by (intros a; unfold f; by destruct (_ && _)).
  assert (forall a, active_attempt (f a) = active_attempt a) as Hact
    by (intros a; unfold active_attempt; destruct (Hg a) as (_ & _ & -> & _); done).
  split_and!; try done.
  - destruct HI as [Hident Hnode Hlog Hpending Hrequests Hattempts Hholds Hcommands Hslots Hmessages Hactions Howned]. constructor; rcbn; try done.
    + eapply attempts_ok_update; [done|apply Hg| |by left]. intros a Ha <-. rewrite Hact. by apply (att_active _ _ Hattempts).
    + apply slots_ok_update_attempt; [|done]. apply Hg.
    + eapply actions_ok_step; [exact Hactions|by apply kept_scope| |apply steers_kept_refl].
      apply begun_update; [|by destruct Hactions]. intros a Ha _. unfold begun_row. destruct (Hg a) as (_ & _ & -> & ->). by apply (att_begun _ _ _ _ _ Hactions).
    + apply owned_update; [|done]. intros a. unfold f. by destruct (_ && _).
  - apply (stable (st c) _ (tx c)); try done. unfold attempt_scope. rcbn. by apply scope_update.
Qed.
(** An assistant message has no disposition. *)
Lemma keeping_insert_message row : msg_disposition row = None -> keeping P (exec (insert_message row)).
Proof using Type*.
  intros Hd env c HI HP. apply wp_exec; [|done..]. intros db' H. apply insert_message_frame in H as [Hnew ->].
  split_and!; try done.
  - destruct HI as [Hident Hnode Hlog Hpending Hrequests Hattempts Hholds Hcommands Hslots Hmessages Hactions Howned]. constructor; rcbn; try done.
    + eapply messages_ok_step; [done|by apply NoDup_snoc_key; [destruct Hmessages|]|]. apply kept_message. by rewrite Hd.
    + eapply actions_ok_step; [done|apply attempts_kept_refl|by destruct Hactions|apply steers_kept_app].
  - by apply (stable (st c) _ (tx c)).
Qed.
(** The stop of an attempt, for its own request. *)
Lemma keeping_insert_stop row :
  act_kind row = CommandAttemptStop -> (forall s db, P s db -> addresses (attempts db) (act_attempt row) (act_payload row)) ->
  keeping P (exec (insert_action row)).
Proof using Type*.
  intros Hk Ha env c HI HP. apply wp_exec; [|done..]. intros db' H. apply insert_action_frame in H as (q & ->).
  split_and!; try done.
  - destruct HI as [Hident Hnode Hlog Hpending Hrequests Hattempts Hholds Hcommands Hslots Hmessages Hactions Howned]. constructor; rcbn; try done.
    apply actions_ok_insert; [done|by intros; eapply Ha|]. unfold steer_action. by rewrite Hk.
  - by apply (stable (st c) _ (tx c)).
Qed.
Lemma keeping_capture `{!SafeText} reference e : keeping P (captureAdapterEventSafeText reference e).
Proof using Type*.
  intros env c HI HP. apply wp_capture; [|intros; by destruct c as [? []]].
  intros arts fs made. destruct c as [D X S ? ? ? ? ? ? ?]. unfold with_capture. rcbn. rcbn_in HI. rcbn_in HP. split_and!; rcbn.
  - by split_and!.
  - eapply Inv_untouched; [|exact HI]. by constructor.
  - by apply (stable S _ X).
Qed.
Lemma keeping_replay_text `{!SafeText} reference e : keeping P (validateAdapterEventSafeTextReplay reference e).
Proof using Type*. intros env c HI HP. apply wp_replay_text; [|done]. by split_and!; [apply frame_refl|..]. Qed.
End Keeping.

(** ** The attempt and the slot *)
Definition targets (reference : AttemptRef) (s : durableState) (db : Db) : Prop :=
  exists started, (ref_attempt reference, ref_request reference, started) ∈ attempt_scope db.
Definition started_target (reference : AttemptRef) (s : durableState) (db : Db) : Prop :=
  exists t, (ref_attempt reference, ref_request reference, Some t) ∈ attempt_scope db.
Definition holds_slot (reference : AttemptRef) (s : durableState) (db : Db) : Prop :=
  ActiveAttemptID s = Some (ref_attempt reference) /\ targets reference s db.
#[export] Instance stable_targets reference : Stable (targets reference).
Proof. intros s s' db db' _ H. unfold targets. by rewrite H. Qed.
#[export] Instance stable_started reference : Stable (started_target reference).
Proof. intros s s' db db' _ H. unfold started_target. by rewrite H. Qed.
#[export] Instance stable_holds_slot reference : Stable (holds_slot reference).
Proof. intros s s' db db' H1 H2. unfold holds_slot, targets. by rewrite H1, H2. Qed.
#[export] Instance stable_and P Q : Stable P -> Stable Q -> Stable (fun s db => P s db /\ Q s db).
Proof. intros HP HQ s s' db db' H1 H2 [? ?]. split; [by eapply HP|by eapply HQ]. Qed.
#[export] Instance stable_implies (G : Prop) P : Stable P -> Stable (fun s db => G -> P s db).
Proof. intros HP s s' db db' H1 H2 H ?. eapply HP; [done..|]. by apply H. Qed.

Lemma scope_row x db : x ∈ attempt_scope db -> exists a, a ∈ attempts db /\ attempt_facts a = x.
Proof.
  unfold attempt_scope. intros H. apply list_elem_of_In, List.in_map_iff in H as (a & E & Ha). exists a. by rewrite list_elem_of_In.
Qed.
Lemma targets_addresses reference s db payload :
  targets reference s db -> get_string "requestId" payload = Some (ref_request reference) ->
  addresses (attempts db) (ref_attempt reference) payload.
Proof. intros [x Hx] Hp. apply scope_row in Hx as (a & Ha & [= E1 E2 _]). exists a. by rewrite E1, E2. Qed.
Lemma started_row reference s db a : started_target reference s db -> NoDup (List.map att_id (attempts db)) ->
  a ∈ attempts db -> att_id a = ref_attempt reference -> att_started a <> None.
Proof.
  intros [t Ht] Hnd Ha He. apply scope_row in Ht as (b & Hb & [= E1 _ E3]).
  assert (a = b) as ->; [|congruence]. eapply (select1_unique att_id); [done| |done|done]. apply select1_key_unique; [done..|congruence].
Qed.

(** A request out of the queue: every one an attempt runs. *)
Definition settled_request (request : string) (reqs : list request_row) : Prop :=
  forall r, r ∈ reqs -> req_id r = request -> queued r = false.
Lemma targets_settled node reference s db : Inv node s db -> targets reference s db -> settled_request (ref_request reference) (requests db).
Proof.
  intros HI [x Hx] r Hr He. apply scope_row in Hx as (a & Ha & [= E1 E2 _]).
  destruct (inv_slots _ _ _ HI a Ha) as (r' & Hr' & He' & Hq).
  assert (r = r') as ->; [|done]. destruct (inv_requests _ _ _ HI) as [Hnd _ _].
  eapply (select1_unique req_id); [done|apply select1_key_unique; [done|exact Hr'|reflexivity]|done|congruence].
Qed.

(** An update of a request out of the queue, on the conjuncts it touches. *)
Lemma settled_update_pending reqs id f : settled_request id reqs -> (forall r, queued (f r) = false) ->
  count_where queued (update_where (fun r => req_id r =s id) f reqs) = count_where queued reqs.
Proof. intros Hs Hf. apply count_queued_same. intros r Hr He. simplify_bool. by rewrite Hf, (Hs r). Qed.

Lemma keeping_target_request P `{!Stable P} reference f :
  (forall s db, P s db -> targets reference s db) ->
  (forall r, req_id (f r) = req_id r /\ req_sequence (f r) = req_sequence r /\ queued (f r) = false) ->
  keeping P (exec (update_request (ref_request reference) f)).
Proof.
  intros HT Hf env c HI HP. apply wp_exec; [|done..]. intros db' H. apply update_request_frame in H as (q & ->).
  pose proof (targets_settled _ _ _ _ HI (HT _ _ HP)) as Hs. split_and!; try done.
  - destruct HI as [Hident Hnode Hlog Hpending Hrequests Hattempts Hholds Hcommands Hslots Hmessages Hactions Howned]. constructor; rcbn; try done.
    + rewrite settled_update_pending; [done..|]. apply Hf.
    + apply requests_ok_update; [|done]. intros r. by destruct (Hf r) as (? & ? & _).
    + apply slots_ok_update_request; [intros r; apply Hf|intros r _; apply Hf|done].
    + eapply messages_ok_step; [done|by destruct Hmessages|by apply kept_update_request].
    + eapply actions_ok_step; [done|apply attempts_kept_refl|by destruct Hactions|by apply steers_kept_update_request].
  - by apply (stable (st c) _ (tx c)).
Qed.

(** The attempt in the slot moves between active states. *)
Lemma keeping_active_attempt P `{!Stable P} reference f :
  (forall s db, P s db -> holds_slot reference s db) ->
  (forall a, attempt_facts (f a) = attempt_facts a /\ active_attempt (f a) = true) -> (forall a, att_node (f a) = att_node a) ->
  (forall s db a, P s db -> in_set (att_state (f a)) ["running"; "waiting_input"] = true -> started_target reference s db) ->
  (forall a, att_state (f a) <> "dispatching") ->
  keeping P (exec (update_attempt (ref_attempt reference) f)).
Proof.
  intros HS Hf Hnode' Hb Hd env c HI HP. apply wp_exec; [|done..]. intros db' H. apply update_attempt_frame in H as (q & ->).
  destruct (HS _ _ HP) as [Hs _].
  assert (forall a, att_id (f a) = att_id a /\ att_request (f a) = att_request a /\ att_started (f a) = att_started a) as Hg
    by (intros a; destruct (Hf a) as [[= -> -> ->] _]; done).
  split_and!; try done.
  - destruct HI as [Hident Hnode Hlog Hpending Hrequests Hattempts Hholds Hcommands Hslots Hmessages Hactions Howned]. constructor; rcbn; try done.
    + eapply attempts_ok_update; [done|apply Hg| |by left]. intros a Ha He. rewrite Hs. split; [done|]. intros _. apply Hf.
    + apply slots_ok_update_attempt; [|done]. apply Hg.
    + eapply actions_ok_step; [done|apply kept_scope; intros; apply Hf| |apply steers_kept_refl].
      apply begun_update; [|by destruct Hactions]. intros a Ha He. split; [intros Hr|by intros Hr; destruct (Hd a)]. simplify_bool. destruct (Hg a) as (_ & _ & ->).
      eapply started_row; [by eapply Hb|by destruct Hattempts|done..].
    + by apply owned_update.
  - apply (stable (st c) _ (tx c)); try done. unfold attempt_scope. rcbn. apply scope_update. intros a. apply Hf.
Qed.

Lemma turning_weaken P P' Q Q' {A} (m : M A) :
  (forall s db, P s db -> P' s db) -> (forall s db, Q' s db -> Q s db) -> turning P' Q' m -> turning P Q m.
Proof.
  intros H1 H2 Hm env c HI HP. eapply wp_mono; [apply Hm; auto| |done]. intros a c' (? & ? & ?). split_and!; auto.
Qed.
Lemma turning_ret P Q {A} (a : A) : (forall s db, P s db -> Q s db) -> turning P Q (mret a).
Proof. intros H env c HI HP. apply wp_ret. split_and!; auto using frame_refl. Qed.
Lemma turning_fail P Q {A} e : turning P Q (fail (A := A) e).
Proof. intros env c HI HP. by apply wp_fail. Qed.

(** Weakening at a branch that established the slot. *)
Lemma wp_keeping_add P Q {A} (m : M A) env c :
  keeping (fun s db => P s db /\ Q s db) m -> Q (st c) (tx c) -> Inv (cfg_node env) (st c) (tx c) -> P (st c) (tx c) ->
  wp env m (fun _ c' => handler_frame c c' /\ Inv (cfg_node env) (st c') (tx c') /\ P (st c') (tx c')) (fun _ c' => durable c' = durable c) c.
Proof.
  intros Hm HQ HI HP. eapply wp_mono; [by apply Hm| |done]. intros a c' (? & ? & ? & ?). by split_and!.
Qed.

Create HintDb keeping discriminated.
#[export] Hint Resolve keeping_ret keeping_fail keeping_appendEvent keeping_bind_projection keeping_charge keeping_capture
  keeping_replay_text : keeping.
Ltac stable_tac := lazymatch goal with |- Stable _ => typeclasses eauto | _ => idtac end.
Ltac quiet_tac := intros s; unfold same_identity; split_and!; reflexivity.
#[export] Hint Extern 1 (keeping _ (exec _)) => solve [apply keeping_exec; stable_tac; eauto with harmless nocore] : keeping.
#[export] Hint Extern 1 (keeping _ (setst _)) => solve [apply keeping_setst; stable_tac; quiet_tac] : keeping.
#[export] Hint Extern 2 (keeping _ _) => solve [apply keeping_readonly; stable_tac; eauto with readonly nocore] : keeping.

(** Walks the syntax of a computation. *)
Ltac keeping_tac :=
  cbv zeta;
  lazymatch goal with
  | |- keeping _ (_ ≫= _) => apply keeping_bind; [keeping_tac|intros ?; keeping_tac]
  | |- keeping _ (if ?b then _ else _) => destruct b; keeping_tac
  | |- keeping _ (match ?x with _ => _ end) => destruct x; keeping_tac
  | |- keeping _ _ => try solve [eauto with keeping typeclass_instances nocore]
  end.
