(* ===== verification/Transactions.v ===== *)
(** * Transactions keep the node invariant
    The committed database satisfies the invariant after every entry point of
    [Submit], [Hold] and [Dispatch], whatever the environment refuses. *)
From stdpp Require Import base tactics list strings gmap pretty.
From Stdlib Require Import ZArith Lia Ascii String.
From S2P Require Import Prelude Json Wire Store Tx Adapter Events Commands Barrier Hold Submit Dispatch Frames.
From S2P Require Import Invariant Steering Handlers.
Open Scope string_scope.
Open Scope list_scope.
Open Scope Z_scope.
Open Scope harness_scope.

Definition transaction {A} (m : M A) : Prop := forall env c,
  DbInv (cfg_node env) (durable c) ->
  wp env m (fun _ c' => DbInv (cfg_node env) (durable c')) (fun _ c' => DbInv (cfg_node env) (durable c')) c.

Lemma transaction_mono (m : M applied) env c D (Q : applied -> Core -> Prop) E :
  keeps m -> durable c = D -> Inv (cfg_node env) (st c) (tx c) ->
  (forall a c', handler_frame c c' -> Inv (cfg_node env) (st c') (tx c') -> posted (app_action a) (st c') (tx c') -> Q a c') ->
  (forall e c', durable c' = D -> E e c') ->
  wp env m Q E c.
Proof.
  intros Hm <- HI HQ HE. eapply wp_mono; [by apply Hm| |].
  - intros a c' (H1 & H2 & H3). by apply HQ.
  - intros e c' H. by apply HE.
Qed.

Lemma commands_ok_command rows rejections row :
  commands_ok rows rejections -> exists_where (fun c => cmd_id c =s cmd_id row) rows = false ->
  exists_where (fun r => rej_id r =s cmd_id row) rejections = false ->
  commands_ok (rows ++ [row]) rejections.
Proof.
  unfold commands_ok. intros Hnd H1 H2. apply exists_where_key_false in H1, H2.
  rewrite List.map_app. simpl. rewrite <- app_assoc. simpl.
  rewrite <- Permutation_middle. apply NoDup_cons. split; [set_solver|done].
Qed.

Lemma commands_ok_rejection rows rejections row :
  commands_ok rows rejections -> exists_where (fun c => cmd_id c =s rej_id row) rows = false ->
  exists_where (fun r => rej_id r =s rej_id row) rejections = false ->
  commands_ok rows (rejections ++ [row]).
Proof.
  unfold commands_ok. intros Hnd H1 H2. apply exists_where_key_false in H1, H2.
  rewrite List.map_app, app_assoc. simpl.
  rewrite Permutation_app_comm. simpl. apply NoDup_cons. split; [set_solver|done].
Qed.

Lemma no_outcome id db :
  command_outcomes id db = [] ->
  exists_where (fun c => cmd_id c =s id) (commands db) = false
  /\ exists_where (fun r => rej_id r =s id) (command_rejections db) = false.
Proof.
  unfold command_outcomes. intros H. apply app_eq_nil in H as [H1 H2].
  apply map_eq_nil in H1, H2.
  split; apply exists_where_false; intros r Hr; apply list_elem_of_In in Hr.
  - destruct (cmd_id r =s id) eqn:He; [|done].
    assert (In r (List.filter (fun c => cmd_id c =s id) (commands db))) as Hf by (by apply filter_In). by rewrite H1 in Hf.
  - destruct (rej_id r =s id) eqn:He; [|done].
    assert (In r (List.filter (fun c => rej_id c =s id) (command_rejections db))) as Hf by (by apply filter_In). by rewrite H2 in Hf.
Qed.

Lemma filter_key_short {R} (k : R -> string) key (l : list R) :
  NoDup (List.map k l) -> (List.length (List.filter (fun r => k r =s key) l) <= 1)%nat.
Proof.
  induction l as [|r l IH]; simpl; [lia|]. intros [Hr Hnd]%NoDup_cons.
  destruct (k r =s key) eqn:He; simplify_bool; [|by apply IH]. simpl.
  replace (List.filter (fun r => k r =s key) l) with (@nil R); [simpl; lia|].
  symmetry. apply exists_where_filter, exists_where_false. intros x Hx.
  apply String.eqb_neq. intros Hk. apply Hr. rewrite He, <- Hk.
  by apply list_elem_of_In, List.in_map, list_elem_of_In.
Qed.

(** Distinct keys across both outcome tables: at most one outcome per id. *)
Lemma commands_ok_outcomes id db :
  commands_ok (commands db) (command_rejections db) -> (List.length (command_outcomes id db) <= 1)%nat.
Proof.
  unfold commands_ok, command_outcomes. rewrite length_app, !length_map. intros [H1 [H2 H3]]%NoDup_app.
  pose proof (filter_key_short cmd_id id _ H1) as L1. pose proof (filter_key_short rej_id id _ H3) as L2.
  destruct (List.filter (fun c => cmd_id c =s id) (commands db)) as [|c l1] eqn:E1; [simpl; lia|].
  destruct (List.filter (fun r => rej_id r =s id) (command_rejections db)) as [|r l2] eqn:E2; [simpl in *; lia|].
  exfalso. assert (List.In c (c :: l1)) as Hc by (by left). assert (List.In r (r :: l2)) as Hr by (by left).
  rewrite <- E1 in Hc. rewrite <- E2 in Hr. apply filter_In in Hc as [Hc Ec], Hr as [Hr Er]. simplify_bool.
  apply (H2 id); apply list_elem_of_In; [rewrite <- Ec|rewrite <- Er]; by apply List.in_map.
Qed.

Lemma Inv_committed node s db q :
  Inv node s db -> DbInv node (db <| node_state := s |> <| quiescence_scope_revisions := q |>).
Proof.
  intros []. constructor; rcbn; try done.
Qed.

(** A step of a transaction: what is committed satisfies the invariant. *)
Ltac tx_step :=
  wp_step_with ltac:(idtac; lazymatch goal with
    | |- wp ?env commit _ _ _ => apply (wp_commit_with env (DbInv (cfg_node env))); [|intros ? ?|] end).

(** The posted intent becomes a control action. *)
Lemma posted_action p s db id acts :
  posted p s db -> (post_kind p =s "") = false -> actions_ok (ActiveAttemptID s) (attempts db) (messages db) (requests db) acts ->
  actions_ok (ActiveAttemptID s) (attempts db) (messages db) (requests db)
    (acts ++ [mkAction id (post_kind p) (post_attempt p) (nullText (post_message p)) (nullText (post_actor p)) (post_payload p) "pending"]).
Proof.
  intros Hp Hk Hok. simplify_bool. apply actions_ok_insert; [done|unfold steer_action; cbn [act_kind act_attempt act_message act_payload]..];
    intros Hs; simplify_bool; by destruct Hp as [?|[[Hne Ha]|[? Hst]]]; rewrite ?default_nullText.
Qed.

Lemma keeps_commit_command env c envelope canonical digest a :
  DbInv (cfg_node env) (durable c) -> Inv (cfg_node env) (st c) (tx c) -> posted (app_action a) (st c) (tx c) ->
  exists_where (fun r => rej_id r =s env_command envelope) (command_rejections (tx c)) = false ->
  wp env (commit_command envelope canonical digest a)
    (fun _ c' => DbInv (cfg_node env) (durable c')) (fun _ c' => DbInv (cfg_node env) (durable c')) c.
Proof.
  intros HD HI Hposted Hrej. pose proof (inv_identity _ _ _ HI). unfold commit_command.
  repeat tx_step.
  all: destruct HI as [Hident Hnode Hlog Hpending Hrequests Hattempts Hholds Hcommands Hslots Hmessages Hactions Howned]; constructor; rcbn; try done.
  all: first [by apply commands_ok_command|by apply (posted_action _ (st c) (tx c))].
Qed.

Lemma readonly_authorizeObject envelope : readonly (authorizeObject envelope).
Proof. unfold authorizeObject, not_found, reject. readonly_tac. Qed.
Lemma readonly_coveringHold envelope : readonly (coveringHoldForCommand envelope).
Proof. unfold coveringHoldForCommand, blockable_dialog. readonly_tac. Qed.
Lemma readonly_outcomeDeleted outcome : readonly (commandOutcomeTargetsDeletedDialog outcome).
Proof. unfold commandOutcomeTargetsDeletedDialog, target_dialog. readonly_tac. Qed.
#[export] Hint Resolve readonly_authorizeObject readonly_coveringHold readonly_outcomeDeleted : readonly.
Lemma readonly_replay_outcome outcome digest correlation : readonly (replay_outcome outcome digest correlation).
Proof. unfold replay_outcome. readonly_tac. Qed.
#[export] Hint Resolve readonly_replay_outcome : readonly.

(** A read-only call inside a transaction. *)
Ltac wp_read := apply wp_readonly; [solve [eauto with readonly nocore]|intros ?|intros ?].

Lemma keeps_commit_rejection env c envelope canonical digest h :
  DbInv (cfg_node env) (durable c) -> Inv (cfg_node env) (st c) (tx c) -> st c = node_state (tx c) ->
  command_outcomes (env_command envelope) (tx c) = [] ->
  wp env (commitCommandRejection (st c) envelope canonical digest h)
    (fun _ c' => DbInv (cfg_node env) (durable c')) (fun _ c' => DbInv (cfg_node env) (durable c')) c.
Proof.
  intros HD HI Hst Hout. apply no_outcome in Hout as [Hcmd Hrej]. unfold commitCommandRejection.
  repeat tx_step.
  destruct HI as [Hident Hnode Hlog Hpending Hrequests Hattempts Hholds Hcommands Hslots Hmessages Hactions Howned].
  rewrite Hst in *. constructor; rcbn; try done. by apply commands_ok_rejection.
Qed.

Ltac frame_done HI :=
  split; [by split_and!|];
  destruct HI as [Hident Hnode Hlog Hpending Hrequests Hattempts Hholds Hcommands Hslots Hmessages Hactions Howned]; constructor; rcbn; assumption.

Lemma keeps_storage_gate env c kind correlation :
  DbInv (cfg_node env) (durable c) -> Inv (cfg_node env) (st c) (tx c) ->
  wp env (storage_gate kind correlation)
    (fun _ c' => handler_frame c c' /\ Inv (cfg_node env) (st c') (tx c')) (fun _ c' => DbInv (cfg_node env) (durable c')) c.
Proof.
  intros HD HI. unfold storage_gate, storageBelowAdmissionFloor, physicalStorageBelowAdmissionFloor.
  repeat tx_step; frame_done HI.
Qed.

(** The admitted command, from the storage gate to the commit. *)
Lemma transaction_apply env c envelope canonical digest :
  DbInv (cfg_node env) (durable c) -> Inv (cfg_node env) (st c) (tx c) ->
  exists_where (fun r => rej_id r =s env_command envelope) (command_rejections (tx c)) = false ->
  wp env (a ← catch (applyCommand envelope) (fun e => commandError e (env_command envelope));
          commit_command envelope canonical digest a)
    (fun _ c' => DbInv (cfg_node env) (durable c')) (fun _ c' => DbInv (cfg_node env) (durable c')) c.
Proof.
  intros HD HI Hrej. repeat tx_step.
  eapply transaction_mono; [apply keeps_command|done|done| |].
  - intros a c' (E1 & E2 & E3 & E4 & E5) HI' Hposted. apply keeps_commit_command; rewrite ?E1, ?E3; done.
  - intros e c' E1. rewrite <- E1 in HD. repeat tx_step.
Qed.

Lemma transaction_submit_locked trust envelope canonical digest :
  transaction (submit_locked trust envelope canonical digest).
Proof.
  intros env c HD. unfold submit_locked. repeat tx_step.
  all: wp_read; repeat tx_step.
  all: try (rcbn; done).
  wp_read; repeat tx_step; try (rcbn; done).
  - match goal with |- wp _ _ _ _ ?c => apply (keeps_commit_rejection env c) end; done.
  - eapply wp_mono; [by apply keeps_storage_gate| |done].
    intros [] c' [(E1 & E2 & E3 & E4 & E5) HI]. apply transaction_apply; rewrite ?E1, ?E3; [done..|].
    by eapply no_outcome.
Qed.

Theorem transaction_submit trust raw : transaction (SubmitCommand trust raw).
Proof.
  intros env c HD. unfold SubmitCommand. repeat tx_step.
  eapply wp_mono; [by apply transaction_submit_locked|..]; intros; rcbn; done.
Qed.

(** ** Holds *)
Lemma readonly_require_dialog_owner s dialog : readonly (require_dialog_owner s dialog).
Proof. unfold require_dialog_owner. readonly_tac. Qed.
#[export] Hint Resolve readonly_require_dialog_owner : readonly.

Lemma keeps_commit_hold env c request canonical digest revision :
  DbInv (cfg_node env) (durable c) -> tx c = durable c -> st c = node_state (durable c) ->
  count_where (hold_conflicts (durable c) (NodeID (st c)) (ir_scope request)) (administrative_holds (durable c)) = 0 ->
  wp env (commit_hold (st c) request canonical digest revision)
    (fun _ c' => DbInv (cfg_node env) (durable c')) (fun _ c' => DbInv (cfg_node env) (durable c')) c.
Proof.
  intros HD Htx Hst Hconf. unfold commit_hold. rewrite Hst in *. repeat (rewrite ?Htx; tx_step).
  destruct HD as [Hident Hnode Hlog Hpending Hrequests Hattempts Hholds Hcommands Hslots Hmessages Hactions Howned].
  rewrite Z.eqb_refl. subst. constructor; rcbn; try done.
  rewrite Hnode in *. by eapply (holds_ok_install _ _ _ _ _ (durable c) (ir_scope request)).
Qed.

Lemma transaction_install_locked request canonical digest : transaction (install_locked request canonical digest).
Proof.
  intros env c HD. unfold install_locked. repeat tx_step.
  all: try (wp_read; repeat tx_step; try (rcbn; done)).
  all: simplify_bool.
  all: match goal with |- wp _ _ _ _ ?c => apply (keeps_commit_hold env c) end; done.
Qed.

Theorem transaction_install transport raw : transaction (InstallHold transport raw).
Proof.
  intros env c HD. unfold InstallHold. repeat tx_step.
  eapply wp_mono; [by apply transaction_install_locked|..]; intros; rcbn; done.
Qed.

Lemma keeps_commit_release env c h request canonical digest revision :
  DbInv (cfg_node env) (durable c) -> tx c = durable c -> st c = node_state (durable c) ->
  h ∈ administrative_holds (durable c) -> hold_operation h = lr_operation request ->
  exists_where (fun o => out_operation o =s lr_operation request) (administrative_hold_outcomes (durable c)) = false ->
  wp env (commit_release (st c) h request canonical digest revision)
    (fun _ c' => DbInv (cfg_node env) (durable c')) (fun _ c' => DbInv (cfg_node env) (durable c')) c.
Proof.
  intros HD Htx Hst Hin Hop Hout. unfold commit_release. rewrite Hst in *. repeat (rewrite ?Htx; tx_step).
  all: destruct HD as [Hident Hnode Hlog Hpending Hrequests Hattempts Hholds Hcommands Hslots Hmessages Hactions Howned].
  all: constructor; rcbn; try done.
  all: apply holds_ok_release; [done|done|unfold released; by rewrite Hop|done].
Qed.

Lemma transaction_release_locked request canonical digest : transaction (release_locked request canonical digest).
Proof.
  intros env c HD. unfold release_locked. repeat tx_step.
  rename select (select1 (fun h => hold_named _ h && _) _ = Some _) into Hsel.
  apply select1_Some in Hsel as [Hin Hp]. simplify_bool. unfold hold_named in *. simplify_bool.
  match goal with |- wp _ _ _ _ ?c => apply (keeps_commit_release env c) end; try done.
  apply exists_where_false. by eapply select1_None.
Qed.

Theorem transaction_release transport raw : transaction (ReleaseHold transport raw).
Proof.
  intros env c HD. unfold ReleaseHold. repeat tx_step.
  eapply wp_mono; [by apply transaction_release_locked|..]; intros; rcbn; done.
Qed.

Theorem transaction_hold_status transport operation : transaction (HoldStatus transport operation).
Proof. intros env c HD. unfold HoldStatus, autocommit. repeat tx_step. Qed.

Theorem transaction_quiescence transport operation : transaction (QuiescenceProof transport operation).
Proof. intros env c HD. unfold QuiescenceProof. repeat tx_step. Qed.

(** ** Dispatch *)
Theorem transaction_peek : transaction peekDispatch.
Proof. intros env c HD. unfold peekDispatch, autocommit. repeat tx_step. Qed.

Theorem transaction_block_policy : transaction blockPolicy.
Proof.
  intros env c HD. pose proof (inv_log _ _ _ HD). pose proof (inv_identity _ _ _ HD).
  unfold blockPolicy. repeat tx_step.
  destruct HD as [Hident Hnode Hlog Hpending Hrequests Hattempts Hholds Hcommands Hslots Hmessages Hactions Howned]. constructor; rcbn; done.
Qed.

Lemma queue_head_queued node db r m :
  queue_head node db = Some (r, m) ->
  r ∈ requests db /\ queued r = true /\ covered db node (req_dialog r) = false
  /\ select1 (fun m => msg_id m =s req_message r) (messages db) = Some m.
Proof.
  unfold queue_head. intros H. apply bind_Some in H as (r' & Hr & H). apply bind_Some in H as (m' & Hm & H).
  simplify_eq. apply first_by_elem in Hr. apply list_elem_of_In, filter_In in Hr as [Hin Hd].
  unfold dispatchable in Hd. simplify_bool. split_and!; [by apply list_elem_of_In|by apply queued_row|done|done].
Qed.

(** What dispatching a request leaves of the queue's messages and the intents:
    no steer is open while the node is idle. *)
Lemma actions_ok_dispatch atts msgs msgs' reqs reqs' acts row c id :
  att_id row = id -> actions_ok None atts msgs reqs acts -> begun_row row -> steer_action c = false ->
  act_attempt c = att_id row -> get_string "requestId" (act_payload c) = Some (att_request row) ->
  actions_ok (Some id) (atts ++ [row]) msgs' reqs' (acts ++ [c]).
Proof.
  intros <- Hok Hr Hc Ha Hp. apply actions_ok_insert; [|intros _; exists row; rewrite Ha; split_and!; [set_solver|done..]|by rewrite Hc].
  eapply actions_ok_closed; [done|apply attempts_kept_app|apply begun_app; [done|by destruct Hok]|by eapply idle_closed].
Qed.
Lemma queue_head_message db r m d : NoDup (List.map msg_id (messages db)) ->
  select1 (fun m => msg_id m =s req_message r) (messages db) = Some m -> msg_disposition m = Some d -> d <> "queued" ->
  forall m', m' ∈ messages db -> msg_id m' = req_message r -> msg_disposition m' <> Some "queued".
Proof. intros Hnd Hs Hd Hne m' Hm' He. rewrite (select1_unique msg_id (messages db) (req_message r) m m') by done. congruence. Qed.

Lemma keeps_dispatch_request env c r m disposition policy :
  DbInv (cfg_node env) (durable c) -> tx c = durable c -> st c = node_state (durable c) ->
  ActiveAttemptID (st c) = None -> queue_head (NodeID (st c)) (tx c) = Some (r, m) -> msg_disposition m = Some disposition ->
  wp env (dispatch_request (st c) r disposition policy)
    (fun _ c' => DbInv (cfg_node env) (durable c')) (fun _ c' => DbInv (cfg_node env) (durable c')) c.
Proof.
  destruct c as [D X S ? ? ? ? ? ? ?]. cbn [durable tx st]. intros HD -> -> Hact Hhead Hdisp.
  apply queue_head_queued in Hhead as (Hin & Hq & _ & Hm).
  pose proof (inv_log _ _ _ HD). pose proof (inv_identity _ _ _ HD).
  unfold dispatch_request, apply_queued_message, set_dispatched. repeat tx_step.
  all: destruct HD as [Hident Hnode Hlog Hpending Hrequests Hattempts Hholds Hcommands Hslots Hmessages Hactions Howned].
  all: pose proof Hrequests as [Hnd _ _]; pose proof (select1_key_unique req_id _ _ _ Hnd Hin eq_refl) as Hsel.
  all: constructor; rcbn; try done.
  all: try by apply requests_ok_update.
  all: try by apply slots_ok_dispatch.
  all: try by apply owned_app.
  all: try (rewrite Hact in Hattempts; by apply attempts_ok_snoc).
  all: try (rewrite Hact in Hactions; by eapply actions_ok_dispatch).
  all: try (erewrite count_queued_update; [rewrite Hpending; lia|done|exact Hsel|exact Hq|done]).
  - eapply messages_ok_step; [done|apply update_message_ids; [done|by destruct Hmessages]|]. apply kept_leave; [|done].
    by apply request_message.
  - eapply messages_ok_step; [done|by destruct Hmessages|]. apply kept_leave_settled with (req_message r).
    + by apply request_message.
    + simplify_bool. eapply queue_head_message; [by destruct Hmessages|done..].
Qed.

Theorem transaction_commit_dispatch candidate policy : transaction (commitDispatch candidate policy).
Proof.
  intros env c HD. unfold commitDispatch, dispatched. repeat tx_step.
  match goal with |- wp _ _ _ _ ?c => apply (keeps_dispatch_request env c r m) end; try done.
  rcbn. simplify_bool. by destruct (ActiveAttemptID _).
Qed.

Lemma transaction_bind {A B} (m : M A) (k : A -> M B) :
  transaction m -> (forall a, transaction (k a)) -> transaction (m ≫= k).
Proof.
  intros Hm Hk env c HD. apply wp_bind. eapply wp_mono; [by apply Hm| |done]. intros a c' HD'. by apply Hk.
Qed.
Lemma transaction_readonly {A} (m : M A) : readonly m -> transaction m.
Proof. intros Hm env c HD. by apply wp_readonly. Qed.
Lemma transaction_catch {A} (m : M A) h : transaction m -> (forall e, transaction (h e)) -> transaction (catch m h).
Proof.
  intros Hm Hh env c HD. apply wp_catch. eapply wp_mono; [by apply Hm|done|].
  intros [] c' HD'; try done; by apply Hh.
Qed.

Theorem transaction_dispatch_next native auth again policy : transaction (DispatchNext native auth again policy).
Proof.
  unfold DispatchNext, dispatched.
  apply transaction_bind; [apply transaction_readonly; readonly_tac|]. intros hash.
  destruct (_ || _); [apply transaction_readonly; readonly_tac|].
  apply transaction_bind; [apply transaction_peek|]. intros [c|]; [|apply transaction_readonly; readonly_tac].
  destruct (_ ≫= _) as [p|].
  - destruct (negb again); [apply transaction_readonly; readonly_tac|apply transaction_commit_dispatch].
  - apply transaction_bind; [|intros; apply transaction_readonly; readonly_tac].
    apply transaction_catch; [apply transaction_block_policy|]. intros. apply transaction_readonly. readonly_tac.
Qed.
