(* ===== verification/DeleteTx.v ===== *)
(** * Logical deletion keeps the node invariant *)
From stdpp Require Import base tactics list strings gmap pretty.
From Stdlib Require Import ZArith Lia Ascii String.
From S2P Require Import Prelude Json Wire Store Tx Adapter Events Commands Barrier Hold Submit Dispatch LogicalDelete Frames.
From S2P Require Import Invariant Steering Handlers Transactions.
Open Scope string_scope.
Open Scope list_scope.
Open Scope Z_scope.
Open Scope harness_scope.

(** The dialog's key is the one of the hold's scope. *)
Lemma binding_key r h : hold_binding_matches r h = true -> dialog_key (nr_dialog r) = scope_key (durableHold_scope h).
Proof.
  unfold hold_binding_matches. intros H. simplify_bool. rename select (hold_scope h = _) into Hs.
  rename select (is_text _ _ = true) into Hd. unfold is_text in Hd. destruct (hold_dialog h) as [d|] eqn:Ed; [|done]. simplify_bool.
  unfold scope_key, durableHold_scope, dialog_key. cbn [scope_kind scope_dialog]. by rewrite Hs, Ed, Hd.
Qed.

Lemma keeps_commit_delete env c r raw requestHash canonical commandHash h revision a :
  DbInv (cfg_node env) (durable c) -> Inv (cfg_node env) (st c) (tx c) ->
  exists_where (fun x => rej_id x =s nr_command r) (command_rejections (tx c)) = false ->
  h ∈ administrative_holds (tx c) -> hold_operation h = nr_operation r -> hold_binding_matches r h = true ->
  exists_where (fun o => out_operation o =s nr_operation r) (administrative_hold_outcomes (tx c)) = false ->
  wp env (commit_delete r raw requestHash canonical commandHash h revision a)
    (fun _ c' => DbInv (cfg_node env) (durable c')) (fun _ c' => DbInv (cfg_node env) (durable c')) c.
Proof.
  intros HD HI Hrej Hin Hop Hmatch Hout. apply binding_key in Hmatch. pose proof (inv_identity _ _ _ HI). unfold commit_delete.
  repeat tx_step.
  all: destruct HI as [Hident Hnode Hlog Hpending Hrequests Hattempts Hholds Hcommands Hslots Hmessages Hactions Howned]; constructor; rcbn; try done.
  all: first [by apply commands_ok_command|rewrite Hmatch; apply holds_ok_release; [done|done|unfold released; by rewrite Hop|done]].
Qed.

Lemma transaction_delete_held env c r raw requestHash h revision :
  DbInv (cfg_node env) (durable c) -> Inv (cfg_node env) (st c) (tx c) ->
  h ∈ administrative_holds (tx c) -> hold_operation h = nr_operation r -> hold_binding_matches r h = true ->
  exists_where (fun o => out_operation o =s nr_operation r) (administrative_hold_outcomes (tx c)) = false ->
  wp env (delete_held r raw requestHash h revision)
    (fun _ c' => DbInv (cfg_node env) (durable c')) (fun _ c' => DbInv (cfg_node env) (durable c')) c.
Proof.
  intros HD HI Hin Hop Hmatch Hout. unfold delete_held. repeat tx_step.
  eapply transaction_mono; [apply keeps_dialog_delete|done|done| |].
  - intros a c' (E1 & E2 & E3 & E4 & E5) HI' Hposted. rewrite <- E1 in HD.
    apply keeps_commit_delete; rewrite ?E2, ?E3, ?E4, ?E5; try done. by eapply no_outcome.
  - intros e c' E1. rewrite <- E1 in HD. repeat tx_step.
Qed.

Lemma transaction_delete_locked r raw requestHash : transaction (delete_locked r raw requestHash).
Proof.
  intros env c HD. unfold delete_locked. repeat tx_step.
  rename select (select1 (fun h => hold_named _ h && _ && _) _ = Some _) into Hsel.
  apply select1_Some in Hsel as [Hin Hp]. simplify_bool. unfold hold_named, hold_active in *. simplify_bool.
  rename select (hold_operation h = _) into Hop.
  match goal with |- wp _ _ _ _ ?c => apply (transaction_delete_held env c) end; try done; rcbn; try done. by rewrite <- Hop.
Qed.

Theorem transaction_delete transport raw : transaction (DeleteLogicalDialog transport raw).
Proof.
  intros env c HD. unfold DeleteLogicalDialog. repeat tx_step.
  eapply wp_mono; [by apply transaction_delete_locked|..]; intros; rcbn; done.
Qed.
Theorem transaction_delete_status transport operation : transaction (LogicalDeleteStatus transport operation).
Proof. intros env c HD. unfold LogicalDeleteStatus, autocommit. repeat tx_step. Qed.
