(* ===== verification/Observing.v ===== *)
(** * Adapter observations keep the node invariant
    The computations of [Observe] on a transaction whose attempt is the one of
    [reference]: what only reads, what keeps the slot, and the two transitions
    that change it, to [unknown] and to a terminal state. *)
From stdpp Require Import base tactics list strings gmap pretty.
From Stdlib Require Import ZArith Lia Ascii String.
From S2P Require Import Prelude Json Wire Store Tx Adapter Events Commands Barrier Hold Submit Dispatch Frames.
From S2P Require Import TranscriptView Capture Budget Observe Invariant Steering Handlers Keeping.
Open Scope string_scope.
Open Scope list_scope.
Open Scope Z_scope.
Open Scope harness_scope.

(** ** Reads *)
Lemma readonly_digest p : readonly (adapterProjectionDigest p).
Proof. unfold adapterProjectionDigest, adapterProjectionHash. readonly_tac. Qed.
Lemma readonly_content_equal l r : readonly (safeContentEqual l r).
Proof. unfold safeContentEqual, adapterProjectionHash. readonly_tac. Qed.
Lemma readonly_scan o : readonly (scan_text o).
Proof. unfold scan_text. readonly_tac. Qed.
#[export] Hint Resolve readonly_digest readonly_content_equal readonly_scan : readonly.
Lemma readonly_exists attempt p : readonly (adapterProjectionExists attempt p).
Proof. unfold adapterProjectionExists. readonly_tac. Qed.
Lemma readonly_envelope s reference p : readonly (validateAdapterProjectionEnvelope s reference p).
Proof. unfold validateAdapterProjectionEnvelope. readonly_tac. Qed.
Lemma readonly_content_reference reference content call : readonly (validateSafeContentReference reference content call).
Proof. unfold validateSafeContentReference. readonly_tac. Qed.
Lemma readonly_one {A} (p : A -> bool) l : readonly (one p l).
Proof. unfold one. readonly_tac. Qed.
#[export] Hint Resolve readonly_exists readonly_envelope readonly_content_reference readonly_one : readonly.
Lemma readonly_attempt id : readonly (attempt_by_id id).
Proof. unfold attempt_by_id. readonly_tac. Qed.
Lemma readonly_tool_call reference call : readonly (tool_call reference call).
Proof. unfold tool_call. readonly_tac. Qed.
#[export] Hint Resolve readonly_attempt readonly_tool_call : readonly.
Lemma readonly_ledger attempt : readonly (attempt_ledger attempt).
Proof. unfold attempt_ledger. readonly_tac. Qed.
#[export] Hint Resolve readonly_ledger : readonly.
Lemma readonly_exceeded attempt : readonly (attemptOutputExceeded attempt).
Proof. unfold attemptOutputExceeded. readonly_tac. Qed.
Lemma readonly_archived_charge attempt bytes : readonly (chargeArchivedAttemptOutput attempt bytes).
Proof. unfold chargeArchivedAttemptOutput. readonly_tac. Qed.
Lemma readonly_event_content reference e : readonly (validateAdapterEventSafeContent reference e).
Proof. unfold validateAdapterEventSafeContent. readonly_tac. Qed.
#[export] Hint Resolve readonly_exceeded readonly_archived_charge readonly_event_content : readonly.
Lemma readonly_archived s e p : readonly (validateArchivedAdapterEvent s e p).
Proof. unfold validateArchivedAdapterEvent. readonly_tac. Qed.
Lemma readonly_terminal_digest attempt p : readonly (activeTerminalProjectionDigest attempt p).
Proof. unfold activeTerminalProjectionDigest. readonly_tac. Qed.
Lemma readonly_same want row : readonly (same_or_conflict want row).
Proof. unfold same_or_conflict. readonly_tac. Qed.
#[export] Hint Resolve readonly_archived readonly_terminal_digest readonly_same : readonly.
Lemma readonly_archived_exists attempt p : readonly (archivedProjectionExists attempt p).
Proof. unfold archivedProjectionExists. readonly_tac. Qed.
Lemma readonly_archived_limit p : readonly (archivedOutputLimitProjection p).
Proof. unfold archivedOutputLimitProjection. readonly_tac. Qed.
Lemma readonly_terminal_output reference output : readonly (terminal_output reference output).
Proof. unfold terminal_output. readonly_tac. Qed.
#[export] Hint Resolve readonly_archived_exists readonly_archived_limit readonly_terminal_output : readonly.

Lemma is_text_Some o s : is_text o s = true -> o = Some s.
Proof. unfold is_text. destruct o; [|done]. intros H. simplify_bool. congruence. Qed.

(** ** To [unknown] *)
Lemma update_attempt_one id f db db' a :
  update_attempt id f db = Some db' -> a ∈ attempts db -> att_id a = id ->
  one_active_attempt (update_where (fun a => att_id a =s id) f (attempts db)) = true.
Proof.
  unfold update_attempt. intros H Ha He. destruct (select1 _ (attempts db)) eqn:Hs.
  - apply bind_Some in H as (? & Hg & _). apply guard_Some in Hg as [Hg _]. by simplify_bool.
  - pose proof (select1_None _ _ Hs a Ha) as Hn. cbn in Hn. by rewrite He, str_eqb_refl in Hn.
Qed.

(** The attempt takes the slot, or had it; only its state, its request and the
    local state move. *)
Lemma wp_setAttemptUnknown env reference reason effect (Q : unit -> Core -> Prop) (E : err -> Core -> Prop) c :
  Inv (cfg_node env) (st c) (tx c) -> settled_request (ref_request reference) (requests (tx c)) ->
  (forall c', handler_frame c c' -> Inv (cfg_node env) (st c') (tx c') -> attempt_scope (tx c') = attempt_scope (tx c) ->
     ActiveAttemptID (st c') = Some (ref_attempt reference) ->
     ActiveAttemptID (st c) = None \/ ActiveAttemptID (st c) = Some (ref_attempt reference) ->
     control_actions (tx c') = control_actions (tx c) -> messages (tx c') = messages (tx c) -> Q tt c') ->
  (forall e c', durable c' = durable c -> E e c') ->
  wp env (setAttemptUnknown reference reason effect) Q E c.
Proof.
  intros HI Hset HQ HE. unfold setAttemptUnknown. apply wp_bind, wp_query_row; [|by apply HE..].
  intros a Ha. apply select1_Some in Ha as [Hin He]. simplify_bool. rename H into He.
  destruct (att_state a =s "unknown") eqn:Hstate; simplify_bool.
  { assert (active_attempt a = true) as Hact by (unfold active_attempt; by rewrite Hstate).
    apply (att_active _ _ (inv_attempts _ _ _ HI) a Hin) in Hact. rewrite He in Hact.
    apply wp_ret, HQ; try done. by right. }
  cbv zeta. apply wp_bind, wp_exec; [|by apply HE..]. intros db1 H1.
  pose proof (update_attempt_one _ _ _ _ a H1 Hin He) as Hone. apply update_attempt_frame in H1 as (q & ->).
  pose proof (inv_log _ _ _ HI) as Hlog0.
  pose proof (attempts_ok_activate _ _ _ _ _ a (inv_attempts _ _ _ HI) (inv_owned _ _ _ HI) Hin He Hone (fun _ => conj eq_refl (conj eq_refl eq_refl))) as [Hok Hslot].
  repeat wp_step; [|by apply HE..].
  apply HQ; rcbn; try done; [|by apply scope_update].
  destruct HI as [Hident Hnode Hlog Hpending Hrequests Hattempts Hholds Hcommands Hslots Hmessages Hactions Howned]. constructor; rcbn; try done.
  - by rewrite settled_update_pending.
  - by apply requests_ok_update.
  - apply slots_ok_update_attempt; [done|]. by apply slots_ok_update_request.
  - eapply messages_ok_step; [done|by destruct Hmessages|by apply kept_update_request].
  - assert (begun (update_where (fun a => att_id a =s ref_attempt reference)
             (fun a => a <| att_version ::= Z.succ |> <| att_state := "unknown" |> <| att_effect := if effect =s "" then "unknown" else effect |>)
             (attempts (tx c)))) as Hb by (by apply begun_update; [|destruct Hactions]).
    destruct Hslot as [Hnone|Hsome].
    + rewrite Hnone in Hactions. eapply actions_ok_closed; [done|by apply kept_scope|done|by eapply idle_closed].
    + rewrite Hsome in Hactions. eapply actions_ok_step; [done|by apply kept_scope|done|by apply steers_kept_update_request].
  - by apply owned_update.
Qed.

(** ** On an attempt of the node *)
Section Target.
Context {T : SafeText} (reference : AttemptRef) {P : durableState -> Db -> Prop} `{!Stable P}.
Hypothesis Htarget : forall s db, P s db -> targets reference s db.

Lemma keeping_record seq attempt p : keeping P (recordAdapterProjection seq attempt p).
Proof using Type*. unfold recordAdapterProjection. keeping_tac. Qed.
Lemma keeping_assistant_message message finish content : keeping P (assistant_message reference message finish content).
Proof using Type*. unfold assistant_message. keeping_tac. by apply keeping_insert_message. Qed.
Lemma keeping_fenced attempt current next : keeping P (fenced_charge attempt current next).
Proof using Type*. unfold fenced_charge. keeping_tac. Qed.
Hint Resolve keeping_record keeping_assistant_message keeping_fenced : keeping.

Lemma keeping_limit_marker p : keeping P (appendAdapterOutputLimitMarker reference p).
Proof using Type*. unfold appendAdapterOutputLimitMarker. keeping_tac. Qed.
Lemma keeping_charge_output attempt bytes : keeping P (chargeAttemptOutput attempt bytes).
Proof using Type*. unfold chargeAttemptOutput. keeping_tac. Qed.
Hint Resolve keeping_limit_marker keeping_charge_output : keeping.
Lemma keeping_charge_projection s p bytes : keeping P (charge_projection s reference p bytes).
Proof using Type*. unfold charge_projection. keeping_tac. Qed.
Hint Resolve keeping_charge_projection : keeping.
Lemma keeping_charge_content content p limited : keeping P (charge_content reference content p limited).
Proof using Type*. unfold charge_content, chargeSafeAdapterProjection. keeping_tac. Qed.
Lemma keeping_node_event : keeping P appendNodeEvent.
Proof using Type*. unfold appendNodeEvent. keeping_tac. Qed.
Hint Resolve keeping_charge_content keeping_node_event : keeping.

(** It finds out itself whether the attempt holds the slot. *)
Lemma keeping_output_stop : keeping P (scheduleOutputLimitStop reference).
Proof using Type*.
  intros env c HI HP. unfold scheduleOutputLimitStop. apply wp_bind, wp_get.
  destruct (is_text (ActiveAttemptID (st c)) (ref_attempt reference)) eqn:Hslot; cbn [negb].
  - assert (holds_slot reference (st c) (tx c)) as HQ.
    { split; [by apply is_text_Some|by apply Htarget]. }
    apply wp_keeping_add with (holds_slot reference); [|done..].
    pose proof (stable_and P (holds_slot reference) _ _) as HS.
    keeping_tac.
    + apply keeping_active_attempt; stable_tac; try done. by intros s db [].
    + apply keeping_insert_stop; [done|]. intros s db []. eapply targets_addresses; [by apply Htarget|done].
  - apply wp_ret. by split_and!; [apply frame_refl|..].
Qed.
Hint Resolve keeping_output_stop : keeping.

Lemma keeping_archive e version suppressed kind :
  event_reference e = reference -> keeping P (archiveAdapterEvent e version suppressed kind).
Proof using Type*. intros He. unfold archiveAdapterEvent. rewrite He. keeping_tac. Qed.
End Target.

(** ** While the attempt holds the slot *)
Section Slot.
Context {T : SafeText} (reference : AttemptRef) (state : string).

(** [state] is the attempt's state as its row was read. *)
Definition in_slot (s : durableState) (db : Db) : Prop :=
  holds_slot reference s db /\ (in_set state ["running"; "waiting_input"] = true -> started_target reference s db).
#[local] Instance stable_in_slot : Stable in_slot.
Proof. apply stable_and; [|apply stable_implies]; typeclasses eauto. Qed.
Lemma in_slot_targets s db : in_slot s db -> targets reference s db.
Proof. by intros [[_ ?] _]. Qed.
#[local] Hint Resolve in_slot_targets : keeping.
#[local] Hint Resolve keeping_record keeping_assistant_message keeping_fenced keeping_limit_marker keeping_charge_output
  keeping_charge_projection keeping_charge_content keeping_node_event keeping_output_stop : keeping.

Lemma keeping_wait version : in_set state ["running"; "waiting_input"] = true ->
  keeping in_slot (exec (update_attempt (ref_attempt reference) (fun a => a <| att_version := version a |> <| att_state := "waiting_input" |>))).
Proof.
  intros Hs. apply keeping_active_attempt; stable_tac; try done; [by intros s db []|].
  intros s db _ [_ H] _. by apply H.
Qed.
Lemma keeping_transition version kind : keeping in_slot (transitionWaiting reference version state kind).
Proof.
  unfold transitionWaiting. destruct (in_set state _) eqn:Hs; cbn [negb]; [|keeping_tac].
  keeping_tac. by apply keeping_wait.
Qed.
#[local] Hint Resolve keeping_transition : keeping.

Lemma keeping_waiting version kind : keeping in_slot (prepareWaiting reference version state kind).
Proof.
  unfold prepareWaiting. destruct (negb _); [keeping_tac|]. destruct (state =s "waiting_input"); [keeping_tac|].
  destruct (state =s "running") eqn:Hs; [|keeping_tac]. simplify_bool. keeping_tac. apply keeping_wait. by subst.
Qed.
Lemma keeping_message message content finish : keeping in_slot (prepareAssistantMessage reference message content finish).
Proof. unfold prepareAssistantMessage. keeping_tac. Qed.
Lemma keeping_tool_started call tool hash input : keeping in_slot (prepareToolStarted reference call tool hash input).
Proof. unfold prepareToolStarted. keeping_tac. Qed.
Lemma keeping_tool_output call i stream output : keeping in_slot (prepareToolOutput reference call i stream output).
Proof. unfold prepareToolOutput. keeping_tac. Qed.
Lemma keeping_tool_completed call status result effect effectRef :
  keeping in_slot (prepareToolCompleted reference call status result effect effectRef).
Proof. unfold prepareToolCompleted. keeping_tac. Qed.
Lemma keeping_approval version approval call hash prompt :
  keeping in_slot (prepareApproval reference version state approval call hash prompt).
Proof. unfold prepareApproval, chargeAdapterProjection. keeping_tac. Qed.
Lemma keeping_input version input prompt : keeping in_slot (prepareInput reference version state input prompt).
Proof. unfold prepareInput. keeping_tac. Qed.
End Slot.

(** ** Terminal events *)
Definition terminal_state (s : string) : Prop := s ∈ ["completed"; "failed"; "interrupted"].
Ltac terminal_tac := unfold terminal_state; set_solver.
Lemma terminal_inactive s :
  terminal_state s -> in_set s activeStates = false /\ in_set s ["running"; "waiting_input"] = false /\ (s =s "queued") = false.
Proof. unfold terminal_state. intros H. repeat (apply elem_of_cons in H as [->|H]; [done|]). set_solver. Qed.

(** With every response of the attempt resolved, no steer is open. *)
Lemma resolved_closed id db msgs reqs :
  actions_ok (Some id) (attempts db) msgs reqs (control_actions db) -> (0 <? unresolved_responses id db) = false ->
  steered (control_actions db) = false.
Proof.
  intros Hok Hu. apply exists_where_false. intros c Hc. destruct (open_steer c) eqn:Ho; [|done]. exfalso.
  destruct (act_steers _ _ _ _ _ Hok c Hc Ho) as ([= Hid] & _).
  unfold open_steer, steer_action in Ho. apply andb_true_iff in Ho as [Hk Hs]. unfold unresolved_responses in Hu.
  match type of Hu with (0 <? count_where ?p ?l) = false =>
    assert (exists_where p l = true) as He; [apply exists_where_true; exists c; split; [done|]|rewrite exists_where_count in He] end.
  - rewrite Hid, str_eqb_refl. simplify_bool. rewrite Hk. apply in_set_iff in Hs. apply in_set_iff. set_solver.
  - simplify_bool. match type of Hu with count_where ?p ?l <= 0 => pose proof (count_where_nonneg p l) end. lia.
Qed.

(** The attempt in the slot and its request are done: the slot is free. *)
Lemma Inv_retired node reference s s' db db' f g :
  Inv node s db -> holds_slot reference s db -> steered (control_actions db) = false ->
  (forall a, attempt_facts (f a) = attempt_facts a /\ att_node (f a) = att_node a /\ active_attempt (f a) = false
             /\ in_set (att_state (f a)) ["running"; "waiting_input"] = false) ->
  (forall r, req_id (g r) = req_id r /\ req_sequence (g r) = req_sequence r /\ queued (g r) = false) ->
  same_identity s s' /\ Epoch s' = Epoch s /\ LastEventSeq s' = LastEventSeq s /\ PendingCount s' = PendingCount s
    /\ NextQueueSequence s' = NextQueueSequence s /\ ActiveAttemptID s' = None ->
  untouched (db <| attempts := update_where (fun a => att_id a =s ref_attempt reference) f (attempts db) |>
                <| requests := update_where (fun r => req_id r =s ref_request reference) g (requests db) |>) db' ->
  Inv node s' db'.
Proof.
  intros HI Hslot Hst Hf Hg (E1 & E2 & E3 & E4 & E5 & E6) Hun.
  pose proof (targets_settled _ _ _ _ HI (proj2 Hslot)) as Hset. destruct Hslot as [Hslot _].
  eapply Inv_untouched; [exact Hun|].
  assert (forall a, att_id (f a) = att_id a /\ att_request (f a) = att_request a) as Hid
    by (intros a; destruct (Hf a) as [[= -> -> _] _]; done).
  destruct HI as [Hident Hnode Hlog Hpending Hrequests Hattempts Hholds Hcommands Hslots Hmessages Hactions Howned].
  constructor; rcbn; rewrite ?E2, ?E3, ?E4, ?E5, ?E6; try assumption.
  - unfold same_identity in *. intuition congruence.
  - destruct E1 as (E1 & _). congruence.
  - destruct E1 as (-> & _). done.
  - rewrite settled_update_pending; [done..|apply Hg].
  - apply requests_ok_update; [|done]. intros r. by destruct (Hg r) as (? & ? & _).
  - eapply attempts_ok_update; [done|apply Hid| |right; by rewrite Hslot]. intros a Ha He. destruct (Hf a) as (_ & _ & -> & _). done.
  - apply slots_ok_update_attempt; [intros a; apply Hid|]. apply slots_ok_update_request; [intros r; apply Hg|intros r _; apply Hg|done].
  - eapply messages_ok_step; [done|by destruct Hmessages|by apply kept_update_request].
  - eapply actions_ok_closed; [done|apply kept_scope; intros; apply Hf| |done].
    apply begun_update; [|by destruct Hactions]. intros a _ _. destruct (Hf a) as (_ & _ & Hn' & Hn). split; [congruence|].
    unfold active_attempt in Hn'. intros E. by rewrite E in Hn'.
  - apply owned_update; [|done]. intros a. apply Hf.
Qed.

Section Project.
Context {T : SafeText} (reference : AttemptRef).

Definition idle_control (s : durableState) (db : Db) : Prop := holds_slot reference s db /\ steered (control_actions db) = false.

Lemma turning_unknown P reason effect : (forall s db, P s db -> holds_slot reference s db) ->
  turning P (holds_slot reference) (setAttemptUnknown reference reason effect).
Proof.
  intros HP env c HI H. destruct (HP _ _ H) as [Hs Ht]. apply wp_setAttemptUnknown; [done|by eapply targets_settled| |done].
  intros c' Hf HI' Hscope Hs' _ _ _. split_and!; [done..|]. split; [done|]. unfold targets. by rewrite Hscope.
Qed.

Lemma turning_settle version state type effect payload reason : terminal_state state ->
  turning idle_control (targets reference) (settle_terminal reference version state type effect payload reason).
Proof.
  intros Hstate. destruct (terminal_inactive _ Hstate) as (H1 & H2 & H3). unfold settle_terminal. cbv zeta.
  apply turning_bind with idle_control.
  { intros env c HI HP. apply wp_readonly; [eauto with readonly| |done]. intros _. by split_and!. }
  intros []; [apply turning_ret; by intros s db [[_ ?] _]|].
  intros env c HI [Hslot Hst]. pose proof (inv_log _ _ _ HI). repeat wp_step.
  split_and!; [by split_and!| |by destruct Hslot as [_ [started Hx]]; exists started; unfold attempt_scope; rcbn; rewrite scope_update].
  eapply Inv_retired with (f := fun a => a <| att_version ::= Z.succ |> <| att_state := state |> <| att_effect := effect |> <| att_finished := Some t |>)
     (g := fun r => r <| req_version ::= Z.succ |> <| req_status := state |> <| req_updated := t |>); try done.
Qed.

Lemma turning_terminal version outcome output usage failure effect :
  turning (holds_slot reference) (targets reference) (prepareTerminalProjection reference version outcome output usage failure effect).
Proof.
  unfold prepareTerminalProjection. destruct (negb _); [apply turning_fail|].
  intros env c HI HP. apply wp_bind, wp_query; [|done].
  assert (turning (holds_slot reference) (targets reference)
            (setAttemptUnknown reference "provider_state" effect ;; mret (None (A := adapterProjection), true))) as Hunknown.
  { eapply turning_bind; [by apply turning_unknown|]. intros _. apply turning_ret. by intros s db []. }
  destruct (0 <? unresolved_responses _ _) eqn:Hu; cbn [orb].
  2: destruct (effect =s "unknown").
  3: { assert (idle_control (st c) (tx c)) as Hidle.
       { split; [done|]. eapply resolved_closed; [|exact Hu]. destruct HP as [Hs _]. rewrite <- Hs. apply HI. }
       destruct outcome; try by apply wp_fail.
       - eapply (turning_bind idle_control (targets reference)); [|intros message; apply turning_settle; terminal_tac|done..].
         intros env' c' HI' HP'. apply wp_readonly; [eauto with readonly| |done]. by intros _.
       - destruct failure; [|by apply wp_fail]. apply turning_settle; [terminal_tac|done..].
       - apply turning_settle; [terminal_tac|done..].
       - by apply Hunknown. }
  all: eapply (turning_bind (holds_slot reference)); [by apply turning_unknown| |done..]; intros _.
  all: apply (turning_weaken _ (targets reference) _ (targets reference)); [by intros s db []|done|].
  all: keeping_tac; by apply (keeping_archive reference).
Qed.

Lemma turning_prepare version state e :
  turning (in_slot reference state) (targets reference) (prepareProjection reference version state e).
Proof.
  assert (forall (m : M (option adapterProjection)), keeping (in_slot reference state) m ->
    turning (in_slot reference state) (targets reference) (p ← m; mret (p, false))) as Hopen.
  { intros m Hm. eapply turning_bind; [exact Hm|]. intros p. apply turning_ret. apply in_slot_targets. }
  assert (Stable (in_slot reference state)) as HS by apply stable_in_slot.
  unfold prepareProjection. destruct (event_kind e).
  - apply turning_ret. apply in_slot_targets.
  - by apply Hopen, keeping_waiting.
  - apply Hopen. apply keeping_bind; [|intros _]; [apply keeping_readonly; eauto with readonly|].
    apply keeping_charge_content; [done|]. by intros s db; apply in_slot_targets.
  - by apply Hopen, keeping_message.
  - by apply Hopen, keeping_tool_started.
  - by apply Hopen, keeping_tool_output.
  - by apply Hopen, keeping_tool_completed.
  - by apply Hopen, keeping_approval.
  - by apply Hopen, keeping_input.
  - eapply turning_weaken; [|done|apply turning_terminal]. by intros s db [].
  - eapply turning_bind; [apply turning_unknown; by intros s db []|]. intros _. apply turning_ret. by intros s db [].
Qed.

Lemma turning_project version state e :
  turning (in_slot reference state) (targets reference) (projectAdapterEvent reference version state e).
Proof.
  unfold projectAdapterEvent. pose proof (stable_in_slot reference state). pose proof (stable_targets reference) as HS.
  eapply turning_bind; [apply keeping_replay_text|]. intros _.
  eapply turning_bind; [apply turning_prepare|]. intros [p terminal].
  keeping_tac; eauto using keeping_record, keeping_limit_marker, keeping_output_stop, keeping_node_event.
Qed.
End Project.
