(* ===== verification/ArchiveFacts.v ===== *)
(** * Late and suppressed observations
    [archiveAdapterEvent] for an attempt that does not run any more, or not in
    a state where a budget stop applies: it appends to the archive and, unless
    suppressed, one event to the log, and touches no other table. *)
From stdpp Require Import base tactics list strings gmap pretty.
From Stdlib Require Import ZArith Lia Ascii String.
From S2P Require Import Prelude Json Wire Store Tx Adapter Events Commands Barrier Hold Submit Dispatch Frames.
From S2P Require Import TranscriptView Capture Budget Observe Invariant Steering Handlers Keeping Observing.
Open Scope string_scope.
Open Scope list_scope.
Open Scope Z_scope.
Open Scope harness_scope.

(** The budget stop has nothing to stop. *)
Definition unstoppable (reference : AttemptRef) (s : durableState) (db : Db) : Prop :=
  is_text (ActiveAttemptID s) (ref_attempt reference) = true ->
  forall a, a ∈ attempts db -> att_id a = ref_attempt reference -> in_set (att_state a) ["running"; "waiting_input"] = false.

Lemma wp_stop_idle env reference (Q : unit -> Core -> Prop) (E : err -> Core -> Prop) c :
  unstoppable reference (st c) (tx c) -> Q tt c -> (forall e, E e c) -> wp env (scheduleOutputLimitStop reference) Q E c.
Proof.
  intros Hu HQ HE. unfold scheduleOutputLimitStop. apply wp_bind, wp_get.
  destruct (is_text _ _) eqn:Hs; cbn [negb]; [|by apply wp_ret].
  apply wp_bind. unfold attempt_by_id, one. apply wp_query_row; [|by apply HE..].
  intros a Ha. apply select1_Some in Ha as [Hin He]. simplify_bool. rewrite (Hu Hs a Hin) by done.
  rewrite orb_true_r. by apply wp_ret.
Qed.

(** What an archived observation leaves: events and artifacts apart, at most a
    row of the archive; a suppressed one is not in the log either. *)
Record archives (suppressed : bool) (c c' : Core) : Prop := {
  ar_durable : durable c' = durable c;
  ar_state : exists n, st c' = (st c) <| LastEventSeq := n |>;
  ar_tables : exists evs q arts lates, tx c' = (tx c) <| events := evs |> <| quiescence_scope_revisions := q |>
      <| artifacts := arts |> <| late_observations := lates |>;
  ar_late : exists lates, late_observations (tx c') = late_observations (tx c) ++ lates /\ (List.length lates <= 1)%nat;
  ar_suppressed : suppressed = true -> LastEventSeq (st c') = LastEventSeq (st c) /\ events (tx c') = events (tx c) }.

Lemma archives_captured suppressed c arts fs made : archives suppressed c (with_capture arts fs made c).
Proof.
  destruct c as [D X S ? ? ? ? ? ? ?]. unfold with_capture. split; rcbn; try done.
  - exists (LastEventSeq S). by destruct S.
  - exists (events X), (quiescence_scope_revisions X), arts, (late_observations X). by destruct X.
  - exists []. rewrite app_nil_r. split; [done|simpl; lia].
Qed.
Lemma archives_refl suppressed c : archives suppressed c c.
Proof. pose proof (archives_captured suppressed c (artifacts (tx c)) (files c) (created c)) as H. by destruct c as [? []]. Qed.
Lemma archives_unstoppable suppressed reference c c' :
  archives suppressed c c' -> unstoppable reference (st c) (tx c) -> unstoppable reference (st c') (tx c').
Proof. intros [_ [n ->] (? & ? & ? & ? & ->) _ _] Hu. by destruct c as [D [] [] ? ? ? ? ? ? ?]. Qed.

(** Nothing in the archive yet: the event is at most in the log. *)
Definition logs (suppressed : bool) (c c' : Core) : Prop := archives suppressed c c' /\ late_observations (tx c') = late_observations (tx c).
Lemma logs_captured suppressed c arts fs made : logs suppressed c (with_capture arts fs made c).
Proof. split; [apply archives_captured|by destruct c as [? []]]. Qed.
Lemma archives_row suppressed c c' row :
  logs suppressed c c' -> archives suppressed c (c' <| tx ::= fun db => db <| late_observations := late_observations db ++ [row] |> |>).
Proof.
  intros [[A1 [n A2] (evs & q & arts & lates & A3) _ A5] Hl]. destruct c' as [D' X' S' ? ? ? ? ? ? ?]. rcbn. rcbn_in A1. rcbn_in A2. rcbn_in A3.
  rcbn_in A5. rcbn_in Hl. split; rcbn; try done.
  - by exists n.
  - exists evs, q, arts, (late_observations X' ++ [row]). rewrite A3. by destruct c as [? []].
  - exists [row]. rewrite Hl. split; [done|simpl; lia].
Qed.

Lemma wp_log_archived env reference p archived (Q : unit -> Core -> Prop) (E : err -> Core -> Prop) c :
  log_ok (NodeID (st c)) (Epoch (st c)) (LastEventSeq (st c)) (events (tx c)) ->
  (forall c', logs false c c' -> Q tt c') -> (forall err c', durable c' = durable c -> E err c') ->
  wp env (appendEvent (pj_type archived) (pj_entity archived) (pj_version archived) (ref_attempt reference) (ref_dialog reference)
            (payload_json (pj_payload archived)) true ;;
          s ← get st; recordAdapterProjection (LastEventSeq s) (ref_attempt reference) p) Q E c.
Proof.
  intros Hlog HQ HE.
  assert (forall n evs q, logs false c (c <| st ::= fun s => s <| LastEventSeq := n |> |> <| tx ::= fun db => db <| events := evs |> <| quiescence_scope_revisions := q |> |>)) as Hlogs.
  { intros n evs q. destruct c as [D X S ? ? ? ? ? ? ?]. split; [|by destruct X]. split; rcbn; try done; [by exists n| |by exists []; rewrite app_nil_r; split; [|simpl; lia]].
    exists evs, q, (artifacts X), (late_observations X). by destruct X. }
  apply wp_bind, wp_appendEvent; [done| |by intros; apply HE]. intros event row q _ _.
  apply wp_bind, wp_get. unfold recordAdapterProjection.
  destruct (pj_key p =s ""); [apply wp_ret, HQ; specialize (Hlogs (Z.succ (LastEventSeq (st c))) (events (tx c) ++ [row]) q); by destruct c as [? [] []]|].
  apply wp_bind. apply wp_readonly; [eauto with readonly|intros digest|intros; apply HE; by destruct c].
  apply wp_bind. apply wp_exec_changed; [|intros; apply HE; by destruct c..]. intros changed db' H.
  apply bind_projection_frame in H as [_ ->].
  destruct (changed =? 1); [|apply wp_fail, HE; by destruct c]. apply wp_ret, HQ.
  match goal with |- context [update_where ?f ?g ?l] => specialize (Hlogs (Z.succ (LastEventSeq (st c))) (update_where f g l) q) end.
  by destruct c as [? [] []].
Qed.

Section Archive.
Context {T : SafeText}.

Lemma wp_archive env e version suppressed kind (Q : unit -> Core -> Prop) (E : err -> Core -> Prop) c :
  Inv (cfg_node env) (st c) (tx c) -> unstoppable (event_reference e) (st c) (tx c) ->
  (forall c', archives suppressed c c' -> Q tt c') -> (forall err c', durable c' = durable c -> E err c') ->
  wp env (archiveAdapterEvent e version suppressed kind) Q E c.
Proof.
  intros HI Hu HQ HE. pose proof (inv_log _ _ _ HI) as Hlog. unfold archiveAdapterEvent.
  destruct (prepareLateProjection e version) as [p|]; [|by apply wp_fail, HE]. cbv zeta.
  apply wp_bind, wp_get. apply wp_bind. apply wp_readonly; [eauto with readonly|intros _|intros; by apply HE].
  apply wp_bind. apply wp_readonly; [eauto with readonly|intros duplicate|intros; by apply HE].
  destruct duplicate; [apply wp_replay_text; [by apply HQ, archives_refl|intros; by apply HE]|].
  apply wp_bind. apply wp_capture; [|intros; apply HE; by destruct c as [? []]].
  intros arts fs made. pose proof (logs_captured suppressed c arts fs made) as Hcap.
  apply wp_bind. apply wp_readonly; [eauto with readonly|intros [charge bytes]|intros; apply HE; apply Hcap].
  destruct (Exceeded charge && negb (NewlyExceeded charge)); [apply wp_ret, HQ, Hcap|].
  apply wp_bind. apply wp_readonly; [readonly_tac|intros archived|intros; apply HE; apply Hcap].
  apply wp_bind.
  match goal with |- wp _ _ ?Q' _ _ => assert (forall c1, logs suppressed c c1 -> Q' tt c1) as Htail end.
  { intros c1 Hl. apply wp_bind. apply wp_readonly; [eauto with readonly|intros hash|intros; apply HE; apply Hl].
    apply wp_bind, wp_get, wp_bind, wp_now. intros t. apply wp_bind, wp_exec; [|intros; apply HE; apply Hl..].
    intros db' H. apply insert_late_frame in H. destruct H as [_ ->]. pose proof (archives_row suppressed c c1) as Hrow.
    match goal with |- context [late_observations (tx c1) ++ [?row]] => specialize (Hrow row Hl) end.
    assert (forall m, unstoppable (event_reference e) (st m) (tx m) -> archives suppressed c m ->
      wp env (if NewlyExceeded charge then scheduleOutputLimitStop (event_reference e) else mret tt) Q E m) as Hs.
    { intros m Hm Ham. destruct (NewlyExceeded charge); [|by apply wp_ret, HQ].
      apply wp_stop_idle; [done|by apply HQ|intros err; apply HE, Ham]. }
    destruct c1 as [D1 X1 S1 ? ? ? ? ? ? ?]. apply Hs; [by eapply archives_unstoppable|exact Hrow]. }
  destruct suppressed; [by apply wp_ret, Htail|].
  eapply wp_log_archived; [by destruct c as [? []]| |intros; apply HE; by destruct c as [? []]].
  intros c' [[A1 [n A2] (evs & q & arts' & lates & A3) (l' & A4 & Al) _] A6]. apply Htail.
  destruct c as [D X S ? ? ? ? ? ? ?]. unfold with_capture in *. rcbn_in A1. rcbn_in A2. rcbn_in A3. rcbn_in A6. split; [|exact A6]. split; rcbn; try done.
  - by exists n.
  - exists evs, q, arts', lates. rewrite A3. by destruct X.
  - exists []. rewrite A6, app_nil_r. split; [done|simpl; lia].
Qed.
End Archive.
