(* ===== verification/WorkerTx.v ===== *)
(** * Transactions of the workers keep the node invariant
    The committed database satisfies the invariant after every transaction of
    [Observe], [Actions] and [Recovery]. *)
From stdpp Require Import base tactics list strings gmap pretty.
From Stdlib Require Import ZArith Lia Ascii String.
From S2P Require Import Prelude Json Wire Store Tx Adapter Events Commands Barrier Hold Submit Dispatch Frames.
From S2P Require Import TranscriptView Capture Budget Observe Actions Recovery Invariant Steering Handlers Keeping Transactions Observing ArchiveFacts.
Open Scope string_scope.
Open Scope list_scope.
Open Scope Z_scope.
Open Scope harness_scope.

(** ** Composing *)
Lemma transaction_turning {A} (m : M A) P P' env c (Q : A -> Core -> Prop) (E : err -> Core -> Prop) :
  turning P P' m -> Inv (cfg_node env) (st c) (tx c) -> P (st c) (tx c) -> DbInv (cfg_node env) (durable c) ->
  (forall a c', Inv (cfg_node env) (st c') (tx c') -> P' (st c') (tx c') -> DbInv (cfg_node env) (durable c') -> Q a c') ->
  (forall e c', DbInv (cfg_node env) (durable c') -> E e c') -> wp env m Q E c.
Proof.
  intros Hm HI HP HD HQ HE. eapply wp_mono; [by apply Hm|..].
  - intros a c' ((Hd & _) & HI' & HP'). apply HQ; [done..|by rewrite Hd].
  - intros e c' Hd. apply HE. by rewrite Hd.
Qed.

(** One computation of a transaction, by its lemma. *)
Tactic Notation "turn" constr(P) uconstr(L) :=
  apply wp_bind; eapply (transaction_turning _ P P); [by apply L; stable_tac; try quiet_tac|done..| |done].

(** No condition on the state. *)
Definition anything (s : durableState) (db : Db) : Prop := True.
#[export] Instance stable_anything : Stable anything := stable_True.

(** Every transaction opens with the stored state. *)
Lemma transaction_open {A} (m : M A) :
  (forall env c, DbInv (cfg_node env) (durable c) -> tx c = durable c -> st c = node_state (tx c) ->
     Inv (cfg_node env) (st c) (tx c) -> wp env m (fun _ c' => DbInv (cfg_node env) (durable c')) (fun _ c' => DbInv (cfg_node env) (durable c')) c) ->
  transaction (begin ;; loadState ;; m).
Proof. intros Hm env c HD. do 2 tx_step. do 2 tx_step. all: try done. by apply Hm. Qed.

Lemma wp_retain env (Q : unit -> Core -> Prop) E c : Q tt (c <| retained := true |>) -> wp env retainForCommit Q E c.
Proof. apply wp_modify. Qed.
(** A step of a transaction that may publish files. *)
Ltac work_step :=
  first [lazymatch goal with |- wp _ retainForCommit _ _ _ => apply wp_retain; rcbn end | tx_step].

(** The end of a transaction: save and commit. *)
Ltac tx_save HI :=
  let H := fresh in
  pose proof (inv_identity _ _ _ HI) as H; repeat work_step; try (apply Inv_committed; done); try (rcbn; done).

Lemma attempt_row_targets s db a : a ∈ attempts db -> targets (attempt_reference s a) s db.
Proof. intros Ha. exists (att_started a). apply list_elem_of_In, (List.in_map attempt_facts). by apply list_elem_of_In. Qed.

Lemma attempt_row_started s db a t : a ∈ attempts db -> att_started a = Some t -> started_target (attempt_reference s a) s db.
Proof. intros Ha Hs. exists t. rewrite <- Hs. apply list_elem_of_In, (List.in_map attempt_facts). by apply list_elem_of_In. Qed.

Lemma live_attempt_row id db a : live_attempt id db = Some a -> a ∈ attempts db /\ att_id a = id.
Proof. intros H. apply select1_Some in H as [Hin H]. by simplify_bool. Qed.

(** ** Observations *)
Section Observe.
Context {T : SafeText}.

(** A suppressed event leaves the state and the invariant's tables. *)
Lemma archives_suppressed node c c' : archives true c c' -> Inv node (st c) (tx c) -> st c' = st c /\ Inv node (st c') (tx c')
  /\ node_state (tx c') = node_state (tx c).
Proof.
  intros [_ [n A2] (evs & q & arts & lates & A3) _ A5] HI. destruct (A5 eq_refl) as [E1 E2].
  assert (st c' = st c) as E.
  { rewrite A2 in E1 |- *. destruct (st c). cbn in E1. by subst. }
  rewrite E. split; [done|]. assert (untouched (tx c) (tx c')) as Hun by (rewrite A3 in E2 |- *; destruct (tx c); cbn in E2; by constructor).
  split; [by eapply Inv_untouched|apply Hun].
Qed.

Lemma archived_unstoppable node reference s db a :
  Inv node s db -> a ∈ attempts db -> att_id a = ref_attempt reference -> in_set (att_state a) ["running"; "waiting_input"] = false ->
  unstoppable reference s db.
Proof.
  intros HI Ha He Hn _ b Hb Hbe. assert (b = a) as ->; [|done]. destruct (inv_attempts _ _ _ HI) as [Hnd _ _].
  eapply (select1_unique att_id); [exact Hnd|by apply select1_key_unique|done|congruence].
Qed.

Lemma stopped_unstoppable s : in_set s ["stopping"; "unknown"] = true -> in_set s ["running"; "waiting_input"] = false.
Proof. intros H. apply in_set_iff in H. repeat (apply elem_of_cons in H as [->|H]; [done|]). set_solver. Qed.

Lemma transaction_observe_locked expected e : event_reference e = expected -> transaction (observe_locked expected e).
Proof.
  intros He. unfold observe_locked. apply transaction_open. intros env c HD Htx Hst HI.
  apply wp_bind, wp_get, wp_bind, wp_query_row; [|done..]. intros a Ha. apply live_attempt_row in Ha as [Hin Hid].
  destruct (bool_decide _) eqn:Href; cbn [negb]; [|by apply wp_fail]. apply bool_decide_eq_true in Href.
  pose proof (attempt_row_targets (st c) _ _ Hin) as Htargets. rewrite Href in Htargets.
  destruct (in_set (att_state a) ["stopping"; "unknown"]) eqn:Hstop; cbn [andb]; [destruct (isInteractiveWaitEvent e)|].
  { apply wp_bind, wp_archive; [done| | |].
    - rewrite He. eapply archived_unstoppable; [done..|by apply stopped_unstoppable].
    - intros c' Har. destruct (archives_suppressed _ _ _ Har HI) as (E1 & HI' & E2). pose proof (ar_durable _ _ _ Har) as E3.
      assert (DbInv (cfg_node env) (tx c')) as HD' by (unfold DbInv; rewrite E2, <- Hst, <- E1; exact HI').
      repeat work_step; rcbn; rewrite ?E3; done.
    - intros err c' ->. done. }
  all: destruct (negb (is_text (ActiveAttemptID (st c)) (ref_attempt expected)) || negb (active_attempt a)) eqn:Hlive.
  1, 3: apply wp_bind; eapply transaction_turning; [by apply (keeping_archive expected (P := targets expected))|done..| |done];
    intros [] c' HI' _ HD'; by tx_save HI'.
  all: simplify_bool; rename select (is_text _ _ = true) into Hslot; apply is_text_Some in Hslot.
  all: apply wp_bind; eapply transaction_turning; [by apply (turning_project expected (att_version a) (att_state a) e)|done| |done| |done].
  2, 4: intros [] c' HI' _ HD'; by tx_save HI'.
  all: split; [by split|]; intros Hrun.
  all: destruct (att_begun _ _ _ _ _ (inv_actions _ _ _ HI) a Hin) as [Hb _]; specialize (Hb Hrun); destruct (att_started a) as [t|] eqn:Hs; [|done].
  all: rewrite <- Href; by eapply attempt_row_started.
Qed.

Theorem transaction_observe expected e : transaction (ObserveAdapterEvent expected e).
Proof.
  unfold ObserveAdapterEvent. destruct (bool_decide _) eqn:He; cbn [negb]; [|apply transaction_readonly; readonly_tac].
  apply bool_decide_eq_true in He. intros env c HD. apply wp_with_publication.
  eapply wp_mono; [by apply (transaction_observe_locked expected e He)|..].
  - intros a c' HD'. split; intros; by destruct c'.
  - intros err c' HD' fs. by destruct c'.
Qed.
End Observe.

(** ** Attempts and actions *)
(** The worker addresses what it read of the committed database. *)
Definition transaction_on {A} (G : Db -> Prop) (m : M A) : Prop := forall env c,
  DbInv (cfg_node env) (durable c) -> G (durable c) ->
  wp env m (fun _ c' => DbInv (cfg_node env) (durable c')) (fun _ c' => DbInv (cfg_node env) (durable c')) c.
Lemma transaction_on_open {A} G (m : M A) :
  (forall env c, DbInv (cfg_node env) (durable c) -> G (tx c) -> st c = node_state (tx c) ->
     Inv (cfg_node env) (st c) (tx c) -> wp env m (fun _ c' => DbInv (cfg_node env) (durable c')) (fun _ c' => DbInv (cfg_node env) (durable c')) c) ->
  transaction_on G (begin ;; loadState ;; m).
Proof. intros Hm env c HD HG. do 2 tx_step. do 2 tx_step. all: try done. by apply Hm. Qed.
Lemma transaction_on_catch G m : transaction_on G m -> transaction_on G (catch m (fun _ => mret tt)).
Proof. intros Hm env c HD HG. apply wp_catch. eapply wp_mono; [by apply Hm|done|]. intros [] c' HD'; try done; by apply wp_ret. Qed.

Definition has_attempt (reference : AttemptRef) (db : Db) : Prop := targets reference (node_state db) db.
(** An attempt the adapter refused has not been started. *)
Definition refusable (o : Observation) (db : Db) : Prop :=
  ob_kind o = "terminal" -> forall a, a ∈ attempts db -> att_id a = ob_attempt o -> att_started a = None.

Lemma unstarted_closed node s db id : Inv node s db -> ActiveAttemptID s = Some id ->
  (forall a, a ∈ attempts db -> att_id a = id -> att_started a = None) -> steered (control_actions db) = false.
Proof.
  intros HI Hs Hn. apply exists_where_false. intros c Hc. destruct (open_steer c) eqn:Ho; [|done]. exfalso.
  destruct (act_steers _ _ _ _ _ (inv_actions _ _ _ HI) c Hc Ho) as (E & (a & Ha & He & Hst) & _).
  apply Hst, Hn; [done|congruence].
Qed.

Lemma terminal_payload_state o generation code message x : terminal_payload o generation code message = Some x -> terminal_state (ob_terminal o).
Proof.
  unfold terminal_payload, terminal_state. intros Hx.
  repeat (match type of Hx with (if ?b then _ else _) = _ => destruct b eqn:? end); simplify_bool; try done;
    match goal with E : ob_terminal o = _ |- _ => rewrite E end; set_solver.
Qed.

Lemma turning_apply_terminal reference version o :
  turning (idle_control reference) anything (applyTerminal reference version o).
Proof.
  unfold applyTerminal. destruct (terminal_payload _ _ _ _) as [[type payload]|] eqn:Hp; [|apply turning_fail].
  destruct (terminal_inactive _ (terminal_payload_state _ _ _ _ _ Hp)) as (H1 & H2 & H3).
  intros env c HI [Hslot Hst]. apply wp_bind, wp_now. intros t.
  apply wp_bind, wp_exec; [|done..]. intros db1 Hu1. apply update_attempt_frame in Hu1 as (q1 & ->).
  apply wp_bind, wp_exec; [|done..]. intros db2 Hu2. apply update_request_frame in Hu2 as (q2 & ->).
  apply wp_bind, wp_setst.
  match goal with |- wp env _ _ _ ?c0 => assert (Inv (cfg_node env) (st c0) (tx c0)) as HI1; [rcbn|assert (handler_frame c c0) as Hf by (split_and!; rcbn; reflexivity)] end.
  { eapply Inv_retired with (f := fun a => a <| att_version ::= Z.succ |> <| att_state := ob_terminal o |> <| att_effect := ob_effect o |> <| att_finished := Some t |>)
     (g := fun r => r <| req_version ::= Z.succ |> <| req_status := ob_terminal o |> <| req_updated := t |>); try done. }
  match goal with |- wp env ?m _ _ _ => assert (keeping anything m) as Hk by (unfold appendNodeEvent; keeping_tac) end.
  eapply wp_mono; [by apply Hk|..].
  - intros [] c' (Hf' & HI' & _). exact (conj (frame_trans _ _ _ Hf Hf') (conj HI' Logic.I)).
  - intros e c' Hd. rewrite Hd. apply Hf.
Qed.

Theorem transaction_observe_attempt o : transaction_on (refusable o) (ObserveAttempt o).
Proof.
  unfold ObserveAttempt. apply transaction_on_open. intros env c HD HG Hst HI.
  apply wp_bind, wp_get, wp_bind, wp_query_row; [|done..]. intros a Ha. apply live_attempt_row in Ha as [Hin Hid].
  destruct (negb _ || negb _) eqn:Hlate.
  { unfold archiveLateObservation. destruct (if ob_kind o =s "terminal" then _ else _) as [[type payload]|]; [|by apply wp_fail].
    apply wp_bind. eapply transaction_turning; [apply (keeping_appendEvent (P := anything))|done..| |done].
    intros _ c1 HI1 _ HD1. apply wp_bind, wp_get, wp_bind, wp_now. intros t.
    apply wp_bind. eapply transaction_turning; [apply (keeping_exec (P := anything)), harmless_insert_late|done..| |done].
    intros _ c2 HI2 _ HD2. by tx_save HI2. }
  simplify_bool. rename select (is_text _ _ = true) into Hslot. apply is_text_Some in Hslot.
  pose proof (attempt_row_targets (st c) _ _ Hin) as Htargets. cbv zeta. apply wp_bind.
  assert (holds_slot (attempt_reference (st c) a) (st c) (tx c)) as Hholds by (split; [by cbn; rewrite Hid|done]).
  destruct (ob_kind o =s "unknown"); [|destruct (ob_kind o =s "terminal") eqn:Hk; [destruct (negb (ob_confirmed o)); [by apply wp_fail|]|by apply wp_fail]].
  - eapply transaction_turning; [by apply (turning_unknown (attempt_reference (st c) a) (holds_slot (attempt_reference (st c) a)))|done..| |done].
    intros _ c1 HI1 _ HD1. by tx_save HI1.
  - simplify_bool. eapply transaction_turning; [apply (turning_apply_terminal (attempt_reference (st c) a))|done| |done| |done].
    + split; [done|]. eapply unstarted_closed; [done..|]. by apply HG.
    + intros _ c1 HI1 _ HD1. by tx_save HI1.
Qed.

Theorem transaction_mark_unknown reference reason effect :
  transaction_on (has_attempt reference) (markAttemptUnknown reference reason effect).
Proof.
  unfold markAttemptUnknown. apply transaction_on_catch, transaction_on_open. intros env c HD HG Hst HI.
  apply wp_bind, wp_get. destruct (is_text _ _) eqn:Hslot; cbn [negb]; [|by apply wp_ret]. apply is_text_Some in Hslot.
  apply wp_bind. eapply transaction_turning; [by apply (turning_unknown reference (holds_slot reference))|done..| |done].
  intros _ c1 HI1 _ HD1. by tx_save HI1.
Qed.


(** ** Claims *)
(** A claimed, settled or requeued action only changes its status, and none is
    opened again. *)
Definition moves (f : Db -> option Db) : Prop := forall node db db', f db = Some db' -> DbInv node db -> DbInv node db'.
Lemma move_action_inv command from to : in_set from ["pending"; "inflight"] = true -> moves (move_action command from to).
Proof.
  intros Hfrom node db db' H HI. unfold move_action in H. apply update_actions_frame in H as (q & ->). unfold DbInv in *.
  destruct HI as [Hident Hnode Hlog Hpending Hrequests Hattempts Hholds Hcommands Hslots Hmessages Hactions Howned].
  constructor; rcbn; try assumption. apply actions_ok_move; [|done].
  intros c Hc Hp _. simplify_bool. rename select (act_status c = from) into He. by rewrite He.
Qed.
Lemma transaction_moves f : moves f -> transaction (catch (autocommit (exec f)) (fun _ => mret tt)).
Proof.
  intros Hf env c HD. apply wp_catch. unfold autocommit. apply wp_bind, wp_modify, wp_bind, wp_exec.
  - intros db' H. apply wp_bind, wp_modify, wp_ret. rcbn. by apply (Hf _ (durable c)).
  - apply wp_ret. done.
  - apply wp_ret. done.
Qed.
Theorem transaction_finish command status : transaction (finishAction command status).
Proof. apply transaction_moves. by apply move_action_inv. Qed.
Theorem transaction_requeue command : transaction (requeueAction command).
Proof. apply transaction_moves. by apply move_action_inv. Qed.
Theorem transaction_claim adapter l : transaction (claimAction adapter l).
Proof.
  intros env c HD. unfold claimAction. destruct (match l with DispatchLane => _ | _ => _ end); [by apply wp_ret|].
  apply wp_catch. apply wp_bind, wp_begin; [|by apply wp_ret]. apply wp_bind, wp_query_row; [|intros; by apply wp_ret..].
  intros row _. apply wp_bind, wp_exec; [|by apply wp_ret..]. intros db' H. rcbn_in H.
  pose proof (move_action_inv (act_id row) "pending" "inflight" ltac:(done) _ _ _ H HD) as HD'.
  repeat tx_step; rcbn; done.
Qed.

(** ** Starts *)
Theorem transaction_mark_started reference : transaction_on (has_attempt reference) (markStarted reference).
Proof.
  unfold markStarted. apply transaction_on_open. intros env c HD HG Hst HI.
  apply wp_bind, wp_get. destruct (is_text _ _) eqn:Hslot; cbn [negb]; [|by apply wp_fail]. apply is_text_Some in Hslot.
  apply wp_bind. apply wp_readonly; [eauto with readonly|intros a|done]. destruct (negb _); [by apply wp_fail|].
  apply wp_bind, wp_now. intros t. apply wp_bind, wp_exec; [|done..]. intros db1 Hu1. apply update_attempt_frame in Hu1 as (q1 & ->).
  pose proof (targets_settled (cfg_node env) reference (st c) (tx c) HI HG) as Hset.
  match goal with |- wp env _ _ _ ?c0 => assert (Inv (cfg_node env) (st c0) (tx c0) /\ targets reference (st c0) (tx c0)) as [HI1 HT1] end.
  { rcbn. split.
    - destruct HI as [Hident Hnode Hlog Hpending Hrequests Hattempts Hholds Hcommands Hslots Hmessages Hactions Howned]. constructor; rcbn; try assumption.
      + eapply attempts_ok_update; [done|done| |by left]. done.
      + by apply slots_ok_update_attempt.
      + eapply actions_ok_step; [done|by apply attempts_kept_update|by apply begun_update; [|destruct Hactions]|apply steers_kept_refl].
      + by apply owned_update.
    - destruct HG as [started Hx]. apply scope_row in Hx as (b & Hb & [= E1 E2 _]). exists (Some t).
      apply list_elem_of_In, List.in_map_iff. eexists (b <| att_version ::= Z.succ |> <| att_state := "running" |> <| att_started := Some t |>).
      split; [unfold attempt_facts; by rewrite <- E1, <- E2|]. apply list_elem_of_In, elem_of_update_where. exists b.
      by rewrite E1, str_eqb_refl. }
  match goal with |- wp env _ _ _ ?c0 => assert (durable c0 = durable c) as Hd by reflexivity; generalize dependent c0 end.
  intros c1 HI1 HT1 Hd. rewrite <- Hd in HD. clear Hd.
  turn (targets reference) keeping_target_request. intros _ c2 HI2 HT2 HD2.
  turn (targets reference) keeping_setst. intros _ c3 HI3 HT3 HD3. cbv zeta.
  turn (targets reference) keeping_appendEvent. intros _ c4 HI4 HT4 HD4. apply wp_bind, wp_get.
  turn (targets reference) (keeping_record reference). intros _ c5 HI5 HT5 HD5.
  turn (targets reference) (keeping_node_event reference (P := targets reference)). intros _ c6 HI6 HT6 HD6. by tx_save HI6.
Qed.

(** ** Settled responses *)
Lemma turning_unknown_target reference reason effect : turning (targets reference) (targets reference) (setAttemptUnknown reference reason effect).
Proof.
  intros env c HI HT. apply wp_setAttemptUnknown; [done|by eapply targets_settled| |done].
  intros c' Hf HI' Hscope _ _ _ _. split_and!; [done..|]. unfold targets. by rewrite Hscope.
Qed.

Theorem transaction_finish_response reference outcome mutate :
  keeping (targets reference) mutate -> transaction_on (has_attempt reference) (finishResponse reference outcome mutate).
Proof.
  intros Hm. unfold finishResponse. apply transaction_on_catch, transaction_on_open. intros env c HD HG Hst HI.
  turn (targets reference) Hm. intros _ c1 HI1 HT1 HD1. apply wp_bind. destruct (bool_decide _).
  - eapply (transaction_turning _ (targets reference) (targets reference)); [apply turning_unknown_target|done..| |done].
    intros _ c2 HI2 _ HD2. by tx_save HI2.
  - apply wp_ret. by tx_save HI1.
Qed.
Theorem transaction_finish_approval reference actor p outcome :
  transaction_on (has_attempt reference) (finishApproval reference actor p outcome).
Proof. apply transaction_finish_response. unfold settle_approval. keeping_tac. Qed.
Theorem transaction_finish_input reference message p outcome :
  transaction_on (has_attempt reference) (finishInput reference message p outcome).
Proof. apply transaction_finish_response. unfold settle_input. keeping_tac. Qed.

(** A steer the adapter answered is still in flight. *)
Definition steering (reference : AttemptRef) (message : string) (db : Db) : Prop := exists c,
  c ∈ control_actions db /\ open_steer c = true /\ act_attempt c = ref_attempt reference /\ default "" (act_message c) = message
  /\ get_string "requestId" (act_payload c) = Some (ref_request reference).

(** The request the message waits for, and its place in the queue. *)
Lemma steering_message node reference message s db m disposition request :
  Inv node s db -> steering reference message db -> steered_message message db = Some (m, disposition, request) ->
  disposition = "steer_pending" ->
  request = ref_request reference /\ msg_request m = Some request
  /\ select1 (fun m => msg_id m =s message) (messages db) = Some m /\ waits m (requests db).
Proof.
  intros HI (c & Hc & Ho & Ha & Hm & Hp) Hrow ->. unfold steered_message in Hrow.
  apply bind_Some in Hrow as (m' & Hs & Hrow). apply bind_Some in Hrow as (d & Hd & Hrow). apply bind_Some in Hrow as (r & Hr & Hrow).
  injection Hrow as -> -> ->. destruct (act_steers _ _ _ _ _ (inv_actions _ _ _ HI) c Hc Ho) as (_ & _ & (x & Hx & Ex & Er & Hw)).
  assert (x = m) as ->.
  { destruct (inv_messages _ _ _ HI) as [Hnd _]. eapply (select1_unique msg_id); [exact Hnd|exact Hs|done|congruence]. }
  split_and!; [congruence|done..|]. by apply Hw.
Qed.

(** A waiting message leaves the queue with its request. *)
Lemma Inv_leave node s db r m f g db' :
  Inv node s db -> r ∈ requests db -> m ∈ messages db -> msg_request m = Some (req_id r) -> req_message r = msg_id m -> queued r = true ->
  (forall r, req_id (f r) = req_id r /\ req_sequence (f r) = req_sequence r /\ queued (f r) = false) ->
  (forall m, msg_id (g m) = msg_id m /\ msg_request (g m) = msg_request m
             /\ msg_disposition (g m) <> Some "queued" /\ msg_disposition (g m) <> Some "steer_pending") ->
  untouched (db <| requests := update_where (fun x => req_id x =s req_id r) f (requests db) |>
                <| messages := update_where (fun x => msg_id x =s msg_id m) g (messages db) |>) db' ->
  Inv node (s <| PendingCount ::= Z.pred |>) db'.
Proof.
  intros HI Hr Hm Ereq Emsg Hq Hf Hg Hun. eapply Inv_untouched; [exact Hun|].
  assert (select1 (fun x => req_id x =s req_id r) (requests db) = Some r) as Hsel
    by (apply select1_key_unique; [by destruct (inv_requests _ _ _ HI)|done|done]).
  assert (forall r', r' ∈ requests db -> req_id r' = req_id r -> queued r' = true -> req_message r' = msg_id m) as Hmsg.
  { intros r' Hr' He _. destruct (inv_requests _ _ _ HI) as [Hnd _ _].
    assert (r' = r) as ->; [|done]. eapply (select1_unique req_id); [exact Hnd|exact Hsel|done|congruence]. }
  destruct HI as [Hident Hnode Hlog Hpending Hrequests Hattempts Hholds Hcommands Hslots Hmessages Hactions Howned].
  constructor; rcbn; try assumption.
  - erewrite count_queued_update; [lia|by destruct Hrequests|exact Hsel|done|apply Hf].
  - apply requests_ok_update; [|done]. intros x. by destruct (Hf x) as (? & ? & _).
  - apply slots_ok_update_request; [intros x; apply Hf|intros x _; apply Hf|done].
  - eapply messages_ok_step; [done|apply update_message_ids; [intros x; apply Hg|by destruct Hmessages]|].
    apply kept_leave; [done|]. intros x. apply Hg.
  - eapply actions_ok_step; [done|apply attempts_kept_refl|by destruct Hactions|].
    apply steers_kept_leave; [done|]. intros x. destruct (Hg x) as (? & ? & _ & ?). by split_and!.
Qed.

(** It waits under another name. *)
Lemma Inv_requeue node s db m g db' :
  Inv node s db -> (forall x, x ∈ messages db -> msg_id x = msg_id m -> waits x (requests db)) ->
  (forall m, msg_id (g m) = msg_id m /\ msg_request (g m) = msg_request m /\ msg_disposition (g m) = Some "queued") ->
  untouched (db <| messages := update_where (fun x => msg_id x =s msg_id m) g (messages db) |>) db' ->
  Inv node s db'.
Proof.
  intros HI Hw Hg Hun. eapply Inv_untouched; [exact Hun|].
  destruct HI as [Hident Hnode Hlog Hpending Hrequests Hattempts Hholds Hcommands Hslots Hmessages Hactions Howned].
  constructor; rcbn; try assumption.
  - eapply messages_ok_step; [done|apply update_message_ids; [intros x; apply Hg|by destruct Hmessages]|].
    apply kept_change. intros x Hx He _. destruct (Hg x) as (? & ? & _). eapply waits_same; [done..|by apply Hw].
  - eapply actions_ok_step; [done|apply attempts_kept_refl|by destruct Hactions|].
    apply steers_kept_change; [|intros x; by destruct (Hg x) as (? & ? & _)].
    intros x Hx He Hd. destruct (Hg x) as (_ & _ & E). congruence.
Qed.

(** The two updates of a steer that took its message. *)
Lemma wp_leave env request message status to (k : M unit) (Q : unit -> Core -> Prop) (E : err -> Core -> Prop) m c :
  Inv (cfg_node env) (st c) (tx c) -> msg_request m = Some request -> m ∈ messages (tx c) -> msg_id m = message -> waits m (requests (tx c)) ->
  (status =s "queued") = false -> Some to <> Some "queued" -> Some to <> Some "steer_pending" ->
  (forall c', Inv (cfg_node env) (st c') (tx c') -> durable c' = durable c -> settled_request request (requests (tx c')) -> wp env k Q E c') ->
  (forall e c', durable c' = durable c -> E e c') ->
  wp env ((setst (fun s => s <| PendingCount ::= Z.pred |>) ;;
           t ← now;
           exec (update_request request (fun r => r <| req_version ::= Z.succ |> <| req_status := status |> <| req_updated := t |>))) ;;
          exec (update_message message (fun m => m <| msg_version ::= Z.succ |> <| msg_disposition := Some to |>)) ;; k) Q E c.
Proof.
  intros HI Hreq Hm Hid (r & Hr & Er & Em & Hq) Hs H1 H2 HQ HE.
  apply wp_bind, wp_bind, wp_setst, wp_bind, wp_now. intros t.
  apply wp_exec; [|by apply HE..]. intros db1 Hu1. apply update_request_frame in Hu1 as (q1 & ->). rcbn.
  apply wp_bind, wp_exec; [|by apply HE..]. intros db2 Hu2. frame_in Hu2. rcbn.
  assert (req_id r = request) as Erq by congruence. apply HQ; rcbn; [|done|].
  - eapply (Inv_leave _ (st c) (tx c) r m) with
      (f := fun r => r <| req_version ::= Z.succ |> <| req_status := status |> <| req_updated := t |>)
      (g := fun m => m <| msg_version ::= Z.succ |> <| msg_disposition := Some to |>); try done.
    rewrite Erq, Hid. by constructor.
  - intros x Hx He. apply elem_of_update_where in Hx as (y & Hy & ->). destruct (req_id y =s request) eqn:Hyr; [done|].
    simplify_bool. congruence.
Qed.

Lemma keeping_queue_event : keeping anything appendQueueEvent.
Proof. unfold appendQueueEvent. keeping_tac. Qed.

(** What follows the two updates. *)
Definition steer_settled (reference : AttemptRef) (m : message_row) (to reason : string) (unknown : bool) : M unit :=
  setst (fun s => s <| QueueVersion ::= Z.succ |> <| StateVersion ::= Z.succ |>) ;;
  appendEvent "message.disposition_changed" (msg_id m) (msg_version m + 1) "" ""
    (MessageDispositionPayload (msg_id m) "steer_pending" to reason) false ;;
  (if unknown then setAttemptUnknown reference "provider_state" "unknown" else mret tt) ;;
  appendQueueEvent ;;
  saveState ;;
  commit.

Lemma wp_steer_settled env reference m to reason unknown c :
  DbInv (cfg_node env) (durable c) -> Inv (cfg_node env) (st c) (tx c) ->
  (unknown = true -> settled_request (ref_request reference) (requests (tx c))) ->
  wp env (steer_settled reference m to reason unknown)
    (fun _ c' => DbInv (cfg_node env) (durable c')) (fun _ c' => DbInv (cfg_node env) (durable c')) c.
Proof.
  intros HD HI Hset. unfold steer_settled, appendQueueEvent. apply wp_bind, wp_setst.
  apply wp_bind, wp_appendEvent; [apply HI| |intros e c' Hd _; rewrite Hd; exact HD].
  intros event row q _ Hlog. match goal with |- wp env _ _ _ ?c0 => assert (Inv (cfg_node env) (st c0) (tx c0)) as HI1 end.
  { destruct HI as [Hident Hnode Hlog0 Hpending Hrequests Hattempts Hholds Hcommands Hslots Hmessages Hactions Howned]. constructor; rcbn; assumption. }
  match goal with |- wp env _ _ _ ?c0 => assert (DbInv (cfg_node env) (durable c0)) as HD1 by exact HD;
    assert (unknown = true -> settled_request (ref_request reference) (requests (tx c0))) as Hset1 by exact Hset; generalize dependent c0 end.
  clear HI HD Hset. intros c1 HI HD Hset. apply wp_bind. destruct unknown.
  - apply wp_setAttemptUnknown; [done|by apply Hset| |intros e c' ->; done].
    intros c2 (Hd & _) HI2 _ _ _ _ _. rewrite <- Hd in HD. clear Hd HI.
    apply wp_bind. eapply (transaction_turning _ anything anything); [apply keeping_queue_event|done..| |done].
    intros _ c3 HI3 _ HD3. by tx_save HI3.
  - apply wp_ret. apply wp_bind. eapply (transaction_turning _ anything anything); [apply keeping_queue_event|done..| |done].
    intros _ c3 HI3 _ HD3. by tx_save HI3.
Qed.

Lemma transaction_steer reference message outcome : transaction_on (steering reference message) (steer_transaction reference message outcome).
Proof.
  unfold steer_transaction. apply transaction_on_open. intros env c HD HG Hst HI.
  apply wp_bind, wp_query_row; [|done..]. intros [[m disposition] request] Hrow.
  destruct (disposition =s "steer_pending") eqn:Hd; cbn [negb]; [|by apply wp_ret]. simplify_bool.
  destruct (steering_message _ _ _ _ _ _ _ _ HI HG Hrow Hd) as (-> & Hreq & Hs & Hw).
  pose proof (select1_Some _ _ _ Hs) as [Hin Hid]. cbv beta in Hid. simplify_bool. subst message.
  assert (forall x, x ∈ messages (tx c) -> msg_id x = msg_id m -> x = m) as Hall.
  { intros x Hx He. destruct (inv_messages _ _ _ HI) as [Hnd _]. eapply (select1_unique msg_id); [exact Hnd|exact Hs|done|done]. }
  destruct outcome; cbn [steer_disposition take_steered_request]; cbv zeta.
  1, 3: eapply wp_leave; [done..| |intros e c' ->; done]; intros c' HI' Hd' Hset; rewrite <- Hd' in HD.
  1: by apply (wp_steer_settled env reference m "applied" "steer_applied" false).
  1: by apply (wp_steer_settled env reference m "unknown" "steer_unknown" true).
  all: apply wp_bind, wp_ret, wp_bind, wp_exec; [|done..]; intros db' Hu; frame_in Hu; rcbn.
  all: apply (wp_steer_settled env reference m "queued" "steer_fallback" false); [done| |done].
  all: eapply (Inv_requeue _ (st c) (tx c) m) with (g := fun m => m <| msg_version ::= Z.succ |> <| msg_disposition := Some "queued" |>); try done.
  all: intros x Hx He; by rewrite (Hall x Hx He).
Qed.

Theorem transaction_finish_steer reference message outcome :
  transaction_on (steering reference message) (finishSteer reference message outcome).
Proof. apply transaction_on_catch, transaction_steer. Qed.

(** ** Startup *)
Theorem transaction_recover_startup : transaction recoverStartup.
Proof.
  unfold recoverStartup. apply transaction_open. intros env c HD Htx Hst HI.
  apply wp_bind, wp_exec; [|done..]. intros db1 Hu. apply update_actions_frame in Hu as (q & ->).
  match goal with |- wp env _ _ _ ?c0 => assert (Inv (cfg_node env) (st c0) (tx c0)) as HI1 end.
  { rcbn. destruct HI as [Hident Hnode Hlog Hpending Hrequests Hattempts Hholds Hcommands Hslots Hmessages Hactions Howned].
    constructor; rcbn; try assumption. by apply actions_ok_move. }
  match goal with |- wp env _ _ _ ?c0 => assert (DbInv (cfg_node env) (durable c0)) as HD1 by exact HD;
    assert (st c0 = node_state (tx c0)) as Hst1 by exact Hst; generalize dependent c0 end.
  clear HI HD Hst Htx c. intros c HI HD Hst. assert (DbInv (cfg_node env) (tx c)) as HX by (unfold DbInv; by rewrite <- Hst).
  apply wp_bind, wp_get. destruct (ActiveAttemptID (st c)) as [active|] eqn:Hs; [|repeat tx_step; rcbn; done].
  apply wp_bind, wp_catch. unfold attempt_by_id, one. apply wp_query_row; [|by intros; apply wp_fail..].
  intros a Ha. apply select1_Some in Ha as [Hin Hid]. simplify_bool.
  destruct (att_state a =s "unknown"); [repeat tx_step; rcbn; done|].
  destruct (negb _); [by apply wp_fail|]. apply wp_bind.
  eapply transaction_turning; [by apply (turning_unknown (attempt_reference (st c) a) (holds_slot (attempt_reference (st c) a)))|done| |done| |done].
  - split; [cbn; by rewrite Hs, Hid|]. by apply attempt_row_targets.
  - intros _ c1 HI1 _ HD1. by tx_save HI1.
Qed.

Theorem transaction_pristine policy : transaction (recoverPristinePolicy policy).
Proof.
  intros env c0 HD0. unfold recoverPristinePolicy. apply wp_bind, wp_ask.
  destruct (policy ≫= _); [|by apply wp_ret]. revert env c0 HD0. apply transaction_open. intros env c HD Htx Hst HI.
  assert (DbInv (cfg_node env) (tx c)) as HX by (by rewrite Htx).
  apply wp_bind, wp_get. destruct (negb _); [repeat tx_step; rcbn; done|].
  apply wp_bind, wp_query; [|done]. destruct (negb _); [repeat tx_step; rcbn; done|].
  turn anything keeping_setst. intros _ c1 HI1 _ HD1.
  apply wp_bind. eapply (transaction_turning _ anything anything); [unfold appendNodeEvent; keeping_tac|done..| |done].
  intros _ c2 HI2 _ HD2. by tx_save HI2.
Qed.

(** ** Reconciliation *)
Section Reconcile.
Context {T : SafeText} (reference : AttemptRef).

Lemma wp_verify_unknown env (Q : unit -> Core -> Prop) E c :
  (holds_slot reference (st c) (tx c) -> Q tt c) -> (forall e, E e c) -> wp env (verifyActiveUnknown (st c) reference) Q E c.
Proof.
  intros HQ HE. unfold verifyActiveUnknown. destruct (is_text _ _) eqn:Hs; cbn [negb]; [|by apply wp_fail].
  apply is_text_Some in Hs. unfold attempt_by_id, one. apply wp_bind, wp_query_row; [|by apply HE..].
  intros a Ha. apply select1_Some in Ha as [Hin _]. destruct (bool_decide _) eqn:Hr; cbn [negb orb]; [|by apply wp_fail].
  destruct (negb _); [by apply wp_fail|]. apply bool_decide_eq_true in Hr. apply wp_ret, HQ. split; [done|].
  rewrite <- Hr. by apply attempt_row_targets.
Qed.

(** An assistant message leaves the slot as it is. *)
Lemma keeping_reconciled_message version message output :
  keeping (in_slot reference "unknown")
    (projectAdapterEvent reference version "unknown" (mkAdapterEvent reference (AssistantMessageEvent message output "complete" None false))).
Proof.
  pose proof (stable_in_slot reference "unknown"). unfold projectAdapterEvent, prepareProjection. cbn [event_kind].
  assert (forall s db, in_slot reference "unknown" s db -> targets reference s db) as HT by apply in_slot_targets.
  keeping_tac; eauto using keeping_record, keeping_limit_marker, keeping_output_stop, keeping_node_event, keeping_message.
Qed.

Lemma keeping_reconciled version result : keeping (in_slot reference "unknown") (ensureReconciledAssistantMessage reference version result).
Proof.
  pose proof (stable_in_slot reference "unknown"). unfold ensureReconciledAssistantMessage. keeping_tac.
  apply keeping_reconciled_message.
Qed.

Lemma transaction_reconcile_locked result : transaction (reconcile_locked reference result).
Proof.
  unfold reconcile_locked. apply transaction_open. intros env c HD Htx Hst HI. apply wp_bind, wp_get, wp_bind.
  apply wp_verify_unknown; [|done]. intros Hslot.
  assert (in_slot reference "unknown" (st c) (tx c)) as Hin by done.
  unfold unresolvedReconciliationEffects. apply wp_bind, wp_bind, wp_query; [apply wp_ret|done].
  destruct (0 <? _); [by apply wp_fail|]. apply wp_bind. apply wp_readonly; [eauto with readonly|intros a|done].
  pose proof (stable_in_slot reference "unknown").
  turn (in_slot reference "unknown") keeping_reconciled. intros _ c1 HI1 HP1 HD1.
  apply wp_bind. eapply transaction_turning; [apply (turning_project reference (att_version a) "unknown")|done..| |done].
  intros [[] ?] c2 HI2 _ HD2; cbn [fst negb]; [|by apply wp_fail]. by tx_save HI2.
Qed.
Theorem transaction_reconcile result : transaction (applyReconciledTerminal reference result).
Proof.
  intros env c HD. unfold applyReconciledTerminal. apply wp_with_publication.
  eapply wp_mono; [by apply (transaction_reconcile_locked result)|..].
  - intros a c' HD'. split; intros; by destruct c'.
  - intros err c' HD' fs. by destruct c'.
Qed.
End Reconcile.
