(* ===== verification/WorkerHistory.v ===== *)
(** * The workers append to the history
    Every transaction of [Observe], [Actions] and [Recovery] extends the
    committed database it found. *)
From stdpp Require Import base tactics list strings gmap pretty.
From Stdlib Require Import ZArith Lia Ascii String.
From S2P Require Import Prelude Json Wire Store Tx Adapter Events Commands Barrier Hold Submit Dispatch Frames Files.
From S2P Require Import TranscriptView Capture Budget Observe Actions Recovery Atomic Append Observing.
Open Scope string_scope.
Open Scope list_scope.
Open Scope Z_scope.
Open Scope harness_scope.

Lemma grows_wp {A} (m : M A) :
  (forall db env c, growing db c -> wp env m (fun _ => growing db) (fun _ => growing db) c) -> grows m.
Proof. intros Hm db env x c H. specialize (Hm db env c H x). by destruct (m env x c) as [[[?|?] ?] ?]. Qed.
Lemma history_catch {A} (m : M A) h : history m -> (forall e, nocommit (h e)) -> history (catch m h).
Proof.
  intros Hm Hh env x c. specialize (Hm env x c). unfold catch.
  destruct (m env x c) as [[[e|a] x'] c']; simpl in Hm; [|done]. destruct e; rewrite ?Hh; done.
Qed.
Lemma history_with_publication {A} (m : M A) : history m -> history (with_publication m).
Proof.
  intros Hm env x c. specialize (Hm env x (c <| created := [] |> <| retained := false |>)). unfold with_publication.
  destruct (m env x _) as [[r x'] c'] eqn:E. cbn in Hm. destruct (_ || _); [done|].
  pose proof (wp_removeArtifactFiles env (created c') (fun _ c1 => durable c1 = durable c') (fun _ c1 => durable c1 = durable c') c'
    (fun _ => eq_refl) (fun _ _ _ => eq_refl) x') as Hw.
  destruct (removeArtifactFiles _ _ _ _) as [[[] ?] ?], r; cbn in *; by rewrite Hw.
Qed.
Lemma grows_one {A} (p : A -> bool) l : grows (one p l).
Proof. unfold one. grows_tac. Qed.
Lemma grows_retain : grows retainForCommit.
Proof. by apply grows_modify. Qed.
#[export] Hint Resolve grows_one grows_retain : grows.

(** ** Observations *)
Lemma grows_record seq attempt p : grows (recordAdapterProjection seq attempt p).
Proof. unfold recordAdapterProjection. grows_tac. Qed.
Lemma grows_assistant_message reference message finish content : grows (assistant_message reference message finish content).
Proof. unfold assistant_message. grows_tac. Qed.
Lemma grows_charge_output attempt bytes : grows (chargeAttemptOutput attempt bytes).
Proof. unfold chargeAttemptOutput, fenced_charge. grows_tac. Qed.
Lemma grows_output_stop reference : grows (scheduleOutputLimitStop reference).
Proof. unfold scheduleOutputLimitStop. grows_tac. Qed.
Lemma grows_transition reference version state kind : grows (transitionWaiting reference version state kind).
Proof. unfold transitionWaiting. grows_tac. Qed.
Lemma grows_unknown reference reason effect : grows (setAttemptUnknown reference reason effect).
Proof. unfold setAttemptUnknown. grows_tac. Qed.
#[export] Hint Resolve grows_record grows_assistant_message grows_charge_output grows_output_stop grows_transition grows_unknown : grows.
Lemma grows_limit_marker reference p : grows (appendAdapterOutputLimitMarker reference p).
Proof. unfold appendAdapterOutputLimitMarker. grows_tac. Qed.
Lemma grows_charge_projection s reference p bytes : grows (charge_projection s reference p bytes).
Proof. unfold charge_projection. grows_tac. Qed.
#[export] Hint Resolve grows_limit_marker grows_charge_projection : grows.
Lemma grows_charge_content reference content p limited : grows (charge_content reference content p limited).
Proof. unfold charge_content, chargeSafeAdapterProjection. grows_tac. Qed.
Lemma grows_settle reference version state type effect payload reason : grows (settle_terminal reference version state type effect payload reason).
Proof. unfold settle_terminal. grows_tac. Qed.
#[export] Hint Resolve grows_charge_content grows_settle : grows.

Section Observe.
Context {T : SafeText}.

Lemma grows_capture reference e : grows (captureAdapterEventSafeText reference e).
Proof.
  apply grows_wp. intros db env c [H1 H2].
  assert (forall arts fs made, growing db (with_capture arts fs made c)) as Hg.
  { intros. destruct c as [D X S ? ? ? ? ? ? ?]. split; [done|]. etrans; [exact H2|]. by constructor. }
  by apply wp_capture.
Qed.
Lemma grows_replay reference e : grows (validateAdapterEventSafeTextReplay reference e).
Proof. apply grows_wp. intros. by apply wp_replay_text. Qed.
Hint Resolve grows_capture grows_replay : grows.
Lemma grows_archive e version suppressed kind : grows (archiveAdapterEvent e version suppressed kind).
Proof. unfold archiveAdapterEvent. grows_tac. Qed.
Hint Resolve grows_archive : grows.
Lemma grows_terminal reference version outcome output usage failure effect :
  grows (prepareTerminalProjection reference version outcome output usage failure effect).
Proof. unfold prepareTerminalProjection. grows_tac. Qed.
Hint Resolve grows_terminal : grows.
Lemma grows_prepare reference version state e : grows (prepareProjection reference version state e).
Proof.
  unfold prepareProjection, prepareWaiting, prepareAssistantMessage, prepareToolStarted, prepareToolOutput, prepareToolCompleted,
    prepareApproval, chargeAdapterProjection, prepareInput.
  grows_tac.
Qed.
Hint Resolve grows_prepare : grows.
Lemma grows_project reference version state e : grows (projectAdapterEvent reference version state e).
Proof. unfold projectAdapterEvent. grows_tac. Qed.
Hint Resolve grows_project : grows.
Lemma history_observe expected e : history (ObserveAdapterEvent expected e).
Proof.
  unfold ObserveAdapterEvent. destruct (negb _); [apply history_nocommit; nocommit_tac|].
  apply history_with_publication. unfold observe_locked. history_tac.
Qed.

Lemma grows_reconciled reference version result : grows (ensureReconciledAssistantMessage reference version result).
Proof. unfold ensureReconciledAssistantMessage. grows_tac. Qed.
Hint Resolve grows_reconciled : grows.
Lemma history_reconcile reference result : history (applyReconciledTerminal reference result).
Proof.
  apply history_with_publication. unfold reconcile_locked, verifyActiveUnknown, unresolvedReconciliationEffects. history_tac.
Qed.
End Observe.

Lemma grows_archive_late o version dialog : grows (archiveLateObservation o version dialog).
Proof. unfold archiveLateObservation. grows_tac. Qed.
Lemma grows_apply_terminal reference version o : grows (applyTerminal reference version o).
Proof. unfold applyTerminal. grows_tac. Qed.
#[export] Hint Resolve grows_archive_late grows_apply_terminal : grows.
Lemma history_observe_attempt o : history (ObserveAttempt o).
Proof. unfold ObserveAttempt. history_tac. Qed.
Lemma nocommit_dropped e : nocommit ((fun _ : err => mret tt) e).
Proof. nocommit_tac. Qed.
Lemma history_mark_unknown reference reason effect : history (markAttemptUnknown reference reason effect).
Proof. apply history_catch; [history_tac|apply nocommit_dropped]. Qed.

(** ** Actions *)
Lemma history_claim adapter l : history (claimAction adapter l).
Proof.
  unfold claimAction, move_action. destruct (match l with DispatchLane => _ | _ => _ end); [apply history_nocommit; nocommit_tac|].
  apply history_catch; [history_tac|intros; nocommit_tac].
Qed.
Lemma history_finish command status : history (finishAction command status).
Proof. unfold finishAction, move_action. apply history_catch; [history_tac|apply nocommit_dropped]. Qed.
Lemma history_requeue command : history (requeueAction command).
Proof. unfold requeueAction, move_action. apply history_catch; [history_tac|apply nocommit_dropped]. Qed.
Lemma history_mark_started reference : history (markStarted reference).
Proof. unfold markStarted. history_tac. Qed.
Lemma history_finish_steer reference message outcome : history (finishSteer reference message outcome).
Proof.
  apply history_catch; [|apply nocommit_dropped]. unfold steer_transaction, take_steered_request. history_tac.
Qed.
Lemma history_finish_approval reference actor p outcome : history (finishApproval reference actor p outcome).
Proof. apply history_catch; [|apply nocommit_dropped]. unfold settle_approval. history_tac. Qed.
Lemma history_finish_input reference message p outcome : history (finishInput reference message p outcome).
Proof. apply history_catch; [|apply nocommit_dropped]. unfold settle_input. history_tac. Qed.

(** ** Startup *)
Lemma history_recover_startup : history recoverStartup.
Proof. unfold recoverStartup. history_tac. Qed.
Lemma history_pristine policy : history (recoverPristinePolicy policy).
Proof. unfold recoverPristinePolicy. history_tac. Qed.
