(* ===== verification/Replicas.v ===== *)
(** * The replica streams stay well formed
    [replica_ok]: the records of a stream are, in the order they were stored, a
    chain that [ValidatePage] would accept from its genesis, numbered from one
    and with ids of their own; the stream's next number is the one after the
    last.  [exports]: a computation of the export changes the replica tables
    only, appends to them, and keeps them well formed. *)
From stdpp Require Import base tactics list strings gmap pretty.
From Stdlib Require Import ZArith Lia Ascii String.
From S2P Require Import Prelude Json Parse Wire Store Tx Adapter Events Commands Barrier Hold Submit TranscriptView TranscriptFacts Read Replay.
From S2P Require Import Paging PagingFacts Pages Frames Files SafeText Capture SafeTextStore HistoryReplica HistoryExport Atomic Invariant.
Open Scope string_scope.
Open Scope list_scope.
Open Scope Z_scope.
Open Scope harness_scope.

(** ** Chains *)
Definition chain_tip (genesis : string) (l : list ReplicaRecord) : string := match last l with Some r => rec_chain r | None => genesis end.

Lemma chain_tip_cons g r l : chain_tip g (r :: l) = chain_tip (rec_chain r) l.
Proof. unfold chain_tip. rewrite last_cons. by destruct (last l). Qed.
Lemma chain_tip_snoc g l r : chain_tip g (l ++ [r]) = rec_chain r.
Proof. unfold chain_tip. by rewrite last_snoc. Qed.

Section Chains.
Variable hash : string -> string.

Lemma valid_chain_app id seq prev l k :
  valid_chain hash id seq prev (l ++ k)
  = valid_chain hash id seq prev l && valid_chain hash id (seq + Z.of_nat (List.length l)) (chain_tip prev l) k.
Proof using.
  revert seq prev. induction l as [|r l IH]; intros seq prev; [by rewrite Z.add_0_r|].
  cbn [app valid_chain List.length]. rewrite IH, chain_tip_cons, !andb_assoc. do 2 f_equal. lia.
Qed.
Lemma valid_chain_seq id seq prev l i r : valid_chain hash id seq prev l = true -> l !! i = Some r -> rec_seq r = seq + Z.of_nat i.
Proof using.
  revert seq prev i. induction l as [|x l IH]; intros seq prev i; [done|]. cbn [valid_chain]. intros H Hi. simplify_bool.
  destruct i as [|i]; [injection Hi as ->; lia|]. cbn in Hi. erewrite IH by eassumption. lia.
Qed.
Lemma valid_chain_drop id seq prev l n : valid_chain hash id seq prev l = true ->
  valid_chain hash id (seq + Z.of_nat (List.length (take n l))) (chain_tip prev (take n l)) (drop n l) = true.
Proof using. rewrite <- (take_drop n l) at 1. rewrite valid_chain_app. by intros [_ H]%andb_true_iff. Qed.
Lemma valid_chain_take id seq prev l n : valid_chain hash id seq prev l = true -> valid_chain hash id seq prev (take n l) = true.
Proof using. rewrite <- (take_drop n l) at 1. rewrite valid_chain_app. by intros [H _]%andb_true_iff. Qed.
End Chains.

(** ** The tables *)
Definition stored_rows (id : string) (db : Db) : list replica_record_row := List.filter (fun r => rrr_stream r =s id) (replica_records db).
Definition stored_as (id : string) (row : replica_record_row) (r : ReplicaRecord) : Prop := row = replica_row id r (rrr_created row).

Record stream_ok (hash : string -> string) (db : Db) (s : replica_stream_row) : Prop := {
  so_chain : exists rs, Forall2 (stored_as (rst_id s)) (stored_rows (rst_id s) db) rs
               /\ valid_chain hash (rst_id s) 1 (ChainGenesis hash (rst_id s)) rs = true
               /\ rst_next s = Z.of_nat (List.length rs) + 1
               /\ NoDup (List.map rec_id rs) }.
Record replica_ok (hash : string -> string) (db : Db) : Prop := {
  ro_streams : NoDup (List.map rst_id (replica_streams db));
  ro_owned : forall row, row ∈ replica_records db -> exists s, s ∈ replica_streams db /\ rst_id s = rrr_stream row;
  ro_chains : forall s, s ∈ replica_streams db -> stream_ok hash db s }.

Lemma stored_rows_length hash db s rs : Forall2 (stored_as (rst_id s)) (stored_rows (rst_id s) db) rs ->
  valid_chain hash (rst_id s) 1 (ChainGenesis hash (rst_id s)) rs = true ->
  Forall2 (fun row r => rrr_seq row = rec_seq r /\ rrr_chain row = rec_chain r /\ rrr_record row = rec_id r /\ rrr_json row = ReplicaRecord_json r)
    (stored_rows (rst_id s) db) rs.
Proof. intros H _. eapply Forall2_impl; [exact H|]. intros row r ->. done. Qed.

(** Stored rows are in the order of their numbers. *)
Lemma sort_by_ordered {R} (key : R -> Z) l : (forall i j x y, l !! i = Some x -> l !! j = Some y -> (i < j)%nat -> key x <= key y) -> sort_by key l = l.
Proof.
  induction l as [|x l IH]; intros H; [done|]. cbn [sort_by]. rewrite IH.
  - destruct l as [|y l]; [done|]. cbn [insert_by]. assert (key x <= key y) as Hle by (apply (H 0%nat 1%nat); [done..|lia]).
    by apply Z.leb_le in Hle as ->.
  - intros i j a b Hi Hj Hij. apply (H (S i) (S j)); [done..|lia].
Qed.
Lemma stream_rows_stored hash db s : stream_ok hash db s -> stream_rows (rst_id s) db = stored_rows (rst_id s) db.
Proof.
  intros [(rs & Hf & Hc & _)]. apply sort_by_ordered. intros i j x y Hi Hj Hij.
  destruct (Forall2_lookup_l _ _ _ _ _ Hf Hi) as (r & Hr & ->). destruct (Forall2_lookup_l _ _ _ _ _ Hf Hj) as (r' & Hr' & ->).
  unfold replica_row. cbn [rrr_seq]. rewrite (valid_chain_seq _ _ _ _ _ _ _ Hc Hr), (valid_chain_seq _ _ _ _ _ _ _ Hc Hr'). lia.
Qed.

Ltac record_member :=
  eapply decode_next; [vm_compute; reflexivity
                      |cbn [set_record String.eqb Ascii.eqb Bool.eqb]; rewrite ?into_int_JInt by lia; reflexivity
                      |lazymatch goal with |- decode_members ?f ?m ?r = ?res => let r' := eval cbv in r in change (decode_members f m r' = res) end].
(** A row that went through the column and back. *)
Lemma replica_record_roundtrip r : rec_payload r <> None -> int64 (rec_seq r) -> int64 (rec_revision r) ->
  ReplicaRecord_of_json (ReplicaRecord_json r) = Some r.
Proof.
  intros Hp Hs Hv. destruct r as [seq type id entity revision [payload|] h prev chain]; [|done]. cbn [rec_seq rec_revision rec_payload] in *.
  unfold int64 in *. unfold ReplicaRecord_of_json, ReplicaRecord_json, into_struct, raw_json.
  cbv iota. cbn [rec_seq rec_type rec_id rec_entity rec_revision rec_payload rec_hash rec_prev rec_chain default].
  do 9 record_member. reflexivity.
Qed.
Lemma validateRecordCore_payload hash r : validateRecordCore hash r = true -> rec_payload r <> None.
Proof. unfold validateRecordCore. intros H E. rewrite E in H. simplify_bool. done. Qed.
Lemma valid_record_reads hash id r : validateRecord hash id r = true -> ReplicaRecord_of_json (ReplicaRecord_json r) = Some r.
Proof.
  unfold validateRecord. intros H. simplify_bool. rename select (validateRecordCore _ _ = true) into Hc.
  pose proof (validateRecordCore_payload _ _ Hc) as Hp. unfold validateRecordCore in Hc. simplify_bool.
  unfold MaximumSafeInteger in *. apply replica_record_roundtrip; [done|unfold int64, int64_max; lia..].
Qed.
Lemma valid_chain_records hash id seq prev l r : valid_chain hash id seq prev l = true -> r ∈ l -> validateRecord hash id r = true.
Proof.
  revert seq prev. induction l as [|x l IH]; intros seq prev H Hr; [by apply elem_of_nil in Hr|]. cbn [valid_chain] in H. simplify_bool.
  apply elem_of_cons in Hr as [->|Hr]; [done|by eapply IH].
Qed.

(** ** Sealing *)
Definition sha64 (hash : string -> string) : Prop := forall s, sha256Pattern (hash s) = true.

Lemma core_of_sealed hash r seq prev chain :
  validateRecordCore hash (r <| rec_seq := seq |> <| rec_prev := prev |> <| rec_chain := chain |>) = validateRecordCore hash r.
Proof. by destruct r. Qed.
Lemma seal_valid hash r id n prev s : sha64 hash -> SealRecord hash r id n prev = Some s ->
  validateRecord hash id s = true /\ rec_seq s = n /\ rec_prev s = prev /\ rec_id s = rec_id r /\ rec_hash s = rec_hash r.
Proof.
  intros H64 H. unfold SealRecord in H. destruct (negb _ || _ || _ || _ || _) eqn:E; [done|]. simplify_bool. apply Some_inj in H. subst s.
  split; [|by destruct r]. unfold validateRecord. rewrite core_of_sealed.
  rename select (validateRecordCore hash r = true) into Hc. rewrite Hc.
  destruct r as [q ty i e v p h pr ch]. unfold field_upd. cbn [rec_seq rec_prev rec_chain rec_hash]. unfold chain_hash. rewrite H64, str_eqb_refl.
  rename select (sha256Pattern prev = true) into Hp. rewrite Hp. by rewrite !andb_true_r, andb_true_l, andb_true_iff, !Z.leb_le.
Qed.

(** The chain hash of the last record, as the append looks it up. *)
Lemma select1_filter {R} (p q : R -> bool) l : select1 (fun r => p r && q r) l = select1 q (List.filter p l).
Proof. induction l as [|r l IH]; [done|]. simpl. destruct (p r); simpl; [by destruct (q r)|done]. Qed.
Lemma chain_at_spec hash db id rs : Forall2 (stored_as id) (stored_rows id db) rs ->
  valid_chain hash id 1 (ChainGenesis hash id) rs = true -> rs <> [] ->
  chain_at id (Z.of_nat (List.length rs)) db = Some (chain_tip (ChainGenesis hash id) rs).
Proof.
  intros Hf Hc Hne. unfold chain_at. rewrite select1_filter. fold (stored_rows id db).
  destruct rs as [|r rs _] using rev_ind; [done|]. apply Forall2_app_inv_r in Hf as (rows & last & Hrows & Hlast & ->).
  apply Forall2_cons_inv_r in Hlast as (row & rest & Hrow & Hnil & ->). apply Forall2_nil_inv_r in Hnil as ->.
  rewrite select1_app, chain_tip_snoc.
  destruct (select1 _ rows) as [x|] eqn:Ex.
  - apply select1_Some in Ex as [Hx Hs]. apply list_elem_of_lookup_1 in Hx as (i & Hi). simplify_bool.
    destruct (Forall2_lookup_l _ _ _ _ _ Hrows Hi) as (y & Hy & Heq). rewrite Heq in Hs. cbn [rrr_seq replica_row] in Hs.
    assert ((rs ++ [r]) !! i = Some y) as Hy' by by apply lookup_app_l_Some. apply (valid_chain_seq _ _ _ _ _ _ _ Hc) in Hy'.
    rewrite Hy' in Hs. apply lookup_lt_Some in Hy. rewrite length_app in Hs. cbn [List.length] in Hs. lia.
  - cbn [select1 List.find]. assert ((rs ++ [r]) !! (List.length rs) = Some r) as Hr by by apply list_lookup_middle.
    apply (valid_chain_seq _ _ _ _ _ _ _ Hc) in Hr. rewrite Hrow. cbn [rrr_seq replica_row]. rewrite Hr, length_app. cbn [List.length].
    replace (_ =? _) with true by (symmetry; apply Z.eqb_eq; lia). by rewrite Hrow.
Qed.

(** ** The append, on the tables *)
Definition with_record (id : string) (next : Z) (row : replica_record_row) (db : Db) : Db :=
  db <| replica_records ::= fun l => l ++ [row] |>
     <| replica_streams ::= update_where (fun s => (rst_id s =s id) && (rst_next s =? next)) (fun s => s <| rst_next ::= Z.succ |>) |>.
Lemma stored_rows_other id id' next row db : rrr_stream row = id -> id' <> id -> stored_rows id' (with_record id next row db) = stored_rows id' db.
Proof.
  intros Hr Hne. unfold stored_rows, with_record. cbn. rewrite List.filter_app. cbn. rewrite Hr.
  destruct (String.eqb_spec id id') as [->|_]; [done|]. by rewrite app_nil_r.
Qed.
Lemma stored_rows_same id next row db : rrr_stream row = id -> stored_rows id (with_record id next row db) = stored_rows id db ++ [row].
Proof. intros Hr. unfold stored_rows, with_record. cbn. rewrite List.filter_app. cbn. by rewrite Hr, str_eqb_refl. Qed.

Lemma stream_unique db s t : NoDup (List.map rst_id (replica_streams db)) -> s ∈ replica_streams db -> t ∈ replica_streams db ->
  rst_id t = rst_id s -> t = s.
Proof. intros Hnd Hs Ht E. eapply (select1_unique rst_id _ (rst_id s)); [done|by apply select1_key_unique|done|done]. Qed.
Lemma append_keeps_ok hash db s r sealed created previous :
  sha64 hash -> replica_ok hash db -> s ∈ replica_streams db ->
  (if 1 <? rst_next s then chain_at (rst_id s) (rst_next s - 1) db else Some (ChainGenesis hash (rst_id s))) = Some previous ->
  exists_where (fun row => (rrr_stream row =s rst_id s) && (rrr_record row =s rec_id r)) (replica_records db) = false ->
  SealRecord hash r (rst_id s) (rst_next s) previous = Some sealed ->
  replica_ok hash (with_record (rst_id s) (rst_next s) (replica_row (rst_id s) sealed created) db).
Proof.
  intros H64 [Hnd Hown Hch] Hs Hprev Hnew Hseal. destruct (Hch s Hs) as [(rs & Hf & Hc & Hnext & Hids)].
  destruct (seal_valid _ _ _ _ _ _ H64 Hseal) as (Hval & Hseq & Hpr & Hid & _).
  assert (previous = chain_tip (ChainGenesis hash (rst_id s)) rs) as ->.
  { destruct rs as [|x rs]; [rewrite Hnext in Hprev; by injection Hprev as <-|].
    rewrite Hnext in Hprev. destruct (Z.ltb_spec 1 (Z.of_nat (List.length (x :: rs)) + 1)); [|cbn [List.length] in *; lia].
    rewrite Z.add_simpl_r in Hprev. rewrite (chain_at_spec hash _ _ (x :: rs)) in Hprev by done. by injection Hprev. }
  set (row := replica_row _ _ _). set (db' := with_record _ _ _ _).
  assert (forall t, t ∈ replica_streams db' -> exists t0, t0 ∈ replica_streams db /\ rst_id t = rst_id t0
            /\ rst_next t = if rst_id t0 =s rst_id s then Z.succ (rst_next t0) else rst_next t0) as Hstreams.
  { intros t Ht. apply elem_of_update_where in Ht as (t0 & Ht0 & ->). exists t0. split; [done|].
    destruct (rst_id t0 =s rst_id s) eqn:E; cbn [andb]; [|done]. simplify_bool.
    assert (t0 = s) as -> by by eapply stream_unique. by rewrite Z.eqb_refl. }
  constructor.
  - unfold db', with_record. cbn [replica_streams field_upd]. rewrite map_update_where; [done|]. by intros [].
  - intros x Hx. unfold db', with_record in Hx. cbn in Hx. assert (exists t, t ∈ replica_streams db /\ rst_id t = rrr_stream x) as (t & Ht & Hi).
    { apply elem_of_app in Hx as [Hx|Hx]; [by apply Hown|]. apply list_elem_of_singleton in Hx as ->. by exists s. }
    exists (if (rst_id t =s rst_id s) && (rst_next t =? rst_next s) then t <| rst_next ::= Z.succ |> else t).
    split; [apply elem_of_update_where; by exists t|]. by destruct (_ && _).
  - intros t Ht. destruct (Hstreams t Ht) as (t0 & Ht0 & E1 & E2). constructor. destruct (rst_id t0 =s rst_id s) eqn:E; simplify_bool.
    + assert (t0 = s) as -> by by eapply stream_unique. exists (rs ++ [sealed]). rewrite E1, E2.
      unfold db'. rewrite stored_rows_same by done. split_and!.
      * apply Forall2_app; [done|]. by repeat constructor.
      * rewrite valid_chain_app, Hc. cbn [valid_chain]. rewrite Hval, Hpr, str_eqb_refl, Hseq, Hnext.
        replace (_ =? _) with true by (symmetry; apply Z.eqb_eq; lia). done.
      * rewrite length_app. cbn [List.length]. lia.
      * apply NoDup_snoc_key; [done|]. rewrite Hid. apply exists_where_false. intros y Hy. apply list_elem_of_lookup_1 in Hy as (k & Hk).
        destruct (Forall2_lookup_r _ _ _ _ _ Hf Hk) as (z & Hz & Heq). apply list_elem_of_lookup_2 in Hz. unfold stored_rows in Hz.
        apply list_elem_of_In, List.filter_In in Hz as [Hz _]. rewrite exists_where_false in Hnew. apply list_elem_of_In in Hz.
        specialize (Hnew z Hz). rewrite Heq in Hnew. cbn [rrr_stream rrr_record replica_row] in Hnew. rewrite str_eqb_refl in Hnew. exact Hnew.
    + destruct (Hch t0 Ht0) as [(rs0 & F0 & C0 & N0 & I0)]. exists rs0. rewrite E1, E2. unfold db'. by rewrite stored_rows_other.
Qed.
Lemma open_keeps_ok hash row db db' : rst_next row = 1 -> insert_replica_stream row db = Some db' -> replica_ok hash db -> replica_ok hash db'.
Proof.
  intros Hnext H [Hnd Hown Hch]. unfold insert_replica_stream in H. destruct (guard _ db); [|done]. cbn [mbind option_bind] in H.
  destruct (exists_where (fun s => rst_id s =s rst_id row) _) eqn:Hnew; [by injection H as <-|].
  unfold guard in H. destruct (negb _); [|done]. injection H as <-. rewrite exists_where_false in Hnew.
  constructor; cbn [replica_streams replica_records field_upd].
  - apply NoDup_snoc_key; [done|]. by apply exists_where_false.
  - intros x Hx. destruct (Hown x Hx) as (s & Hs & E). exists s. split; [|done]. apply elem_of_app. by left.
  - intros s Hs. apply elem_of_app in Hs as [Hs|Hs]; [by destruct (Hch s Hs)|]. apply list_elem_of_singleton in Hs as ->.
    constructor. exists []. split_and!; [|done|by rewrite Hnext|by apply NoDup_nil_2].
    replace (stored_rows _ _) with (@nil replica_record_row); [by constructor|]. symmetry. apply exists_where_filter, exists_where_false. intros x Hx.
    destruct (Hown x Hx) as (s & Hs & E). rewrite <- E. by apply Hnew.
Qed.
Lemma update_keeps_ok hash id version queue complete reason hashes captured db db' :
  update_replica_stream id version queue complete reason hashes captured db = Some db' -> replica_ok hash db -> replica_ok hash db'.
Proof.
  intros H [Hnd Hown Hch]. unfold update_replica_stream, guard in H. destruct (forallb _ _); [|done]. injection H as <-.
  constructor; cbn [replica_streams replica_records field_upd].
  - rewrite map_update_where; [done|]. by intros [].
  - intros x Hx. destruct (Hown x Hx) as (s & Hs & E). eexists. split; [apply elem_of_update_where; by exists s|].
    cbn beta. by destruct (rst_id s =s id).
  - intros s Hs. apply elem_of_update_where in Hs as (s0 & Hs0 & ->). destruct (Hch s0 Hs0) as [(rs & F & C & N & I)].
    destruct (rst_id s0 =s id); constructor; by exists rs.
Qed.

(** ** Computations of the export *)
Record replicated (hash : string -> string) (db db' : Db) : Prop := {
  rp_only : db' = db <| replica_streams := replica_streams db' |> <| replica_records := replica_records db' |>;
  rp_records : replica_records db `prefix_of` replica_records db';
  rp_ok : sha64 hash -> replica_ok hash db -> replica_ok hash db' }.
#[export] Instance replicated_preorder hash : PreOrder (replicated hash).
Proof.
  split.
  - intros []. by constructor.
  - intros a b c [H1 P1 O1] [H2 P2 O2]. constructor; [rewrite H2, H1; reflexivity|by etrans|auto].
Qed.
Lemma replicated_intro hash db ss rs : replica_records db `prefix_of` rs ->
  (sha64 hash -> replica_ok hash db -> replica_ok hash (db <| replica_streams := ss |> <| replica_records := rs |>)) ->
  replicated hash db (db <| replica_streams := ss |> <| replica_records := rs |>).
Proof. intros H1 H2. by constructor. Qed.

Definition stays (c c' : Core) : Prop := c' = c <| tx := tx c' |>.
Lemma stays_trans a b c : stays a b -> stays b c -> stays a c.
Proof. unfold stays. intros -> ->. reflexivity. Qed.

(** What a computation establishes, of its result and the database it leaves,
    and what lasts of it while the export goes on. *)
Definition outcome (A : Type) := (string -> string) -> A -> Db -> Prop.
Definition lasting {A} (P : outcome A) : Prop := forall hash a db db', replicated hash db db' -> P hash a db -> P hash a db'.
Definition exports {A} (P : outcome A) (m : M A) : Prop := forall env c,
  wp env m (fun a c' => stays c c' /\ replicated (sha256_hex env) (tx c) (tx c') /\ P (sha256_hex env) a (tx c'))
           (fun e c' => is_return e = false /\ stays c c') c.
Definition no_claim {A} : outcome A := fun _ _ _ => True.

Lemma exports_weaken {A} (P P' : outcome A) m : exports P m -> (forall hash a db, P hash a db -> P' hash a db) -> exports P' m.
Proof. intros Hm HP env c. eapply wp_mono; [apply Hm|..]; cbn beta; [|done]. intros a c' (H1 & H2 & H3). auto. Qed.
Section Exports.
Context {A B : Type}.
Implicit Types (m : M A) (P : outcome A) (Q : outcome B).

Lemma exports_bind P (Q : A -> outcome B) m (k : A -> M B) : lasting P -> exports P m -> (forall a, exports (Q a) (k a)) ->
  exports (fun hash b db => exists a, P hash a db /\ Q a hash b db) (m ≫= k).
Proof using.
  intros HP Hm Hk env c. apply wp_bind. eapply wp_mono; [apply Hm| |done]. cbn beta. intros a c1 (S1 & R1 & P1).
  eapply wp_mono; [apply Hk|..]; cbn beta.
  - intros b c2 (S2 & R2 & Q2). split_and!; [by eapply stays_trans|by etrans|]. exists a. split; [by eapply HP|done].
  - intros e c2 [He S2]. split; [done|by eapply stays_trans].
Qed.
Lemma exports_then Q m (k : A -> M B) : exports no_claim m -> (forall a, exports Q (k a)) -> exports Q (m ≫= k).
Proof using.
  intros Hm Hk. apply (exports_weaken (fun hash b db => exists a : A, no_claim hash a db /\ Q hash b db)); [|by intros hash b db (a & _ & H)].
  by apply (exports_bind no_claim (fun _ => Q)).
Qed.
Lemma exports_ret P a : (forall hash db, P hash a db) -> exports P (mret a).
Proof using. intros H env c. apply wp_ret. split; [by destruct c|]. split; [reflexivity|apply H]. Qed.
Lemma exports_fail P e : is_return e = false -> exports P (fail (A := A) e).
Proof using. intros He env c. apply wp_fail. split; [done|by destruct c]. Qed.
Lemma exports_broken P what : exports P (fail (A := A) (Broken what)).
Proof using. by apply exports_fail. Qed.
Lemma exports_confined m : confined eq m -> exports no_claim m.
Proof using.
  intros H env c. eapply confined_wp; [exact H|..].
  - intros a c' <-. split; [by destruct c|]. by split.
  - intros e c' He <-. split; [done|by destruct c].
Qed.
End Exports.

(** A query of tables the export does not write answers the same at its end. *)
Definition settled_view {A} (f : Db -> A) : Prop :=
  forall db ss rs, f (db <| replica_streams := ss |> <| replica_records := rs |>) = f db.
Lemma settled_replicated {A} (f : Db -> A) hash db db' : settled_view f -> replicated hash db db' -> f db' = f db.
Proof. intros Hf [-> _ _]. apply Hf. Qed.
Lemma lasting_view {A} (f : Db -> A) : settled_view f -> lasting (fun _ a db => a = f db).
Proof. intros Hf hash a db db' H ->. symmetry. by eapply settled_replicated. Qed.
Lemma exports_query {A} (f : Db -> A) : exports (fun _ a db => a = f db) (query f).
Proof. intros env c. apply wp_query; [by split_and!; [destruct c| |]|split; [done|by destruct c]]. Qed.
Lemma exports_query_row {A} (f : Db -> option A) : exports (fun _ a db => f db = Some a) (query_row f).
Proof. intros env c. apply wp_query_row; [intros a Ha; by split_and!; [destruct c| |]|by split; [|destruct c]..]. Qed.
Lemma exports_ask : exports (fun hash h _ => h = hash) (ask sha256_hex).
Proof. intros env c. apply wp_ask. by split_and!; [destruct c| |]. Qed.
Lemma exports_now : exports no_claim now.
Proof. intros env c. apply wp_now. intros t. by split_and!; [destruct c| |]. Qed.
Lemma exports_or_broken {A} (o : option A) what : exports (fun _ a _ => o = Some a) (or_broken o what).
Proof. destruct o as [a|]; [by apply exports_ret|by apply exports_broken]. Qed.

(** ** [appendReplicaRecord] *)
(** The stream has the row of a record; it says the same up to a collision of
    the hash. *)
Definition holds_record (streamID : string) (r : ReplicaRecord) (db : Db) : Prop := exists row,
  row ∈ replica_records db /\ rrr_stream row = streamID /\ rrr_record row = rec_id r
  /\ rec_hash <$> ReplicaRecord_of_json (rrr_json row) = Some (rec_hash r).
Lemma lasting_holds streamID r : lasting (A := ReplicaRecord) (fun _ _ => holds_record streamID r).
Proof.
  intros hash a db db' H (row & Hin & Hr). exists row. split; [|done]. destruct (rp_records _ _ _ H) as [k ->]. apply elem_of_app. by left.
Qed.

Lemma seal_reads hash r id n prev s : SealRecord hash r id n prev = Some s ->
  ReplicaRecord_of_json (ReplicaRecord_json s) = Some s /\ rec_id s = rec_id r /\ rec_hash s = rec_hash r.
Proof.
  intros H. unfold SealRecord in H. destruct (negb _ || _ || _ || _ || _) eqn:E; [done|]. simplify_bool. apply Some_inj in H. subst s.
  split; [|by destruct r]. rename select (validateRecordCore hash r = true) into Hc. pose proof (validateRecordCore_payload _ _ Hc) as Hp.
  unfold validateRecordCore in Hc. simplify_bool. unfold MaximumSafeInteger in *. destruct r.
  apply replica_record_roundtrip; [done|unfold int64, int64_max; cbn in *; lia..].
Qed.
Lemma stays_refl c : stays c c.
Proof. by destruct c. Qed.
#[export] Hint Resolve stays_refl : harness.
Ltac stay := split; [done|by auto with harness].

(** A value that is looked up or known. *)
Lemma wp_if_row {A} env c (b : bool) (f : Db -> option A) (a : A) :
  wp env (if b then query_row f else mret a) (fun x c' => c' = c /\ (if b then f (tx c) else Some a) = Some x)
    (fun e c' => is_return e = false /\ c' = c) c.
Proof. destruct b; [apply wp_query_row; auto|by apply wp_ret]. Qed.
Lemma exports_append streamID r created : exports (fun _ _ => holds_record streamID r) (appendReplicaRecord streamID r created).
Proof.
  intros env c. unfold appendReplicaRecord. apply wp_bind, wp_ask, wp_bind, wp_query; [|stay].
  destruct (rrr_json <$> _) as [raw|] eqn:Estored.
  - destruct (ReplicaRecord_of_json raw) as [existing|] eqn:Eraw; [|apply wp_fail; stay].
    destruct (rec_hash existing =s rec_hash r) eqn:Eh; [|apply wp_fail; stay]. apply wp_ret. split_and!; [by auto with harness|done|].
    apply fmap_Some in Estored as (row & Hrow & ->). apply select1_Some in Hrow as [Hin Hr]. simplify_bool.
    exists row. split_and!; [done..|]. rewrite Eraw. cbn. by f_equal.
  - apply fmap_None in Estored. assert (exists_where (fun row => (rrr_stream row =s streamID) && (rrr_record row =s rec_id r)) (replica_records (tx c)) = false) as Hnew
      by (apply exists_where_false; intros y Hy; exact (select1_None _ _ Estored y Hy)).
    apply wp_bind, wp_query_row; [|stay..]. intros next Hnext. apply fmap_Some in Hnext as (s & Hs & ->).
    apply select1_Some in Hs as [Hs Hid]. simplify_bool. subst streamID.
    apply wp_bind. eapply wp_mono.
    { apply (wp_if_row env c (1 <? rst_next s) (chain_at (rst_id s) (rst_next s - 1)) (ChainGenesis (sha256_hex env) (rst_id s))). }
    2: { intros e c' [He ->]. stay. }
    intros previous c' [-> Hprev]. apply wp_bind. unfold or_broken. destruct (SealRecord _ r _ _ _) as [sealed|] eqn:Eseal; [|apply wp_fail; stay].
    apply wp_ret, wp_bind, wp_exec; [|stay..]. intros db1 H1. apply wp_bind, wp_exec_changed; [|by split; [|destruct c]..].
    intros n db2 H2. cbn [tx] in H2. destruct (n =? 1); [|apply wp_fail; by split; [|destruct c]].
    unfold insert_replica_record, guard in H1. destruct (_ && _); [|done]. apply Some_inj in H1. subst db1.
    unfold advance_replica_stream in H2. injection H2 as _ <-. apply wp_ret.
    split_and!; [by destruct c|..].
    + match goal with |- replicated _ _ ?d => change d with (with_record (rst_id s) (rst_next s) (replica_row (rst_id s) sealed created) (tx c)) end.
      constructor; [reflexivity|by apply prefix_app_r|]. intros H64 Hok. by eapply append_keeps_ok.
    + destruct (seal_reads _ _ _ _ _ _ Eseal) as (E1 & E2 & E3). exists (replica_row (rst_id s) sealed created).
      split_and!; [apply elem_of_app; right; by apply list_elem_of_singleton|done|done|]. cbn [rrr_json replica_row]. rewrite E1. cbn. by rewrite E3.
Qed.

(** ** The materializers *)
Section Materialize.
Variables (i : StreamIdentity) (streamID stamp : string).

Definition in_stream (recordType recordID entityID : string) (revision : Z) (payload : json) (hash : string -> string) (db : Db) : Prop :=
  exists r, NewRecord hash recordType recordID entityID revision payload = Some r /\ holds_record streamID r db.
Lemma in_stream_replicated ty id en rev p hash db db' : replicated hash db db' -> in_stream ty id en rev p hash db -> in_stream ty id en rev p hash db'.
Proof using. intros H (r & Hr & Hh). exists r. split; [done|]. exact (lasting_holds streamID r hash r db db' H Hh). Qed.

Lemma exports_append_new ty id en rev p : exports (fun hash _ => in_stream ty id en rev p hash) (append_new streamID stamp ty id en rev p).
Proof using.
  unfold append_new. eapply exports_weaken.
  - eapply (exports_bind (fun hash h _ => h = hash)); [by intros ????|apply exports_ask|]. intros hash.
    eapply (exports_bind (fun _ r _ => NewRecord hash ty id en rev p = Some r)); [by intros ????|apply exports_or_broken|]. intros r.
    eapply (exports_bind (fun _ _ => holds_record streamID r)); [exact (lasting_holds streamID r)|apply exports_append|].
    intros a. apply (exports_ret no_claim). done.
  - intros hash u db (h & -> & r & Hr & r' & Hh & _). by exists r.
Qed.

Lemma exports_each {A} (P : A -> (string -> string) -> Db -> Prop) (f : A -> M unit) l :
  (forall a hash db db', replicated hash db db' -> P a hash db -> P a hash db') ->
  (forall a, exports (fun hash _ => P a hash) (f a)) -> exports (fun hash _ db => Forall (fun a => P a hash db) l) (each f l).
Proof using.
  intros HP Hf. induction l as [|a l IH]; cbn [each]; [by apply exports_ret; constructor|].
  eapply exports_weaken; [eapply (exports_bind (fun hash (_ : unit) => P a hash)); [intros hash u db db'; exact (HP a hash db db')|apply Hf|intros u; exact IH]|].
  intros hash u db (_ & Ha & Hl). by constructor.
Qed.

Lemma exports_view_each {R} (rows : Db -> list R) (P : R -> (string -> string) -> Db -> Prop) (f : R -> M unit) :
  settled_view rows -> (forall a hash db db', replicated hash db db' -> P a hash db -> P a hash db') ->
  (forall a, exports (fun hash _ => P a hash) (f a)) -> exports (fun hash _ db => Forall (fun a => P a hash db) (rows db)) (l ← query rows; each f l).
Proof using.
  intros Hrows HP Hf. eapply exports_weaken; [eapply (exports_bind (fun _ a db => a = rows db)); [by apply lasting_view|apply exports_query|]|].
  - intros l. by apply (exports_each P f l).
  - by intros hash u db (l & -> & Hl).
Qed.

(** Messages. *)
Definition entry_recorded (row : message_row * option attempt_row) (hash : string -> string) (db : Db) : Prop := exists content author,
  entry_content row.1 = Some content
  /\ in_stream RecordEntry (entry_record_id hash (msg_id row.1)) (msg_id row.1) 1 (TranscriptEntry_json (entry_of i row.1 row.2 author content)) hash db.
Lemma exports_entries : exports (fun hash _ db => Forall (fun row => entry_recorded row hash db) (messages_with_attempts (sid_dialog i) db))
  (materializeReplicaEntries i streamID stamp).
Proof using.
  apply exports_view_each; [by intros []| |].
  - intros row hash db db' H (content & author & E & F). exists content, author. split; [done|by eapply in_stream_replicated].
  - intros [m a]. unfold materialize_entry. eapply exports_weaken.
    + eapply (exports_bind (fun hash h _ => h = hash)); [by intros ????|apply exports_ask|]. intros h.
      eapply (exports_bind (fun _ content _ => entry_content m = Some content)); [by intros ????|apply exports_or_broken|]. intros content.
      eapply (exports_bind no_claim); [by intros ????|eapply exports_weaken; [apply exports_query|done]|]. intros seq. apply exports_append_new.
    + intros hash u db (h & -> & content & E & seq & _ & F). by eexists _, _.
Qed.

(** Events. *)
Definition fact_of (row : event_row * EventView) (request : string) (id : string) : ExecutionFact :=
  let '(e, v) := row in
  mkFact id (mkOrigin (sid_node i) (sid_dialog i) (sid_node i +:+ ":" +:+ itoa (evt_seq e))) (sid_logical i) request
    (default "" (evt_attempt e)) (ev_type v) (ev_type v) (evt_seq e) (evt_created e) (evt_json e).
Definition fact_recorded (row : event_row * EventView) (hash : string -> string) (db : Db) : Prop := exists request,
  let id := fact_id hash (sid_node i) (evt_seq row.1) in
  in_stream RecordExecutionFact (fact_record_id hash id) id 1 (ExecutionFact_json (fact_of row request id)) hash db.
Lemma exports_readonly_catch {A} (f : Db -> option A) (a : A) : exports no_claim (catch (query_row f) (fun _ => mret a)).
Proof using.
  intros env c. apply wp_catch, wp_query_row; [|by apply wp_ret; split_and!; auto with harness..].
  intros x Hx. split_and!; by auto with harness.
Qed.
Lemma exports_facts : exports (fun hash _ db => exists decoded, sequence (List.map decoded_event (dialog_events i db)) = Some decoded
                                 /\ Forall (fun row => fact_recorded row hash db) decoded)
  (materializeReplicaFacts i streamID stamp).
Proof using.
  unfold materializeReplicaFacts. eapply exports_weaken.
  - eapply (exports_bind (fun _ a db => a = dialog_events i db)); [by apply lasting_view; intros []|apply exports_query|]. intros rows.
    eapply (exports_bind (fun _ decoded _ => sequence (List.map decoded_event rows) = Some decoded)); [by intros ????|apply exports_or_broken|].
    intros decoded. apply (exports_each fact_recorded).
    + intros row hash db db' H (request & F). exists request. by eapply in_stream_replicated.
    + intros [e v]. unfold materialize_fact. eapply exports_weaken.
      * eapply (exports_bind (fun hash h _ => h = hash)); [by intros ????|apply exports_ask|]. intros h. cbv zeta.
        eapply (exports_bind no_claim); [by intros ????| |]; [|intros request; apply exports_append_new].
        destruct (_ && _); [apply exports_readonly_catch|by apply exports_ret].
      * intros hash u db (h & -> & request & _ & F). by exists request.
  - intros hash u db (rows & -> & decoded & E & F). by exists decoded.
Qed.

End Materialize.

Lemma exports_any {A} (P : outcome A) (m : M A) : exports P m -> exports no_claim m.
Proof. intros H. by eapply exports_weaken. Qed.
Ltac export_step :=
  cbv zeta;
  lazymatch goal with
  | |- exports _ (mret _) => by apply exports_ret
  | |- exports _ (fail (Broken _)) => apply exports_broken
  | |- exports _ (or_broken _ _) => eapply exports_any, exports_or_broken
  | |- exports _ (append_new _ _ _ _ _ _ _) => eapply exports_any, exports_append_new
  | |- exports _ (_ ≫= _) => eapply exports_then; [|intros ?]
  | |- exports _ (if ?b then _ else _) => destruct b
  | |- exports _ (match ?x with _ => _ end) => destruct x
  | |- exports _ _ => first [solve [auto] | apply exports_confined; unfold readSafeTextArtifact; solve [confined_tac]]
  end.

(** Receipts, texts and assets. *)
Section Others.
Variables (i : StreamIdentity) (streamID stamp : string).
Lemma exports_scope_of_attempts values dialog keys : forall request attempt,
  exports no_claim (scope_of_attempts values dialog keys request attempt).
Proof using. induction keys as [|key keys IH]; intros request attempt; cbn [scope_of_attempts]; repeat export_step. Qed.
Lemma exports_receipts : exports no_claim (materializeReplicaReceipts i streamID stamp).
Proof using.
  unfold materializeReplicaReceipts. export_step; [export_step|]. eapply exports_any, (exports_each (fun _ _ _ => True)); [done|]. intros c.
  unfold materialize_receipt, replicaCommandScope, command_scope. pose proof exports_scope_of_attempts. repeat export_step.
Qed.
Lemma exports_parts text total parts : forall index, exports no_claim (materialize_parts i streamID stamp text total index parts).
Proof using. induction parts as [|[] parts IH]; intros index; cbn [materialize_parts]; repeat export_step. Qed.
Lemma exports_chunks text chunks : forall seen index, exports no_claim (materialize_chunks i streamID stamp text seen index chunks).
Proof using. pose proof exports_parts. induction chunks as [|c chunks IH]; intros seen index; cbn [materialize_chunks]; repeat export_step. Qed.
Lemma exports_texts : exports no_claim (materializeReplicaText i streamID stamp).
Proof using.
  unfold materializeReplicaText. export_step; [export_step|]. rename a into rows. induction rows as [|row rows IH]; cbn [materialize_texts]; [export_step|].
  export_step; [|repeat export_step]. unfold materialize_text. pose proof exports_chunks. repeat export_step.
Qed.
Definition assets_recorded (hash : string -> string) (db : Db) : Prop :=
  let manifest := AssetManifest_json (sid_logical i) (dialog_assets (sid_dialog i) db) in
  let entity := asset_entity hash (sid_dialog i) in
  exists revision, in_stream streamID RecordAssetManifest (asset_record_id hash entity manifest) entity revision manifest hash db.
Lemma exports_assets : exports (fun hash _ => assets_recorded hash) (materializeReplicaAssets i streamID stamp).
Proof using.
  unfold materializeReplicaAssets. eapply exports_weaken.
  - eapply (exports_bind (fun hash h _ => h = hash)); [by intros ????|apply exports_ask|]. intros h.
    eapply (exports_bind (fun _ a db => a = dialog_assets (sid_dialog i) db)); [by apply lasting_view; intros []|apply exports_query|]. intros assets. cbv zeta.
    eapply (exports_bind no_claim); [by intros ????|unfold asset_revision; repeat export_step|]. intros revision. apply exports_append_new.
  - intros hash u db (h & -> & assets & -> & revision & _ & F). by exists revision.
Qed.

(** What an export that ends well has put into the stream. *)
Record covers (hash : string -> string) (db : Db) : Prop := {
  cov_entries : Forall (fun row => entry_recorded i streamID row hash db) (messages_with_attempts (sid_dialog i) db);
  cov_facts : exists decoded, sequence (List.map decoded_event (dialog_events i db)) = Some decoded
                /\ Forall (fun row => fact_recorded i streamID row hash db) decoded;
  cov_assets : assets_recorded hash db }.
End Others.
