(* ===== verification/Reading.v ===== *)
(** * Reads leave the node as it is
    Every read handler ends, whatever fails, in the core it started from, but
    for the transaction's view and the local state it loaded. *)
From stdpp Require Import base tactics list strings gmap pretty.
From Stdlib Require Import ZArith Lia Ascii String.
From S2P Require Import Prelude Json Wire Store Tx Adapter Events Commands Barrier Hold Submit Frames Read Replay Paging Pages SafeTextStore DialogView ToolTimeline Files Artifacts.
Open Scope string_scope.
Open Scope list_scope.
Open Scope Z_scope.
Open Scope harness_scope.

Definition untouched (c c' : Core) : Prop := c' = c <| tx := tx c' |> <| st := st c' |>.
Definition reads {A} (m : M A) : Prop := forall env c, wp env m (fun _ c' => untouched c c') (fun _ c' => untouched c c') c.

Lemma untouched_refl c : untouched c c.
Proof. by destruct c. Qed.
Lemma readonly_authorizeRead trust : readonly (authorizeRead trust).
Proof. unfold authorizeRead. readonly_tac. Qed.
Lemma readonly_wireResult wireType value : readonly (wireResult wireType value).
Proof. unfold wireResult. destruct (Validate _ _); eauto with readonly. Qed.
Lemma readonly_or_limit limit message : readonly (or_limit limit message).
Proof. unfold or_limit, Invalid. readonly_tac. Qed.
Lemma readonly_or_cursor r correlation : readonly (or_cursor r correlation).
Proof. unfold or_cursor. readonly_tac. Qed.
Lemma readonly_in_read_scope {A} (f : Db -> option A) missing unavailable correlation :
  readonly (in_read_scope f missing unavailable correlation).
Proof. unfold in_read_scope. readonly_tac. Qed.
Lemma readonly_next_event items more : readonly (next_event items more).
Proof. unfold next_event. readonly_tac. Qed.
Lemma readonly_loadCommandOutcome id : readonly (loadCommandOutcome id).
Proof. unfold loadCommandOutcome. readonly_tac. Qed.
Lemma readonly_outcome_deleted outcome : readonly (commandOutcomeTargetsDeletedDialog outcome).
Proof. unfold commandOutcomeTargetsDeletedDialog, target_dialog. cbv zeta. readonly_tac. Qed.
Lemma readonly_deletedMessageScopes candidates deleted : readonly (deletedMessageScopes candidates deleted).
Proof. unfold deletedMessageScopes. readonly_tac. Qed.
#[export] Hint Resolve readonly_authorizeRead readonly_wireResult readonly_or_limit readonly_or_cursor readonly_in_read_scope
  readonly_next_event readonly_loadCommandOutcome readonly_outcome_deleted readonly_deletedMessageScopes : readonly.

Lemma readonly_found {A} (m : M A) : readonly m -> readonly (found m).
Proof. intros H. unfold found. apply readonly_catch; [apply readonly_bind; [done|intros ?; apply readonly_ret]|]. intros []; first [apply readonly_ret|apply readonly_fail]. Qed.
Ltac readonly_found := repeat (readonly_tac; try (apply readonly_found)).
Lemma readonly_loadDialogView dialog : readonly (loadDialogView dialog).
Proof. unfold loadDialogView. readonly_found. Qed.
Lemma readonly_dialogViewResult value : readonly (dialogViewResult value).
Proof. unfold dialogViewResult. readonly_tac. Qed.
Lemma readonly_loadToolSummary attempt dialog started : readonly (loadToolSummary attempt dialog started).
Proof. unfold loadToolSummary. readonly_found. Qed.
Lemma readonly_toolTimelineResult value : readonly (toolTimelineResult value).
Proof. unfold toolTimelineResult. readonly_tac. Qed.
Lemma readonly_detail_scope s attempt call : readonly (detail_scope s attempt call).
Proof. unfold detail_scope. readonly_tac. Qed.
Lemma readonly_load_result attempt dialog call : readonly (load_result attempt dialog call).
Proof. unfold load_result. readonly_found. Qed.
#[export] Hint Resolve readonly_loadDialogView readonly_dialogViewResult readonly_loadToolSummary readonly_toolTimelineResult
  readonly_load_result readonly_detail_scope : readonly.
Lemma readonly_dialog_items keys : readonly (dialog_items keys).
Proof. induction keys; cbn [dialog_items]; readonly_tac. Qed.
Lemma readonly_tool_items attempt dialog limit count rows : readonly (tool_items attempt dialog limit count rows).
Proof. revert count. induction rows as [|row rows IH]; intros count; cbn [tool_items]; readonly_tac. Qed.
#[export] Hint Resolve readonly_dialog_items readonly_tool_items : readonly.

(** ** The open transaction
    Once the transaction sees the committed database, only the local state can
    change; opening it is the one step before that. *)
Definition views {A} (m : M A) : Prop :=
  forall env c, tx c = durable c -> wp env m (fun _ c' => c' = c <| st := st c' |>) (fun _ c' => c' = c <| st := st c' |>) c.
Definition opens {A} (m : M A) : Prop :=
  forall env c, wp env m (fun _ c' => untouched c c' /\ tx c' = durable c') (fun _ c' => untouched c c') c.

Section Views.
Context {A B : Type}.
Implicit Types m : M A.

Lemma views_readonly m : readonly m -> views m.
Proof. intros Hm env c _. apply wp_readonly; [done|..]; intros; by destruct c. Qed.
Lemma views_bind m (k : A -> M B) : views m -> (forall a, views (k a)) -> views (m ≫= k).
Proof.
  intros Hm Hk env c Hc. apply wp_bind. eapply wp_mono; [by apply Hm|..]; [|done].
  intros a c' ->. eapply wp_mono; [by apply Hk|..]; intros ? ? ->; by destruct c.
Qed.
Lemma views_catch m h : views m -> (forall e, views (h e)) -> views (catch m h).
Proof.
  intros Hm Hh env c Hc. apply wp_catch. eapply wp_mono; [by apply Hm|..]; [done|].
  intros e c' ->. destruct e; try done; (eapply wp_mono; [by apply Hh|..]; intros ? ? ->; by destruct c).
Qed.
Lemma reads_readonly m : readonly m -> reads m.
Proof. intros Hm env c. apply wp_readonly; [done|..]; intros; apply untouched_refl. Qed.
Lemma reads_bind_readonly m (k : A -> M B) : readonly m -> (forall a, reads (k a)) -> reads (m ≫= k).
Proof. intros Hm Hk env c. apply wp_bind, wp_readonly; [done|..]; intros; [apply Hk|apply untouched_refl]. Qed.
Lemma reads_open m (k : A -> M B) : opens m -> (forall a, views (k a)) -> reads (m ≫= k).
Proof.
  intros Hm Hk env c. apply wp_bind. eapply wp_mono; [apply Hm|..]; [|done].
  intros a c' [Hu Hc]. eapply wp_mono; [by apply Hk|..]; intros ? ? ->; unfold untouched in *; rewrite Hu; by destruct c.
Qed.
End Views.

Lemma views_commit : views commit.
Proof. intros env c Hc. destruct c as [d t]. cbn [tx durable] in Hc. subst. by apply wp_commit. Qed.
Lemma views_or_not_durable {A} (m : M A) message correlation : views m -> views (or_not_durable m message correlation).
Proof. intros Hm. apply views_catch; [done|]. intros. apply views_readonly. eauto with readonly. Qed.
Lemma opens_begin message correlation : opens (or_not_durable begin message correlation).
Proof. intros env c. repeat wp_step; try split; try done; apply untouched_refl. Qed.
Lemma opens_open_read message correlation : opens (open_read message correlation).
Proof. intros env c. unfold open_read. repeat wp_step; try split; first [done|apply untouched_refl]. Qed.
Lemma opens_current_state message : opens (current_state message).
Proof. intros env c. unfold current_state, autocommit. repeat wp_step; try split; first [done|apply untouched_refl]. Qed.
Lemma opens_autocommit_state message correlation : opens (or_not_durable (autocommit loadState) message correlation).
Proof. intros env c. unfold autocommit. repeat wp_step; try split; first [done|apply untouched_refl]. Qed.

Create HintDb views discriminated.
#[export] Hint Resolve views_commit : views.
Ltac views_tac :=
  repeat first
    [ solve [eauto with views nocore]
    | apply views_readonly; solve [eauto with readonly nocore]
    | apply views_or_not_durable
    | apply views_bind; [|intros ?]
    | match goal with |- views (if ?b then _ else _) => destruct b end
    | match goal with |- views (match ?x with _ => _ end) => destruct x end ].
Ltac reads_tac :=
  cbv zeta;
  repeat first
    [ apply reads_readonly; solve [eauto with readonly nocore]
    | apply reads_open; [solve [eauto using opens_begin, opens_open_read, opens_current_state, opens_autocommit_state]|intros ?; cbv zeta; views_tac]
    | apply reads_bind_readonly; [solve [eauto with readonly nocore]|intros ?; cbv zeta]
    | match goal with |- reads (if ?b then _ else _) => destruct b end
    | match goal with |- reads (match ?x with _ => _ end) => destruct x end ].

Lemma readonly_readArtifactFile relative id size sha256 : readonly (readArtifactFile relative id size sha256).
Proof. unfold readArtifactFile, digestBytes. readonly_tac. Qed.
#[export] Hint Resolve readonly_readArtifactFile : readonly.
Lemma readonly_metadata_file relative m : readonly (read_metadata_file relative m).
Proof. unfold read_metadata_file. readonly_tac. Qed.
Lemma readonly_validate_chunk_rows m chunks : readonly (validate_chunk_rows m chunks).
Proof. induction chunks; cbn [validate_chunk_rows]; readonly_tac. Qed.
#[export] Hint Resolve readonly_metadata_file readonly_validate_chunk_rows : readonly.
Lemma readonly_readSafeTextManifest reference source : readonly (readSafeTextManifest reference source).
Proof. unfold readSafeTextManifest, readSafeTextArtifact, validateSafeTextManifestRow, validateSafeTextRows. readonly_tac. Qed.
Lemma readonly_safe_text_artifact row : readonly (readSafeTextArtifact row).
Proof. unfold readSafeTextArtifact. readonly_tac. Qed.
Lemma readonly_or_no_text {A} (m : M A) message correlation : readonly m -> readonly (or_no_text m message correlation).
Proof. intros. unfold or_no_text. readonly_tac. Qed.
#[export] Hint Resolve readonly_readSafeTextManifest readonly_safe_text_artifact : readonly.
#[export] Hint Extern 1 (readonly (or_no_text _ _ _)) => apply readonly_or_no_text; readonly_tac : readonly.
Lemma views_autocommit {A} (m : M A) : readonly m -> views (autocommit m).
Proof.
  intros Hm env c Hc. destruct c as [d t]. cbn [tx durable] in Hc. subst t. unfold autocommit. apply wp_bind, wp_modify, wp_bind.
  apply wp_readonly; [done|intros a; apply wp_bind, wp_modify, wp_ret|]; reflexivity.
Qed.
#[export] Hint Extern 1 (views (autocommit _)) => apply views_autocommit; readonly_tac : views.

(** ** The handlers *)
Lemma reads_Snapshot trust : reads (Snapshot trust).
Proof. unfold Snapshot. reads_tac. Qed.
Lemma reads_CommandStatus trust id : reads (CommandStatus trust id).
Proof. unfold CommandStatus, Invalid. reads_tac. Qed.
Lemma reads_Busy : reads Busy.
Proof. intros env c. unfold Busy, autocommit. repeat wp_step; first [done|apply untouched_refl]. Qed.
Lemma reads_IdentityRead p trust : reads (IdentityRead p trust).
Proof. unfold IdentityRead. reads_tac. Qed.
Lemma reads_Admission p trust : reads (Admission p trust).
Proof. unfold Admission. reads_tac. Qed.
Lemma reads_HealthLive p : reads (HealthLive p).
Proof. unfold HealthLive. reads_tac. Qed.
Lemma reads_ExecutorHeartbeat p trust : reads (ExecutorHeartbeat p trust).
Proof. unfold ExecutorHeartbeat. reads_tac. Qed.
Lemma views_reads {A} (m : M A) : (forall env c, tx c = durable c -> wp env m (fun _ c' => untouched c c' /\ tx c' = durable c') (fun _ c' => untouched c c' /\ tx c' = durable c') c) -> views m.
Proof.
  intros Hm env c Hc. eapply wp_mono; [by apply Hm|..]; unfold untouched; intros ? c' [Hu Ht]; rewrite Hu in *; destruct c; cbn in *; by subst.
Qed.
Lemma views_IdentityRead p trust : views (IdentityRead p trust).
Proof.
  apply views_reads. intros env c Hc. unfold IdentityRead, authorizeRead, current_state, autocommit, wireResult.
  repeat wp_step; split; first [done|apply untouched_refl].
Qed.
#[export] Hint Resolve views_IdentityRead : views.
Lemma reads_HealthReady p trust : reads (HealthReady p trust).
Proof. unfold HealthReady. reads_tac. Qed.
Lemma reads_ReplayEvents trust after limit : reads (ReplayEvents trust after limit).
Proof. unfold ReplayEvents, Invalid. reads_tac. Qed.
Lemma reads_History trust dialog cursor limit : reads (History trust dialog cursor limit).
Proof. unfold History. reads_tac. Qed.
Lemma reads_HistoryLatest trust dialog cursor limit : reads (HistoryLatest trust dialog cursor limit).
Proof. unfold HistoryLatest. reads_tac. Qed.
Lemma reads_Dialogs trust cursor limit : reads (Dialogs trust cursor limit).
Proof. unfold Dialogs. reads_tac. Qed.
Lemma reads_requests_page trust dialog filter cursor limit : reads (requests_page trust dialog filter cursor limit).
Proof. unfold requests_page, Invalid. reads_tac. Qed.
Lemma reads_Attempt trust attempt : reads (Attempt trust attempt).
Proof. unfold Attempt. reads_tac. Qed.
Lemma reads_Attempts trust request cursor limit : reads (Attempts trust request cursor limit).
Proof. unfold Attempts. reads_tac. Qed.
Lemma reads_AttemptEvents trust attempt after limit : reads (AttemptEvents trust attempt after limit).
Proof. unfold AttemptEvents, Invalid. reads_tac. Qed.
Lemma reads_DialogViews trust cursor limit : reads (DialogViews trust cursor limit).
Proof. unfold DialogViews. reads_tac. Qed.
Lemma reads_DialogView trust dialog : reads (DialogView trust dialog).
Proof. unfold DialogView, Invalid. reads_tac. Qed.
Lemma reads_ToolCalls trust attempt cursor limit : reads (ToolCalls trust attempt cursor limit).
Proof. unfold ToolCalls, Invalid. reads_tac. Qed.
Lemma reads_ToolCall trust attempt call after limit : reads (ToolCall trust attempt call after limit).
Proof. unfold ToolCall, Invalid. reads_tac. Qed.

Lemma reads_ArtifactMetadata trust id : reads (ArtifactMetadata trust id).
Proof. unfold ArtifactMetadata. reads_tac. Qed.
Lemma reads_bind {A B} (m : M A) (k : A -> M B) : reads m -> (forall a, reads (k a)) -> reads (m ≫= k).
Proof.
  intros Hm Hk env c. apply wp_bind. eapply wp_mono; [apply Hm|..]; cbn beta; [|done]. unfold untouched.
  intros a c' ->. eapply wp_mono; [apply Hk|..]; unfold untouched; intros ? c2 ->; by destruct c.
Qed.
Lemma reads_autocommit_or {A} (m : M A) message correlation : readonly m -> reads (or_not_durable (autocommit m) message correlation).
Proof.
  intros Hm env c. unfold or_not_durable, autocommit. apply wp_catch, wp_bind, wp_modify, wp_bind. apply wp_readonly; [done|..].
  - intros a. apply wp_bind, wp_modify, wp_ret. unfold untouched. by destruct c.
  - intros e. destruct e; try (apply wp_readonly; [eauto with readonly|intros _|intros ?]); unfold untouched; by destruct c.
Qed.
Lemma reads_Artifact trust id : reads (Artifact trust id).
Proof.
  unfold Artifact. apply reads_bind; [apply reads_ArtifactMetadata|]. intros r. destruct (negb _); [apply reads_readonly; eauto with readonly|].
  destruct (Metadata_of_json _); [|apply reads_readonly; eauto with readonly].
  apply reads_bind; [apply reads_autocommit_or; readonly_tac|]. intros a. reads_tac.
Qed.
Lemma reads_open_safe_text dialog attempt source : reads (open_safe_text dialog attempt source).
Proof. unfold open_safe_text. reads_tac. Qed.
Lemma reads_SafeTextManifest trust dialog attempt source : reads (SafeTextManifest trust dialog attempt source).
Proof.
  unfold SafeTextManifest, Invalid. apply reads_bind_readonly; [eauto with readonly|intros _]. destruct (_ || _); [apply reads_readonly; eauto with readonly|].
  apply reads_bind; [apply reads_open_safe_text|]. intros []. apply reads_readonly. eauto with readonly.
Qed.
Lemma reads_SafeTextChunk trust dialog attempt text source index id size hash :
  reads (SafeTextChunk trust dialog attempt text source index id size hash).
Proof.
  unfold SafeTextChunk, Invalid. apply reads_bind_readonly; [eauto with readonly|intros _]. destruct (_ || _); [apply reads_readonly; eauto with readonly|].
  apply reads_bind; [apply reads_open_safe_text|]. intros []. apply reads_readonly. readonly_tac.
Qed.

(** The read endpoints of the node that always answer. *)
Inductive read_handler : M Result -> Prop :=
  | read_snapshot trust : read_handler (Snapshot trust)
  | read_command_status trust id : read_handler (CommandStatus trust id)
  | read_identity p trust : read_handler (IdentityRead p trust)
  | read_admission p trust : read_handler (Admission p trust)
  | read_live p : read_handler (HealthLive p)
  | read_heartbeat p trust : read_handler (ExecutorHeartbeat p trust)
  | read_ready p trust : read_handler (HealthReady p trust)
  | read_history trust dialog cursor limit : read_handler (History trust dialog cursor limit)
  | read_latest trust dialog cursor limit : read_handler (HistoryLatest trust dialog cursor limit)
  | read_dialogs trust cursor limit : read_handler (Dialogs trust cursor limit)
  | read_requests trust filter cursor limit : read_handler (Requests trust filter cursor limit)
  | read_dialog_requests trust dialog filter cursor limit : read_handler (RequestsForDialog trust dialog filter cursor limit)
  | read_attempt trust attempt : read_handler (Attempt trust attempt)
  | read_attempts trust request cursor limit : read_handler (Attempts trust request cursor limit)
  | read_dialog_views trust cursor limit : read_handler (DialogViews trust cursor limit)
  | read_dialog_view trust dialog : read_handler (DialogView trust dialog)
  | read_tool_calls trust attempt cursor limit : read_handler (ToolCalls trust attempt cursor limit)
  | read_tool_call trust attempt call after limit : read_handler (ToolCall trust attempt call after limit)
  | read_artifact trust id : read_handler (ArtifactMetadata trust id).

Lemma read_handler_reads m : read_handler m -> reads m.
Proof.
  destruct 1; unfold Requests, RequestsForDialog, Invalid;
    eauto using reads_Snapshot, reads_CommandStatus, reads_IdentityRead, reads_Admission, reads_HealthLive, reads_ExecutorHeartbeat,
      reads_HealthReady, reads_History, reads_HistoryLatest, reads_Dialogs, reads_requests_page, reads_Attempt, reads_Attempts,
      reads_DialogViews, reads_DialogView, reads_ToolCalls, reads_ToolCall, reads_ArtifactMetadata.
  destruct (uuidPattern dialog); cbn [negb]; [apply reads_requests_page|apply reads_readonly; eauto with readonly].
Qed.

Lemma reads_durable {A} (m : M A) env x c : reads m -> durable (m env x c).2 = durable c.
Proof.
  intros Hm. specialize (Hm env c x). unfold untouched in Hm. destruct (m env x c) as [[[e|a] x'] c']; cbn [snd]; by rewrite Hm.
Qed.
