(* ===== verification/ArtifactTx.v ===== *)
(** * Storing an artifact keeps the node invariant
    [StoreArtifact] opens one transaction, which commits the artifact, or the
    marker and the stop of an attempt over its budget; what it leaves of its
    file depends on [keep]. *)
From stdpp Require Import base tactics list strings gmap pretty.
From Stdlib Require Import ZArith Lia Ascii String.
From S2P Require Import Prelude Json Wire Store Tx Adapter Events Commands Barrier Hold Submit Dispatch Frames TranscriptView Files Capture SafeTextStore Budget Pages Observe Artifacts.
From S2P Require Import Atomic Append Invariant Steering Handlers Keeping Transactions Observing WorkerTx WorkerHistory Reading.
Open Scope string_scope.
Open Scope list_scope.
Open Scope Z_scope.
Open Scope harness_scope.

(** ** The deferred removal *)
(** Only the two names of an artifact can differ. *)
Definition discarded (artifactID : string) (d d' : directory) : Prop := forall name,
  name <> artifactID -> name <> temporary_name artifactID -> file_bytes name d' = file_bytes name d.
Lemma file_bytes_dropped other name d : name <> other -> file_bytes name (without_file other d) = file_bytes name d.
Proof.
  intros Hne. unfold file_bytes, without_file. induction d as [|[n b] d IH]; [done|]. cbn [List.filter List.find fst].
  destruct (n =s other) eqn:E1; cbn [negb List.find fst]; [|destruct (n =s name); [done|exact IH]].
  simplify_bool. subst n. rewrite IH. destruct (other =s name) eqn:E2; [simplify_bool; congruence|done].
Qed.
Lemma discarded_without id other d d' : discarded id d d' -> other = id \/ other = temporary_name id -> discarded id d (without_file other d').
Proof. intros H Ho name H1 H2. rewrite file_bytes_dropped; [by apply H|]. intros ->. by destruct Ho. Qed.
Lemma wp_drop_file env name (Q : unit -> Core -> Prop) E c : Q tt c -> Q tt (c <| files ::= without_file name |>) -> wp env (drop_file name) Q E c.
Proof. intros H1 H2. unfold drop_file. apply wp_catch, wp_bind, wp_io; [by apply wp_modify|by apply wp_ret]. Qed.
Lemma wp_discard env id (Q : unit -> Core -> Prop) E c :
  (forall fs, discarded id (files c) fs -> Q tt (c <| files := fs |>)) -> wp env (discard_artifact id) Q E c.
Proof.
  intros H. assert (forall d, discarded id d d) as Hrefl by done.
  assert (forall c', wp env (catch io (fun _ => mret tt)) (fun _ c'' => c'' = c') (fun _ _ => False) c') as Hlast
    by (intros; apply wp_catch, wp_io; [done|by apply wp_ret]).
  assert (forall fs, discarded id (files c) fs -> wp env (catch io (fun _ => mret tt)) Q E (c <| files := fs |>)) as Hk
    by (intros fs Hfs; eapply wp_mono; [apply Hlast|intros [] ? ->; by apply H|done]).
  assert (c = c <| files := files c |>) as Hc by (by destruct c).
  unfold discard_artifact. apply wp_bind, wp_drop_file; apply wp_bind, wp_drop_file.
  - rewrite Hc. by apply Hk.
  - rewrite Hc at 1. apply Hk, discarded_without; [done|by left].
  - apply Hk, discarded_without; [done|by right].
  - apply (Hk (without_file id (without_file (temporary_name id) (files c)))).
    apply discarded_without; [apply discarded_without; [done|by right]|by left].
Qed.

Definition settled_file (id : string) (c : Core) (P : Core -> Prop) : Prop :=
  (retained c = true -> P c) /\ (retained c = false -> forall fs, discarded id (files c) fs -> P (c <| files := fs |>)).
Lemma wp_discarding {A} env id (m : M A) (Q : A -> Core -> Prop) (E : err -> Core -> Prop) c :
  wp env m (fun a c1 => settled_file id c1 (Q a)) (fun e c1 => settled_file id c1 (E e)) (c <| retained := false |>) ->
  wp env (discarding id m) Q E c.
Proof.
  intros H x. specialize (H x). unfold discarding. destruct (m env x _) as [[r x'] c'].
  destruct (retained c') eqn:Hret; [destruct r; by apply H|].
  destruct r as [e|a]; destruct H as [_ H]; specialize (H Hret).
  - pose proof (wp_discard env id (fun _ => E e) (fun _ => E e) c' H x') as Hw. by destruct (discard_artifact _ _ _ _) as [[[] ?] ?].
  - pose proof (wp_discard env id (fun _ => Q a) (fun _ => Q a) c' H x') as Hw. by destruct (discard_artifact _ _ _ _) as [[[] ?] ?].
Qed.
Lemma settled_any id c (P : Core -> Prop) : (forall fs, P (c <| files := fs |>)) -> settled_file id c P.
Proof. intros H. split; [|auto]. intros _. specialize (H (files c)). by destruct c. Qed.

(** Publishing changes the directory only. *)
Lemma filed_fill id content : confined filed (fill_artifact_file id content).
Proof. unfold fill_artifact_file, put_file. confined_tac. Qed.
Lemma filed_put name content : confined filed (put_file name content).
Proof. unfold put_file. confined_tac. Qed.
#[export] Hint Resolve filed_fill filed_put : confined.

(** ** The node invariant *)
Section Marker.
Context (reference : AttemptRef) {P : durableState -> Db -> Prop} `{!Stable P}.
Hypothesis Htarget : forall s db, P s db -> targets reference s db.
Lemma keeping_artifact_marker version : keeping P (appendArtifactOutputLimitMarker reference version).
Proof using Type*.
  unfold appendArtifactOutputLimitMarker. keeping_tac.
  - by apply keeping_assistant_message.
  - by apply (keeping_record reference).
Qed.
End Marker.

Lemma harmless_insert_artifact row : harmless (insert_artifact row).
Proof. harmless_tac. Qed.
#[export] Hint Resolve harmless_insert_artifact : harmless.

Lemma visible_attempt_row s id db a : visible_attempt s id db = Some a -> a ∈ attempts db /\ att_id a = id.
Proof.
  unfold visible_attempt. intros H. apply bind_Some in H as (b & Hb & H). destruct (visible_dialog _ _ _); [|done]. injection H as <-.
  apply select1_Some in Hb as [Hin Hid]. by simplify_bool.
Qed.
Lemma wp_artifact_scope env i (Q : attempt_row -> Core -> Prop) E c :
  (forall a, visible_attempt (st c) (ref_attempt (in_attempt i)) (tx c) = Some a -> att_dialog a = ref_dialog (in_attempt i) ->
     att_request a = ref_request (in_attempt i) -> Q a c) ->
  (forall e, E e c) -> wp env (artifact_scope i) Q E c.
Proof.
  intros HQ HE. unfold artifact_scope. apply wp_bind, wp_get, wp_bind, wp_query_row; [|done..]. intros a Ha.
  destruct (_ || _) eqn:Hg; [by apply wp_fail|]. simplify_bool. apply wp_bind. destruct (in_call i =s ""); [|apply wp_bind, wp_readonly; [eauto with readonly|intros _; apply wp_ret|done]].
  1: apply wp_ret.
  all: apply wp_ret; auto.
Qed.
Lemma scope_targets s i db a : a ∈ attempts db -> att_id a = ref_attempt (in_attempt i) -> att_request a = ref_request (in_attempt i) ->
  targets (in_attempt i) s db.
Proof. intros Ha E1 E2. exists (att_started a). rewrite <- E1, <- E2. apply list_elem_of_In, (List.in_map attempt_facts). by apply list_elem_of_In. Qed.

Lemma wp_keep env b (Q : unit -> Core -> Prop) E c : Q tt (c <| retained := b |>) -> wp env (keep b) Q E c.
Proof. apply wp_modify. Qed.
Ltac keep_step := first [lazymatch goal with |- wp _ (keep _) _ _ _ => apply wp_keep; rcbn end | tx_step].
Ltac keep_save HI := let H := fresh in pose proof (inv_identity _ _ _ HI) as H; repeat keep_step; try (apply Inv_committed; done); try (rcbn; done).

Lemma transaction_store_locked i artifactID content : transaction (store_locked i artifactID content).
Proof.
  unfold store_locked. apply transaction_open. intros env c HD Htx Hst HI.
  apply wp_bind, wp_artifact_scope; [|done]. intros a Ha _ Hreq. apply visible_attempt_row in Ha as [Hin Hid].
  pose proof (scope_targets (st c) i _ _ Hin Hid Hreq) as Ht.
  turn (targets (in_attempt i)) (keeping_charge_output (in_attempt i)). intros charge c1 HI1 Ht1 HD1. destruct (Exceeded charge).
  - apply wp_bind. unfold artifact_over_budget. destruct (NewlyExceeded charge); [|by apply wp_ret, wp_fail].
    turn (targets (in_attempt i)) (keeping_artifact_marker (in_attempt i)). intros _ c2 HI2 Ht2 HD2. apply wp_bind, wp_get.
    apply wp_bind. eapply (transaction_turning _ (targets (in_attempt i)) (targets (in_attempt i))); [|done..| |done].
    { destruct (_ && _); [by apply (keeping_output_stop (in_attempt i))|by apply turning_ret]. }
    intros _ c3 HI3 _ HD3. by keep_save HI3.
  - apply wp_bind, wp_get, wp_bind. unfold digestBytes. apply wp_bind, wp_ask, wp_ret. unfold record_artifact.
    apply wp_bind, wp_readonly; [eauto with readonly|intros valid|done]. destruct (negb _); [by apply wp_fail|].
    apply wp_bind. eapply (transaction_turning _ anything anything); [apply keeping_exec, harmless_insert_artifact|done..| |done].
    intros _ c2 HI2 _ HD2. apply wp_bind. eapply (transaction_turning _ anything anything); [apply keeping_appendEvent|done..| |done].
    intros _ c3 HI3 _ HD3. by keep_save HI3.
Qed.

Theorem transaction_store i content : transaction (StoreArtifact i content).
Proof.
  intros env c HD. unfold StoreArtifact. apply wp_bind, wp_ask. destruct (negb _); [by apply wp_fail|].
  apply wp_bind, wp_newID; [|done]. intros id. apply wp_bind, wp_io; [|done]. apply wp_bind, wp_io; [|done].
  apply wp_bind. eapply (confined_wp filed); [apply filed_put| |intros e c' _ (fs & made & ->); done].
  intros [] c' (fs & made & ->). apply wp_discarding, wp_bind.
  eapply (confined_wp filed); [apply filed_fill|..].
  - intros [] c1 (fs1 & made1 & ->). eapply wp_mono; [by apply transaction_store_locked|..]; cbn beta; intros; by apply settled_any.
  - intros e c1 _ (fs1 & made1 & ->). by apply settled_any.
Qed.

(** ** The history *)
Lemma nocommit_confined {A} (m : M A) : confined filed m -> nocommit m.
Proof.
  intros Hm env x c. specialize (Hm env c x). destruct (m env x c) as [[[e|a] ?] c']; cbn; [destruct Hm as [_ Hm]|]; by destruct Hm as (fs & made & ->).
Qed.
Lemma history_discarding {A} id (m : M A) : history m -> history (discarding id m).
Proof.
  intros Hm env x c. specialize (Hm env x (c <| retained := false |>)). unfold discarding.
  destruct (m env x _) as [[r x'] c']. cbn in Hm. destruct (retained c'); [done|].
  pose proof (wp_discard env id (fun _ c1 => durable c1 = durable c') (fun _ c1 => durable c1 = durable c') c' (fun _ _ => eq_refl) x') as Hw.
  destruct (discard_artifact _ _ _ _) as [[[] ?] ?]; cbn in *; by rewrite Hw.
Qed.
Lemma grows_keep b : grows (keep b).
Proof. by apply grows_modify. Qed.
Lemma grows_artifact_marker reference version : grows (appendArtifactOutputLimitMarker reference version).
Proof. unfold appendArtifactOutputLimitMarker. grows_tac. Qed.
Lemma appends_insert_artifact row : appends (insert_artifact row).
Proof. appends_tac. Qed.
#[export] Hint Resolve appends_insert_artifact : appends.
#[export] Hint Resolve grows_keep grows_artifact_marker : grows.
Lemma readonly_artifact_scope i : readonly (artifact_scope i).
Proof. unfold artifact_scope. readonly_tac. Qed.
Lemma readonly_digestBytes content : readonly (digestBytes content).
Proof. unfold digestBytes. readonly_tac. Qed.
#[export] Hint Resolve readonly_artifact_scope readonly_digestBytes : readonly.
Lemma history_store_locked i id content : history (store_locked i id content).
Proof. unfold store_locked, artifact_over_budget, record_artifact. history_tac. Qed.
Theorem history_store i content : history (StoreArtifact i content).
Proof.
  unfold StoreArtifact. apply history_bind; [nocommit_tac|intros node]. destruct (negb _); [apply history_nocommit; nocommit_tac|].
  do 3 (apply history_bind; [nocommit_tac|intros ?]). apply history_bind; [apply nocommit_confined, filed_put|intros []].
  apply history_discarding, history_bind; [apply nocommit_confined, filed_fill|intros []]. apply history_store_locked.
Qed.
