(* ===== verification/Exporting.v ===== *)
(** * The history export, from its transaction to its answer
    [ExportHistory] as the handlers' theorems see it: it keeps the node
    invariant, commits at most once and only with the answer, changes the
    replica tables alone; and what its answer says of the stream. *)
From stdpp Require Import base tactics list strings gmap pretty.
From Stdlib Require Import ZArith Lia Ascii String.
From S2P Require Import Prelude Json Parse Wire Store Tx Adapter Events Commands Barrier Hold Submit TranscriptView Read Replay Paging Pages.
From S2P Require Import Frames Files SafeText Capture SafeTextStore HistoryReplica HistoryExport Atomic Append Invariant Handlers Transactions.
From S2P Require Import Replicas Reading.
Open Scope string_scope.
Open Scope list_scope.
Open Scope Z_scope.
Open Scope harness_scope.

Section Stream.
Variables (i : StreamIdentity) (streamID : string).

Lemma entries_last hash db db' : replicated hash db db' ->
  Forall (fun row => entry_recorded i streamID row hash db) (messages_with_attempts (sid_dialog i) db) ->
  Forall (fun row => entry_recorded i streamID row hash db') (messages_with_attempts (sid_dialog i) db').
Proof using.
  intros H He. rewrite (settled_replicated (messages_with_attempts (sid_dialog i)) hash db db') by first [exact H|by intros []].
  eapply Forall_impl; [exact He|]. intros row (content & author & E & R). exists content, author. split; [done|by eapply in_stream_replicated].
Qed.
Definition facts_recorded (hash : string -> string) (db : Db) : Prop := exists decoded,
  sequence (List.map decoded_event (dialog_events i db)) = Some decoded /\ Forall (fun row => fact_recorded i streamID row hash db) decoded.
Lemma facts_last hash db db' : replicated hash db db' -> facts_recorded hash db -> facts_recorded hash db'.
Proof using.
  intros H (decoded & Hd & Hf). exists decoded. rewrite (settled_replicated (dialog_events i) hash db db') by first [exact H|by intros []]. split; [done|].
  eapply Forall_impl; [exact Hf|]. intros row (request & R). exists request. by eapply in_stream_replicated.
Qed.
Lemma assets_last hash db db' : replicated hash db db' -> assets_recorded i streamID hash db -> assets_recorded i streamID hash db'.
Proof using.
  intros H (revision & R). exists revision.
  rewrite (settled_replicated (dialog_assets (sid_dialog i)) hash db db') by first [exact H|by intros []]. by eapply in_stream_replicated.
Qed.
Lemma lasting_covers {A} : lasting (A := A) (fun hash _ => covers i streamID hash).
Proof using.
  intros hash a db db' H [He Hf Ha]. constructor; [by eapply entries_last|by eapply facts_last|by eapply assets_last].
Qed.

Lemma exports_open stamp version queue : exports no_claim (open_stream i streamID stamp version queue).
Proof using.
  unfold open_stream. apply exports_then.
  - intros env c. apply wp_exec; [|stay..]. intros db' H. split_and!; [by destruct c| |done].
    assert (forall h, replica_ok h (tx c) -> replica_ok h db') as Hk by (intros h Hok; eapply open_keeps_ok; [|exact H|exact Hok]; reflexivity). unfold insert_replica_stream in H.
    destruct (guard _ (tx c)); [|done]. cbn [mbind option_bind] in H. destruct (exists_where _ _); [by injection H as <-|].
    unfold guard in H. destruct (negb _); [|done]. injection H as <-.
    constructor; [reflexivity|reflexivity|intros _; apply Hk].
  - intros u. apply exports_then; [by eapply exports_any, exports_query|]. intros o. repeat export_step.
Qed.
Lemma exports_fill stamp : exports (fun hash _ => covers i streamID hash) (fill_stream i streamID stamp).
Proof using.
  unfold fill_stream. eapply exports_weaken.
  - eapply exports_bind; [|apply exports_entries|intros u1]; [intros hash u; apply entries_last|].
    eapply (exports_bind (fun hash _ => facts_recorded hash)); [intros hash u; apply facts_last|apply exports_facts|intros u2].
    eapply exports_then; [apply exports_receipts|]. intros u3. eapply exports_then; [apply exports_texts|]. intros complete.
    eapply (exports_bind (fun hash _ => assets_recorded i streamID hash)); [intros hash u; apply assets_last|apply exports_assets|].
    intros u4. by apply (exports_ret no_claim).
  - intros hash complete db (u1 & He & u2 & Hf & u3 & Ha & _). by constructor.
Qed.

(** ** The checkpoint *)
Record sums (hash : string -> string) (cp : Checkpoint) (db : Db) : Prop := {
  sum_through : ThroughSeq cp = Z.of_nat (List.length (stream_rows streamID db));
  sum_chain : if 0 <? ThroughSeq cp then chain_at streamID (ThroughSeq cp) db = Some (ChainHash cp) else ChainHash cp = ChainGenesis hash streamID;
  sum_folds : let s := fold_left (replica_fold hash) (stream_rows streamID db) replica_genesis in
    Effects cp = rs_effects s /\ [EntriesHash cp; FactsHash cp; ReceiptsHash cp; TextHash cp; AssetManifestHash cp] = replica_hashes s;
  sum_version : export_dialog i db = Some (DialogVersion cp) /\ export_queue i db = Some (QueueRevision cp) }.

Lemma fold_next hash l s : rs_next (fold_left (replica_fold hash) l s) = rs_next s + Z.of_nat (List.length l).
Proof using.
  revert s. induction l as [|r l IH]; intros s; [cbn; lia|]. cbn [fold_left List.length]. rewrite IH. unfold replica_fold. cbv zeta.
  repeat match goal with |- context [if ?b then _ else _] => destruct b end; destruct s; cbn; lia.
Qed.

Lemma stream_rows_eq db db' : replica_records db' = replica_records db -> stream_rows streamID db' = stream_rows streamID db
  /\ forall n, chain_at streamID n db' = chain_at streamID n db.
Proof using. intros H. unfold stream_rows, chain_at. by rewrite H. Qed.

(** From the fold over the stream on nothing more is appended. *)
Lemma wp_checkpoint env stamp version queue ready c :
  let tail := stream ← replicaHashes streamID;
    let reason := if (ready : bool) then "" else "safe_text_incomplete" in
    let through := rs_next stream - 1 in
    chain ← (if 0 <? through then query_row (chain_at streamID through) else mret (ChainGenesis (sha256_hex env) streamID));
    exec (update_replica_stream streamID version queue ready (nullText reason) (replica_hashes stream) stamp) ;;
    mret (mkCheckpoint through chain version queue (rs_entries stream) (rs_facts stream) (rs_receipts stream) (rs_text stream)
            (rs_assets stream) (rs_effects stream) ready reason stamp) in
  export_dialog i (tx c) = Some version -> export_queue i (tx c) = Some queue ->
  wp env tail (fun cp c' => stays c c' /\ replicated (sha256_hex env) (tx c) (tx c') /\ sums (sha256_hex env) cp (tx c'))
              (fun e c' => is_return e = false /\ stays c c') c.
Proof using.
  intros tail Hversion Hqueue. unfold tail, replicaHashes. apply wp_bind, wp_bind, wp_ask, wp_bind, wp_query; [|stay]. apply wp_ret. cbv zeta.
  set (s := fold_left _ _ _). apply wp_bind. eapply wp_mono.
  { apply (wp_if_row env c (0 <? rs_next s - 1) (chain_at streamID (rs_next s - 1)) (ChainGenesis (sha256_hex env) streamID)). }
  2: { intros e c' [He ->]. stay. }
  intros chain c' [-> Hchain]. apply wp_bind, wp_exec; [|stay..]. intros db' H. apply wp_ret.
  assert (forall h, replica_ok h (tx c) -> replica_ok h db') as Hk by (intros h; by eapply update_keeps_ok).
  unfold update_replica_stream, guard in H. destruct (forallb _ _); [|done]. injection H as <-.
  split_and!; [by destruct c|constructor; [reflexivity|reflexivity|intros _; apply Hk]|].
  pose proof (fold_next (sha256_hex env) (stream_rows streamID (tx c)) replica_genesis) as Hnext. fold s in Hnext. cbn [rs_next replica_genesis] in Hnext.
  constructor; cbn [ThroughSeq ChainHash Effects EntriesHash FactsHash ReceiptsHash TextHash AssetManifestHash DialogVersion QueueRevision tx].
  - change (stream_rows streamID _) with (stream_rows streamID (tx c)). lia.
  - change (chain_at streamID ?n _) with (chain_at streamID n (tx c)). by destruct (0 <? _); [|injection Hchain].
  - by split.
  - by split.
Qed.

Lemma exports_materialize : exports (fun hash cp db => covers i streamID hash db /\ sums hash cp db) (materializeHistoryReplica i streamID).
Proof using.
  intros env c. unfold materializeHistoryReplica. apply wp_bind, wp_ask, wp_bind, wp_query_row; [|stay..]. intros version Hversion.
  apply wp_bind, wp_query_row; [|stay..]. intros queue Hqueue. apply wp_bind, wp_now. intros stamp.
  apply wp_bind. eapply wp_mono; [apply exports_open| |done]. intros u1 c1 (S1 & R1 & _). cbn beta.
  apply wp_bind. eapply wp_mono; [apply exports_fill|..]; cbn beta.
  2: { intros e c' [He Hs]. split; [done|by eapply stays_trans]. }
  intros ready c2 (S2 & R2 & C2). eapply wp_mono; [apply (wp_checkpoint env stamp version queue ready)|..]; cbn beta.
  - rewrite (settled_replicated (export_dialog i) (sha256_hex env) (tx c) (tx c2)); [done|by intros []|by etrans].
  - rewrite (settled_replicated (export_queue i) (sha256_hex env) (tx c) (tx c2)); [done|by intros []|by etrans].
  - intros cp c3 (S3 & R3 & Hcp). split_and!; [eapply stays_trans, stays_trans; eassumption|by etrans; [|etrans]| |done].
    exact (lasting_covers (sha256_hex env) cp (tx c2) (tx c3) R3 C2).
  - intros e c' [He Hs]. split; [done|]. eapply stays_trans, stays_trans; eassumption.
Qed.
End Stream.

(** ** The handler *)
Definition export_base (i : StreamIdentity) (streamID : string) (after : Z) (cp : Checkpoint) : ExportPage :=
  mkExportPage ReplicaSchemaID ReplicaSchemaSHA256 streamID i after [] None cp.
Record exported (hash : string -> string) (i : StreamIdentity) (after limit : Z) (db db' : Db) (body : json) : Prop := {
  xd_replicated : replicated hash db db';
  xd_covers : covers i (StreamID hash i) hash db';
  xd_page : exists cp records page, sums i (StreamID hash i) hash cp db' /\ after <= ThroughSeq cp
    /\ sequence (List.map ReplicaRecord_of_json (stream_page (StreamID hash i) after limit db')) = Some records
    /\ encodeHistoryExportPage hash (export_base i (StreamID hash i) after cp) records = Some page /\ body = ExportPage_json page }.
(** An answer of the export: a page of the committed stream, or a refusal that
    changed nothing. *)
Inductive export_answer (env : Env) (i : StreamIdentity) (after limit : Z) (c : Core) (r : Result) (c' : Core) : Prop :=
  | export_page body : r = mkResult 200 body true -> exported (sha256_hex env) i after limit (durable c) (durable c') body ->
      sid_node i = cfg_node env -> sid_owner i = cfg_owner env -> ValidIdentity i = true -> 0 <= after -> 1 <= limit <= ReplicaPageSize ->
      export_answer env i after limit c r c'
  | export_refusal : HTTPStatus r <> 200 -> Committed r = false -> durable c' = durable c -> export_answer env i after limit c r c'.

Definition export_return env i after limit c (e : err) (c' : Core) : Prop := exists r, e = Return r /\ export_answer env i after limit c r c'.
Lemma export_answers {A} env i after limit c c1 status code message correlation version state (Q : A -> Core -> Prop) :
  status <> 200 -> durable c1 = durable c -> wp env (answer status code message correlation version state) Q (export_return env i after limit c) c1.
Proof.
  intros Hs Hd. apply wp_answer. intros corr. eexists. split; [reflexivity|]. by apply export_refusal.
Qed.
Lemma export_durable {A} env i after limit c c1 (m : M A) message correlation Q :
  wp env m Q (fun e c' => is_return e = false /\ durable c' = durable c) c1 ->
  wp env (or_not_durable m message correlation) Q (export_return env i after limit c) c1.
Proof.
  intros Hm. apply wp_or_not_durable. eapply wp_mono; [exact Hm|done|]. intros e c' [He Hd].
  assert (forall corr, export_return env i after limit c (Return (mkResult 503 (error_body "not_durable" message corr None "") false)) c') as Hr
    by (intros corr; eexists; split; [reflexivity|]; by apply export_refusal).
  by destruct e.
Qed.

Lemma wp_ExportHistory env trust i after limit c :
  wp env (ExportHistory trust i after limit) (export_answer env i after limit c) (export_return env i after limit c) c.
Proof.
  unfold ExportHistory, authorizeRead. apply wp_bind, wp_bind, wp_ask. destruct (negb _); [by apply export_answers|]. apply wp_ret.
  apply wp_bind, wp_ask, wp_bind, wp_ask, wp_bind, wp_ask. cbv zeta.
  destruct (valid_export_query _ _ _ _ _) eqn:Evalid; cbn [negb]; [|by apply export_answers].
  apply wp_bind, export_durable, wp_begin; [|done]. apply wp_bind, export_durable, wp_loadState; [|done]. apply wp_bind, wp_get.
  destruct (_ || _); [by apply export_answers|]. apply wp_bind, wp_catch. cbn [tx durable st].
  eapply wp_mono; [apply exports_materialize|..]; cbn beta.
  2: { intros e c' [He Hs]. unfold stays in Hs. destruct e; [done|by apply export_answers; [|rewrite Hs]..]. }
  intros cp c1 (S1 & R1 & C1 & Hcp). cbn [tx] in R1. assert (durable c1 = durable c) as Hd by (unfold stays in S1; by rewrite S1).
  destruct (Z.ltb_spec (ThroughSeq cp) after) as [|Hafter]; [by apply export_answers|].
  apply wp_bind, export_durable, wp_query; [|done].
  destruct (sequence _) as [records|] eqn:Erecords; [|by apply export_answers].
  destruct (encodeHistoryExportPage _ _ _) as [page|] eqn:Epage; [|by apply export_answers].
  apply wp_bind, export_durable, wp_commit; [|done]. apply wp_ret. unfold valid_export_query in Evalid. simplify_bool.
  econstructor 1; [reflexivity| |done..|split; lia]. cbn [durable].
  constructor; [exact R1|exact C1|]. by exists cp, records, page.
Qed.

Lemma export_run env x trust i after limit c : exists r c', respond (ExportHistory trust i after limit) env x c = (Some r, c')
  /\ export_answer env i after limit c r c'.
Proof.
  pose proof (wp_ExportHistory env trust i after limit c x) as H. unfold respond, run.
  destruct (ExportHistory trust i after limit env x c) as [[[e|r] x'] c']; cbn beta iota in H |- *; [destruct H as (r & -> & H)|]; by exists r, c'.
Qed.
Lemma replicated_inv hash node db db' : replicated hash db db' -> DbInv node db -> DbInv node db'.
Proof. intros [-> _ _] []. by constructor. Qed.
Lemma replicated_extends hash db db' : replicated hash db db' -> extends db db'.
Proof. intros [-> H _]. by constructor. Qed.

Lemma transaction_export trust i after limit : transaction (ExportHistory trust i after limit).
Proof.
  intros env c HD. assert (forall r c', export_answer env i after limit c r c' -> DbInv (cfg_node env) (durable c')) as Ha.
  { intros r c' [body _ [HR _ _] _ _ _ _ _|_ _ ->]; [by eapply replicated_inv|done]. }
  eapply wp_mono; [apply wp_ExportHistory|..]; cbn beta; [exact Ha|]. intros e c' (r & _ & H). by eapply Ha.
Qed.
Lemma atomic_export trust i after limit : atomic (ExportHistory trust i after limit).
Proof.
  intros env x c. pose proof (wp_ExportHistory env trust i after limit c x) as H.
  destruct (ExportHistory trust i after limit env x c) as [[[e|r] x'] c']; cbn beta iota in H |- *; [destruct H as (r & -> & H)|];
    by destruct H as [body -> ? ? ? ? ?|? ? ->].
Qed.
Lemma settles_export trust i after limit : settles (ExportHistory trust i after limit).
Proof.
  intros env x c. pose proof (wp_ExportHistory env trust i after limit c x) as H.
  destruct (ExportHistory trust i after limit env x c) as [[[e|r] x'] c']; cbn beta iota in H |- *; [by destruct H as (r & -> & H)|done].
Qed.
Lemma export_extends env x trust i after limit c : extends (durable c) (durable (ExportHistory trust i after limit env x c).2).
Proof.
  pose proof (wp_ExportHistory env trust i after limit c x) as H.
  destruct (ExportHistory trust i after limit env x c) as [[[e|r] x'] c']; cbn beta iota in H |- *; [destruct H as (r & -> & H)|];
    (destruct H as [body -> [HR _ _] _ _ _ _ _|_ _ Hd]; cbn [snd]; [by eapply replicated_extends|by rewrite Hd]).
Qed.
Lemma kept_replicas hash db db' : kept db db' -> replica_ok hash db -> replica_ok hash db'.
Proof.
  intros [_ Hs Hr] [H1 H2 H3]. constructor; rewrite ?Hs, ?Hr; [done..|]. intros s Hin. destruct (H3 s Hin) as [H].
  constructor. unfold stored_rows in *. by rewrite Hr.
Qed.
Lemma export_replicas env x trust i after limit c : sha64 (sha256_hex env) -> replica_ok (sha256_hex env) (durable c) ->
  replica_ok (sha256_hex env) (durable (ExportHistory trust i after limit env x c).2).
Proof.
  intros H64 Hok. pose proof (wp_ExportHistory env trust i after limit c x) as H.
  destruct (ExportHistory trust i after limit env x c) as [[[e|r] x'] c']; cbn beta iota in H |- *; [destruct H as (r & -> & H)|];
    (destruct H as [body -> [HR _ _] _ _ _ _ _|_ _ Hd]; cbn [snd]; [by apply HR|by rewrite Hd]).
Qed.
