(* ===== verification/Reach.v ===== *)
(** * Reachable volumes
    [handler] lists the entry points that open a transaction, [worker] the
    transactions of the workers with what they read of the committed database
    before; a step runs one of them in any environment of the node, from any
    volatile state, and leaves its committed database.  Every database reachable from a fresh volume
    satisfies the node invariant; the theorems read it off. *)
From stdpp Require Import base tactics list strings gmap pretty.
From Stdlib Require Import ZArith Lia Ascii String.
From S2P Require Import Prelude Json Wire Store Tx Adapter Events Commands Barrier Hold Submit Dispatch LogicalDelete Frames.
From S2P Require Import TranscriptView Capture Observe Actions Recovery Invariant Handlers Transactions DeleteTx WorkerTx.
From S2P Require Import Read Replay Paging Pages HistoryReplica HistoryExport Artifacts Reading ArtifactTx Exporting.
Open Scope string_scope.
Open Scope list_scope.
Open Scope Z_scope.
Open Scope harness_scope.

(** ** The fresh volume of [migrate], [runtime/schema.go] *)
Definition freshState (node owner : string) (registry : Z) : durableState :=
  mkState node owner registry 1 0 0 0 false "online" "blocked" "idle" None 0 ["policy_unavailable"] 1 1.
Definition freshDb (node owner : string) (registry : Z) : Db :=
  mkDb (freshState node owner registry) [] [] [] [] [] [] [] [] [] [] [] [] [] 1 [] [] [] []
    [mkQuiescence "node" 1 1] [] [] [].

Lemma fresh_inv node owner registry : DbInv node (freshDb node owner registry).
Proof.
  constructor; cbn; try done; unfold commands_ok, slots_ok, owned;
    first [apply NoDup_nil_2|intros a Ha; set_solver|constructor; try done; try apply NoDup_nil_2; set_solver].
Qed.

(** ** Steps *)
Inductive http_handler : M Result -> Prop :=
  | http_submit trust raw : http_handler (SubmitCommand trust raw)
  | http_install transport raw : http_handler (InstallHold transport raw)
  | http_status transport operation : http_handler (HoldStatus transport operation)
  | http_quiescence transport operation : http_handler (QuiescenceProof transport operation)
  | http_release transport raw : http_handler (ReleaseHold transport raw)
  | http_delete transport raw : http_handler (DeleteLogicalDialog transport raw)
  | http_delete_status transport operation : http_handler (LogicalDeleteStatus transport operation)
  | http_read m : read_handler m -> http_handler m
  | http_export trust i after limit : http_handler (ExportHistory trust i after limit).

Inductive handler : forall A, M A -> Prop :=
  | handler_http m : http_handler m -> handler Result m
  | handler_peek : handler _ peekDispatch
  | handler_dispatch candidate policy : handler _ (commitDispatch candidate policy)
  | handler_block : handler _ blockPolicy.
#[export] Hint Constructors http_handler handler : harness.

(** The settled attempts and messages are those of an intent in flight. *)
Inductive worker (db : Db) : forall A, M A -> Prop :=
  | worker_claim adapter l : worker db _ (claimAction adapter l)
  | worker_finish command status : worker db _ (finishAction command status)
  | worker_requeue command : worker db _ (requeueAction command)
  | worker_started reference : has_attempt reference db -> worker db _ (markStarted reference)
  | worker_unknown reference reason effect : has_attempt reference db -> worker db _ (markAttemptUnknown reference reason effect)
  | worker_refused o : refusable o db -> worker db _ (ObserveAttempt o)
  | worker_steer reference message outcome : steering reference message db -> worker db _ (finishSteer reference message outcome)
  | worker_approval reference actor p outcome : has_attempt reference db -> worker db _ (finishApproval reference actor p outcome)
  | worker_input reference message p outcome : has_attempt reference db -> worker db _ (finishInput reference message p outcome)
  | worker_observe (T : SafeText) expected e : worker db _ (ObserveAdapterEvent expected e)
  | worker_startup : worker db _ recoverStartup
  | worker_pristine policy : worker db _ (recoverPristinePolicy policy)
  | worker_reconcile (T : SafeText) reference result : worker db _ (applyReconciledTerminal reference result)
  | worker_store i content : worker db _ (StoreArtifact i content).
#[export] Hint Constructors worker : harness.

Inductive step (node : string) : Db -> Db -> Prop :=
  | step_handler A (m : M A) env x c :
      handler A m -> cfg_node env = node -> step node (durable c) (durable (run m env x c).2)
  | step_worker A (m : M A) env x c :
      worker (durable c) A m -> cfg_node env = node -> step node (durable c) (durable (run m env x c).2).

Definition reachable (node : string) : Db -> Db -> Prop := rtc (step node).

Lemma transaction_reads {A} (m : M A) : reads m -> transaction m.
Proof. intros Hm env c HD. eapply wp_mono; [apply Hm|..]; unfold untouched; intros ? ? ->; done. Qed.
Lemma handler_transaction A (m : M A) : handler A m -> transaction m.
Proof.
  destruct 1 as [m []| | |]; eauto using transaction_submit, transaction_install, transaction_hold_status,
    transaction_quiescence, transaction_release, transaction_delete, transaction_delete_status,
    transaction_reads, read_handler_reads, transaction_export, transaction_peek, transaction_commit_dispatch, transaction_block_policy.
Qed.

Lemma transaction_all {A} G (m : M A) : transaction m -> transaction_on G m.
Proof. intros Hm env c HD _. by apply Hm. Qed.
Lemma worker_transaction db A (m : M A) : worker db A m -> exists G : Db -> Prop, G db /\ transaction_on G m.
Proof.
  destruct 1; try (exists (fun _ => True); split; [done|]; apply transaction_all;
    solve [eauto using transaction_claim, transaction_finish, transaction_requeue, transaction_observe, transaction_recover_startup,
      transaction_pristine, transaction_reconcile, transaction_store]).
  all: eexists; split; [eassumption|].
  all: eauto using transaction_mark_started, transaction_mark_unknown, transaction_observe_attempt, transaction_finish_steer,
    transaction_finish_approval, transaction_finish_input.
Qed.

Lemma transaction_run {A} G (m : M A) env x c :
  transaction_on G m -> G (durable c) -> DbInv (cfg_node env) (durable c) -> DbInv (cfg_node env) (durable (run m env x c).2).
Proof.
  intros Hm HG HD. specialize (Hm env c HD HG x). unfold run. by destruct (m env x c) as [[[e|a] x'] c'].
Qed.

Lemma step_inv node db db' : step node db db' -> DbInv node db -> DbInv node db'.
Proof.
  intros [A m env x c Hm <-|A m env x c Hm <-] HD.
  - apply (transaction_run (fun _ => True)); [by eapply transaction_all, handler_transaction|done..].
  - apply worker_transaction in Hm as (G & HG & Hm). by apply (transaction_run G).
Qed.

Lemma reachable_inv node owner registry db :
  reachable node (freshDb node owner registry) db -> DbInv node db.
Proof.
  intros H. assert (DbInv node (freshDb node owner registry)) as H0 by apply fresh_inv.
  induction H as [|db db1 db2 Hs _ IH]; [done|]. apply IH. by eapply step_inv.
Qed.

(** The databases a node can have: what any history leaves of a fresh volume. *)
Definition volume (node : string) (db : Db) : Prop := exists owner registry, reachable node (freshDb node owner registry) db.
Lemma volume_inv node db : volume node db -> DbInv node db.
Proof. intros (owner & registry & H). by eapply reachable_inv. Qed.
