(* ===== verification/Demo.v ===== *)
(** * A concrete node
    One node, its identities, a healthy environment and a short history on a
    fresh volume, evaluated by the kernel: the witnesses of the theorems start
    from here. *)
From stdpp Require Import base tactics list strings gmap pretty.
From Stdlib Require Import ZArith Lia Ascii String.
From S2P Require Import Prelude Json Wire Store Tx Adapter Events Commands Barrier Hold Submit Dispatch Frames.
From S2P Require Import TranscriptView Capture Observe Actions Recovery Invariant Handlers Transactions WorkerTx Reach.
Open Scope string_scope.
Open Scope list_scope.
Open Scope Z_scope.
Open Scope harness_scope.

Definition demo_uuid (family : string) (n : nat) : string :=
  "00000000-0000-4000-8" +:+ family +:+ "-0000000000"
  +:+ (if Nat.ltb n 10 then "0" else "") +:+ itoa (Z.of_nat n).
Definition demo_node : string := demo_uuid "000" 1.
Definition demo_owner : string := "owner@harness".

(** A stand-in digest of 64 hexadecimal digits, with SHA-256's own value on the
    empty input. *)
Fixpoint demo_hex (digits : nat) (n : N) : string :=
  match digits with O => "" | S k => demo_hex k (n / 16)%N +:+ String (hex_digit (n mod 16)%N) "" end.
Fixpoint demo_mix (acc : N) (s : string) : N :=
  match s with EmptyString => acc | String c r => demo_mix ((acc * 1000003 + N_of_ascii c + 1) mod 340282366920938463463374607431768211297)%N r end.
Definition demo_sha (s : string) : string :=
  if s =s "" then "e3b0c44298fc1c149afbf4c8996fb92427ae41e4649b934ca495991b7852b855"
  else demo_hex 32 (demo_mix 7 s) +:+ demo_hex 32 (demo_mix 11 s).

(** The environment whose n-th identity is of the given family, with every
    operation of [ok] succeeding and no fault injected. *)
Definition demo_env_with (ok : nat -> bool) (family : string) : Env :=
  mkEnv demo_node demo_owner "cursor" "1.0.31" (fun n => Some (demo_uuid family n)) (fun _ => "2026-01-01T00:00:00Z")
    ok (fun _ => Some (mkSpace (2 ^ 40) (2 ^ 41))) (fun _ => false) demo_sha.
Definition demo_env : string -> Env := demo_env_with (fun _ => true).
Definition demo_aux : Aux := mkAux 0 0 0 0.
Definition demo_core (db : Db) : Core := mkCore db db (node_state db) ReserveAllocated false [] 0 [] [] false.

Definition demo_fresh : Db := freshDb demo_node demo_owner 1.
Definition demo_trust : TrustContext := mkTrust demo_node None.
Definition demo_run {A} (m : M A) (family : string) (db : Db) : Db :=
  durable (run m (demo_env family) demo_aux (demo_core db)).2.

Definition demo_command (id kind : string) (target expected payload : list (string * json)) : document :=
  document_of (CommandEnvelope_json (mkEnvelope id kind (JObj target) (JObj expected) (JObj payload))).

(** ** The history *)
Definition demo_create : document :=
  demo_command (demo_uuid "100" 1) CommandDialogCreate [("nodeId", JStr demo_node)] [("registryVersion", JInt 1)]
    [("title", JStr "first")].
Definition demo_dialog : string := demo_uuid "001" 0.
Definition demo_enqueue (version : Z) (n : nat) : document :=
  demo_command (demo_uuid "100" n) CommandMessageEnqueue [("nodeId", JStr demo_node); ("dialogId", JStr demo_dialog)]
    [("dialogVersion", JInt version)] [("text", JStr "hello")].

Definition demo_db1 : Db := Eval vm_compute in demo_run (SubmitCommand demo_trust demo_create) "001" demo_fresh.
Definition demo_db2 : Db := Eval vm_compute in demo_run (SubmitCommand demo_trust (demo_enqueue 1 2)) "002" demo_db1.
Definition demo_db3 : Db := Eval vm_compute in demo_run (SubmitCommand demo_trust (demo_enqueue 2 3)) "003" demo_db2.

Definition demo_install : document :=
  document_of (InstallRequest_json (mkInstallRequest 1 BarrierSchemaID "hold-1" demo_node 1 1 (mkScope "dialog" demo_dialog) 0)).
Definition demo_held : Db := Eval vm_compute in demo_run (InstallHold demo_node demo_install) "004" demo_db3.

Definition demo_policy : PolicySnapshot :=
  let p := mkPolicy "r1" "{}" (demo_sha "{}") "[]" (demo_sha "[]") ApprovalModeDeny "" in
  mkPolicy "r1" "{}" (demo_sha "{}") "[]" (demo_sha "[]") ApprovalModeDeny (EffectivePolicyHash demo_sha p).
Definition demo_candidate : dispatchCandidate :=
  mkCandidate (demo_uuid "002" 1) demo_dialog (demo_uuid "002" 0) "hello" 1 (StateVersion (node_state demo_db3)).
Definition demo_running : Db := Eval vm_compute in demo_run (commitDispatch demo_candidate demo_policy) "005" demo_db3.

(** ** The workers
    An adapter that accepts everything. *)
Definition demo_adapter : Adapter :=
  mkAdapter true true (fun _ _ _ _ => Some StartStarted) (fun _ _ _ _ => Some ResumeStarted) (fun _ => Some CancelAcknowledged)
    (fun _ _ _ => Some SteerApplied) (fun _ _ _ _ _ => Some ResponseApplied) (fun _ _ _ _ => Some ResponseApplied)
    (fun _ => Some (mkReconcile ReconcileRunning None None None "none")).
Definition demo_intent (kind : string) (db : Db) : option action_row :=
  select1 (fun c => (act_kind c =s kind) && (act_status c =s "inflight")) (control_actions db).
Definition demo_perform (kind family : string) (db : Db) : Db :=
  match demo_intent kind db with Some action => demo_run (performAction demo_adapter action) family db | None => db end.
Definition demo_claimed : Db := Eval vm_compute in demo_run (claimAction demo_adapter DispatchLane) "006" demo_running.
Definition demo_started : Db := Eval vm_compute in demo_perform actionDispatchStart "007" demo_claimed.
Definition demo_attempt : string := demo_uuid "005" 0.
Definition demo_steer : document :=
  demo_command (demo_uuid "100" 4) CommandMessageSteer
    [("nodeId", JStr demo_node); ("dialogId", JStr demo_dialog); ("messageId", JStr (demo_uuid "003" 0)); ("attemptId", JStr demo_attempt)]
    [("attemptGeneration", JInt 1); ("messageVersion", JInt 1)] [].
Definition demo_steered : Db := Eval vm_compute in demo_run (SubmitCommand demo_trust demo_steer) "008" demo_started.

Lemma demo_step {A} (m : M A) family db db' :
  handler A m -> db' = demo_run m family db -> step demo_node db db'.
Proof. intros Hm ->. apply (step_handler demo_node A m (demo_env family) demo_aux (demo_core db)); done. Qed.

Lemma demo_step1 : step demo_node demo_fresh demo_db1.
Proof. eapply (demo_step _ "001"); [apply handler_http, (http_submit demo_trust demo_create)|by vm_compute]. Qed.
Lemma demo_step2 : step demo_node demo_db1 demo_db2.
Proof. eapply (demo_step _ "002"); [apply handler_http, (http_submit demo_trust (demo_enqueue 1 2))|by vm_compute]. Qed.
Lemma demo_step3 : step demo_node demo_db2 demo_db3.
Proof. eapply (demo_step _ "003"); [apply handler_http, (http_submit demo_trust (demo_enqueue 2 3))|by vm_compute]. Qed.
Lemma demo_step_held : step demo_node demo_db3 demo_held.
Proof. eapply (demo_step _ "004"); [apply handler_http, (http_install demo_node demo_install)|by vm_compute]. Qed.
Lemma demo_step_running : step demo_node demo_db3 demo_running.
Proof. eapply (demo_step _ "005"); [apply (handler_dispatch demo_candidate demo_policy)|by vm_compute]. Qed.
Lemma demo_reachable3 : reachable demo_node demo_fresh demo_db3.
Proof. eapply rtc_l; [apply demo_step1|]. eapply rtc_l; [apply demo_step2|]. apply rtc_once, demo_step3. Qed.
Lemma demo_reachable_held : reachable demo_node demo_fresh demo_held.
Proof. eapply rtc_r; [apply demo_reachable3|apply demo_step_held]. Qed.
Lemma demo_reachable_running : reachable demo_node demo_fresh demo_running.
Proof. eapply rtc_r; [apply demo_reachable3|apply demo_step_running]. Qed.


Lemma demo_work {A} (m : M A) family db db' :
  worker db A m -> db' = demo_run m family db -> step demo_node db db'.
Proof. intros Hm ->. by apply (step_worker demo_node A m (demo_env family) demo_aux (demo_core db)). Qed.
Lemma demo_step_claimed : step demo_node demo_running demo_claimed.
Proof. eapply (demo_work _ "006"); [apply (worker_claim _ demo_adapter DispatchLane)|by vm_compute]. Qed.
Lemma demo_reachable_claimed : reachable demo_node demo_fresh demo_claimed.
Proof. eapply rtc_r; [apply demo_reachable_running|apply demo_step_claimed]. Qed.

Lemma demo_volume db : reachable demo_node demo_fresh db -> volume demo_node db.
Proof. by exists demo_owner, 1. Qed.
