(* ===== verification/NodeFacts.v ===== *)
(** * What holds of every reachable volume
    The theorems of this file speak of any database that any interleaving of
    the node's handlers can leave, in any environment, from a fresh volume. *)
From stdpp Require Import base tactics list strings gmap pretty.
From Stdlib Require Import ZArith Lia Ascii String.
From S2P Require Import Prelude Json Wire Store Tx Adapter Events Commands Barrier Hold Submit Dispatch Frames.
From S2P Require Import Invariant Handlers Transactions Reach Demo.
Open Scope string_scope.
Open Scope list_scope.
Open Scope Z_scope.
Open Scope harness_scope.

(** C1: the durable event log of a reachable volume has no gap, no duplicate
    and no reordering: the i-th stored event carries sequence number i, in its
    row and in its envelope, under the node's identity and current epoch, it
    satisfies the frozen event schema, and [LastEventSeq] is their number. *)
Theorem event_log_gap_free node owner registry db :
  reachable node (freshDb node owner registry) db ->
  LastEventSeq (node_state db) = Z.of_nat (List.length (events db))
  /\ forall i e, events db !! i = Some e ->
       evt_seq e = Z.of_nat (S i) /\ evt_node e = node /\ evt_epoch e = Epoch (node_state db)
       /\ field "seq" (evt_json e) = Some (JInt (Z.of_nat (S i)))
       /\ Validate "event" (document_of (evt_json e)) = true.
Proof.
  intros H. apply reachable_inv in H as [_ Hnode [Hlast Hlog] _ _ _ _ _]. split; [done|].
  intros i e Hi. destruct (log_from_lookup _ _ _ _ _ _ Hlog Hi) as (E1 & E2 & E3 & E4 & E5).
  rewrite Hnode in E1. done.
Qed.

Lemma event_log_gap_free_witness :
  exists e, events demo_running !! 9%nat = Some e /\ evt_seq e = 10.
Proof.
  destruct (event_log_gap_free demo_node demo_owner 1 demo_running demo_reachable_running) as [_ H].
  destruct (events demo_running !! 9%nat) as [e|] eqn:He; [|by vm_compute in He].
  exists e. split; [done|]. by destruct (H 9%nat e He) as [-> _].
Defined.

(** C2: [PendingCount] is the number of queued requests, so the admission
    capacity check and the snapshot's count are about the queue itself; and no
    two requests share an id or a queue sequence, all of them below the next one. *)
Theorem queue_accounting node owner registry db :
  reachable node (freshDb node owner registry) db ->
  PendingCount (node_state db) = count_where (fun r => req_status r =s "queued") (requests db)
  /\ NoDup (List.map req_id (requests db)) /\ NoDup (List.map req_sequence (requests db))
  /\ forall r, r ∈ requests db -> req_sequence r < NextQueueSequence (node_state db).
Proof. intros H. by apply reachable_inv in H as [_ _ _ ? [? ? ?] _ _ _]. Qed.

Lemma queue_accounting_witness :
  PendingCount (node_state demo_running) = 1 /\ count_where (fun r => req_status r =s "queued") (requests demo_running) = 1.
Proof.
  destruct (queue_accounting demo_node demo_owner 1 demo_running demo_reachable_running) as [H _].
  split; [by vm_compute|]. rewrite <- H. by vm_compute.
Defined.

(** C3: at most one attempt is in an active state, and it is the one
    [ActiveAttemptID] names; when it names none, none is active. *)
Theorem single_active_attempt node owner registry db :
  reachable node (freshDb node owner registry) db ->
  (forall a, a ∈ attempts db -> active_attempt a = true <-> ActiveAttemptID (node_state db) = Some (att_id a))
  /\ (forall a b, a ∈ attempts db -> b ∈ attempts db -> active_attempt a = true -> active_attempt b = true -> a = b)
  /\ (forall id, ActiveAttemptID (node_state db) = Some id -> exists a, a ∈ attempts db /\ att_id a = id /\ active_attempt a = true).
Proof.
  intros H. apply reachable_inv in H as [_ _ _ _ _ [Hid Hact Hpres] _ _]. split_and!; [done|..].
  - intros a b Ha Hb Aa Ab. apply Hact in Aa, Ab; try done. rewrite Aa in Ab. injection Ab as He.
    eapply (select1_unique att_id (attempts db) (att_id b)); try done. by apply select1_key_unique.
  - intros id Hid'. destruct (Hpres id Hid') as (a & Ha & <-). exists a. split_and!; [done..|]. by apply Hact.
Qed.

Lemma single_active_attempt_witness :
  exists a, a ∈ attempts demo_running /\ att_id a = demo_uuid "005" 0 /\ active_attempt a = true.
Proof.
  destruct (single_active_attempt demo_node demo_owner 1 demo_running demo_reachable_running) as (_ & _ & H).
  by apply H.
Defined.

(** C4: two active holds of the node never overlap (a node hold overlaps every
    hold, dialog holds overlap on the same dialog), and each active hold
    carries the current revision of its scope: installing and releasing is
    serialised per scope. *)
Theorem active_holds_exclusive node owner registry db :
  reachable node (freshDb node owner registry) db ->
  (forall h1 h2, h1 ∈ administrative_holds db -> h2 ∈ administrative_holds db -> hold_active db h1 = true ->
     hold_active db h2 = true ->
     hold_scope h1 = "node" \/ hold_scope h2 = "node" \/ hold_dialog h1 = hold_dialog h2 -> h1 = h2)
  /\ forall h, h ∈ administrative_holds db -> hold_active db h = true ->
       scope_revision_of db (scope_key (durableHold_scope h)) = Some (hold_revision h).
Proof.
  intros H. apply reachable_inv in H as [_ _ _ _ _ _ [Hop Hfacts Hkeys Hout Hdis Hcur] _].
  assert (forall h, hold_active db h = true -> released (administrative_hold_outcomes db) h = false) as Hrel.
  { intros h. unfold hold_active, released. by destruct (exists_where _ _). }
  split.
  - intros h1 h2 H1 H2 A1 A2 Hov. assert (overlap h1 h2 = true) as Ho.
    { unfold overlap. destruct Hov as [->|[->|Hd]]; [done|by rewrite orb_true_r|].
      rewrite (bool_decide_true _ Hd). by rewrite orb_true_r. }
    eapply (select1_unique hold_operation (administrative_holds db) (hold_operation h2)); try done;
      [by apply select1_key_unique|]. apply Hdis; auto.
  - intros h Hin Ha. destruct (Hcur h Hin (Hrel h Ha)) as (r & Hr & Hk & Hv).
    unfold scope_revision_of. rewrite (select1_key_unique hsr_key _ r) by done. by rewrite <- Hv.
Qed.

Lemma active_holds_exclusive_witness :
  exists h, h ∈ administrative_holds demo_held /\ scope_revision_of demo_held (scope_key (durableHold_scope h)) = Some 1.
Proof.
  destruct (active_holds_exclusive demo_node demo_owner 1 demo_held demo_reachable_held) as [_ H].
  destruct (administrative_holds demo_held) as [|h l] eqn:He; [by vm_compute in He|].
  assert (h ∈ h :: l) as Hin by set_solver. exists h. split; [done|]. rewrite H; [|done|]; vm_compute in He; by injection He as <- <-.
Defined.

(** C5: a command id names at most one durable outcome, a receipt or a
    rejection, whatever was retried: the lookup of [SubmitCommand] never meets
    two. *)
Theorem one_durable_outcome node owner registry db id :
  reachable node (freshDb node owner registry) db -> (List.length (command_outcomes id db) <= 1)%nat.
Proof. intros H. apply reachable_inv in H as [_ _ _ _ _ _ _ Hc]. by apply commands_ok_outcomes. Qed.

Lemma one_durable_outcome_witness : (List.length (command_outcomes (demo_uuid "100" 2) demo_db3) <= 1)%nat.
Proof. apply (one_durable_outcome demo_node demo_owner 1 demo_db3), demo_reachable3. Defined.
