(* ===== verification/Answers.v ===== *)
(** * Every handler answers, and an uncommitted answer changed nothing
    The commit discipline of [Atomic] instantiated at the HTTP handlers. *)
From stdpp Require Import base tactics list strings gmap pretty.
From Stdlib Require Import ZArith Lia Ascii String.
From S2P Require Import Prelude Json Wire Store Tx Adapter Events Commands Barrier Hold Submit Dispatch LogicalDelete Frames.
From S2P Require Import TranscriptView Capture Observe Actions Recovery Atomic Append Invariant Handlers Transactions WorkerHistory.
From S2P Require Import Read Replay Paging Pages SafeTextStore DialogView ToolTimeline Artifacts HistoryReplica HistoryExport Replicas Reading ArtifactTx Exporting Reach Demo.
Open Scope string_scope.
Open Scope list_scope.
Open Scope Z_scope.
Open Scope harness_scope.

(** ** The command handlers never commit *)
Lemma nocommit_one {A} (p : A -> bool) l : nocommit (one p l).
Proof. unfold one. nocommit_tac. Qed.
#[export] Hint Resolve nocommit_one : nocommit.
Lemma nocommit_by_id id :
  nocommit (message_by_id id) /\ nocommit (request_by_id id) /\ nocommit (attempt_by_id id) /\ nocommit (dialog_by_id id).
Proof. unfold message_by_id, request_by_id, attempt_by_id, dialog_by_id. split_and!; nocommit_tac. Qed.
#[export] Hint Extern 1 (nocommit (message_by_id _)) => apply nocommit_by_id : nocommit.
#[export] Hint Extern 1 (nocommit (request_by_id _)) => apply nocommit_by_id : nocommit.
#[export] Hint Extern 1 (nocommit (attempt_by_id _)) => apply nocommit_by_id : nocommit.
#[export] Hint Extern 1 (nocommit (dialog_by_id _)) => apply nocommit_by_id : nocommit.

Lemma nocommit_applyCommand e : nocommit (applyCommand e).
Proof.
  unfold applyCommand, applyDialogCreate, applyMessageEnqueue, applyRequestCancel, applyQueueResume, applyAttemptStop,
    applyAttemptRetry, applyMessageSteer, applyApproval, applyInput.
  nocommit_tac.
Qed.

Lemma silent_applyCommand e : silent (applyCommand e).
Proof.
  unfold applyCommand, applyDialogCreate, applyMessageEnqueue, applyRequestCancel, applyQueueResume, applyAttemptStop,
    applyAttemptRetry, applyMessageSteer, applyApproval, applyInput, message_by_id, request_by_id, attempt_by_id, dialog_by_id, one.
  silent_tac.
Qed.

Lemma nocommit_storage_gate kind correlation : nocommit (storage_gate kind correlation).
Proof. unfold storage_gate, storageBelowAdmissionFloor, physicalStorageBelowAdmissionFloor. nocommit_tac. Qed.
Lemma nocommit_loadCommandOutcome id : nocommit (loadCommandOutcome id).
Proof. unfold loadCommandOutcome. nocommit_tac. Qed.
Lemma nocommit_replay_outcome outcome digest correlation : nocommit (replay_outcome outcome digest correlation).
Proof. apply nocommit_readonly, readonly_replay_outcome. Qed.
Lemma nocommit_require_dialog_owner s dialog : nocommit (require_dialog_owner s dialog).
Proof. apply nocommit_readonly, readonly_require_dialog_owner. Qed.
#[export] Hint Resolve nocommit_applyCommand nocommit_storage_gate nocommit_loadCommandOutcome nocommit_replay_outcome
  nocommit_require_dialog_owner : nocommit.

(** ** Atomicity *)
Lemma atomic_commit_command envelope canonical digest a : atomic (commit_command envelope canonical digest a).
Proof. unfold commit_command. atomic_tac. Qed.
Lemma atomic_rejection s envelope canonical digest h : atomic (commitCommandRejection s envelope canonical digest h).
Proof. unfold commitCommandRejection. atomic_tac. Qed.
#[export] Hint Resolve atomic_commit_command atomic_rejection : atomic.


Lemma nocommit_applyDialogDelete e : nocommit (applyDialogDelete e).
Proof. unfold applyDialogDelete. nocommit_tac. Qed.
#[export] Hint Resolve nocommit_applyDialogDelete : nocommit.


(** ** Totality *)
Lemma settles_commit_command envelope canonical digest a : settles (commit_command envelope canonical digest a).
Proof. unfold commit_command. settles_tac. Qed.
Lemma settles_rejection s envelope canonical digest h : settles (commitCommandRejection s envelope canonical digest h).
Proof. unfold commitCommandRejection. settles_tac. Qed.
Lemma settles_storage_gate kind correlation : settles (storage_gate kind correlation).
Proof. unfold storage_gate, storageBelowAdmissionFloor, physicalStorageBelowAdmissionFloor. settles_tac. Qed.
#[export] Hint Resolve settles_commit_command settles_rejection settles_storage_gate : settles.
Lemma settles_require_dialog_owner s dialog : settles (require_dialog_owner s dialog).
Proof. unfold require_dialog_owner. settles_tac. Qed.
#[export] Hint Resolve settles_require_dialog_owner : settles.
Lemma settles_authorizeRead trust : settles (authorizeRead trust).
Proof. unfold authorizeRead. settles_tac. Qed.
Lemma settles_wireResult wireType value : settles (wireResult wireType value).
Proof. unfold wireResult. settles_tac. Qed.
Lemma settles_or_limit limit message : settles (or_limit limit message).
Proof. unfold or_limit, Invalid. settles_tac. Qed.
Lemma settles_or_cursor r correlation : settles (or_cursor r correlation).
Proof. unfold or_cursor. settles_tac. Qed.
Lemma settles_in_read_scope {A} (f : Db -> option A) missing unavailable correlation :
  settles (in_read_scope f missing unavailable correlation).
Proof. unfold in_read_scope. settles_tac. Qed.
Lemma settles_open_read message correlation : settles (open_read message correlation).
Proof. unfold open_read. settles_tac. Qed.
Lemma settles_current_state message : settles (current_state message).
Proof. unfold current_state. settles_tac. Qed.
#[export] Hint Resolve settles_authorizeRead settles_wireResult settles_or_limit settles_or_cursor settles_in_read_scope
  settles_open_read settles_current_state : settles.
Lemma settles_identity p trust : settles (IdentityRead p trust).
Proof. unfold IdentityRead. settles_tac. Qed.
Lemma settles_requests_page trust dialog filter cursor limit : settles (requests_page trust dialog filter cursor limit).
Proof. unfold requests_page, Invalid. settles_tac. Qed.
#[export] Hint Resolve settles_identity settles_requests_page : settles.
Lemma settles_dialogViewResult value : settles (dialogViewResult value).
Proof. unfold dialogViewResult. settles_tac. Qed.
Lemma settles_dialog_items keys : settles (dialog_items keys).
Proof. induction keys; cbn [dialog_items]; settles_tac. Qed.
Lemma settles_toolTimelineResult value : settles (toolTimelineResult value).
Proof. unfold toolTimelineResult. settles_tac. Qed.
Lemma settles_tool_items attempt dialog limit count rows : settles (tool_items attempt dialog limit count rows).
Proof. revert count. induction rows as [|row rows IH]; intros count; cbn [tool_items]; settles_tac. Qed.
Lemma settles_load_result attempt dialog call : settles (load_result attempt dialog call).
Proof. unfold load_result. settles_tac. Qed.
Lemma settles_detail_scope s attempt call : settles (detail_scope s attempt call).
Proof. unfold detail_scope. settles_tac. Qed.
#[export] Hint Resolve settles_dialogViewResult settles_dialog_items settles_toolTimelineResult settles_tool_items settles_load_result
  settles_detail_scope : settles.
Lemma settles_autocommit {A} (m : M A) : settles m -> settles (autocommit m).
Proof. intros Hm env x c. unfold autocommit, modify, mbind, M_bind. specialize (Hm env x (c <| tx := durable c |>)). by destruct (m env x _) as [[[e|a] ?] ?]. Qed.
#[export] Hint Extern 1 (settles (autocommit _)) => apply settles_autocommit; settles_tac : settles.

(** ** History *)
Lemma grows_by_id id :
  grows (message_by_id id) /\ grows (request_by_id id) /\ grows (attempt_by_id id) /\ grows (dialog_by_id id).
Proof. unfold message_by_id, request_by_id, attempt_by_id, dialog_by_id. split_and!; grows_tac. Qed.
#[export] Hint Extern 1 (grows (message_by_id _)) => apply grows_by_id : grows.
#[export] Hint Extern 1 (grows (request_by_id _)) => apply grows_by_id : grows.
#[export] Hint Extern 1 (grows (attempt_by_id _)) => apply grows_by_id : grows.
#[export] Hint Extern 1 (grows (dialog_by_id _)) => apply grows_by_id : grows.

Lemma grows_applyCommand e : grows (applyCommand e).
Proof.
  unfold applyCommand, applyDialogCreate, applyMessageEnqueue, applyRequestCancel, applyQueueResume, applyAttemptStop,
    applyAttemptRetry, applyMessageSteer, applyApproval, applyInput.
  grows_tac.
Qed.
Lemma grows_storage_gate kind correlation : grows (storage_gate kind correlation).
Proof. unfold storage_gate, storageBelowAdmissionFloor, physicalStorageBelowAdmissionFloor. grows_tac. Qed.
Lemma grows_loadCommandOutcome id : grows (loadCommandOutcome id).
Proof. unfold loadCommandOutcome. grows_tac. Qed.
#[export] Hint Resolve grows_applyCommand grows_storage_gate grows_loadCommandOutcome : grows.
Lemma grows_commit_command envelope canonical digest a : grows (commit_command envelope canonical digest a).
Proof. unfold commit_command. grows_tac. Qed.
Lemma grows_rejection s envelope canonical digest h : grows (commitCommandRejection s envelope canonical digest h).
Proof. unfold commitCommandRejection. grows_tac. Qed.
#[export] Hint Resolve grows_commit_command grows_rejection : grows.
#[export] Hint Extern 1 (grows (replay_outcome _ _ _)) => apply grows_readonly, readonly_replay_outcome : grows.
#[export] Hint Extern 1 (grows (require_dialog_owner _ _)) => apply grows_readonly, readonly_require_dialog_owner : grows.

Lemma history_submit trust raw : history (SubmitCommand trust raw).
Proof. unfold SubmitCommand, submit_locked. history_tac. Qed.
Lemma history_install transport raw : history (InstallHold transport raw).
Proof. unfold InstallHold, install_locked, commit_hold. history_tac. Qed.
Lemma history_release transport raw : history (ReleaseHold transport raw).
Proof. unfold ReleaseHold, release_locked, commit_release. history_tac. Qed.
Lemma history_status transport operation : history (HoldStatus transport operation).
Proof. unfold HoldStatus. history_tac. Qed.
Lemma history_quiescence transport operation : history (QuiescenceProof transport operation).
Proof. unfold QuiescenceProof. history_tac. Qed.
Lemma grows_applyDialogDelete e : grows (applyDialogDelete e).
Proof. unfold applyDialogDelete. grows_tac. Qed.
#[export] Hint Resolve grows_applyDialogDelete : grows.
Lemma history_delete transport raw : history (DeleteLogicalDialog transport raw).
Proof. unfold DeleteLogicalDialog, delete_locked, delete_held, commit_delete. history_tac. Qed.
Lemma history_delete_status transport operation : history (LogicalDeleteStatus transport operation).
Proof. unfold LogicalDeleteStatus. history_tac. Qed.
Lemma history_reads {A} (m : M A) : reads m -> history m.
Proof. intros Hm env x c. by rewrite reads_durable. Qed.
Lemma history_peek : history peekDispatch.
Proof. unfold peekDispatch. history_tac. Qed.
Lemma history_commit_dispatch candidate policy : history (commitDispatch candidate policy).
Proof. unfold commitDispatch, dispatch_request, apply_queued_message, dispatched. history_tac. Qed.
Lemma history_block_policy : history blockPolicy.
Proof. unfold blockPolicy. history_tac. Qed.

(** All but the export keep the replica tables. *)
Lemma history_http m : http_handler m -> (exists trust i after limit, m = ExportHistory trust i after limit) \/ history m.
Proof.
  destruct 1; [right..|left; eauto 6]; eauto using history_submit, history_install, history_release, history_status, history_quiescence, history_delete,
    history_delete_status, history_reads, read_handler_reads.
Qed.
Lemma handler_extends A (m : M A) env x c : handler A m -> extends (durable c) (durable (m env x c).2).
Proof.
  destruct 1 as [m [(trust & i & after & limit & ->)|Hm]%history_http| | |]; [apply export_extends|apply kept_extends..];
    [apply Hm|apply history_peek|apply history_commit_dispatch|apply history_block_policy].
Qed.
Lemma handler_replicas A (m : M A) env x c : handler A m -> sha64 (sha256_hex env) ->
  replica_ok (sha256_hex env) (durable c) -> replica_ok (sha256_hex env) (durable (m env x c).2).
Proof.
  intros Hm H64. destruct Hm as [m [(trust & i & after & limit & ->)|Hm]%history_http| | |]; [by apply export_replicas|apply kept_replicas..];
    [apply Hm|apply history_peek|apply history_commit_dispatch|apply history_block_policy].
Qed.

Lemma history_worker db A (m : M A) : worker db A m -> history m.
Proof.
  destruct 1; eauto using history_claim, history_finish, history_requeue, history_mark_started, history_mark_unknown,
    history_observe_attempt, history_finish_steer, history_finish_approval, history_finish_input, history_observe,
    history_recover_startup, history_pristine, history_reconcile, history_store.
Qed.
Lemma step_extends node db db' : step node db db' -> extends db db'.
Proof.
  intros [A m env x c Hm _|A m env x c Hm _].
  - apply (handler_extends A m env x c) in Hm. unfold run. by destruct (m env x c) as [[? ?] ?].
  - apply history_worker in Hm. specialize (Hm env x c). unfold run. destruct (m env x c) as [[? ?] ?]. apply Hm.
Qed.
Lemma reachable_extends node db db' : reachable node db db' -> extends db db'.
Proof.
  induction 1 as [|db db1 db2 Hs _ IH]; [done|]. etrans; [|exact IH]. by eapply step_extends.
Qed.



(** C7: the durable history is append-only.  Along any run of handlers, the
    event log, the committed commands, the command rejections, the installed
    holds, their outcomes, the logical-delete receipts and the late observations
    only grow at their end (an event keeps its identity, sequence, epoch and
    envelope; binding a projection to it adds a column), no dialog row is
    removed, and the hold clock never goes back: what a receipt acknowledged
    stays acknowledged. *)
Theorem durable_history_append_only node db db' :
  reachable node db db' -> extends db db'.
Proof. apply reachable_extends. Qed.

Lemma durable_history_append_only_witness : commands demo_db3 `prefix_of` commands demo_held.
Proof.
  apply ext_commands, (durable_history_append_only demo_node), rtc_once, demo_step_held.
Defined.
