(* ===== verification/Admission.v ===== *)
(** * What [SubmitCommand] guarantees
    Exactly-once recording, idempotent replay and the admission barrier, read
    off symbolic runs of the handler. *)
From stdpp Require Import base tactics list strings gmap pretty.
From Stdlib Require Import ZArith Lia Ascii String.
From S2P Require Import Prelude Json Wire Store Tx Adapter Events Commands Barrier Hold Submit Dispatch Frames.
From S2P Require Import Atomic Append Invariant Handlers Transactions Reach Demo Answers.
Open Scope string_scope.
Open Scope list_scope.
Open Scope Z_scope.
Open Scope harness_scope.

(** ** The dialog an admission command addresses *)
Definition addressed_dialog (envelope : CommandEnvelope) (db : Db) : option string :=
  let kind := env_kind envelope in
  if in_set kind [CommandDialogCreate; CommandQueueResume] then Some ""
  else if in_set kind [CommandDialogDelete; CommandMessageEnqueue] then get_string "dialogId" (env_target envelope)
  else if kind =s CommandAttemptRetry then
    attempt ← get_string "attemptId" (env_target envelope); attempt_dialog db attempt
  else None.

(** The scope of a hold reaches the dialog; the empty dialog is the node's own. *)
Definition reaches (h : hold_row) (dialog : string) : Prop :=
  hold_scope h = "node" \/ (dialog <> "" /\ hold_scope h = "dialog" /\ hold_dialog h = Some dialog).

Lemma covering_hold_None node dialog db h :
  covering_hold node dialog db = None -> h ∈ administrative_holds db -> hold_node h = node -> hold_active db h = true ->
  ~ reaches h dialog.
Proof.
  unfold covering_hold. intros H Hin Hn Ha Hr.
  assert (List.In h (List.filter (fun h => (hold_node h =s node) && hold_active db h) (administrative_holds db))) as Hf.
  { apply filter_In. split; [by apply list_elem_of_In|]. by rewrite Hn, str_eqb_refl, Ha. }
  destruct (first_by hold_version (List.filter (fun h => hold_scope h =s "node") _)) eqn:E1; [done|].
  apply first_by_None in E1. destruct Hr as [Hs|(Hd & Hs & Hdl)].
  - assert (List.In h []) as []. rewrite <- E1. apply filter_In. split; [exact Hf|]. by rewrite Hs.
  - destruct (dialog =s "") eqn:E2; simplify_bool; [done|]. apply first_by_None in H.
    assert (List.In h []) as []. rewrite <- H. apply filter_In. split; [exact Hf|].
    by rewrite Hs, Hdl, str_eqb_refl; simpl; rewrite str_eqb_refl.
Qed.

Lemma covering_hold_Some node dialog db h :
  covering_hold node dialog db = Some h ->
  h ∈ administrative_holds db /\ hold_node h = node /\ hold_active db h = true /\ reaches h dialog.
Proof.
  unfold covering_hold. intros H.
  assert (forall p, first_by hold_version (List.filter p (List.filter (fun h => (hold_node h =s node) && hold_active db h)
            (administrative_holds db))) = Some h ->
          h ∈ administrative_holds db /\ hold_node h = node /\ hold_active db h = true /\ p h = true) as Hf.
  { intros p Hp. apply first_by_elem, list_elem_of_In, filter_In in Hp as [Hp ?].
    apply filter_In in Hp as [? Hp]. simplify_bool. split_and!; try done. by apply list_elem_of_In. }
  destruct (first_by hold_version (List.filter (fun h => hold_scope h =s "node") _)) eqn:E1.
  - injection H as ->. apply Hf in E1 as (? & ? & ? & ?). simplify_bool. split_and!; try done. by left.
  - destruct (dialog =s "") eqn:E2; [done|]. apply Hf in H as (? & ? & ? & ?). simplify_bool. split_and!; try done. right.
    split_and!; try done. unfold is_text in *. destruct (hold_dialog h); [|done]. simplify_bool. by subst.
Qed.

Lemma wp_coveringHold env envelope (Q : option hold_row -> Core -> Prop) E c :
  (addressed_dialog envelope (tx c) = None -> Q None c) ->
  (forall d, addressed_dialog envelope (tx c) = Some d -> Q (covering_hold (cfg_node env) d (tx c)) c) ->
  (forall e, is_return e = false -> E e c) ->
  wp env (coveringHoldForCommand envelope) Q E c.
Proof.
  intros HN HS HE. unfold coveringHoldForCommand, blockable_dialog, addressed_dialog in *.
  repeat wp_step; try (by apply HE); try (by apply HN); apply HS; try done; rewrite ?Heqb, ?Heqb0, ?Heqb1; try done.
  all: by match goal with H : get_string _ _ = Some _ |- _ => rewrite H end.
Qed.

(** ** What a commit records *)
Definition recorded (envelope : CommandEnvelope) (canonical : json) (digest : string) (accepted : bool) (status : Z)
    (r : Result) (db : Db) : Prop :=
  exists receipt,
    command_outcomes (env_command envelope) db
      = [mkStored digest canonical receipt (if accepted then 200 else 409) accepted]
    /\ (r = mkResult status receipt true \/ (HTTPStatus r = 503 /\ Committed r = true)).

Lemma outcomes_command id db db' row :
  command_outcomes id db = [] -> commands db' = commands db ++ [row] -> command_rejections db' = command_rejections db ->
  cmd_id row = id -> command_outcomes id db' = [mkStored (cmd_hash row) (cmd_canonical row) (cmd_receipt row) 200 true].
Proof.
  unfold command_outcomes. intros H -> -> <-. apply app_eq_nil in H as [H1 H2]. rewrite H2, app_nil_r.
  rewrite List.filter_app, List.map_app, H1. simpl. by rewrite str_eqb_refl.
Qed.
Lemma outcomes_rejection id db db' row :
  command_outcomes id db = [] -> commands db' = commands db -> command_rejections db' = command_rejections db ++ [row] ->
  rej_id row = id -> command_outcomes id db' = [mkStored (rej_hash row) (rej_canonical row) (rej_receipt row) (rej_status row) false].
Proof.
  unfold command_outcomes. intros H -> -> <-. apply app_eq_nil in H as [H1 H2]. rewrite H1.
  rewrite List.filter_app, List.map_app, H2. simpl. by rewrite str_eqb_refl.
Qed.
Lemma outcomes_frame id db db' :
  commands db' = commands db -> command_rejections db' = command_rejections db -> command_outcomes id db' = command_outcomes id db.
Proof. unfold command_outcomes. by intros -> ->. Qed.

Lemma wp_commit_command env c envelope canonical digest a :
  command_outcomes (env_command envelope) (tx c) = [] -> same_identity (node_state (tx c)) (st c) ->
  wp env (commit_command envelope canonical digest a)
    (fun r c' => Committed r = true -> recorded envelope canonical digest true 202 r (durable c'))
    (fun e c' => match e with Return r => Committed r = true -> False | _ => True end) c.
Proof.
  intros Hout Hid. unfold commit_command. repeat wp_step; try done.
  all: intros _; eexists; split;
    [match goal with |- _ _ ?db = _ => exact (outcomes_command _ (tx c) db _ Hout eq_refl eq_refl eq_refl) end|].
  all: first [by left | by right].
Qed.

Lemma wp_commit_rejection env c s envelope canonical digest h :
  command_outcomes (env_command envelope) (tx c) = [] ->
  wp env (commitCommandRejection s envelope canonical digest h)
    (fun r c' => Committed r = true -> recorded envelope canonical digest false 409 r (durable c'))
    (fun e c' => match e with Return r => Committed r = true -> False | _ => True end) c.
Proof.
  intros Hout. unfold commitCommandRejection. repeat wp_step; try done.
  all: intros _; eexists; split;
    [match goal with |- _ _ ?db = _ => exact (outcomes_rejection _ (tx c) db _ Hout eq_refl eq_refl eq_refl) end|].
  all: first [by left | by right].
Qed.

(** The barrier as [SubmitCommand] applies it to the database it found. *)
Definition unheld (node : string) (envelope : CommandEnvelope) (db : Db) : Prop :=
  forall d h, addressed_dialog envelope db = Some d -> h ∈ administrative_holds db -> hold_node h = node ->
    hold_active db h = true -> ~ reaches h d.
Definition held (node : string) (envelope : CommandEnvelope) (db : Db) : Prop :=
  exists d h, addressed_dialog envelope db = Some d /\ h ∈ administrative_holds db /\ hold_node h = node
    /\ hold_active db h = true /\ reaches h d.

(** The admitted branch and the rejected one. *)
Definition submitted (node : string) (envelope : CommandEnvelope) (canonical : json) (digest : string) (db : Db)
    (r : Result) (db' : Db) : Prop :=
  command_outcomes (env_command envelope) db = []
  /\ ((unheld node envelope db /\ recorded envelope canonical digest true 202 r db')
      \/ (held node envelope db /\ recorded envelope canonical digest false 409 r db')).

Lemma wp_authorizeObject env envelope (Q : unit -> Core -> Prop) E c :
  Q tt c -> (forall e, is_return e = false -> E e c) -> wp env (authorizeObject envelope) Q E c.
Proof.
  intros HQ HE. unfold authorizeObject, not_found. repeat wp_step; try done; by apply HE.
Qed.

Lemma wp_outcome_deleted env outcome (Q : bool -> Core -> Prop) E c :
  (forall b, (b = true -> exists d, d <> "" /\ dialog_deleted (tx c) d = true) -> Q b c) ->
  E (Broken "operation failed") c ->
  wp env (commandOutcomeTargetsDeletedDialog outcome) Q E c.
Proof.
  intros HQ HE. unfold commandOutcomeTargetsDeletedDialog, target_dialog. repeat wp_step; try done.
  all: apply HQ; try done; intros; simplify_bool; eauto.
Qed.

Definition error_code (r : Result) : option string := get_string "code" (Body r).

(** The three answers to a command id that already has an outcome. *)
Lemma wp_outcome_deleted_ok env (Hok : healthy env) outcome (Q : bool -> Core -> Prop) E c :
  (forall b, (b = true -> exists d, d <> "" /\ dialog_deleted (tx c) d = true) -> Q b c) ->
  wp env (commandOutcomeTargetsDeletedDialog outcome) Q E c.
Proof.
  intros HQ. unfold commandOutcomeTargetsDeletedDialog, target_dialog. repeat wp_step_ok Hok.
  all: apply HQ; try done; intros; simplify_bool; eauto.
Qed.

(** What a resubmission is answered. *)
Definition replayed (stored : storedCommandOutcome) (digest : string) (db : Db) (r : Result) : Prop :=
  if stored_hash stored =s digest
  then r = mkResult (stored_status stored) (stored_body stored) false
       \/ (HTTPStatus r = 404 /\ exists d, d <> "" /\ dialog_deleted db d = true)
  else HTTPStatus r = 409 /\ error_code r = Some "id_conflict".

Lemma wp_replay env c stored digest correlation (Q : Result -> Core -> Prop) :
  (forall r, stored_hash stored = digest -> r = mkResult (stored_status stored) (stored_body stored) false -> Q r c) ->
  (forall r, stored_hash stored = digest -> HTTPStatus r = 404 -> Committed r = false ->
     (exists d, d <> "" /\ dialog_deleted (tx c) d = true) -> Q r c) ->
  (forall r, stored_hash stored <> digest -> HTTPStatus r = 409 -> error_code r = Some "id_conflict" -> Committed r = false -> Q r c) ->
  (forall r, HTTPStatus r = 503 -> Committed r = false -> Q r c) ->
  wp env (replay_outcome stored digest correlation) Q (fun e c' => match e with Return r => Q r c' | _ => True end) c.
Proof.
  intros H1 H2 H3 H4. unfold replay_outcome. wp_step; simplify_bool.
  - repeat wp_step. by apply H3.
  - wp_prim. wp_prim. apply wp_outcome_deleted; [|intros; by apply H4].
    intros b Hb. destruct b.
    + repeat wp_step. by apply H2; auto.
    + repeat wp_step. by apply H1.
Qed.

(** The admitted command, from the storage gate to the commit. *)
Lemma wp_admit env c envelope canonical digest :
  DbInv (cfg_node env) (durable c) -> tx c = durable c -> st c = node_state (durable c) ->
  command_outcomes (env_command envelope) (durable c) = [] -> unheld (cfg_node env) envelope (durable c) ->
  let Q r c' := Committed r = true -> submitted (cfg_node env) envelope canonical digest (durable c) r (durable c') in
  wp env (storage_gate (env_kind envelope) (env_command envelope) ;;
          a ← catch (applyCommand envelope) (fun e => commandError e (env_command envelope));
          commit_command envelope canonical digest a)
    Q (fun e c' => match e with Return r => Q r c' | _ => True end) c.
Proof.
  intros HD Htx Hst Hout Hun Q. wp_prim.
  assert (Inv (cfg_node env) (st c) (tx c)) as HI by (by rewrite Htx, Hst).
  eapply (wp_mono _ (fun _ c' => handler_frame c c' /\ Inv (cfg_node env) (st c') (tx c')) _
            (fun e _ => match e with Return r => Committed r = false | _ => True end)).
  - unfold storage_gate, storageBelowAdmissionFloor, physicalStorageBelowAdmissionFloor. repeat wp_step; try done; frame_done HI.
  - intros [] c' [(E1 & E2 & E3 & _) HI']. wp_prim. wp_prim. apply wp_silent; [apply silent_applyCommand|].
    eapply wp_mono; [by apply keeps_command|..].
    + intros a c2 [(F1 & F2 & F3 & _) [HI2 _]].
      eapply wp_mono; [apply wp_commit_command|..].
      * rewrite <- Hout, <- Htx. apply outcomes_frame; congruence.
      * by apply inv_identity in HI2.
      * intros r c3 H Hc. split; [done|]. left. split; [done|by apply H].
      * by intros [] ? H.
    + intros e c2 _ He. destruct e; try done; repeat wp_step; by intros ?.
  - intros [] c' H; try done. intros Hc. congruence.
Qed.

Lemma submit_locked_spec env c trust envelope canonical digest :
  DbInv (cfg_node env) (durable c) ->
  let Q r c' := Committed r = true -> submitted (cfg_node env) envelope canonical digest (durable c) r (durable c') in
  wp env (submit_locked trust envelope canonical digest) Q (fun e c' => match e with Return r => Q r c' | _ => True end) c.
Proof.
  intros HD Q. unfold submit_locked. repeat wp_step; try (lazymatch goal with |- Q _ _ => intros ?; simplify_eq/=; congruence end).
  - apply wp_authorizeObject; [|intros e ?; destruct e; try done; repeat wp_step; lazymatch goal with |- Q _ _ => by intros ? end].
    wp_prim. wp_prim. apply wp_coveringHold; cbn [tx durable].
    + intros Hd. match goal with |- wp _ _ _ _ ?c => apply (wp_admit env c) end; cbn [durable tx st]; try done. intros d h Had. congruence.
    + intros d Hd. destruct (covering_hold (cfg_node env) d (durable c)) as [h|] eqn:Hcov.
      * apply covering_hold_Some in Hcov as (Hh & Hn & Ha & Hr).
        assert (held (cfg_node env) envelope (durable c)) as Hheld by (by exists d, h).
        repeat wp_step; try (lazymatch goal with |- Q _ _ => intros ?; simplify_eq/=; congruence end).
        eapply wp_mono; [apply wp_commit_rejection; assumption|..].
        -- intros res c' H Hc. split; [done|]. right. split; [done|by apply H].
        -- by intros [] c' H.
      * match goal with |- wp _ _ _ _ ?c => apply (wp_admit env c) end; cbn [durable tx st]; try done. intros d' h Hd' Hin Hn Ha. rewrite Hd in Hd'. injection Hd' as <-.
        by eapply covering_hold_None.
    + intros e He. destruct e; try done; repeat wp_step; lazymatch goal with |- Q _ _ => by intros ? end.
  - eapply wp_replay; intros r; intros; unfold Q; intros Hc; try congruence; by subst.
Qed.

(** A recorded outcome stays the only one. *)
Lemma outcomes_persist id db db' stored :
  extends db db' -> commands_ok (commands db') (command_rejections db') -> command_outcomes id db = [stored] ->
  command_outcomes id db' = [stored].
Proof.
  intros [_ [l1 E1] [l2 E2] _ _ _ _ _ _] Hok%(commands_ok_outcomes id) H. revert Hok H. unfold command_outcomes.
  rewrite E1, E2, !List.filter_app, !List.map_app.
  generalize (List.map (fun c => mkStored (cmd_hash c) (cmd_canonical c) (cmd_receipt c) 200 true) (List.filter (fun c => cmd_id c =s id) l1)).
  generalize (List.map (fun r => mkStored (rej_hash r) (rej_canonical r) (rej_receipt r) (rej_status r) false) (List.filter (fun r => rej_id r =s id) l2)).
  intros k2 k1 Hlen H. rewrite !length_app in Hlen.
  apply (f_equal (@List.length _)) in H as Hl. rewrite length_app in Hl. simpl in Hl.
  destruct k1 as [|? k1]; [|simpl in Hlen; lia]. destruct k2 as [|? k2]; [|simpl in Hlen; lia]. by rewrite !app_nil_r.
Qed.

Lemma submit_spec env x c trust raw r c' :
  DbInv (cfg_node env) (durable c) -> respond (SubmitCommand trust raw) env x c = (Some r, c') -> Committed r = true ->
  exists canonical digest envelope,
    CanonicalCommand (sha256_hex env) raw = Some (canonical, digest) /\ CommandEnvelope_of_json canonical = Some envelope
    /\ env_kind envelope <> CommandDialogDelete /\ submitted (cfg_node env) envelope canonical digest (durable c) r (durable c').
Proof.
  intros HD H. revert H.
  refine (wp_respond env _ (fun r c' => Committed r = true -> exists canonical digest envelope,
    CanonicalCommand (sha256_hex env) raw = Some (canonical, digest) /\ CommandEnvelope_of_json canonical = Some envelope
    /\ env_kind envelope <> CommandDialogDelete /\ submitted (cfg_node env) envelope canonical digest (durable c) r (durable c')) x c r c' _).
  unfold SubmitCommand. repeat wp_step; try (by intros).
  eapply wp_mono; [by apply submit_locked_spec|..].
  - intros res c2 H r0 b Hc. rcbn. simplify_bool. eauto 10.
  - intros [] c2 H; try done. intros r1 b Hc. rcbn. simplify_bool. eauto 10.
Qed.

(** C8: exactly-once recording.  When [SubmitCommand] commits, the raw bytes
    decoded to a valid command whose id had no durable outcome before, and now
    has exactly one, with the command's canonical form and digest: a 200-status
    receipt if the command was admitted, a 409 rejection if a hold covers it.
    The answer is that stored body, or a 503 that says the commit happened but
    its delivery was interrupted. *)
Theorem submit_records_once env x c trust raw r c' :
  volume (cfg_node env) (durable c) -> respond (SubmitCommand trust raw) env x c = (Some r, c') -> Committed r = true ->
  exists canonical digest envelope receipt accepted,
    CanonicalCommand (sha256_hex env) raw = Some (canonical, digest) /\ CommandEnvelope_of_json canonical = Some envelope
    /\ command_outcomes (env_command envelope) (durable c) = []
    /\ command_outcomes (env_command envelope) (durable c')
         = [mkStored digest canonical receipt (if (accepted : bool) then 200 else 409) accepted]
    /\ (r = mkResult (if accepted then 202 else 409) receipt true \/ HTTPStatus r = 503).
Proof.
  intros HD Hr Hc. destruct (submit_spec env x c trust raw r c') as (canonical & digest & envelope & H1 & H2 & _ & H3 & H4);
    [by apply volume_inv|done..|].
  destruct H4 as [[_ (receipt & H4 & H5)]|[_ (receipt & H4 & H5)]];
    [exists canonical, digest, envelope, receipt, true|exists canonical, digest, envelope, receipt, false];
    split_and!; try done; by destruct H5 as [->|[? _]]; auto.
Qed.

Lemma submit_replay_spec env x c trust raw canonical digest envelope stored :
  healthy env -> TransportNodeID trust = cfg_node env ->
  CanonicalCommand (sha256_hex env) raw = Some (canonical, digest) -> CommandEnvelope_of_json canonical = Some envelope ->
  env_kind envelope <> CommandDialogDelete ->
  identity_matches (cfg_node env) (cfg_adapter_kind env) (cfg_adapter_version env) (node_state (durable c)) (ExpectedIdentity trust) = true ->
  command_outcomes (env_command envelope) (durable c) = [stored] ->
  exists r c', respond (SubmitCommand trust raw) env x c = (Some r, c') /\ durable c' = durable c /\ Committed r = false
    /\ replayed stored digest (durable c) r.
Proof.
  intros Hok Ht Hcan Henv Hkind Hid Hst.
  assert (wp env (SubmitCommand trust raw)
            (fun r c' => durable c' = durable c /\ Committed r = false /\ replayed stored digest (durable c) r)
            (fun e c' => match e with
                         | Return r => durable c' = durable c /\ Committed r = false /\ replayed stored digest (durable c) r
                         | _ => False end) c) as Hw.
  { unfold SubmitCommand. repeat wp_step_ok Hok; simplify_eq; simplify_bool; try congruence.
    unfold submit_locked. repeat wp_step_ok Hok; simplify_eq; simplify_bool; try congruence.
    all: rewrite ?Hid in *; try done.
    all: unfold replay_outcome, replayed; repeat wp_step_ok Hok; simplify_bool.
    - split_and!; [done..|]. destruct (stored_hash stored =s digest) eqn:He; [by simplify_bool|by split].
    - apply (wp_outcome_deleted_ok env Hok). intros b Hb.
      destruct (stored_hash stored =s digest) eqn:He; [|by simplify_bool].
      destruct b; repeat wp_step_ok Hok; split_and!; try done; [right; split; [done|by apply Hb]|by left]. }
  specialize (Hw x). unfold respond, run. destruct (SubmitCommand trust raw env x c) as [[[e|r] x'] c']; [destruct e; try done|]; eauto 10.
Qed.

Lemma submit_records_once_witness :
  exists canonical digest envelope, CanonicalCommand demo_sha demo_create = Some (canonical, digest)
    /\ CommandEnvelope_of_json canonical = Some envelope
    /\ List.map stored_hash (command_outcomes (env_command envelope) demo_db1) = [digest].
Proof.
  destruct (respond (SubmitCommand demo_trust demo_create) (demo_env "001") demo_aux (demo_core demo_fresh)) as [[r|] c'] eqn:E;
    [|vm_compute in E; discriminate E].
  destruct (submit_records_once (demo_env "001") demo_aux (demo_core demo_fresh) demo_trust demo_create r c')
    as (canonical & digest & envelope & receipt & accepted & H1 & H2 & _ & H4 & _).
  - exists demo_owner, 1. apply rtc_refl.
  - exact E.
  - vm_compute in E. injection E as <- _. vm_compute. reflexivity.
  - exists canonical, digest, envelope. split; [exact H1|]. split; [exact H2|].
    replace demo_db1 with (durable c'); [by rewrite H4|]. vm_compute in E. injection E as _ <-. vm_compute. reflexivity.
Defined.

(** C9: the admission barrier.  A committed command is admitted (status 202)
    only when no active hold of the node covers what it addresses: the dialog of
    an enqueue or a retry, the node itself for a dialog creation or a queue
    resume.  Where one does, the only durable outcome is a rejection. *)
Theorem admission_respects_holds env x c trust raw r c' envelope h :
  volume (cfg_node env) (durable c) -> respond (SubmitCommand trust raw) env x c = (Some r, c') -> Committed r = true ->
  (canonical ← fst <$> CanonicalCommand (sha256_hex env) raw; CommandEnvelope_of_json canonical) = Some envelope ->
  h ∈ administrative_holds (durable c) -> hold_node h = cfg_node env -> hold_active (durable c) h = true ->
  (exists d, addressed_dialog envelope (durable c) = Some d /\ reaches h d) ->
  HTTPStatus r <> 202 /\ exists stored, command_outcomes (env_command envelope) (durable c') = [stored]
    /\ stored_accepted stored = false /\ stored_status stored = 409.
Proof.
  intros HD Hr Hc Henv Hh Hn Ha (d & Hd & Hreach).
  destruct (submit_spec env x c trust raw r c') as (canonical & digest & envelope' & H1 & H2 & _ & _ & H4);
    [by apply volume_inv|done..|].
  rewrite H1 in Henv. cbn in Henv. rewrite H2 in Henv. injection Henv as ->.
  destruct H4 as [[Hun _]|[_ (receipt & H4 & H5)]]; [by destruct (Hun d h)|].
  split; [by destruct H5 as [->|[-> _]]|]. by eexists.
Qed.

Definition demo_command_of (raw : document) : option CommandEnvelope :=
  canonical ← fst <$> CanonicalCommand demo_sha raw; CommandEnvelope_of_json canonical.

Lemma admission_respects_holds_witness :
  exists r c', respond (SubmitCommand demo_trust (demo_enqueue 3 4)) (demo_env "006") demo_aux (demo_core demo_held) = (Some r, c')
    /\ HTTPStatus r <> 202.
Proof.
  destruct (respond (SubmitCommand demo_trust (demo_enqueue 3 4)) (demo_env "006") demo_aux (demo_core demo_held)) as [[r|] c'] eqn:E;
    [|vm_compute in E; discriminate E].
  destruct (demo_command_of (demo_enqueue 3 4)) as [envelope|] eqn:Henv; [|vm_compute in Henv; discriminate Henv].
  destruct (administrative_holds demo_held) as [|h l] eqn:Hh; [vm_compute in Hh; discriminate Hh|].
  exists r, c'. split; [reflexivity|].
  apply (admission_respects_holds (demo_env "006") demo_aux (demo_core demo_held) demo_trust (demo_enqueue 3 4) r c' envelope h).
  - apply demo_volume, demo_reachable_held.
  - exact E.
  - vm_compute in E. injection E as <- _. vm_compute. reflexivity.
  - exact Henv.
  - cbn [durable demo_core]. rewrite Hh. constructor.
  - vm_compute in Hh. injection Hh as <- _. vm_compute. reflexivity.
  - vm_compute in Hh. injection Hh as <- _. vm_compute. reflexivity.
  - exists demo_dialog. vm_compute in Henv. injection Henv as <-. vm_compute in Hh. injection Hh as <- _.
    split; [reflexivity|]. right. split_and!; [discriminate|vm_compute; reflexivity|vm_compute; reflexivity].
Defined.



(** A command takes effect once.  After a committed submission, at any
    later volume of the node, whatever handlers ran in between, resubmitting the
    same bytes in a healthy environment changes nothing: it is answered with the
    body the first submission stored (or 404, once its dialog was deleted). *)
Theorem resubmission_changes_nothing env1 x1 c1 trust1 raw r1 c1' env2 x2 c2 trust2 :
  volume (cfg_node env1) (durable c1) -> respond (SubmitCommand trust1 raw) env1 x1 c1 = (Some r1, c1') -> Committed r1 = true ->
  reachable (cfg_node env1) (durable c1') (durable c2) ->
  healthy env2 -> cfg_node env2 = cfg_node env1 -> sha256_hex env2 = sha256_hex env1 -> TransportNodeID trust2 = cfg_node env2 ->
  identity_matches (cfg_node env2) (cfg_adapter_kind env2) (cfg_adapter_version env2) (node_state (durable c2)) (ExpectedIdentity trust2) = true ->
  exists r2 c2', respond (SubmitCommand trust2 raw) env2 x2 c2 = (Some r2, c2') /\ durable c2' = durable c2
    /\ ((exists d, d <> "" /\ dialog_deleted (durable c2) d = true /\ HTTPStatus r2 = 404)
        \/ (HTTPStatus r1 = 202 -> r2 = mkResult 200 (Body r1) false) /\ (HTTPStatus r1 = 409 -> r2 = mkResult 409 (Body r1) false)
           /\ (HTTPStatus r1 = 503 -> HTTPStatus r2 = 200 \/ HTTPStatus r2 = 409)).
Proof.
  intros HV Hr Hc Hreach Hok Hnode Hsha Ht Hid.
  destruct (submit_spec env1 x1 c1 trust1 raw r1 c1') as (canonical & digest & envelope & H1 & H2 & H3 & _ & H4);
    [by apply volume_inv|done..|].
  assert (DbInv (cfg_node env1) (durable c2)) as HD2.
  { destruct HV as (owner & registry & HV). apply volume_inv. exists owner, registry.
    etrans; [exact HV|]. eapply rtc_l; [|exact Hreach].
    pose proof (step_handler (cfg_node env1) Result (SubmitCommand trust1 raw) env1 x1 c1 (handler_http _ (http_submit _ _)) eq_refl) as Hs.
    unfold respond in Hr. destruct (run (SubmitCommand trust1 raw) env1 x1 c1) as [[[]|] ?]; simplify_eq; done. }
  assert (exists receipt accepted, command_outcomes (env_command envelope) (durable c1')
            = [mkStored digest canonical receipt (if (accepted : bool) then 200 else 409) accepted]
          /\ (r1 = mkResult (if accepted then 202 else 409) receipt true \/ HTTPStatus r1 = 503)) as (receipt & accepted & H5 & H6).
  { destruct H4 as [[_ (receipt & H4 & H5)]|[_ (receipt & H4 & H5)]]; [exists receipt, true|exists receipt, false]; tauto. }
  destruct (submit_replay_spec env2 x2 c2 trust2 raw canonical digest envelope
              (mkStored digest canonical receipt (if accepted then 200 else 409) accepted))
    as (r2 & c2' & E1 & E2 & E3 & E4); try done; [congruence| |].
  { eapply outcomes_persist; [by apply (reachable_extends (cfg_node env1))|by destruct HD2|done]. }
  exists r2, c2'. split_and!; try done. unfold replayed in E4. cbn in E4. rewrite str_eqb_refl in E4.
  destruct E4 as [->|[H404 (d & ? & ?)]]; [right|by left; exists d].
  destruct accepted, H6 as [->|H503]; cbn; split_and!; try done; intros; auto; congruence.
Qed.

Lemma resubmission_changes_nothing_witness :
  exists r2 c2', respond (SubmitCommand demo_trust demo_create) (demo_env "006") demo_aux (demo_core demo_db3) = (Some r2, c2')
    /\ durable c2' = demo_db3.
Proof.
  destruct (respond (SubmitCommand demo_trust demo_create) (demo_env "001") demo_aux (demo_core demo_fresh)) as [[r1|] c1'] eqn:E;
    [|vm_compute in E; discriminate E].
  assert (durable c1' = demo_db1) as Hdb1 by (vm_compute in E; injection E as _ <-; vm_compute; reflexivity).
  destruct (resubmission_changes_nothing (demo_env "001") demo_aux (demo_core demo_fresh) demo_trust demo_create r1 c1'
              (demo_env "006") demo_aux (demo_core demo_db3) demo_trust) as (r2 & c2' & H1 & H2 & _).
  - apply demo_volume, rtc_refl.
  - exact E.
  - vm_compute in E. injection E as <- _. vm_compute. reflexivity.
  - rewrite Hdb1. eapply rtc_l; [exact demo_step2|]. apply rtc_once. exact demo_step3.
  - intros n. reflexivity.
  - reflexivity.
  - reflexivity.
  - reflexivity.
  - reflexivity.
  - exists r2, c2'. split; [exact H1|exact H2].
Defined.
