(* ===== verification/HoldFacts.v ===== *)
(** * What installing, proving and releasing a hold guarantees *)
From stdpp Require Import base tactics list strings gmap pretty.
From Stdlib Require Import ZArith Lia Ascii String.
From S2P Require Import Prelude Json Wire Store Tx Adapter Events Commands Barrier Hold Submit Dispatch Frames Atomic Append.
From S2P Require Import Invariant Handlers Transactions Reach Demo Answers Admission.
Open Scope string_scope.
Open Scope list_scope.
Open Scope Z_scope.
Open Scope harness_scope.

(** ** Installing *)
Definition install_request_of (env : Env) (raw : document) : option (json * string * InstallRequest) :=
  cd ← CanonicalInstallRequest (sha256_hex env) raw;
  m ← decodeExact installRequest_fields raw;
  Some (cd, InstallRequest_of m).

(** The tables an administrative operation leaves alone. *)
Definition work_unchanged (db db' : Db) : Prop :=
  node_state db' = node_state db /\ dialogs db' = dialogs db /\ messages db' = messages db /\ requests db' = requests db
  /\ attempts db' = attempts db /\ commands db' = commands db /\ control_actions db' = control_actions db
  /\ events db' = events db /\ tool_calls db' = tool_calls db /\ approvals db' = approvals db
  /\ input_requests db' = input_requests db /\ command_rejections db' = command_rejections db.

Record installed (canonical : json) (digest : string) (request : InstallRequest) (db : Db) (r : Result) (db' : Db) : Prop := {
  installed_binding : ir_epoch request = Epoch (node_state db) /\ ir_binding request = RegistryVersion (node_state db);
  installed_boundary : pre_start (NodeID (node_state db)) (ir_scope request) db = 0;
  installed_free : forall h, h ∈ administrative_holds db -> hold_conflicts db (NodeID (node_state db)) (ir_scope request) h = false;
  installed_revision : default 0 (scope_revision_of db (scope_key (ir_scope request))) = ir_revision request;
  installed_row : exists receipt at_, let row := mkHold (ir_operation request) (NodeID (node_state db)) (Epoch (node_state db))
      (RegistryVersion (node_state db)) (scope_kind (ir_scope request)) (nullText (scope_dialog (ir_scope request)))
      (hold_clock db) (ir_revision request + 1) canonical digest receipt at_ in
    administrative_holds db' = administrative_holds db ++ [row]
    /\ hold_active db' row = true
    /\ scope_revision_of db' (scope_key (ir_scope request)) = Some (ir_revision request + 1)
    /\ (r = mkResult 201 receipt true \/ HTTPStatus r = 503);
  installed_clock : hold_clock db' = hold_clock db + 1;
  installed_outcomes : administrative_hold_outcomes db' = administrative_hold_outcomes db;
  installed_work : work_unchanged db db' }.

Lemma upsert_lookup key revision rows :
  NoDup (List.map hsr_key rows) -> hsr_revision <$> select1 (fun r => hsr_key r =s key) (upsert key revision rows) = Some revision.
Proof.
  intros Hnd. destruct (upsert_new key revision rows) as (r & Hr & Hk & Hv).
  rewrite (select1_key_unique hsr_key _ r) by (try done; by apply upsert_keys). simpl. by rewrite Hv.
Qed.

Lemma fresh_hold_active node db row :
  DbInv node db -> exists_where (fun h => hold_operation h =s hold_operation row) (administrative_holds db) = false ->
  exists_where (fun o => out_operation o =s hold_operation row) (administrative_hold_outcomes db) = false.
Proof.
  intros HD Hnew. apply exists_where_false. intros o Ho. apply String.eqb_neq. intros He.
  destruct (hold_outcomes _ _ _ _ _ (inv_holds _ _ _ HD) o Ho) as (h & Hh & Hop).
  apply exists_where_key_false in Hnew. apply Hnew. rewrite <- He, <- Hop.
  by apply list_elem_of_In, List.in_map, list_elem_of_In.
Qed.

Lemma count_zero_none {R} (p : R -> bool) l : count_where p l = 0 -> forall r, r ∈ l -> p r = false.
Proof. intros H. apply exists_where_false. by rewrite exists_where_count, H. Qed.

Lemma row_installed node db db' row key revision :
  DbInv node db -> exists_where (fun h => hold_operation h =s hold_operation row) (administrative_holds db) = false ->
  administrative_holds db' = administrative_holds db ++ [row] ->
  administrative_hold_outcomes db' = administrative_hold_outcomes db ->
  hold_scope_revisions db' = upsert key revision (hold_scope_revisions db) ->
  administrative_holds db' = administrative_holds db ++ [row] /\ hold_active db' row = true
  /\ scope_revision_of db' key = Some revision.
Proof.
  intros HD Hnew Hh Ho Hr. split_and!; [done|unfold hold_active; rewrite Ho; by erewrite fresh_hold_active|].
  unfold scope_revision_of. rewrite Hr. apply upsert_lookup. by destruct (inv_holds _ _ _ HD).
Qed.

(** Answers that do not claim a commit. *)
Ltac uncommitted :=
  try lazymatch goal with |- forall (_ : reserve_file) (_ : bool), _ => intros ? ? end;
  try lazymatch goal with |- ?P _ _ => is_var P; let H := fresh in intros H; cbn [Committed] in H; congruence end.

Lemma commit_hold_spec env c request canonical digest :
  DbInv (cfg_node env) (durable c) -> tx c = durable c -> st c = node_state (durable c) ->
  ir_epoch request = Epoch (st c) -> ir_binding request = RegistryVersion (st c) ->
  pre_start (NodeID (st c)) (ir_scope request) (durable c) = 0 ->
  count_where (hold_conflicts (durable c) (NodeID (st c)) (ir_scope request)) (administrative_holds (durable c)) = 0 ->
  ir_revision request = default 0 (scope_revision_of (durable c) (scope_key (ir_scope request))) ->
  let Q r c' := Committed r = true -> installed canonical digest request (durable c) r (durable c') in
  wp env (commit_hold (st c) request canonical digest (default 0 (scope_revision_of (durable c) (scope_key (ir_scope request)))))
    Q (fun e c' => match e with Return r => Q r c' | _ => True end) c.
Proof.
  intros HD Htx Hst He Hb Hp Hc Hrev Q. rewrite <- Hrev. unfold commit_hold. rewrite Hst in *.
  repeat (rewrite ?Htx; wp_step); uncommitted.
  all: intros _.
  all: constructor; cbn [durable]; rcbn; try done; try by apply count_zero_none.
  all: try (by split_and!); try by rewrite Z.eqb_refl.
  all: eexists _, t; cbv zeta; match goal with H : exists_where _ _ = false |- _ /\ hold_active ?db ?row = true /\ scope_revision_of _ ?k = Some ?v /\ _ =>
    destruct (row_installed (cfg_node env) (durable c) db row k v HD H eq_refl eq_refl eq_refl) as (? & ? & ?) end.
  all: split_and!; [assumption..|first [by left | by right]].
Qed.

(** The handler's answer is the commit's, the canonical request the decoded one. *)
Ltac close_spec canonical digest request_of :=
  let Hi := fresh in let Hcm := fresh in
  lazymatch goal with
  | |- forall (_ : Result) _, _ => intros ? ? Hi
  | |- forall (_ : err) _, _ => intros [?| | |] ? Hi; try done
  end; intros ? ? Hcm; eexists canonical, digest, _; (split; [|split; [done|exact (Hi Hcm)]]);
  unfold request_of;
  match goal with H : canonical_document _ _ _ = _ |- _ => rewrite H | H : _ = Some (canonical, digest) |- _ => rewrite H end; cbn;
  by match goal with H : decodeExact _ _ = _ |- _ => rewrite H end.

(** ** Releasing *)
Definition release_request_of (env : Env) (raw : document) : option (json * string * ReleaseRequest) :=
  cd ← CanonicalReleaseRequest (sha256_hex env) raw;
  m ← decodeExact releaseRequest_fields raw;
  Some (cd, ReleaseRequest_of m).

Record hold_released (canonical : json) (digest : string) (request : ReleaseRequest) (db : Db) (r : Result) (db' : Db) : Prop := {
  released_hold : exists h, h ∈ administrative_holds db /\ hold_operation h = lr_operation request /\ hold_node h = NodeID (node_state db)
    /\ hold_active db h = true /\ hold_active db' h = false /\ binding_matches (node_state db) h request = true
    /\ scope_revision_of db (scope_key (lr_scope request)) = Some (hold_revision h)
    /\ scope_revision_of db' (scope_key (lr_scope request)) = Some (hold_revision h + 1);
  released_outcome : exists receipt at_,
    administrative_hold_outcomes db' = administrative_hold_outcomes db
      ++ [mkOutcome (lr_operation request) (lr_action request) canonical digest receipt (lr_revision request + 1) at_]
    /\ get_bool "manualPause" receipt = Some (QueuePaused (node_state db))
    /\ (r = mkResult 201 receipt true \/ HTTPStatus r = 503);
  released_holds : administrative_holds db' = administrative_holds db /\ hold_clock db' = hold_clock db;
  released_work : work_unchanged db db' }.

Lemma update_where_lookup key current revision rows :
  hsr_revision <$> select1 (fun r => hsr_key r =s key) rows = Some current ->
  hsr_revision <$> select1 (fun r => hsr_key r =s key)
    (update_where (fun r => (hsr_key r =s key) && (hsr_revision r =? current)) (fun r => r <| hsr_revision := revision |>) rows)
  = Some revision.
Proof.
  induction rows as [|r rows IH]; [done|]. simpl. destruct (hsr_key r =s key) eqn:Hk.
  - simpl. intros [= <-]. rewrite Z.eqb_refl. simpl. by rewrite Hk.
  - simpl. rewrite Hk. exact IH.
Qed.

Lemma row_released db db' o h key current revision :
  administrative_hold_outcomes db' = administrative_hold_outcomes db ++ [o] -> hold_operation h = out_operation o ->
  scope_revision_of db key = Some current ->
  hold_scope_revisions db' = update_where (fun r => (hsr_key r =s key) && (hsr_revision r =? current))
                               (fun r => r <| hsr_revision := revision |>) (hold_scope_revisions db) ->
  hold_active db' h = false /\ scope_revision_of db' key = Some revision.
Proof.
  intros Ho Hop Hc Hr. split; [|unfold scope_revision_of in *; rewrite Hr; by apply update_where_lookup].
  unfold hold_active. rewrite Ho, exists_where_app. simpl. by rewrite Hop, str_eqb_refl, orb_true_r.
Qed.

Lemma commit_release_spec env c h request canonical digest current :
  tx c = durable c -> st c = node_state (durable c) ->
  h ∈ administrative_holds (durable c) -> hold_operation h = lr_operation request -> hold_node h = NodeID (st c) ->
  hold_active (durable c) h = true -> binding_matches (st c) h request = true ->
  scope_revision_of (durable c) (scope_key (durableHold_scope h)) = Some current -> current = hold_revision h ->
  let Q r c' := Committed r = true -> hold_released canonical digest request (durable c) r (durable c') in
  wp env (commit_release (st c) h request canonical digest current)
    Q (fun e c' => match e with Return r => Q r c' | _ => True end) c.
Proof.
  intros Htx Hst Hin Hop Hn Ha Hb Hs -> Q. unfold commit_release. rewrite Hst in *.
  repeat (rewrite ?Htx; wp_step; uncommitted).
  all: intros _; pose proof Hb as Hb'; unfold binding_matches in Hb'; simplify_bool; rewrite bool_decide_eq_true in *.
  all: match goal with H : lr_scope _ = _ |- _ => rename H into Hsc end.
  all: match goal with H : lr_revision _ = _ |- _ => rename H into Hrev end.
  all: cbn [durable]; lazymatch goal with |- hold_released _ _ _ ?db _ ?db' =>
    destruct (row_released db db' _ h _ (hold_revision h) (hold_revision h + 1) eq_refl Hop Hs eq_refl) end.
  all: constructor; [exists h; rewrite Hsc; by split_and!| |done|by split_and!].
  all: rewrite Hrev; eexists _, t; split_and!; [reflexivity|reflexivity|first [by left | by right]].
Qed.

(** ** Proving quiescence *)
(** No work of the scope is running or of unknown effect. *)
Record quiescent (node : string) (s : Scope) (db : Db) : Prop := {
  quiet_requests : forall r, r ∈ requests db -> in_scope s (req_dialog r) = true ->
    ~ req_status r ∈ ["dispatching"; "active"; "unknown"];
  quiet_attempts : forall a, a ∈ attempts db -> att_node a = node -> in_scope s (att_dialog a) = true ->
    active_attempt a = false /\ att_effect a ∈ ["none"; "known"];
  quiet_actions : forall c, c ∈ control_actions db -> attempt_in_scope db node s (act_attempt c) = true ->
    ~ act_status c ∈ ["pending"; "inflight"; "unknown"];
  quiet_tools : forall t, t ∈ tool_calls db -> attempt_in_scope db node s (tool_attempt t) = true ->
    tool_status t ∈ ["succeeded"; "failed"];
  quiet_approvals : forall p, p ∈ approvals db -> attempt_in_scope db node s (apr_attempt p) = true -> apr_status p = "resolved";
  quiet_inputs : forall i, i ∈ input_requests db -> attempt_in_scope db node s (inp_attempt i) = true -> inp_status i = "resolved";
  quiet_completions : forall e, e ∈ events db -> (scope_kind s =s "node") || is_text (evt_dialog e) (scope_dialog s) = true ->
    is_tool_completion e = true -> default "unknown" (payload_effect_status e) ∈ ["none"; "known"] }.


Lemma unsettled_quiescent node s db :
  active_in_scope node s db = None -> unsettled node s db = 0 -> quiescent node s db.
Proof.
  intros Ha H.
  assert (forall R (p : R -> bool) l, count_where p l = 0 -> forall r, r ∈ l -> p r = false) as Hz by (intros; by eapply count_zero_none).
  assert (unsettled_requests s db = 0 /\ unsettled_attempts node s db = 0 /\ unsettled_actions node s db = 0 /\ unsettled_tools node s db = 0
    /\ unsettled_approvals node s db = 0 /\ unsettled_inputs node s db = 0 /\ unsettled_completions s db = 0)
    as (H1 & H2 & H3 & H4 & H5 & H6 & H7).
  { unfold unsettled in H.
    unfold unsettled_requests, unsettled_attempts, unsettled_actions, unsettled_tools, unsettled_approvals, unsettled_inputs,
      unsettled_completions in *.
    repeat match goal with |- context [count_where ?p ?l] =>
      lazymatch goal with _ : 0 <= count_where p l |- _ => fail | _ => pose proof (count_where_nonneg p l) end end. lia. }
  split.
  - intros r Hr Hs Hin. specialize (Hz _ _ _ H1 r Hr). cbn beta in Hz. apply in_set_iff in Hin. by rewrite Hs, Hin in Hz.
  - intros a Hin Hn Hs. specialize (Hz _ _ _ H2 a Hin). cbn beta in Hz. rewrite Hn, str_eqb_refl, Hs in Hz.
    cbn [andb] in Hz. simplify_bool. apply in_set_iff in Hz. split; [|done].
    pose proof (select1_None _ _ Ha a Hin) as Hact. cbn beta in Hact. by rewrite Hn, str_eqb_refl, Hs in Hact.
  - intros r Hr Hs Hin. specialize (Hz _ _ _ H3 r Hr). cbn beta in Hz. apply in_set_iff in Hin. by rewrite Hs, Hin in Hz.
  - intros r Hr Hs. specialize (Hz _ _ _ H4 r Hr). cbn beta in Hz. rewrite Hs in Hz. cbn [andb] in Hz. apply in_set_iff. by simplify_bool.
  - intros r Hr Hs. specialize (Hz _ _ _ H5 r Hr). cbn beta in Hz. rewrite Hs in Hz. cbn [andb] in Hz. by simplify_bool.
  - intros r Hr Hs. specialize (Hz _ _ _ H6 r Hr). cbn beta in Hz. rewrite Hs in Hz. cbn [andb] in Hz. by simplify_bool.
  - intros e He Hs Ht. specialize (Hz _ _ _ H7 e He). cbn beta in Hz. rewrite Hs, Ht in Hz. cbn [andb] in Hz. apply in_set_iff. by simplify_bool.
Qed.

(** The durable facts a proof attests. *)
Record attested (env : Env) (operation : string) (db : Db) (body : json) : Prop := {
  attested_hold : exists h q, h ∈ administrative_holds db /\ hold_operation h = operation /\ hold_node h = NodeID (node_state db)
    /\ hold_active db h = true /\ hold_epoch h = Epoch (node_state db) /\ hold_binding h = RegistryVersion (node_state db)
    /\ scope_revision_of db (scope_key (durableHold_scope h)) = Some (hold_revision h)
    /\ quiescent (NodeID (node_state db)) (durableHold_scope h) db
    /\ q ∈ quiescence_scope_revisions db /\ qsr_key q = scope_key (durableHold_scope h)
    /\ body = QuiescenceProof_json (build_proof (sha256_hex env) operation (node_state db) h q (parked_requests (durableHold_scope h) db));
  attested_valid : BarrierValidate (sha256_hex env) "quiescenceProof" (document_of body) = true }.

(** ** The claims *)
(** C11: installing a hold.  A committed installation names this node, its
    current epoch and registry binding and the scope revision it read; at that
    moment no dispatch start was in progress in the scope and no overlapping
    hold was active.  It appends one active hold, whose version is the hold
    clock, with the receipt it answers, moves the scope to the next revision and
    the clock forward, and touches no dialog, request, attempt or event. *)
Theorem install_hold_effect env x c transport raw r c' :
  volume (cfg_node env) (durable c) -> respond (InstallHold transport raw) env x c = (Some r, c') -> Committed r = true ->
  exists canonical digest request,
    install_request_of env raw = Some (canonical, digest, request)
    /\ ir_node request = cfg_node env /\ installed canonical digest request (durable c) r (durable c').
Proof.
  intros HD%volume_inv H. revert H.
  pose (Q := fun r c' => Committed r = true -> exists canonical digest request,
    install_request_of env raw = Some (canonical, digest, request)
    /\ ir_node request = cfg_node env /\ installed canonical digest request (durable c) r (durable c')).
  refine (wp_respond env _ Q x c r c' _).
  unfold InstallHold. repeat wp_step; uncommitted.
  unfold install_locked, require_dialog_owner. repeat (wp_step; uncommitted); simplify_bool.
  all: eapply wp_mono; [match goal with |- wp _ _ _ _ ?c => apply (commit_hold_spec env c) end; cbn [durable tx st]; try done|..].
  all: try done.
  all: close_spec j s install_request_of.
Qed.

Lemma install_hold_effect_witness :
  exists h, administrative_holds demo_held = [h] /\ hold_active demo_held h = true.
Proof.
  destruct (respond (InstallHold demo_node demo_install) (demo_env "004") demo_aux (demo_core demo_db3)) as [[r|] c'] eqn:E;
    [|vm_compute in E; discriminate E].
  assert (durable c' = demo_held) as Hdb by (vm_compute in E; injection E as _ <-; vm_compute; reflexivity).
  destruct (install_hold_effect (demo_env "004") demo_aux (demo_core demo_db3) demo_node demo_install r c')
    as (canonical & digest & request & _ & _ & HI).
  - apply demo_volume, demo_reachable3.
  - exact E.
  - vm_compute in E. injection E as <- _. vm_compute. reflexivity.
  - destruct HI as [_ _ _ _ (receipt & at_ & H1 & H2 & _) _ _ _]. rewrite Hdb in H1, H2.
    eexists. split; [exact H1|exact H2].
Defined.

(** C12: releasing a hold.  A committed release ends exactly one active hold,
    named by the request with its epoch, binding, scope, version and revision,
    at the current revision of the scope, and advances that revision.  It stores
    one outcome with the receipt it answers, which reports the manual pause; the
    node state with that pause, the queue and every other table stay as they
    were: releasing a hold never resumes work by itself. *)
Theorem release_hold_effect env x c transport raw r c' :
  respond (ReleaseHold transport raw) env x c = (Some r, c') -> Committed r = true ->
  exists canonical digest request,
    release_request_of env raw = Some (canonical, digest, request)
    /\ lr_node request = cfg_node env /\ hold_released canonical digest request (durable c) r (durable c').
Proof.
  intros H. revert H.
  pose (Q := fun r c' => Committed r = true -> exists canonical digest request,
    release_request_of env raw = Some (canonical, digest, request)
    /\ lr_node request = cfg_node env /\ hold_released canonical digest request (durable c) r (durable c')).
  refine (wp_respond env _ Q x c r c' _).
  unfold ReleaseHold. repeat wp_step; uncommitted.
  unfold release_locked. repeat (wp_step; uncommitted).
  match goal with H : select1 (fun o : outcome_row => _) _ = None |- _ => rename H into Hout end.
  match goal with H : select1 _ (administrative_holds _) = Some ?h |- _ =>
    let Hin := fresh "Hin" in apply select1_Some in H as [Hin H] end.
  unfold hold_named in *. simplify_bool.
  eapply wp_mono; [match goal with |- wp _ _ _ _ ?c => apply (commit_release_spec env c) end; cbn [durable tx st]; try done|..].
  { unfold hold_active. apply negb_true_iff, exists_where_false. intros o Ho.
    match goal with H : hold_operation _ = _ |- _ => rewrite H end. by apply (select1_None _ _ Hout). }
  all: close_spec j s release_request_of.
Qed.

Definition demo_release : document :=
  document_of (ReleaseRequest_json (mkReleaseRequest 1 BarrierSchemaID "hold-1" demo_node 1 1 (mkScope "dialog" demo_dialog) 1 1 "release")).

Lemma release_hold_effect_witness :
  exists r c', respond (ReleaseHold demo_node demo_release) (demo_env "007") demo_aux (demo_core demo_held) = (Some r, c')
    /\ administrative_holds (durable c') = administrative_holds demo_held /\ node_state (durable c') = node_state demo_held.
Proof.
  destruct (respond (ReleaseHold demo_node demo_release) (demo_env "007") demo_aux (demo_core demo_held)) as [[r|] c'] eqn:E;
    [|vm_compute in E; discriminate E].
  destruct (release_hold_effect (demo_env "007") demo_aux (demo_core demo_held) demo_node demo_release r c')
    as (canonical & digest & request & _ & _ & [_ _ [Hh _] [Hn _]]).
  - exact E.
  - vm_compute in E. injection E as <- _. vm_compute. reflexivity.
  - exists r, c'. split; [reflexivity|]. split; [exact Hh|exact Hn].
Defined.

(** C13: a quiescence proof is true.  A proof answered with 200 is of an
    active hold of the current epoch and binding at the current revision of its
    scope; nothing in that scope is running, starting, unsettled or of unknown
    effect; its parked digest is that of the scope's queued requests in queue
    order, and the body validates as a [quiescenceProof]. *)
Theorem quiescence_proof_sound env x c transport operation r c' :
  respond (QuiescenceProof transport operation) env x c = (Some r, c') ->
  HTTPStatus r = 200 -> attested env operation (durable c) (Body r).
Proof.
  intros H. revert H.
  pose (Q := fun (r : Result) (c' : Core) => HTTPStatus r = 200 -> attested env operation (durable c) (Body r)).
  refine (wp_respond env _ Q x c r c' _).
  unfold QuiescenceProof. repeat (wp_step; try (lazymatch goal with |- Q _ _ => discriminate end)).
  simplify_bool. intros _. split; [|cbn [Body]; by unfold durableHold_scope].
  match goal with H : select1 _ (administrative_holds _) = Some ?h |- _ =>
    let Hin := fresh in apply select1_Some in H as [Hin H]; exists h end.
  match goal with H : select1 _ (quiescence_scope_revisions _) = Some ?q |- _ =>
    let Hin := fresh in apply select1_Some in H as [Hin H]; exists q end.
  unfold hold_named in *. simplify_bool. split_and!; try done; [congruence|by apply unsettled_quiescent].
Qed.

Lemma quiescence_proof_sound_witness :
  exists r c', respond (QuiescenceProof demo_node "hold-1") (demo_env "007") demo_aux (demo_core demo_held) = (Some r, c')
    /\ exists h, h ∈ administrative_holds demo_held /\ quiescent demo_node (durableHold_scope h) demo_held.
Proof.
  destruct (respond (QuiescenceProof demo_node "hold-1") (demo_env "007") demo_aux (demo_core demo_held)) as [[r|] c'] eqn:E;
    [|vm_compute in E; discriminate E].
  destruct (quiescence_proof_sound (demo_env "007") demo_aux (demo_core demo_held) demo_node "hold-1" r c')
    as [(h & q & Hin & _ & _ & _ & _ & _ & _ & Hq & _) _].
  - exact E.
  - vm_compute in E. injection E as <- _. vm_compute. reflexivity.
  - exists r, c'. split; [reflexivity|]. exists h. split; [exact Hin|exact Hq].
Defined.
