(* ===== verification/DeleteFacts.v ===== *)
(** * What a logical deletion does
    The effect of a committed [DeleteLogicalDialog] on the tables, branch by
    branch down to the statement that binds the tombstone to its event. *)
From stdpp Require Import base tactics list strings gmap pretty.
From Stdlib Require Import ZArith Lia Ascii String.
From S2P Require Import Prelude Json Wire Store Tx Adapter Events Commands Barrier Hold Submit Dispatch LogicalDelete Frames Atomic Append.
From S2P Require Import TranscriptView TranscriptFacts Invariant Handlers Transactions DeleteTx Reach Demo Answers Admission HoldFacts.
Open Scope string_scope.
Open Scope list_scope.
Open Scope Z_scope.
Open Scope harness_scope.

(** The tombstone of a dialog: its row and the event that binds it. *)
Record tombstoned (dialog : string) (version : Z) (db db' : Db) : Prop := {
  tomb_row : exists d, d ∈ dialogs db /\ dlg_id d = dialog /\ dlg_version d = version;
  tomb_alive : dialog_deleted db dialog = false;
  tomb_resolved : dialog_unresolved dialog db = false;
  tomb_version : dialogs db' = update_where (fun d => dlg_id d =s dialog) (fun d => d <| dlg_version ::= Z.succ |>) (dialogs db);
  tomb_deleted : dialog_deleted db' dialog = true }.

(** The appended event is the one the projection is bound to. *)
Lemma bound_tombstone node epoch last evs row dialog event :
  appended row "" dialog false event -> dialog <> "" -> log_ok node epoch (Z.succ last) (evs ++ [row]) ->
  exists_where (fun e => is_text (evt_dialog e) dialog && is_text (evt_key e) "dialog.deleted")
    (update_where (fun e => ((evt_node e =s node) && (evt_seq e =? Z.succ last)) && match evt_key e with None => true | Some _ => false end)
       (fun e => e <| evt_key := Some "dialog.deleted" |> <| evt_hash := None |>) (evs ++ [row])) = true.
Proof.
  intros [_ _ Hd Hk _] Hne [Hlen Hlog].
  destruct (log_from_lookup node epoch 1 (evs ++ [row]) (List.length evs) row Hlog) as (H1 & _ & H2 & _); [by apply list_lookup_middle|].
  rewrite length_app in Hlen. cbn in Hlen. apply exists_where_true.
  exists (row <| evt_key := Some "dialog.deleted" |> <| evt_hash := None |>). split.
  - apply elem_of_update_where. exists row. split; [set_solver|]. rewrite H1, H2, Hk, str_eqb_refl.
    replace (Z.of_nat (1 + List.length evs) =? Z.succ last) with true; [done|]. symmetry. apply Z.eqb_eq. lia.
  - cbn. rewrite Hd. unfold nullText. destruct (dialog =s "") eqn:E; simplify_bool; [done|]. cbn. by rewrite str_eqb_refl.
Qed.

(** The tables a deletion leaves alone. *)
Definition history_kept (db db' : Db) : Prop :=
  messages db' = messages db /\ requests db' = requests db /\ attempts db' = attempts db
  /\ control_actions db' = control_actions db /\ tool_calls db' = tool_calls db /\ approvals db' = approvals db
  /\ input_requests db' = input_requests db /\ administrative_holds db' = administrative_holds db.

Record deletion_applied (dialog : string) (version : Z) (c c' : Core) : Prop := {
  da_durable : durable c' = durable c;
  da_tomb : tombstoned dialog version (tx c) (tx c');
  da_kept : history_kept (tx c) (tx c');
  da_commands : commands (tx c') = commands (tx c);
  da_outcomes : administrative_hold_outcomes (tx c') = administrative_hold_outcomes (tx c);
  da_revisions : hold_scope_revisions (tx c') = hold_scope_revisions (tx c);
  da_receipts : logical_delete_receipts (tx c') = logical_delete_receipts (tx c);
  da_node : node_state (tx c') = node_state (tx c);
  da_state : st c' = (st c) <| StateVersion ::= Z.succ |> <| LastEventSeq ::= Z.succ |> }.

Lemma wp_dialog_delete env c e dialog version :
  log_ok (NodeID (st c)) (Epoch (st c)) (LastEventSeq (st c)) (events (tx c)) ->
  get_string "dialogId" (env_target e) = Some dialog -> get_int "dialogVersion" (env_expected e) = Some version -> dialog <> "" ->
  wp env (applyDialogDelete e) (fun _ c' => deletion_applied dialog version c c')
    (fun e _ => match e with Return r => False | _ => True end) c.
Proof.
  intros Hlog Hd Hv Hne. unfold applyDialogDelete, decode_part. rewrite Hd, Hv. repeat wp_step; try done.
  destruct (is_object (env_target e)); [|done]. destruct (is_object (env_expected e)); [|done]. simplify_eq.
  rename select (_ ≫= _ = Some _) into Hrow. destruct (select1 _ _) as [d|] eqn:Hsel in Hrow; [|done].
  apply select1_Some in Hsel as [Hin Hid]. injection Hrow as Hver Halive. apply String.eqb_eq in Hid.
  rename select (negb (_ =? z0) = false) into Heq. apply negb_false_iff, Z.eqb_eq in Heq.
  constructor; rcbn; try done. constructor; rcbn; try done; [exists d; split_and!; [done..|congruence]|].
  unfold dialog_deleted. rcbn. by eapply bound_tombstone.
Qed.

(** ** The receipts *)
Record dialog_erased (r : NodeRequest) (digest : string) (db : Db) (res : Result) (db' : Db) : Prop := {
  erased_identity : nr_epoch r = Epoch (node_state db) /\ nr_registry r = RegistryVersion (node_state db);
  erased_hold : exists h, h ∈ administrative_holds db /\ hold_operation h = nr_operation r /\ hold_node h = NodeID (node_state db)
    /\ hold_binding_matches r h = true /\ hold_active db h = true /\ hold_active db' h = false
    /\ scope_revision_of db (dialog_key (nr_dialog r)) = Some (hold_revision h)
    /\ scope_revision_of db' (dialog_key (nr_dialog r)) = Some (hold_revision h + 1);
  erased_dialog : tombstoned (nr_dialog r) (nr_dialog_version r) db db';
  erased_command : exists row, commands db' = commands db ++ [row]
    /\ cmd_id row = nr_command r /\ cmd_kind row = CommandDialogDelete;
  erased_receipt : exists receipt row, logical_delete_receipts db' = logical_delete_receipts db ++ [row]
    /\ ldr_operation row = nr_operation r /\ ldr_request_hash row = digest /\ ldr_receipt row = NodeReceipt_json receipt
    /\ ValidateNodeReceipt receipt = true /\ nc_operation receipt = nr_operation r /\ nc_dialog receipt = nr_dialog r
    /\ nc_event_seq receipt = LastEventSeq (node_state db) + 1
    /\ (res = mkResult 201 (NodeReceipt_json receipt) true \/ HTTPStatus res = 503);
  erased_kept : history_kept db db' }.

Lemma tombstoned_frame dialog version db db' db'' :
  dialogs db'' = dialogs db' -> events db'' = events db' -> tombstoned dialog version db db' -> tombstoned dialog version db db''.
Proof. intros Hd He [H1 H2 H3 H4 H5]. split; [done..|congruence|]. unfold dialog_deleted in *. by rewrite He. Qed.

Lemma commit_delete_spec env c0 c r raw digest canonical commandHash h a :
  tx c0 = durable c0 -> st c0 = node_state (durable c0) ->
  nr_epoch r = Epoch (node_state (durable c0)) -> nr_registry r = RegistryVersion (node_state (durable c0)) ->
  h ∈ administrative_holds (durable c0) -> hold_operation h = nr_operation r -> hold_node h = NodeID (node_state (durable c0)) ->
  hold_binding_matches r h = true -> hold_active (durable c0) h = true ->
  scope_revision_of (durable c0) (dialog_key (nr_dialog r)) = Some (hold_revision h) ->
  deletion_applied (nr_dialog r) (nr_dialog_version r) c0 c ->
  let Q res c' := Committed res = true -> dialog_erased r digest (durable c0) res (durable c') in
  wp env (commit_delete r raw digest canonical commandHash h (hold_revision h) a)
    Q (fun e c' => match e with Return r => Q r c' | _ => True end) c.
Proof.
  intros Htx Hst He Hreg Hin Hop Hnode Hmatch Hact Hrev [Hdur Htomb Hkept Hcom Hout Hrevs Hrec Hns Hs] Q.
  rewrite Htx in *. rewrite Hst in Hs. assert (same_identity (node_state (tx c)) (st c)) as Hid by (by rewrite Hns, Hs).
  unfold commit_delete. repeat (wp_step; uncommitted).
  all: intros _; cbn [durable].
  all: lazymatch goal with |- dialog_erased _ _ ?db _ ?db' =>
    assert (hold_active db' h = false /\ scope_revision_of db' (dialog_key (nr_dialog r)) = Some (hold_revision h + 1)) as [Hgone Hnext]
      by (eapply row_released; [cbn [administrative_hold_outcomes]; rewrite Hout; reflexivity|exact Hop|exact Hrev
                               |cbn [hold_scope_revisions]; by rewrite Hrevs]) end.
  all: constructor; [by split|exists h; by split_and!|eapply tombstoned_frame; [..|exact Htomb]; done| | |exact Hkept].
  all: rcbn; rewrite ?Hcom, ?Hrec; rename select (negb (ValidateNodeReceipt _) = false) into Hv; apply negb_false_iff in Hv.
  all: try (eexists; by split_and!).
  all: eexists _, _; split_and!; [reflexivity..|exact Hv|reflexivity|reflexivity| |first [by left|by right]].
  all: cbn [nc_event_seq]; by rewrite Hs.
Qed.

Lemma node_request_facts r : ValidateNodeRequest r = true -> nr_dialog r <> "" /\ 0 <= nr_dialog_version r <= int64_max.
Proof.
  unfold ValidateNodeRequest. intros H. simplify_bool. unfold incrementable, positive, int64_max, MaximumSafeInteger in *. simplify_bool.
  split; [|lia]. intros Hd. rename select (validUUID (nr_dialog r) = true) into Hu. rewrite Hd in Hu. by vm_compute in Hu.
Qed.

Lemma node_request_valid raw r : node_request raw = Some r -> ValidateNodeRequest r = true.
Proof.
  unfold node_request. destruct (_ && _ && _); [|discriminate]. destruct (decodeExact _ _) as [m|]; cbn [mbind option_bind]; [|discriminate].
  destruct (ValidateNodeRequest (NodeRequest_of m)) eqn:Hv; [|discriminate]. intros H%Some_inj. by subst r.
Qed.

Lemma delete_held_spec env c r raw digest h :
  DbInv (cfg_node env) (durable c) -> tx c = durable c -> st c = node_state (durable c) -> ValidateNodeRequest r = true ->
  nr_epoch r = Epoch (node_state (durable c)) -> nr_registry r = RegistryVersion (node_state (durable c)) ->
  h ∈ administrative_holds (durable c) -> hold_operation h = nr_operation r -> hold_node h = NodeID (node_state (durable c)) ->
  hold_binding_matches r h = true -> hold_active (durable c) h = true ->
  scope_revision_of (durable c) (dialog_key (nr_dialog r)) = Some (hold_revision h) ->
  let Q res c' := Committed res = true -> dialog_erased r digest (durable c) res (durable c') in
  wp env (delete_held r raw digest h (hold_revision h)) Q (fun e c' => match e with Return r => Q r c' | _ => True end) c.
Proof.
  intros HD Htx Hst Hv He Hreg Hin Hop Hnode Hmatch Hact Hrev Q. unfold delete_held. repeat (wp_step; uncommitted).
  eapply wp_mono; [apply (wp_dialog_delete env c _ (nr_dialog r) (nr_dialog_version r))|..].
  - rewrite Htx, Hst. by destruct HD.
  - reflexivity.
  - change (parse_int64 (itoa (nr_dialog_version r)) = Some (nr_dialog_version r)). apply parse_int64_itoa; apply node_request_facts in Hv; lia.
  - by destruct (node_request_facts r Hv).
  - intros a c' Hda. apply (commit_delete_spec env c); try done.
  - intros e c' He'. unfold commandError. destruct e; try done; repeat (wp_step; uncommitted).
Qed.

Lemma delete_locked_spec env c r raw digest :
  DbInv (cfg_node env) (durable c) -> ValidateNodeRequest r = true ->
  let Q res c' := Committed res = true -> dialog_erased r digest (durable c) res (durable c') in
  wp env (delete_locked r raw digest) Q (fun e c' => match e with Return r => Q r c' | _ => True end) c.
Proof.
  intros HD Hv Q. unfold delete_locked. repeat (wp_step; uncommitted).
  rename select (select1 (fun h => hold_named _ h && _ && _) _ = Some _) into Hsel.
  apply select1_Some in Hsel as [Hin Hp]. unfold hold_named in Hp. simplify_bool.
  match goal with |- wp _ (delete_held _ _ _ ?h _) _ _ ?c => pose proof (delete_held_spec env c r raw digest h) as Hspec end.
  cbn [durable tx st] in Hspec.
  rename select (scope_revision_of _ _ = Some _) into Hrev.
  subst. apply Hspec; first [assumption|reflexivity].
Qed.

(** C21: deleting a dialog.  A committed [DeleteLogicalDialog] comes from a
    valid request for this node, of its current epoch and registry version.  It
    ends exactly the active hold whose operation, scope, versions and binding
    the request names and moves the dialog's scope to the next revision; the
    dialog existed, was alive, at the version asked for and without unresolved
    work, and is now tombstoned by the event that follows the last one.  It
    stores one command and one valid receipt, which is the answer unless the
    delivery is interrupted; messages, requests, attempts, control actions,
    tools, approvals, inputs and holds stay as they were. *)
Theorem logical_delete_effect env x c transport raw res c' :
  volume (cfg_node env) (durable c) -> respond (DeleteLogicalDialog transport raw) env x c = (Some res, c') ->
  Committed res = true ->
  exists r, node_request raw = Some r /\ transport = cfg_node env /\ nr_node r = cfg_node env
    /\ dialog_erased r (sha256_hex env (marshal (NodeRequest_json r))) (durable c) res (durable c').
Proof.
  intros HD%volume_inv H. revert H.
  pose (Q := fun res c' => Committed res = true -> exists r, node_request raw = Some r /\ transport = cfg_node env /\ nr_node r = cfg_node env
    /\ dialog_erased r (sha256_hex env (marshal (NodeRequest_json r))) (durable c) res (durable c')).
  refine (wp_respond env _ Q x c res c' _).
  unfold DeleteLogicalDialog. repeat (wp_step; uncommitted). simplify_bool.
  assert (ValidateNodeRequest n = true) as Hv by (by eapply node_request_valid).
  replace (NodeRequestHash (sha256_hex env) n) with (Some (sha256_hex env (marshal (NodeRequest_json n))))
    by (unfold NodeRequestHash; by rewrite Hv). cbn [default].
  match goal with |- wp _ (delete_locked _ _ ?d) _ _ ?c => pose proof (delete_locked_spec env c n raw d HD Hv) as Hspec end.
  eapply wp_mono; [exact Hspec|..]; cbn [durable].
  - intros res0 c0 Hc r b Hres. exists n. split_and!; [reflexivity|assumption|assumption|exact (Hc Hres)].
  - intros [res0| | |] c0 Hc r b; try exact I. intros Hres. exists n. split_and!; [reflexivity|assumption|assumption|exact (Hc Hres)].
Qed.

(** The dialog of the first command, held and deleted. *)
Definition demo_close : document :=
  document_of (InstallRequest_json (mkInstallRequest 1 BarrierSchemaID (demo_uuid "102" 1) demo_node 1 1 (mkScope "dialog" demo_dialog) 0)).
Definition demo_closing : Db := Eval vm_compute in demo_run (InstallHold demo_node demo_close) "004" demo_db1.
Definition demo_delete : document :=
  document_of (NodeRequest_json (mkNodeRequest NodeSchemaID (demo_uuid "102" 1) (demo_sha "coordinator") (demo_uuid "100" 9) (demo_uuid "101" 1) demo_node
    demo_dialog 1 1 1 1 1 1)).
Lemma demo_reachable_closing : reachable demo_node demo_fresh demo_closing.
Proof.
  eapply rtc_l; [apply demo_step1|]. apply rtc_once.
  eapply (demo_step _ "004"); [apply handler_http, (http_install demo_node demo_close)|by vm_compute].
Qed.

Lemma logical_delete_effect_witness :
  exists res c', respond (DeleteLogicalDialog demo_node demo_delete) (demo_env "005") demo_aux (demo_core demo_closing) = (Some res, c')
    /\ dialog_deleted demo_closing demo_dialog = false /\ dialog_deleted (durable c') demo_dialog = true.
Proof.
  destruct (respond (DeleteLogicalDialog demo_node demo_delete) (demo_env "005") demo_aux (demo_core demo_closing)) as [[res|] c'] eqn:E;
    [|vm_compute in E; discriminate E].
  destruct (logical_delete_effect (demo_env "005") demo_aux (demo_core demo_closing) demo_node demo_delete res c')
    as (r & Hr & _ & _ & [_ _ [_ Ha _ _ Hd] _ _ _]).
  - apply demo_volume, demo_reachable_closing.
  - exact E.
  - vm_compute in E. injection E as <- _. vm_compute. reflexivity.
  - assert (nr_dialog r = demo_dialog) as Hn by (vm_compute in Hr; injection Hr as <-; vm_compute; reflexivity).
    rewrite Hn in Ha, Hd. exists res, c'. split; [reflexivity|]. split; [exact Ha|exact Hd].
Defined.

Definition demo_deleted : Db := Eval vm_compute in demo_run (DeleteLogicalDialog demo_node demo_delete) "005" demo_closing.
