(* ===== verification/DispatchFacts.v ===== *)
(** * What dispatch guarantees
    A dispatch starts the head of the queue and nothing else; anything that
    changed since the head was peeked, and every failure, leaves the volume as
    it was. *)
From stdpp Require Import base tactics list strings gmap pretty.
From Stdlib Require Import ZArith Lia Ascii String.
From S2P Require Import Prelude Json Wire Store Tx Adapter Events Commands Barrier Hold Submit Dispatch Frames Atomic Append.
From S2P Require Import Invariant Handlers Transactions Reach Demo Answers Admission.
Open Scope string_scope.
Open Scope list_scope.
Open Scope Z_scope.
Open Scope harness_scope.

(** The request a dispatch may start: queued, of a dialog no active hold
    covers, and before every other such request in the queue. *)
Record next_in_queue (node : string) (db : Db) (req : request_row) : Prop := {
  next_queued : req ∈ requests db /\ req_status req = "queued";
  next_unheld : forall h, h ∈ administrative_holds db -> hold_node h = node -> hold_active db h = true -> ~ reaches h (req_dialog req);
  next_first : forall req', req' ∈ requests db -> dispatchable node db req' = true -> req_sequence req <= req_sequence req' }.

Record started (candidate : dispatchCandidate) (policy : PolicySnapshot) (db : Db) (attempt : string) (db' : Db) : Prop := {
  started_idle : QueuePaused (node_state db) = false /\ ActiveAttemptID (node_state db) = None
    /\ StateVersion (node_state db) = dc_state candidate;
  started_request : exists req at_ message text, next_in_queue (NodeID (node_state db)) db req
    /\ (req_id req, req_dialog req, req_message req, req_sequence req)
       = (dc_request candidate, dc_dialog candidate, dc_message candidate, dc_sequence candidate)
    /\ message ∈ messages db /\ msg_id message = req_message req /\ msg_text message = Some text
    /\ requests db' = update_where (fun r => req_id r =s req_id req)
         (fun r => r <| req_version ::= Z.succ |> <| req_status := "dispatching" |> <| req_updated := at_ |>) (requests db)
    /\ attempts db' = attempts db ++ [mkAttempt attempt (NodeID (node_state db)) (req_dialog req) (req_id req)
         (next_generation db (req_message req)) 1 "dispatching" "none" (Some (req_message req)) (Some (ps_effective policy)) None None 0];
  started_state : ActiveAttemptID (node_state db') = Some attempt
    /\ PendingCount (node_state db') = PendingCount (node_state db) - 1
    /\ QueueVersion (node_state db') = QueueVersion (node_state db) + 1
    /\ StateVersion (node_state db') = StateVersion (node_state db) + 1
    /\ QueuePaused (node_state db') = false;
  started_action : exists payload, control_actions db' = control_actions db
    ++ [mkAction attempt actionDispatchStart attempt None None payload "pending"];
  started_rest : dialogs db' = dialogs db /\ commands db' = commands db /\ administrative_holds db' = administrative_holds db
    /\ administrative_hold_outcomes db' = administrative_hold_outcomes db }.

Lemma covered_reaches db node dialog h :
  covered db node dialog = false -> h ∈ administrative_holds db -> hold_node h = node -> hold_active db h = true -> ~ reaches h dialog.
Proof.
  unfold covered. rewrite exists_where_false. intros H Hin Hn Ha Hr. specialize (H h Hin).
  unfold hold_covers in H. rewrite Hn, str_eqb_refl, Ha in H. cbn [andb] in H. simplify_bool.
  destruct Hr as [Hs|(_ & Hs & Hd)]; [done|].
  match goal with H : (_ && _)%bool = false |- _ => rewrite Hs, Hd in H; cbn in H; by rewrite str_eqb_refl in H end.
Qed.

Lemma queue_head_next node db req m :
  queue_head node db = Some (req, m) ->
  next_in_queue node db req /\ m ∈ messages db /\ msg_id m = req_message req.
Proof.
  unfold queue_head. intros H. apply bind_Some in H as (r & Hf & H). apply bind_Some in H as (m' & Hm & [= -> ->]).
  apply select1_Some in Hm as [Hm Hid]. simplify_bool. split; [|done].
  pose proof Hf as Hin. apply first_by_elem, list_elem_of_In, filter_In in Hin as [Hin Hd].
  unfold dispatchable in Hd. simplify_bool. split.
  - split; [by apply list_elem_of_In|done].
  - intros h. by apply covered_reaches.
  - intros req' Hin' Hd'. eapply first_by_least; [exact Hf|]. apply list_elem_of_In, filter_In. split; [by apply list_elem_of_In|done].
Qed.

Lemma dispatch_request_spec env c req m text disposition policy candidate :
  DbInv (cfg_node env) (durable c) -> tx c = durable c -> st c = node_state (durable c) ->
  queue_head (NodeID (st c)) (durable c) = Some (req, m) -> msg_text m = Some text ->
  QueuePaused (st c) = false -> ActiveAttemptID (st c) = None -> StateVersion (st c) = dc_state candidate ->
  (req_id req, req_dialog req, req_message req, req_sequence req)
    = (dc_request candidate, dc_dialog candidate, dc_message candidate, dc_sequence candidate) ->
  wp env (dispatch_request (st c) req disposition policy)
    (fun r c' => (dr_outcome r = "dispatching" \/ dr_outcome r = "unknown") /\ dr_request r = req_id req
       /\ started candidate policy (durable c) (dr_attempt r) (durable c'))
    (fun e c' => durable c' = durable c) c.
Proof.
  destruct c as [D X S ? ? ? ? ? ? ?]. cbn [durable tx st]. intros HD -> -> Hhead Htext Hp Ha Hv Hc.
  apply queue_head_next in Hhead as (Hnext & Hm & Hid).
  pose proof (inv_log _ _ _ HD). pose proof (inv_identity _ _ _ HD).
  unfold dispatch_request, apply_queued_message, set_dispatched. repeat wp_step.
  all: cbn [dr_outcome dr_attempt dr_request]; split_and!; [by auto|done|].
  all: constructor; rcbn; try (by split_and!); try (by eexists).
  all: exists req, t, m, text; by split_and!.
Qed.

Definition dispatch_outcome (db : Db) (candidate : dispatchCandidate) (policy : PolicySnapshot) (r : DispatchResult) (db' : Db) : Prop :=
  ((dr_outcome r = "dispatching" \/ dr_outcome r = "unknown") /\ dr_request r = dc_request candidate
    /\ started candidate policy db (dr_attempt r) db')
  \/ ((dr_outcome r = "changed" \/ dr_outcome r = "held") /\ dr_attempt r = "" /\ db' = db).

Lemma commitDispatch_spec env c candidate policy :
  DbInv (cfg_node env) (durable c) ->
  wp env (commitDispatch candidate policy) (fun r c' => dispatch_outcome (durable c) candidate policy r (durable c'))
    (fun e c' => durable c' = durable c) c.
Proof.
  intros HD. pose (Q := fun r c' => dispatch_outcome (durable c) candidate policy r (durable c')).
  apply (wp_mono _ Q _ (fun _ c' => durable c' = durable c)); [|done..].
  unfold commitDispatch, dispatched. repeat wp_step; try (lazymatch goal with |- Q _ _ => right; by auto end).
  simplify_bool. destruct (ActiveAttemptID (node_state (durable c))) eqn:Ha; [done|].
  eapply wp_mono; [match goal with |- wp _ _ _ _ ?c => eapply (dispatch_request_spec env c _ _ _ _ _ candidate) end;
                   cbn [durable tx st]; try done; congruence|..|done].
  intros r' c' (? & ? & ?). left. split_and!; [done|congruence|done].
Qed.

Lemma peekDispatch_spec env c :
  wp env peekDispatch (fun _ c' => durable c' = durable c) (fun _ c' => durable c' = durable c) c.
Proof. unfold peekDispatch, autocommit. repeat wp_step. Qed.

(** What [blockPolicy] may change: the readiness it shows, never the queue. *)
Record policy_blocked (db db' : Db) : Prop := {
  blocked_rows : requests db' = requests db /\ attempts db' = attempts db /\ messages db' = messages db
    /\ control_actions db' = control_actions db /\ commands db' = commands db /\ dialogs db' = dialogs db;
  blocked_queue : PendingCount (node_state db') = PendingCount (node_state db) /\ QueueVersion (node_state db') = QueueVersion (node_state db)
    /\ ActiveAttemptID (node_state db') = ActiveAttemptID (node_state db) /\ QueuePaused (node_state db') = QueuePaused (node_state db) }.

Lemma policy_blocked_same db db' : db' = db -> policy_blocked db db'.
Proof. by intros ->. Qed.

Lemma blockPolicy_spec env c :
  DbInv (cfg_node env) (durable c) ->
  wp env blockPolicy (fun _ c' => policy_blocked (durable c) (durable c'))
    (fun e c' => is_return e = false /\ policy_blocked (durable c) (durable c')) c.
Proof.
  intros HD. pose proof (inv_log _ _ _ HD). pose proof (inv_identity _ _ _ HD).
  pose proof (policy_blocked_same (durable c) _ eq_refl).
  unfold blockPolicy. repeat wp_step; try done. split; [done|by apply policy_blocked_same].
Qed.

(** ** The claims *)
(** C14: dispatch is FIFO, exclusive and conditional.  A dispatch that
    reports an attempt (acknowledged as [dispatching], or [unknown] when only
    the notification failed) committed it for the first queued request no
    active hold covers: exactly the one that was peeked, at the state version it
    was peeked at, with the queue not paused and no attempt active.  That
    request moves to [dispatching], leaves the pending count, becomes the active
    attempt and has its [dispatch.start] action queued.  Any other outcome
    ([changed], [held]) and any error leaves the volume untouched. *)
Theorem dispatch_starts_next_in_queue env x c candidate policy :
  volume (cfg_node env) (durable c) ->
  match run (commitDispatch candidate policy) env x c with
  | (inr r, c') =>
      ((dr_outcome r = "dispatching" \/ dr_outcome r = "unknown") /\ dr_request r = dc_request candidate
        /\ started candidate policy (durable c) (dr_attempt r) (durable c'))
      \/ ((dr_outcome r = "changed" \/ dr_outcome r = "held") /\ dr_attempt r = "" /\ durable c' = durable c)
  | (inl _, c') => durable c' = durable c
  end.
Proof.
  intros HD%volume_inv. pose proof (commitDispatch_spec env c candidate policy HD x) as Hwp.
  unfold run. by destruct (commitDispatch candidate policy env x c) as [[[]] ?].
Qed.

Lemma dispatch_starts_next_in_queue_witness :
  exists r c', run (commitDispatch demo_candidate demo_policy) (demo_env "005") demo_aux (demo_core demo_db3) = (inr r, c')
    /\ started demo_candidate demo_policy demo_db3 (dr_attempt r) (durable c').
Proof.
  pose proof (dispatch_starts_next_in_queue (demo_env "005") demo_aux (demo_core demo_db3) demo_candidate demo_policy
                (demo_volume _ demo_reachable3)) as H.
  destruct (run (commitDispatch demo_candidate demo_policy) (demo_env "005") demo_aux (demo_core demo_db3)) as [[e|r] c'] eqn:E;
    [vm_compute in E; discriminate E|].
  exists r, c'. split; [reflexivity|]. destruct H as [(_ & _ & H)|([H|H] & _ & _)]; [exact H|..];
    vm_compute in E; injection E as <- _; vm_compute in H; discriminate H.
Defined.

(** C15: no dispatch without readiness and policy.  [DispatchNext] starts an
    attempt only when the adapter probe and both provider-auth probes pass and
    the policy source's answer for the dialog of the peeked request passes
    [PreparePolicySnapshot]; the attempt runs under that prepared policy.
    Every other outcome leaves the queue, its requests and attempts as they
    were, whatever failed on the way. *)
Theorem dispatch_requires_policy env x c native auth again policy :
  volume (cfg_node env) (durable c) ->
  match run (DispatchNext native auth again policy) env x c with
  | (inr r, c') =>
      ((dr_outcome r = "dispatching" \/ dr_outcome r = "unknown")
        /\ native = true /\ auth = true /\ again = true
        /\ exists candidate p prepared, policy (dc_dialog candidate) = Some p
             /\ PreparePolicySnapshot (sha256_hex env) p = Some prepared
             /\ dr_request r = dc_request candidate /\ started candidate prepared (durable c) (dr_attempt r) (durable c'))
      \/ ((dr_outcome r = "blocked" \/ dr_outcome r = "idle" \/ dr_outcome r = "changed" \/ dr_outcome r = "held")
          /\ policy_blocked (durable c) (durable c'))
  | (inl _, c') => durable c' = durable c
  end.
Proof.
  intros HD%volume_inv.
  pose (Q := fun (r : DispatchResult) (c' : Core) =>
    ((dr_outcome r = "dispatching" \/ dr_outcome r = "unknown")
        /\ native = true /\ auth = true /\ again = true
        /\ exists candidate p prepared, policy (dc_dialog candidate) = Some p
             /\ PreparePolicySnapshot (sha256_hex env) p = Some prepared
             /\ dr_request r = dc_request candidate /\ started candidate prepared (durable c) (dr_attempt r) (durable c'))
      \/ ((dr_outcome r = "blocked" \/ dr_outcome r = "idle" \/ dr_outcome r = "changed" \/ dr_outcome r = "held")
          /\ policy_blocked (durable c) (durable c'))).
  enough (wp env (DispatchNext native auth again policy) Q (fun _ c' => durable c' = durable c) c) as Hwp
    by (specialize (Hwp x); unfold run; by destruct (DispatchNext native auth again policy env x c) as [[[]] ?]).
  unfold DispatchNext, dispatched. wp_prim. wp_prim.
  destruct (negb native || negb auth) eqn:Hready; [apply wp_ret; right; by auto using policy_blocked_same|]. simplify_bool.
  wp_prim. eapply wp_mono; [apply peekDispatch_spec| |done].
  intros candidate c1 H1. destruct candidate as [candidate|]; [|apply wp_ret; right; by auto 6 using policy_blocked_same].
  destruct (policy (dc_dialog candidate) ≫= PreparePolicySnapshot (sha256_hex env)) as [prepared|] eqn:Hp.
  - apply bind_Some in Hp as (p & Hp & Hprep).
    destruct (negb again) eqn:Hagain; [apply wp_ret; right; by auto 6 using policy_blocked_same|]. simplify_bool.
    rewrite <- H1 in HD. eapply wp_mono; [by apply commitDispatch_spec|..].
    + intros r c2 [(? & ? & Hs)|(? & _ & Hs)]; [left|right].
      * rewrite H1 in Hs. split_and!; try done. by exists candidate, p, prepared.
      * split; [tauto|apply policy_blocked_same; congruence].
    + intros e c2 Hs. congruence.
  - wp_prim. wp_prim. rewrite <- H1 in HD.
    eapply wp_mono; [by apply blockPolicy_spec|..]; rewrite H1.
    + intros ? c2 Hb. apply wp_ret. right. by auto.
    + intros e c2 [He Hb]. destruct e; [done|apply wp_ret, wp_ret; right; by auto..].
Qed.

Lemma dispatch_requires_policy_witness :
  exists r c', run (DispatchNext true true true (fun _ => Some demo_policy)) (demo_env "005") demo_aux (demo_core demo_db3) = (inr r, c')
    /\ exists candidate prepared, started candidate prepared demo_db3 (dr_attempt r) (durable c').
Proof.
  pose proof (dispatch_requires_policy (demo_env "005") demo_aux (demo_core demo_db3) true true true (fun _ => Some demo_policy)
                (demo_volume _ demo_reachable3)) as H.
  destruct (run (DispatchNext true true true (fun _ => Some demo_policy)) (demo_env "005") demo_aux (demo_core demo_db3)) as [[e|r] c'] eqn:E;
    [vm_compute in E; discriminate E|].
  exists r, c'. split; [reflexivity|].
  destruct H as [(_ & _ & _ & _ & candidate & p & prepared & _ & _ & _ & H)|([H|[H|[H|H]]] & _)];
    [exists candidate, prepared; exact H|..]; vm_compute in E; injection E as <- _; vm_compute in H; discriminate H.
Defined.
