(* ===== verification/ActionFacts.v ===== *)
(** * What the action worker does
    [performAction] is a sequence of the transactions of [Reach.worker], whose
    guards follow from the node invariant for the intent it claimed; it settles
    the intent it performed, and the lanes respect the holds. *)
From stdpp Require Import base tactics list strings gmap pretty.
From Stdlib Require Import ZArith Lia Ascii String.
From S2P Require Import Prelude Json Wire Store Tx Adapter Events Commands Barrier Hold Submit Dispatch Frames.
From S2P Require Import TranscriptView Capture Budget Observe Actions Recovery Atomic Append Invariant Steering Handlers Keeping Transactions.
From S2P Require Import Observing WorkerTx WorkerHistory Reach Demo Answers.
Open Scope string_scope.
Open Scope list_scope.
Open Scope Z_scope.
Open Scope harness_scope.

(** ** References *)
Lemma has_attempt_key reference db : has_attempt reference db <-> (ref_attempt reference, ref_request reference) ∈ List.map attempt_key (attempts db).
Proof.
  unfold has_attempt, targets. split.
  - intros [started H]. apply scope_row in H as (a & Ha & [= E1 E2 _]). rewrite <- E1, <- E2.
    apply list_elem_of_In, (List.in_map attempt_key). by apply list_elem_of_In.
  - intros H. apply list_elem_of_In, List.in_map_iff in H as (a & [= E1 E2] & Ha). exists (att_started a).
    rewrite <- E1, <- E2. by apply list_elem_of_In, (List.in_map attempt_facts).
Qed.
Lemma has_attempt_extends reference db db' : extends db db' -> has_attempt reference db -> has_attempt reference db'.
Proof. intros [_ _ _ _ _ _ _ [l Hl] _ _]. rewrite !has_attempt_key, Hl. intros H. apply elem_of_app. by left. Qed.

(** The payload of an action is read back as it was stored. *)
Lemma payload_request v p : actionPayload_of_json v = Some p -> get_string "requestId" v = Some (pl_request p).
Proof.
  unfold actionPayload_of_json. destruct (negb (is_object v)); [done|]. intros H.
  repeat (apply bind_Some in H as (? & ? & H)). by injection H as <-.
Qed.

Lemma claimed_addressed node db c p : DbInv node db -> c ∈ control_actions db -> steer_action c = false ->
  actionPayload_of_json (act_payload c) = Some p -> has_attempt (action_reference node c p) db.
Proof.
  intros HI Hc Hs Hp. apply payload_request in Hp. destruct (act_addressed _ _ _ _ _ (inv_actions _ _ _ HI) c Hc Hs) as (a & Ha & Hid & Hreq).
  apply has_attempt_key. cbn [action_reference ref_attempt ref_request]. rewrite Hp in Hreq. injection Hreq as ->. rewrite <- Hid.
  apply list_elem_of_In, (List.in_map attempt_key). by apply list_elem_of_In.
Qed.
Lemma claimed_steering node db c p : c ∈ control_actions db -> open_steer c = true ->
  actionPayload_of_json (act_payload c) = Some p -> steering (action_reference node c p) (default "" (act_message c)) db.
Proof. intros Hc Ho Hp. exists c. by rewrite (payload_request _ _ Hp). Qed.

(** ** Runs as steps *)
Section Trace.
Context (env : Env) (D : Db).
Abbreviation node := (cfg_node env).

Lemma wp_worker {A} (m : M A) c (Q : A -> Core -> Prop) (E : err -> Core -> Prop) :
  worker (durable c) A m -> reachable node D (durable c) ->
  (forall a c', reachable node D (durable c') -> extends (durable c) (durable c') -> Q a c') ->
  (forall e c', reachable node D (durable c') -> extends (durable c) (durable c') -> E e c') -> wp env m Q E c.
Proof using.
  intros Hw Hr HQ HE x. pose proof (step_worker node A m env x c Hw eq_refl) as Hs. pose proof (step_extends _ _ _ Hs) as He.
  assert (reachable node D (durable (run m env x c).2)) as Hr' by (eapply rtc_r; [exact Hr|exact Hs]).
  unfold run in Hr', He. destruct (m env x c) as [[[e|a] x'] c']; [by apply HE|by apply HQ].
Qed.

(** What a worker does to the committed database is steps. *)
Definition traces {A} (m : M A) (c : Core) : Prop :=
  wp env m (fun _ c' => reachable node D (durable c')) (fun _ c' => reachable node D (durable c')) c.

Lemma traces_worker {A} (m : M A) c : worker (durable c) A m -> reachable node D (durable c) -> traces m c.
Proof using. intros. by apply wp_worker. Qed.
Lemma traces_bind {A B} (m : M A) (k : A -> M B) c :
  worker (durable c) A m -> reachable node D (durable c) ->
  (forall a c', reachable node D (durable c') -> extends (durable c) (durable c') -> traces (k a) c') -> traces (m ≫= k) c.
Proof using. intros. apply wp_bind. by apply wp_worker. Qed.
Lemma traces_finish command status c : reachable node D (durable c) -> traces (finishAction command status) c.
Proof using. intros. apply traces_worker; [constructor|done]. Qed.
Lemma traces_abandon reference command reason c : has_attempt reference (durable c) -> reachable node D (durable c) ->
  traces (abandon reference command reason) c.
Proof using. intros. unfold abandon. apply traces_bind; [by constructor|done|]. intros. by apply traces_finish. Qed.
Lemma traces_refuse reference command c :
  refusable (rejected_start reference) (durable c) -> reachable node D (durable c) -> traces (refuse_start reference command) c.
Proof using.
  intros Hf Hr. unfold refuse_start. apply wp_bind, wp_catch. apply wp_worker; [by constructor|done|..].
  - intros. by apply traces_finish.
  - intros [] c' ? ?; try done; apply wp_ret; by apply traces_finish.
Qed.

Lemma dispatching_refusable reference i db : DbInv node db -> dispatch_input (ref_attempt reference) db = Some i ->
  refusable (rejected_start reference) db.
Proof using.
  intros HI Hi _ a Ha He. cbn in He. unfold dispatch_input in Hi. apply bind_Some in Hi as (b & Hb & _).
  apply select1_Some in Hb as [Hin Hb]. simplify_bool. rename select (att_state b = _) into Hs. rename select (att_id b = _) into Hid.
  assert (a = b) as ->.
  { destruct (inv_attempts _ _ _ HI) as [Hnd _ _]. eapply (select1_unique att_id); [exact Hnd|by apply select1_key_unique|done|congruence]. }
  by apply (att_begun _ _ _ _ _ (inv_actions _ _ _ HI) b Hin).
Qed.

Lemma wp_autocommit_row {A} (f : Db -> option A) (Q : A -> Core -> Prop) (E : err -> Core -> Prop) c :
  (forall a c', f (durable c) = Some a -> durable c' = durable c -> Q a c') ->
  (forall e c', is_return e = false -> durable c' = durable c -> E e c') -> wp env (autocommit (query_row f)) Q E c.
Proof using.
  intros HQ HE. unfold autocommit. apply wp_bind, wp_modify, wp_bind, wp_query_row; [|intros; by apply HE..].
  intros a Ha. apply wp_bind, wp_modify, wp_ret. by apply HQ.
Qed.

Lemma reachable_volume_inv db : DbInv node D -> reachable node D db -> DbInv node db.
Proof using. intros HD. induction 1 as [|x y z Hs _ IH]; [done|]. apply IH. by eapply step_inv. Qed.

Lemma traces_dispatch adapter action reference c : DbInv node D -> has_attempt reference (durable c) -> reachable node D (durable c) ->
  traces (performDispatch adapter action reference) c.
Proof using.
  intros HD Hh Hr. unfold performDispatch. cbv zeta. destruct (_ || _).
  { apply wp_bind. apply wp_worker; [constructor|done|intros; by apply wp_ret|done]. }
  apply wp_bind, wp_ask, wp_bind, wp_catch, wp_bind.
  assert (forall reason c', extends (durable c) (durable c') -> reachable node D (durable c') ->
    traces (abandon reference (act_id action) reason ;; mret false) c') as Habandon.
  { intros reason c' Hd Hr'. apply wp_bind. eapply wp_mono; [apply traces_abandon; [by eapply has_attempt_extends|done]|intros; by apply wp_ret|done]. }
  apply wp_autocommit_row; [|intros [] c' Hret Hd; try done; apply wp_ret; apply Habandon; by rewrite Hd].
  intros i c' Hi Hd. apply wp_ret. destruct (PreparePolicySnapshot _ _) as [policy|]; [|apply Habandon; by rewrite Hd].
  destruct (start_answer _ _ _ _); try (apply Habandon; by rewrite Hd).
  - apply wp_bind, wp_catch, wp_bind. apply wp_worker; [constructor; by rewrite Hd|by rewrite Hd|..].
    + intros _ c2 Hr2 _. apply wp_ret. apply wp_bind. eapply wp_mono; [by apply traces_finish|intros; by apply wp_ret|done].
    + rewrite Hd. intros [] c2 Hr2 He2; try done; apply wp_ret; by apply Habandon.
  - apply wp_bind. eapply wp_mono; [apply traces_refuse; rewrite Hd; [|done]|intros; by apply wp_ret|done].
    eapply dispatching_refusable; [|done]. by apply reachable_volume_inv.
Qed.

Lemma traces_respond (k : M unit) invalid reference c : has_attempt reference (durable c) -> reachable node D (durable c) ->
  (forall c', has_attempt reference (durable c') -> reachable node D (durable c') -> traces k c') ->
  traces ((if (invalid : bool) then markAttemptUnknown reference "adapter_protocol" "unknown" else mret tt) ;; k) c.
Proof using.
  intros Hh Hr Hk. destruct invalid; [|by apply wp_bind, wp_ret, Hk].
  apply traces_bind; [by constructor|done|]. intros _ c' Hr' He. apply Hk; [by eapply has_attempt_extends|done].
Qed.
End Trace.

Lemma performAction_traces adapter action env x c :
  volume (cfg_node env) (durable c) -> action ∈ control_actions (durable c) -> act_status action = "inflight" ->
  (forall reference message text, Steer adapter reference message text <> Some SteerOther) ->
  reachable (cfg_node env) (durable c) (durable (run (performAction adapter action) env x c).2).
Proof.
  intros HV%volume_inv Hin Hst Hsteer.
  assert (traces env (durable c) (performAction adapter action) c) as Ht.
  2: { specialize (Ht x). unfold run. by destruct (performAction adapter action env x c) as [[[]] ?]. }
  assert (reachable (cfg_node env) (durable c) (durable c)) as Hr by apply rtc_refl.
  unfold performAction. apply wp_bind, wp_ask. destruct (actionPayload_of_json _) as [p|] eqn:Hp; [|by apply wp_ret]. cbv zeta.
  assert (steer_action action = false -> has_attempt (action_reference (cfg_node env) action p) (durable c)) as Hh
    by (intros; by eapply claimed_addressed).
  unfold steer_action in Hh.
  destruct (act_kind action =s actionDispatchStart) eqn:K1; simplify_bool.
  { rewrite K1 in Hh. apply wp_bind. eapply wp_mono; [by apply traces_dispatch; [|apply Hh|]|intros; by apply wp_ret|done]. }
  destruct (act_kind action =s CommandAttemptStop) eqn:K2; simplify_bool.
  { rewrite K2 in Hh. destruct (Cancel _ _) as [[]|]; first [by apply traces_abandon; [apply Hh|]|by apply traces_finish]. }
  destruct (act_kind action =s CommandMessageSteer) eqn:K3; simplify_bool.
  { assert (steering (action_reference (cfg_node env) action p) (default "" (act_message action)) (durable c)) as Hs.
    { eapply claimed_steering; [done| |done]. unfold open_steer, steer_action. by rewrite K3, Hst. }
    specialize (Hsteer (action_reference (cfg_node env) action p) (default "" (act_message action)) (pl_text p)).
    destruct (Steer _ _ _ _) as [[]|]; [..|done|]; try (apply traces_bind; [by constructor|done|]; intros; by apply traces_finish). }
  specialize (Hh eq_refl).
  destruct (act_kind action =s CommandApprovalRespond); [|destruct (act_kind action =s CommandInputRespond); [|by apply wp_ret]].
  all: destruct (responseOutcome _) as [outcome invalid]; apply (traces_respond env (durable c) _ _ _ _ Hh); [done|].
  all: intros c' Hh' Hr'; apply traces_bind; [by constructor|done|]; intros; by apply traces_finish.
Qed.

(** The demonstration's attempt runs, and its second message is steered. *)
Lemma demo_step_started : reachable demo_node demo_claimed demo_started.
Proof.
  pose (action := default (mkAction "" "" "" None None JNull "") (demo_intent actionDispatchStart demo_claimed)).
  assert (demo_started = durable (run (performAction demo_adapter action) (demo_env "007") demo_aux (demo_core demo_claimed)).2) as -> by (by vm_compute).
  apply (performAction_traces demo_adapter action (demo_env "007") demo_aux (demo_core demo_claimed)); try done.
  - apply demo_volume, demo_reachable_claimed.
  - vm_compute. left.
Qed.
Lemma demo_reachable_started : reachable demo_node demo_fresh demo_started.
Proof. etrans; [apply demo_reachable_claimed|apply demo_step_started]. Qed.
Lemma demo_reachable_steered : reachable demo_node demo_fresh demo_steered.
Proof.
  eapply rtc_r; [apply demo_reachable_started|].
  eapply (demo_step _ "008"); [apply handler_http, (http_submit demo_trust demo_steer)|by vm_compute].
Qed.



Lemma wp_run {A} env (m : M A) (Q : A -> Core -> Prop) E x c r c' :
  wp env m Q E c -> run m env x c = (r, c') -> match r with inr a => Q a c' | inl e => E e c' end.
Proof. intros H. specialize (H x). unfold run. destruct (m env x c) as [[[e|a] x'] c'']; by intros [= <- <-]. Qed.

(** ** Claims *)
(** The claimed intent, before and after. *)
Definition claimed (l : lane) (db db' : Db) (action : action_row) : Prop :=
  select1 (in_lane l db) (control_actions db) = Some action
  /\ control_actions db' = update_where (fun a => (act_id a =s act_id action) && (act_status a =s "pending"))
       (fun a => a <| act_status := "inflight" |>) (control_actions db).
Lemma wp_claim adapter l env c :
  wp env (claimAction adapter l)
    (fun o c' => match o with
                 | Some action => claimed l (durable c) (durable c') action /\ (l = DispatchLane -> ProviderAuthReady adapter = true)
                 | None => durable c' = durable c
                 end) (fun _ c' => durable c' = durable c) c.
Proof.
  unfold claimAction. destruct (match l with DispatchLane => negb _ | _ => false end) eqn:Hauth; [by apply wp_ret|].
  apply wp_catch, wp_bind, wp_begin; [|by apply wp_ret]. apply wp_bind, wp_query_row; [|by intros; apply wp_ret..].
  intros action Ha. apply wp_bind, wp_exec; [|by apply wp_ret..]. intros db' Hm. rcbn_in Hm. unfold move_action in Hm. frame_in Hm.
  apply wp_bind, wp_commit; [|by apply wp_ret]. apply wp_ret. rcbn. split; [done|]. intros ->. by simplify_bool.
Qed.

(** Claiming respects lanes and holds.  What [claimAction] answers is the
    oldest pending intent of its lane, moved to in-flight in the same
    transaction, and nothing else in the control table changes; a start is
    never claimed without provider authorization nor while an active hold
    covers its dialog.  When it answers nothing, nothing changed. *)
Theorem claim_takes_next_of_lane adapter l env x c r c' :
  run (claimAction adapter l) env x c = (r, c') ->
  match r with
  | inr (Some action) =>
      claimed l (durable c) (durable c') action
      /\ (l = DispatchLane -> ProviderAuthReady adapter = true
          /\ exists a, a ∈ attempts (durable c) /\ att_id a = act_attempt action /\ covered (durable c) (att_node a) (att_dialog a) = false)
  | _ => durable c' = durable c
  end.
Proof.
  intros H. apply (wp_run _ _ _ _ _ _ _ _ (wp_claim adapter l env c)) in H. destruct r as [e|[action|]]; [done| |done].
  destruct H as [[Hs Hm] Hauth]. split; [done|]. intros ->. split; [by apply Hauth|].
  apply select1_Some in Hs as [_ Hl]. unfold in_lane in Hl. simplify_bool.
  destruct (select1 _ (attempts (durable c))) as [a|] eqn:Ha; [|done]. simplify_bool. apply select1_Some in Ha as [Hin He]. simplify_bool.
  by exists a.
Qed.
Lemma claim_takes_next_of_lane_witness : exists action, claimed DispatchLane demo_running demo_claimed action.
Proof.
  pose proof (claim_takes_next_of_lane demo_adapter DispatchLane (demo_env "006") demo_aux (demo_core demo_running)) as H.
  destruct (run (claimAction demo_adapter DispatchLane) (demo_env "006") demo_aux (demo_core demo_running)) as [r c'] eqn:E.
  specialize (H _ _ eq_refl). vm_compute in E. injection E as <- <-. destruct H as [H _]. eexists. exact H.
Defined.

(** ** Steers *)
(** What the worker hands the adapter's [Steer] is not the attempt's own
    reference: while the steered message is still [steer_pending], the request
    in it is the message's, which waits in the queue, and never the one the
    attempt in the slot runs.  ([applyMessageSteer] records the message's
    request; an adapter that finds its runs by reference cannot find this one.) *)
Theorem steer_names_another_request node db action p m a :
  volume node db -> action ∈ control_actions db -> open_steer action = true ->
  actionPayload_of_json (act_payload action) = Some p ->
  m ∈ messages db -> act_message action = Some (msg_id m) -> msg_disposition m = Some "steer_pending" ->
  a ∈ attempts db -> att_id a = act_attempt action ->
  ActiveAttemptID (node_state db) = Some (att_id a)
  /\ msg_request m = Some (ref_request (action_reference node action p))
  /\ ref_request (action_reference node action p) <> att_request a.
Proof.
  intros HI%volume_inv Hc Ho Hp Hm Hmid Hd Ha Hid.
  destruct (act_steers _ _ _ _ _ (inv_actions _ _ _ HI) action Hc Ho) as (Hact & _ & (x & Hx & Ex & Er & Hw)).
  rewrite Hmid in Ex. cbn in Ex. assert (x = m) as ->.
  { destruct (inv_messages _ _ _ HI) as [Hnd _]. eapply (select1_unique msg_id); [exact Hnd|by apply select1_key_unique|done|done]. }
  rewrite (payload_request _ _ Hp) in Er. destruct (Hw Hd) as (r & Hr & Err & _ & Hq).
  destruct (inv_slots _ _ _ HI a Ha) as (r' & Hr' & Hid' & Hq'). cbn. split_and!; [congruence|done|]. intros He.
  assert (r = r') as ->; [|congruence]. destruct (inv_requests _ _ _ HI) as [Hnd _ _].
  eapply (select1_unique req_id); [exact Hnd|by apply select1_key_unique|done|congruence].
Qed.
Lemma steer_names_another_request_witness : exists action p a,
  action ∈ control_actions demo_steered /\ actionPayload_of_json (act_payload action) = Some p /\ a ∈ attempts demo_steered
  /\ att_id a = act_attempt action /\ pl_request p <> att_request a.
Proof.
  destruct (control_actions demo_steered) as [|c0 [|action [|]]] eqn:Ec; vm_compute in Ec; try discriminate.
  destruct (messages demo_steered) as [|m0 [|m [|]]] eqn:Em; vm_compute in Em; try discriminate.
  destruct (attempts demo_steered) as [|a [|]] eqn:Ea; vm_compute in Ea; try discriminate.
  destruct (actionPayload_of_json (act_payload action)) as [p|] eqn:Ep; [|injection Ec as <- <-; vm_compute in Ep; discriminate].
  assert (att_id a = act_attempt action) as Hid by (injection Ec as <- <-; injection Ea as <-; reflexivity).
  assert (action ∈ [c0; action] /\ a ∈ [a] /\ m ∈ [m0; m]) as (H1 & H2 & H3) by set_solver.
  exists action, p, a. split_and!; [exact H1|exact Ep|exact H2|exact Hid|].
  refine (proj2 (proj2 (steer_names_another_request demo_node demo_steered action p m a _ _ _ Ep _ _ _ _ Hid))).
  - apply demo_volume, demo_reachable_steered.
  - injection Ec as <- <-. vm_compute. right. left.
  - injection Ec as <- <-. reflexivity.
  - injection Em as <- <-. vm_compute. right. left.
  - injection Ec as <- <-. injection Em as <- <-. reflexivity.
  - injection Em as <- <-. reflexivity.
  - injection Ea as <-. vm_compute. left.
Defined.
