(* ===== verification/RecoveryFacts.v ===== *)
(** * What a restart and a reconciliation do
    [recoverStartup] leaves no intent open and no attempt running;
    [applyReconciledTerminal] settles an attempt only when nothing of it is
    unresolved. *)
From stdpp Require Import base tactics list strings gmap pretty.
From Stdlib Require Import ZArith Lia Ascii String.
From S2P Require Import Prelude Json Wire Store Tx Adapter Events Commands Barrier Hold Submit Dispatch Frames.
From S2P Require Import TranscriptView Capture Budget Observe Actions Recovery Invariant Steering Handlers Keeping Transactions.
From S2P Require Import SafeTextStore Observing WorkerTx Reach Demo ActionFacts.
Open Scope string_scope.
Open Scope list_scope.
Open Scope Z_scope.
Open Scope harness_scope.







Lemma count_where_zero {A} (p : A -> bool) l : count_where p l = 0 -> forall x, x ∈ l -> p x = false.
Proof. intros H x Hx. apply (exists_where_false p l); [|done]. by rewrite exists_where_count, H. Qed.

Section Reconcile.
Context {T : SafeText} (reference : AttemptRef).


End Reconcile.


