(* ===== verification/FilesFacts.v ===== *)
(** * Startup cleanup of the artifact directory
    [reconcileArtifactFiles] removes exactly the files no committed row
    references. *)
From stdpp Require Import base tactics list strings gmap pretty.
From Stdlib Require Import ZArith Lia Ascii String.
From S2P Require Import Prelude Json Wire Store Tx Events Frames Files Demo.
Open Scope string_scope.
Open Scope list_scope.
Open Scope Z_scope.
Open Scope harness_scope.

Lemma file_bytes_without name other d :
  file_bytes name (without_file other d) = if other =s name then None else file_bytes name d.
Proof.
  unfold file_bytes, without_file. induction d as [|[n b] d IH]; cbn [List.filter List.find fst]; [by destruct (other =s name)|].
  destruct (n =s other) eqn:E1; cbn [negb List.find fst].
  - rewrite IH. destruct (other =s name) eqn:E2; [done|]. destruct (n =s name) eqn:E3; [|done]. simplify_bool. congruence.
  - destruct (n =s name) eqn:E3; [|done]. destruct (other =s name) eqn:E2; [|done]. simplify_bool. congruence.
Qed.

(** Only orphans go; the ones of the listing are gone at the end. *)
Definition cleaned (committed : list string) (c c' : Core) : Prop :=
  durable c' = durable c
  /\ forall name, orphan committed name = false -> file_bytes name (files c') = file_bytes name (files c).
Lemma wp_remove_orphans committed env d removed c :
  wp env (remove_orphans committed d removed)
    (fun _ c' => cleaned committed c c' /\ forall name, orphan committed name = true ->
       file_bytes name (files c) = None \/ name ∈ d.*1 -> file_bytes name (files c') = None)
    (fun _ c' => cleaned committed c c') c.
Proof.
  revert removed c. induction d as [|[name b] d IH]; intros removed c; cbn [remove_orphans].
  - assert (cleaned committed c c /\ forall name, orphan committed name = true ->
       file_bytes name (files c) = None \/ name ∈ (@nil (string * string)).*1 -> file_bytes name (files c) = None) as H
      by (split; [done|]; intros n _ [H|H]; [done|set_solver]).
    destruct removed; [|by apply wp_ret]. apply wp_io; [exact H|apply H].
  - destruct (orphan committed name) eqn:Ho.
    + unfold remove_file. apply wp_bind, wp_bind, wp_io; [|done]. apply wp_bind, wp_io; [|done]. apply wp_modify.
      set (c1 := c <| files ::= without_file name |>).
      assert (cleaned committed c c1) as H1.
      { split; [done|]. intros n Hn. change (files c1) with (without_file name (files c)). rewrite file_bytes_without.
        destruct (name =s n) eqn:E; [|done]. simplify_bool. congruence. }
      eapply wp_mono; [apply IH|..]; cbn beta.
      * intros _ c2 [[Hd Hk] Hgone]. destruct H1 as [Hd1 Hk1]. split; [split; [congruence|intros n Hn; by rewrite Hk, Hk1]|].
        intros n Hn Hin. apply Hgone; [done|]. change (files c1) with (without_file name (files c)). rewrite file_bytes_without.
        destruct (name =s n) eqn:E; [by left|]. simplify_bool. destruct Hin as [Hin|Hin]; [by left|right].
        cbn in Hin. apply elem_of_cons in Hin as [->|]; done.
      * intros _ c2 [Hd Hk]. destruct H1 as [Hd1 Hk1]. split; [congruence|intros n Hn; by rewrite Hk, Hk1].
    + eapply wp_mono; [apply IH| |done]; cbn beta. intros _ c2 [H1 H2]. split; [done|]. intros n Hn [Hin|Hin]; apply H2; auto.
      cbn in Hin. apply elem_of_cons in Hin as [->|]; [congruence|by right].
Qed.

Lemma cleanup_cleans env x c r c' :
  run reconcileArtifactFiles env x c = (r, c') ->
  let committed := List.map art_id (artifacts (durable c)) in
  cleaned committed c c' /\ (r = inr tt -> forall name, orphan committed name = true -> file_bytes name (files c') = None).
Proof.
  intros H committed.
  assert (wp env reconcileArtifactFiles (fun _ c' => cleaned committed c c' /\ forall name, orphan committed name = true -> file_bytes name (files c') = None)
            (fun _ c' => cleaned committed c c') c) as Hw.
  { unfold reconcileArtifactFiles. apply wp_bind. unfold autocommit. apply wp_bind, wp_modify, wp_bind, wp_query; [|done].
    apply wp_bind, wp_modify, wp_ret. destruct (existsb _ _); [by apply wp_fail|].
    apply wp_bind, wp_io; [|done]. apply wp_bind, wp_get.
    eapply wp_mono; [apply wp_remove_orphans|..]; cbn beta; [|by intros e c2 H2].
    intros _ c2 [H1 H2]. split; [exact H1|]. intros name Hn. apply H2; [exact Hn|].
    cbn. destruct (file_bytes name (files c)) as [b|] eqn:E; [right|by left].
    unfold file_bytes in E. destruct (List.find _ _) as [[n b']|] eqn:F; [|done]. apply List.find_some in F as [Fin Fe]. cbn in Fe. simplify_bool.
    subst n. apply list_elem_of_fmap. exists (name, b'). split; [done|]. by apply list_elem_of_In. }
  specialize (Hw x). unfold run in H. destruct (reconcileArtifactFiles env x c) as [[[e|[]] x'] c'']; injection H as <- <-; [split; [exact Hw|done]|].
  destruct Hw as [H1 H2]. split; [exact H1|]. by intros _.
Qed.
Lemma orphan_spec committed name :
  orphan committed name = true <-> in_set name committed = false /\ (uuidPattern name = true \/ (artifactTemporaryID name).2 = true).
Proof. unfold orphan. by rewrite andb_true_iff, negb_true_iff, orb_true_iff. Qed.

(** C32: the startup cleanup removes the orphans and nothing else.  Whatever
    fails, the database is untouched and every file that a committed artifact row
    names (or whose name is neither an id nor a temporary name) keeps its bytes;
    when the cleanup succeeds no other file is left. *)
Theorem cleanup_removes_orphans env x c r c' :
  run reconcileArtifactFiles env x c = (r, c') ->
  let committed := List.map art_id (artifacts (durable c)) in
  durable c' = durable c
  /\ (forall name, in_set name committed = true -> file_bytes name (files c') = file_bytes name (files c))
  /\ (forall name, uuidPattern name = false -> (artifactTemporaryID name).2 = false ->
        file_bytes name (files c') = file_bytes name (files c))
  /\ (r = inr tt -> forall name, in_set name committed = false ->
        uuidPattern name = true \/ (artifactTemporaryID name).2 = true -> file_bytes name (files c') = None).
Proof.
  intros H committed. apply cleanup_cleans in H as [[Hd Hk] Hgone]. fold committed in Hk, Hgone. clearbody committed. split_and!; [done|..].
  - intros name Hn. apply Hk, not_true_is_false. rewrite orphan_spec, Hn. by intros [? _].
  - intros name Hu Ht. apply Hk, not_true_is_false. rewrite orphan_spec, Hu, Ht. by intros [_ [?|?]].
  - intros Hr name Hn Ht. apply Hgone; [done|]. by apply orphan_spec.
Qed.
Definition demo_littered : Core := (demo_core demo_running) <| files := [(demo_uuid "011" 1, "orphan"); ("notes.txt", "kept")] |>.
Lemma cleanup_removes_orphans_witness : exists c', run reconcileArtifactFiles (demo_env "012") demo_aux demo_littered = (inr tt, c')
  /\ files c' = [("notes.txt", "kept")] /\ durable c' = demo_running.
Proof.
  pose proof (cleanup_removes_orphans (demo_env "012") demo_aux demo_littered) as H.
  destruct (run reconcileArtifactFiles (demo_env "012") demo_aux demo_littered) as [r c'] eqn:E.
  specialize (H _ _ eq_refl). vm_compute in E. injection E as <- <-. eexists. split; [reflexivity|]. split; [reflexivity|]. apply H.
Defined.
