(* ===== verification/ReadFacts.v ===== *)
(** * What the reads show
    The event stream shows the log, the snapshot the queue and the active
    attempt, the pages the listing, and nothing of a deleted dialog. *)
From stdpp Require Import base tactics list strings gmap pretty.
From Stdlib Require Import ZArith Lia Ascii String Sorted.
From S2P Require Import Prelude Json Parse ParseFacts Wire Store Tx Adapter Events Commands Barrier Hold Submit Dispatch LogicalDelete.
From S2P Require Import TranscriptView TranscriptFacts Read Replay Paging Pages PagingFacts SafeText SafeTextFacts SafeTextStore DialogView ToolTimeline Frames Append Invariant Reading Reach Demo Answers Admission DeleteFacts.
Open Scope string_scope.
Open Scope list_scope.
Open Scope Z_scope.
Open Scope harness_scope.

(** A run that ends with a value. *)
Lemma wp_returns {A} env (m : M A) (Q : A -> Core -> Prop) x c a c' :
  wp env m Q (fun _ _ => True) c -> run m env x c = (inr a, c') -> Q a c'.
Proof. intros H. specialize (H x). unfold run. destruct (m env x c) as [[[e|b] x'] c'']; intros [= <- <-]; done. Qed.

(** A run that can only end at a return. *)
Lemma wp_answers env m (Q : Result -> Core -> Prop) x c :
  wp env m Q (fun e c' => match e with Return r => Q r c' | _ => False end) c -> exists r c', respond m env x c = (Some r, c') /\ Q r c'.
Proof. intros H. specialize (H x). unfold respond, run. destruct (m env x c) as [[[[]|r] x'] c']; try done; eauto. Qed.

(** ** The event stream *)
Lemma sort_by_increasing {R} (key : R -> Z) l :
  (forall i j x y, l !! i = Some x -> l !! j = Some y -> (i <= j)%nat -> key x <= key y) -> sort_by key l = l.
Proof.
  induction l as [|x l IH]; intros H; [done|]. cbn [sort_by].
  rewrite IH by (intros i j a b Ha Hb Hij; apply (H (S i) (S j)); [done..|lia]).
  destruct l as [|y l]; [done|]. cbn [insert_by]. pose proof (H 0%nat 1%nat x y eq_refl eq_refl ltac:(lia)).
  by destruct (Z.leb_spec (key x) (key y)); [|lia].
Qed.
Lemma log_filter_all node epoch n l after :
  log_from node epoch n l -> after < Z.of_nat n -> List.filter (fun e => (evt_node e =s node) && (after <? evt_seq e)) l = l.
Proof.
  revert n. induction l as [|e l IH]; intros n; [done|]. intros [(Hn & _ & Hs & _) Hl] Ha. cbn [List.filter].
  rewrite Hn, Hs, str_eqb_refl. cbn [andb]. destruct (Z.ltb_spec after (Z.of_nat n)); [|lia]. f_equal. apply (IH (S n)); [done|lia].
Qed.
Lemma log_filter node epoch n l after :
  log_from node epoch n l -> Z.of_nat n - 1 <= after ->
  List.filter (fun e => (evt_node e =s node) && (after <? evt_seq e)) l = drop (Z.to_nat (after + 1 - Z.of_nat n)) l.
Proof.
  revert n. induction l as [|e l IH]; intros n; [by rewrite drop_nil|]. intros [(Hn & Hep & Hs & He) Hl] Ha.
  destruct (Z.ltb_spec after (Z.of_nat n)) as [H|H].
  - rewrite (log_filter_all node epoch n) by (by split || done). by replace (Z.to_nat (after + 1 - Z.of_nat n)) with 0%nat by lia.
  - cbn [List.filter]. rewrite Hs. destruct (Z.ltb_spec after (Z.of_nat n)); [lia|]. rewrite andb_false_r, (IH (S n)) by (done || lia).
    by replace (Z.to_nat (after + 1 - Z.of_nat n)) with (S (Z.to_nat (after + 1 - Z.of_nat (S n)))) by lia.
Qed.
Lemma log_sorted node epoch n l : log_from node epoch n l -> sort_by evt_seq l = l.
Proof.
  intros H. apply sort_by_increasing. intros i j x y Hx Hy Hij.
  destruct (log_from_lookup _ _ _ _ _ _ H Hx) as (_ & _ & -> & _), (log_from_lookup _ _ _ _ _ _ H Hy) as (_ & _ & -> & _). lia.
Qed.
Lemma log_from_drop node epoch n l k : log_from node epoch n l -> log_from node epoch (n + k) (drop k l).
Proof.
  revert n k. induction l as [|e l IH]; intros n k; [by rewrite drop_nil|]. intros [He Hl]. destruct k as [|k]; [by rewrite Nat.add_0_r|].
  rewrite Nat.add_succ_r. apply (IH (S n)). done.
Qed.
Lemma events_after_log node epoch last after limit db :
  log_ok node epoch last (events db) -> 0 <= after ->
  events_after node after limit db = take (Z.to_nat limit) (drop (Z.to_nat after) (List.map evt_json (events db))).
Proof.
  intros [_ H] Ha. unfold events_after. rewrite (log_filter node epoch 1) by (done || lia).
  replace (after + 1 - Z.of_nat 1) with after by lia.
  rewrite (log_sorted node epoch (1 + Z.to_nat after)) by (by apply log_from_drop).
  by rewrite skipn_map, firstn_map.
Qed.

Definition wire_bytes (l : list json) : Z := List.fold_right (fun v n => byte_length (marshal v) + n) 0 l.

(** The window is a beginning of the rows within the size; the event after it
    did not fit. *)
Lemma replay_window_spec node epoch expected total rows window :
  replay_window node epoch expected total rows = Some window -> total <= MaximumWireBytes - 1024 ->
  exists rest, rows = List.map fst window ++ rest /\ total + wire_bytes (List.map fst window) <= MaximumWireBytes - 1024
    /\ forall raw rest', rest = raw :: rest' -> MaximumWireBytes - 1024 < total + wire_bytes (List.map fst window) + byte_length (marshal raw).
Proof.
  revert expected total window. induction rows as [|raw rows IH]; intros expected total window; cbn [replay_window].
  - intros [= <-] Ht. exists []. cbn. split_and!; [done|lia|done].
  - destruct (Validate _ _); cbn [negb]; [|done]. destruct (EventView_of raw) as [e|]; [|done].
    destruct (negb (ev_node e =s node) || _ || _); [done|].
    destruct (Z.ltb_spec (MaximumWireBytes - 1024) (total + byte_length (marshal raw))) as [Hbig|Hfit].
    + intros [= <-] Ht. exists (raw :: rows). cbn. split_and!; [done|lia|]. intros ? ? [= -> ->]. lia.
    + destruct (replay_window node epoch (expected + 1) _ rows) as [w|] eqn:Hw; cbn [mbind option_bind]; [|done]. intros [= <-] Ht.
      destruct (IH _ _ _ Hw Hfit) as (rest & -> & Hsum & Hrest). exists rest. cbn [List.map wire_bytes List.fold_right fst app].
      fold (wire_bytes (List.map fst w)). split_and!; [done|lia|]. intros raw' rest' Hr. specialize (Hrest _ _ Hr). lia.
Qed.

(** ** A replay of the log *)
Record replayed_segment (after limit : Z) (db : Db) (r : EventReplay) : Prop := {
  seg_bounds : 0 <= after <= LastEventSeq (node_state db) /\ 1 <= limit <= 100;
  seg_head : rp_epoch r = Epoch (node_state db) /\ rp_last r = LastEventSeq (node_state db);
  seg_events : rp_events r = take (List.length (rp_events r)) (drop (Z.to_nat after) (List.map evt_json (events db)));
  seg_size : Z.of_nat (List.length (rp_events r)) <= limit /\ wire_bytes (rp_events r) <= MaximumWireBytes - 1024;
  seg_maximal : forall raw, List.map evt_json (events db) !! (Z.to_nat after + List.length (rp_events r))%nat = Some raw ->
    Z.of_nat (List.length (rp_events r)) < limit -> MaximumWireBytes - 1024 < wire_bytes (rp_events r) + byte_length (marshal raw) }.

Lemma segment_of_window (rows window all : list json) rest after limit :
  rows = take (Z.to_nat limit) (drop (Z.to_nat after) all) -> rows = window ++ rest -> 0 <= limit ->
  window = take (List.length window) (drop (Z.to_nat after) all) /\ Z.of_nat (List.length window) <= limit
  /\ forall raw, all !! (Z.to_nat after + List.length window)%nat = Some raw -> Z.of_nat (List.length window) < limit ->
       exists rest', rest = raw :: rest'.
Proof.
  intros Hr Hw Hl. assert (List.length window <= Z.to_nat limit)%nat as Hlen.
  { apply (f_equal (@List.length json)) in Hr as Hn. rewrite Hw, length_app, length_take in Hn. lia. }
  split_and!; [|lia|].
  - rewrite <- (take_app_length window rest) at 1. rewrite <- Hw, Hr, take_take. f_equal. lia.
  - intros raw Ha Hlt. assert (rows !! List.length window = Some raw) as Hrow.
    { rewrite Hr, lookup_take_lt, lookup_drop by lia. done. }
    rewrite Hw, lookup_app_r, Nat.sub_diag in Hrow by lia. destruct rest as [|a rest']; [done|]. injection Hrow as ->. by exists rest'.
Qed.

Lemma replay_segment env x c trust after limit r c' :
  DbInv (cfg_node env) (durable c) -> run (ReplayEvents trust after limit) env x c = (inr r, c') ->
  replayed_segment after limit (durable c) r.
Proof.
  intros HD H. revert H. refine (wp_returns env _ (fun r _ => replayed_segment after limit (durable c) r) x c r c' _).
  unfold ReplayEvents, authorizeRead, open_read, Invalid. repeat (apply wp_bind || wp_step).
  apply wp_readonly; [apply readonly_deletedMessageScopes| |by intros []]. intros messages. wp_step; [by wp_step|].
  apply wp_ret. simplify_bool. rename select (replay_window _ _ _ _ _ = Some _) into Hw.
  assert (node_state (durable c) = node_state (durable c)) as _ by done. pose proof (inv_log _ _ _ HD) as Hlog.
  rewrite (events_after_log _ _ _ _ _ _ Hlog) in Hw by done.
  apply replay_window_spec in Hw as (rest & Hrows & Hsize & Hmax); [|done].
  destruct (segment_of_window _ _ _ _ _ _ eq_refl Hrows ltac:(lia)) as (Hseg & Hlen & Hnext).
  constructor; cbn [rp_events rp_epoch rp_last]; [lia|by split|exact Hseg|split; lia|].
  intros raw Hraw Hlt. destruct (Hnext raw Hraw Hlt) as [rest' ->]. by apply (Hmax raw rest').
Qed.

(** What a client assembles: it starts from nothing, and at any later volume
    asks for the events after those it has. *)
Inductive streamed (node : string) : Db -> list json -> Prop :=
  | stream_start db : volume node db -> streamed node db []
  | stream_next db seen env x c trust limit r c' :
      streamed node db seen -> reachable node db (durable c) -> cfg_node env = node ->
      run (ReplayEvents trust (Z.of_nat (List.length seen)) limit) env x c = (inr r, c') ->
      streamed node (durable c) (seen ++ rp_events r).

Lemma log_json_extends db db' : extends db db' -> List.map evt_json (events db) `prefix_of` List.map evt_json (events db').
Proof.
  intros [[k Hk] _ _ _ _ _ _ _ _ _]. exists (List.map snd k). apply (f_equal (List.map snd)) in Hk.
  by rewrite List.map_app, !List.map_map in Hk.
Qed.
Lemma streamed_volume node db seen : streamed node db seen -> volume node db.
Proof.
  induction 1 as [|db seen env x c trust limit r c' _ (owner & registry & Hv) Hr]; [done|].
  exists owner, registry. by etrans.
Qed.
Lemma prefix_step {A} (seen more all : list A) :
  seen `prefix_of` all -> more = take (List.length more) (drop (List.length seen) all) -> seen ++ more `prefix_of` all.
Proof.
  intros [k ->] Hm. rewrite drop_app_length in Hm. rewrite Hm. exists (drop (List.length more) k).
  by rewrite <- app_assoc, take_drop.
Qed.

(** C22: the event stream is the log.  A client that starts from nothing and
    repeatedly asks for the events after those it has assembles, whatever runs
    between its reads, whatever limits it gives and wherever the size bound cuts
    a window, a beginning of the durable log: no event is lost, repeated or
    reordered, in the state at every read and so in every later one. *)
Theorem event_stream_is_log node db seen :
  streamed node db seen -> seen `prefix_of` List.map evt_json (events db).
Proof.
  induction 1 as [|db seen env x c trust limit r c' Hs IH Hr Hnode Hrun]; [apply prefix_nil|].
  assert (volume node (durable c)) as Hv.
  { apply streamed_volume in Hs as (owner & registry & Hv). exists owner, registry. by etrans. }
  apply prefix_step; [etrans; [exact IH|by apply log_json_extends, (reachable_extends node)]|].
  rewrite <- Hnode in Hv. apply volume_inv in Hv. pose proof (seg_events _ _ _ _ (replay_segment _ _ _ _ _ _ _ _ Hv Hrun)) as H.
  by rewrite Nat2Z.id in H.
Qed.

Lemma event_stream_is_log_witness :
  exists first rest, first `prefix_of` List.map evt_json (events demo_running) /\ List.length first = 5%nat
    /\ List.map evt_json (events demo_running) = first ++ rest.
Proof.
  destruct (run (ReplayEvents demo_trust 0 2) (demo_env "008") demo_aux (demo_core demo_db3)) as [[e1|r1] c1] eqn:E1;
    [vm_compute in E1; discriminate E1|].
  destruct (run (ReplayEvents demo_trust 2 3) (demo_env "009") demo_aux (demo_core demo_running)) as [[e2|r2] c2] eqn:E2;
    [vm_compute in E2; discriminate E2|].
  assert (rp_events r1 = List.map evt_json (take 2 (events demo_db3))) as H1 by (vm_compute in E1; injection E1 as <- _; vm_compute; reflexivity).
  assert (List.length (rp_events r2) = 3%nat) as H2 by (vm_compute in E2; injection E2 as <- _; vm_compute; reflexivity).
  assert (streamed demo_node demo_db3 (rp_events r1)) as S1.
  { apply (stream_next demo_node demo_db3 [] (demo_env "008") demo_aux (demo_core demo_db3) demo_trust 2 r1 c1); [|done|done|exact E1].
    apply stream_start, demo_volume, demo_reachable3. }
  assert (List.length (rp_events r1) = 2%nat) as L1 by (rewrite H1; vm_compute; reflexivity).
  assert (streamed demo_node demo_running (rp_events r1 ++ rp_events r2)) as S2.
  { apply (stream_next demo_node demo_db3 (rp_events r1) (demo_env "009") demo_aux (demo_core demo_running) demo_trust 3 r2 c2);
      [exact S1|apply rtc_once, demo_step_running|done|]. rewrite L1. exact E2. }
  destruct (event_stream_is_log demo_node demo_running _ S2) as [k Hk].
  exists (rp_events r1 ++ rp_events r2), k. split; [by exists k|]. split; [by rewrite length_app, L1, H2|exact Hk].
Defined.

(** ** The snapshot *)
Section Sorting.
Context {R : Type} (key : R -> Z).
Lemma insert_by_permutation x (l : list R) : insert_by key x l ≡ₚ x :: l.
Proof. induction l as [|y l IH]; [done|]. cbn. destruct (key x <=? key y); [done|]. by rewrite IH, Permutation_swap. Qed.
Lemma sort_by_permutation (l : list R) : sort_by key l ≡ₚ l.
Proof. induction l as [|x l IH]; [done|]. cbn. by rewrite insert_by_permutation, IH. Qed.

Definition increasing (l : list R) : Prop := StronglySorted (fun a b => key a < key b) l.
Lemma increasing_insert x (l : list R) : increasing l -> ~ key x ∈ List.map key l -> increasing (insert_by key x l).
Proof.
  unfold increasing. induction l as [|y l IH]; intros Hl Hx; cbn; [by repeat constructor|]. inversion Hl as [|? ? Hs Hf]; subst.
  destruct (Z.leb_spec (key x) (key y)) as [H|H].
  - assert (key x < key y) by (destruct (Z.eq_dec (key x) (key y)) as [He|]; [exfalso; apply Hx; rewrite He; left|lia]).
    constructor; [done|]. constructor; [done|]. eapply Forall_impl; [exact Hf|]. cbn. intros. lia.
  - constructor; [apply IH; [done|]; intros Hin; apply Hx; by right|]. rewrite Forall_forall. intros z Hz.
    rewrite insert_by_permutation in Hz. apply elem_of_cons in Hz as [->|Hz]; [done|]. by apply (proj1 (Forall_forall _ _) Hf).
Qed.
Lemma sort_by_sorted (l : list R) : NoDup (List.map key l) -> increasing (sort_by key l).
Proof.
  induction l as [|x l IH]; cbn; [by constructor|]. intros [Hx Hl]%NoDup_cons. apply increasing_insert; [by apply IH|].
  by rewrite sort_by_permutation.
Qed.
Lemma increasing_take n (l : list R) : increasing l -> increasing (take n l).
Proof.
  unfold increasing. revert n. induction l as [|x l IH]; intros [|n] H; cbn; try constructor; inversion H; subst; [by apply IH|].
  by apply Forall_take.
Qed.
End Sorting.
Lemma map_filter_NoDup {R K} (key : R -> K) p (l : list R) : NoDup (List.map key l) -> NoDup (List.map key (List.filter p l)).
Proof.
  induction l as [|x l IH]; cbn; [done|]. intros [Hx Hl]%NoDup_cons. destruct (p x); cbn; [|by apply IH].
  constructor; [|by apply IH]. intros Hin. apply Hx. apply list_elem_of_In, List.in_map_iff in Hin as (y & <- & Hy).
  apply List.filter_In in Hy as [Hy _]. by apply list_elem_of_In, List.in_map.
Qed.

Record snapshot_shows (db : Db) (body : json) : Prop := {
  shows_body : exists captured pending active, body = Snapshot_json (node_state db) captured pending active
    /\ increasing req_sequence pending
    /\ (forall q, q ∈ pending -> q ∈ requests db /\ req_status q = "queued")
    /\ (PendingCount (node_state db) <= QueueCapacity ->
          PendingCount (node_state db) = Z.of_nat (List.length pending) /\ forall q, q ∈ requests db -> req_status q = "queued" -> q ∈ pending)
    /\ (forall a, active = Some a <-> a ∈ attempts db /\ active_attempt a = true);
  shows_valid : Validate "snapshot" (document_of body) = true }.

Lemma pending_queue_shows node db :
  DbInv node db ->
  increasing req_sequence (pending_queue db)
  /\ (forall q, q ∈ pending_queue db -> q ∈ requests db /\ req_status q = "queued")
  /\ (PendingCount (node_state db) <= QueueCapacity ->
        PendingCount (node_state db) = Z.of_nat (List.length (pending_queue db))
        /\ forall q, q ∈ requests db -> req_status q = "queued" -> q ∈ pending_queue db).
Proof.
  intros HD. unfold pending_queue. set (l := List.filter _ _).
  assert (forall q, q ∈ l <-> q ∈ requests db /\ req_status q = "queued") as Hl.
  { intros q. unfold l. rewrite !list_elem_of_In, List.filter_In, String.eqb_eq. done. }
  assert (PendingCount (node_state db) = Z.of_nat (List.length l)) as Hcount by apply (inv_pending _ _ _ HD).
  split_and!.
  - apply increasing_take, sort_by_sorted, map_filter_NoDup. by destruct (inv_requests _ _ _ HD).
  - intros q Hq. apply Hl. apply elem_of_take in Hq as (i & Hq & _). apply list_elem_of_lookup_2 in Hq. by rewrite sort_by_permutation in Hq.
  - intros Hcap. rewrite take_ge by (rewrite (Permutation_length (sort_by_permutation req_sequence l)); lia).
    split; [by rewrite (Permutation_length (sort_by_permutation req_sequence l))|]. intros q H1 H2. rewrite sort_by_permutation. by apply Hl.
Qed.

Lemma one_active node db :
  DbInv node db ->
  (forall a, a ∈ attempts db -> active_attempt a = true <-> ActiveAttemptID (node_state db) = Some (att_id a))
  /\ forall a b, a ∈ attempts db -> b ∈ attempts db -> att_id a = att_id b -> a = b.
Proof.
  intros HD. destruct (inv_attempts _ _ _ HD) as [Hid Hact Hpres]. split; [exact Hact|]. intros a b Ha Hb He.
  eapply (select1_unique att_id (attempts db) (att_id b)); try done. by apply select1_key_unique.
Qed.
Lemma reading_active_row node db a :
  DbInv node db -> a ∈ attempts db -> ActiveAttemptID (node_state db) = Some (att_id a) ->
  forall b, Some a = Some b <-> b ∈ attempts db /\ active_attempt b = true.
Proof.
  intros HD Ha Hid b. destruct (one_active _ _ HD) as [Hact Huniq]. split.
  - intros [= <-]. split; [done|by apply Hact].
  - intros [Hb Hab]. f_equal. apply Huniq; [done..|]. apply Hact in Hab; [|done]. congruence.
Qed.

(** The snapshot is the state.  A snapshot answered with 200 on a reachable
    volume validates against its contract and shows the node state, the queued
    requests by increasing queue sequence, every one of them as long as the
    queue is within its capacity (their number is then the pending count it
    reports), and as active attempt the one active attempt, or none. *)
Theorem snapshot_shows_state env x c trust r c' :
  volume (cfg_node env) (durable c) -> respond (Snapshot trust) env x c = (Some r, c') -> HTTPStatus r = 200 ->
  snapshot_shows (durable c) (Body r).
Proof.
  intros HD%volume_inv H. revert H.
  pose (Q := fun (r : Result) (c' : Core) => HTTPStatus r = 200 -> snapshot_shows (durable c) (Body r)).
  refine (wp_respond env _ Q x c r c' _).
  unfold Snapshot, authorizeRead, open_read, wireResult. repeat (wp_step; try (lazymatch goal with |- Q _ _ => try discriminate end)).
  all: intros _; split; [|assumption]; cbn [Body]; destruct (pending_queue_shows _ _ HD) as (H1 & H2 & H3).
  - exists t, (pending_queue (durable c)), (Some a). split_and!; try done. intros b.
    rename select (select1 _ _ = Some a) into Ha. apply select1_Some in Ha as [Hin Hid]. apply String.eqb_eq in Hid. rewrite <- Hid in *.
    by apply (reading_active_row _ _ _ HD).
  - exists t, (pending_queue (durable c)), None. split_and!; try done. intros b. split; [done|]. intros [Hin Hb].
    apply (proj1 (one_active _ _ HD) b Hin) in Hb. congruence.
Qed.

Lemma snapshot_shows_state_witness :
  exists r c', respond (Snapshot demo_trust) (demo_env "009") demo_aux (demo_core demo_running) = (Some r, c')
    /\ exists pending, increasing req_sequence pending /\ Z.of_nat (List.length pending) = 1.
Proof.
  destruct (respond (Snapshot demo_trust) (demo_env "009") demo_aux (demo_core demo_running)) as [[r|] c'] eqn:E;
    [|vm_compute in E; discriminate E].
  destruct (snapshot_shows_state (demo_env "009") demo_aux (demo_core demo_running) demo_trust r c')
    as [(captured & pending & active & _ & Hi & _ & Hc & _) _].
  - apply demo_volume, demo_reachable_running.
  - exact E.
  - vm_compute in E. injection E as <- _. reflexivity.
  - exists r, c'. split; [reflexivity|]. exists pending. split; [exact Hi|].
    destruct Hc as [<- _]; [vm_compute; discriminate|]. vm_compute. reflexivity.
Defined.

(** ** Pages of requests *)
Lemma decodeCursor_nonneg raw scope s o : decodeCursor raw scope s = inr o -> 0 <= o.
Proof.
  unfold decodeCursor. destruct (raw =s ""); [intros [= <-]; lia|]. destruct (cursor_bytes raw); [|done]. destruct (pageCursor_of _) as [p|]; [|done].
  destruct (Z.ltb_spec (pc_offset p) 0); [done|]. cbn [orb]. destruct (negb (pc_scope p =s scope)); [done|].
  destruct (negb _ || _); [done|]. by intros [= <-].
Qed.
Lemma decodeCursor_failure raw scope s f : decodeCursor raw scope s = inl f ->
  failure_status f = 400 /\ failure_code f = "invalid" \/ failure_status f = 409 /\ failure_code f = "stale".
Proof.
  unfold decodeCursor. destruct (raw =s ""); [done|].
  repeat match goal with |- context [match ?x with _ => _ end] => destruct x end; intros; simplify_eq; cbn; auto.
Qed.
Lemma normalizedLimit_positive limit l : normalizedLimit limit = Some l -> 1 <= l <= MaximumPageSize.
Proof.
  unfold normalizedLimit, MaximumPageSize. destruct (limit =? 0); [intros [= <-]; lia|]. destruct (_ && _) eqn:E; [|done]. intros [= <-].
  simplify_bool. lia.
Qed.

Definition request_scope (dialogID stateFilter : string) : string := "requests:" +:+ dialogID +:+ ":" +:+ stateFilter.
Definition request_page_body (s : durableState) (dialogID stateFilter : string) (offset limit : Z) (db : Db) : json :=
  let page := page_rows limit offset (listed_requests s dialogID stateFilter db) in
  page_json s "requests" [] (List.map Request_json page.1) (next_page s (request_scope dialogID stateFilter) (offset + limit) page.2) [].

Lemma requests_page_answer env x c trust dialogID stateFilter cursor limit r c' :
  respond (requests_page trust dialogID stateFilter cursor limit) env x c = (Some r, c') -> HTTPStatus r = 200 ->
  exists o l, decodeCursor cursor (request_scope dialogID stateFilter) (node_state (durable c)) = inr o
    /\ normalizedLimit limit = Some l /\ in_set stateFilter request_states = true
    /\ Body r = request_page_body (node_state (durable c)) dialogID stateFilter o l (durable c).
Proof.
  intros H. revert H.
  pose (Q := fun (r : Result) (c' : Core) => HTTPStatus r = 200 -> exists o l,
    decodeCursor cursor (request_scope dialogID stateFilter) (node_state (durable c)) = inr o
    /\ normalizedLimit limit = Some l /\ in_set stateFilter request_states = true
    /\ Body r = request_page_body (node_state (durable c)) dialogID stateFilter o l (durable c)).
  refine (wp_respond env _ Q x c r c' _).
  unfold requests_page, authorizeRead, open_read, Invalid, wireResult, or_cursor.
  repeat (wp_step; try (lazymatch goal with |- Q _ _ => try discriminate end)).
  - intros H. exfalso. cbn [HTTPStatus] in H. rename select (decodeCursor _ _ _ = inl _) into Hf. apply decodeCursor_failure in Hf. lia.
  - intros _. simplify_bool. eexists _, _. by split_and!.
Qed.

Lemma length_request_scope dialogID stateFilter :
  dialogID = "" \/ uuidPattern dialogID = true -> in_set stateFilter request_states = true ->
  (String.length (request_scope dialogID stateFilter) <= 57)%nat.
Proof.
  intros Hd Hf. unfold request_scope. rewrite !length_append. cbn [String.length].
  assert (String.length stateFilter <= 11)%nat by (eapply in_set_length; [exact Hf|vm_compute; reflexivity]).
  assert (String.length dialogID <= 36)%nat by (destruct Hd as [->|Hd]; [cbn; lia|apply length_matches in Hd; cbn in Hd; lia]). lia.
Qed.
Definition safe (z : Z) : Prop := 0 <= z <= MaximumSafeInteger.
Lemma length_cursor c n :
  safe (pc_epoch c) -> safe (pc_state c) -> safe (pc_offset c) -> (String.length (pc_scope c) <= n)%nat -> (n <= 70)%nat ->
  byte_length (marshal (pageCursor_json c)) <= MaximumCursorBytes.
Proof.
  intros He Hs Ho Hn Hle. unfold byte_length, MaximumCursorBytes, pageCursor_json.
  match goal with |- context [marshal (JObj ?m)] => pose proof (length_obj m) as H end. cbn [List.fold_right] in H.
  pose proof (length_int_member "e" _ He). pose proof (length_int_member "s" _ Hs). pose proof (length_int_member "o" _ Ho).
  pose proof (length_str_member "p" _ _ Hn).
  repeat match goal with H : context [marshal_string ?k] |- _ => let v := eval vm_compute in (marshal_string k) in change (marshal_string k) with v in H end.
  cbn [String.length] in *. lia.
Qed.
Lemma decoded_next s scope offset :
  safe (Epoch s) -> safe (StateVersion s) -> safe offset -> (String.length scope <= 57)%nat ->
  decodeCursor (encodeCursor (mkPageCursor (Epoch s) (StateVersion s) offset scope)) scope s = inr offset.
Proof.
  intros He Hs Ho Hl. apply (decoded_own_cursor (mkPageCursor (Epoch s) (StateVersion s) offset scope)); [|by eapply length_cursor; [..|exact Hl|lia]|done..].
  unfold safe, MaximumSafeInteger, cursor_fine, int64, int64_max in *. cbn. lia.
Qed.

(** A client that follows the cursors of the request listing at one state. *)
Inductive visited (node : string) (db : Db) (dialogID stateFilter : string) : string -> list json -> Prop :=
  | visit_last env x c trust limit r c' cursor items :
      cfg_node env = node -> durable c = db ->
      respond (requests_page trust dialogID stateFilter cursor limit) env x c = (Some r, c') -> HTTPStatus r = 200 ->
      Body r = page_json (node_state db) "requests" [] items None [] -> visited node db dialogID stateFilter cursor items
  | visit_more env x c trust limit r c' cursor items next rest :
      cfg_node env = node -> durable c = db ->
      respond (requests_page trust dialogID stateFilter cursor limit) env x c = (Some r, c') -> HTTPStatus r = 200 ->
      Body r = page_json (node_state db) "requests" [] items (Some next) [] ->
      visited node db dialogID stateFilter next rest -> visited node db dialogID stateFilter cursor (items ++ rest).

Lemma page_json_inj s items next items' next' :
  page_json s "requests" [] items next [] = page_json s "requests" [] items' next' [] -> items = items' /\ next = next'.
Proof. unfold page_json. intros H. injection H as -> H. split; [done|]. by destruct next, next'; simplify_eq. Qed.

Lemma visited_rest node db dialogID stateFilter cursor items :
  dialogID = "" \/ uuidPattern dialogID = true -> safe (Epoch (node_state db)) -> safe (StateVersion (node_state db)) ->
  Z.of_nat (List.length (requests db)) <= MaximumSafeInteger ->
  visited node db dialogID stateFilter cursor items -> forall o,
  decodeCursor cursor (request_scope dialogID stateFilter) (node_state db) = inr o ->
  items = List.map Request_json (drop (Z.to_nat o) (listed_requests (node_state db) dialogID stateFilter db)).
Proof.
  intros Hd He Hs Hlen. induction 1 as [env x c trust limit r c' cursor items _ <- Hr H200 Hb|env x c trust limit r c' cursor items next rest _ <- Hr H200 Hb _ IH];
    intros o Ho; pose proof (decodeCursor_nonneg _ _ _ _ Ho) as Ho0.
  all: apply requests_page_answer in Hr as (o' & l & Ho' & Hl & Hf & Hbody); [|done]; rewrite Ho in Ho'; injection Ho' as <-.
  all: apply normalizedLimit_positive in Hl; rewrite Hbody in Hb; apply page_json_inj in Hb as [<- Hn].
  all: rewrite page_rows_spec in * by lia; cbn [fst snd] in *; unfold next_page in Hn.
  all: destruct (Z.ltb_spec (o + l) (Z.of_nat (List.length (listed_requests (node_state (durable c)) dialogID stateFilter (durable c))))) as [Hmore|Hmore]; try done.
  - by rewrite limit_offset_last by lia.
  - injection Hn as <-. rewrite <- (limit_offset_next l o) by lia. rewrite List.map_app. f_equal. apply IH.
    apply decoded_next; [done..| |by apply length_request_scope]. split; [lia|].
    assert (List.length (listed_requests (node_state (durable c)) dialogID stateFilter (durable c)) <= List.length (requests (durable c)))%nat; [|lia].
    unfold listed_requests. rewrite (Permutation_length (order_by_permutation _ _)). apply List.filter_length_le.
Qed.

Lemma request_before_total a b : request_before a b = true \/ request_before b a = true.
Proof.
  unfold request_before, string_before. rewrite (Z.eqb_sym (req_sequence b)). destruct (Z.eqb_spec (req_sequence a) (req_sequence b)) as [E|E].
  - apply String.leb_total.
  - rewrite !Z.ltb_lt. lia.
Qed.
Lemma request_before_trans a b c : request_before a b = true -> request_before b c = true -> request_before a c = true.
Proof.
  unfold request_before, string_before.
  destruct (Z.eqb_spec (req_sequence a) (req_sequence b)), (Z.eqb_spec (req_sequence b) (req_sequence c)), (Z.eqb_spec (req_sequence a) (req_sequence c));
    rewrite ?Z.ltb_lt; try lia. apply leb_trans.
Qed.

(** C23: the request listing is complete.  A client that asks for the first
    page of a listing and follows the cursors, with any limits, until a page has
    none, has collected exactly the requests of the listing, each once, in queue
    order: those of live dialogs of this node and owner, of the dialog and the
    state asked for. *)
Theorem request_pages_cover node db dialogID stateFilter items :
  dialogID = "" \/ uuidPattern dialogID = true -> safe (Epoch (node_state db)) -> safe (StateVersion (node_state db)) ->
  Z.of_nat (List.length (requests db)) <= MaximumSafeInteger ->
  visited node db dialogID stateFilter "" items ->
  exists rows, items = List.map Request_json rows
    /\ rows ≡ₚ List.filter (fun r => visible_dialog (node_state db) db (req_dialog r) && ((dialogID =s "") || (req_dialog r =s dialogID))
                                     && ((stateFilter =s "") || (req_status r =s stateFilter))) (requests db)
    /\ StronglySorted (fun a b => request_before a b = true) rows.
Proof.
  intros Hd He Hs Hlen H. exists (listed_requests (node_state db) dialogID stateFilter db).
  split; [|split; [apply order_by_permutation|apply order_by_sorted; [apply request_before_total|apply request_before_trans]]].
  by apply (visited_rest _ _ _ _ _ _ Hd He Hs Hlen H 0).
Qed.

Lemma request_pages_cover_witness :
  exists rows, rows ≡ₚ requests demo_db3 /\ List.length rows = 2%nat.
Proof.
  destruct (respond (requests_page demo_trust "" "queued" "" 1) (demo_env "008") demo_aux (demo_core demo_db3)) as [[r1|] c1] eqn:E1;
    [|vm_compute in E1; discriminate E1].
  pose (next := encodeCursor (mkPageCursor (Epoch (node_state demo_db3)) (StateVersion (node_state demo_db3)) 1 "requests::queued")).
  destruct (respond (requests_page demo_trust "" "queued" next 1) (demo_env "009") demo_aux (demo_core demo_db3)) as [[r2|] c2] eqn:E2;
    [|vm_compute in E2; discriminate E2].
  pose (items n := List.map Request_json (take 1 (drop n (listed_requests (node_state demo_db3) "" "queued" demo_db3)))).
  assert (visited demo_node demo_db3 "" "queued" "" (items 0%nat ++ items 1%nat)) as H.
  { eapply (visit_more demo_node demo_db3 "" "queued" (demo_env "008") demo_aux (demo_core demo_db3) demo_trust 1 r1 c1 "" (items 0%nat) next);
      [reflexivity|reflexivity|exact E1|vm_compute in E1; injection E1 as <- _; reflexivity
      |vm_compute in E1; injection E1 as <- _; vm_compute; reflexivity|].
    eapply (visit_last demo_node demo_db3 "" "queued" (demo_env "009") demo_aux (demo_core demo_db3) demo_trust 1 r2 c2 next (items 1%nat));
      [reflexivity|reflexivity|exact E2|vm_compute in E2; injection E2 as <- _; reflexivity
      |vm_compute in E2; injection E2 as <- _; vm_compute; reflexivity]. }
  destruct (request_pages_cover demo_node demo_db3 "" "queued" (items 0%nat ++ items 1%nat)) as (rows & _ & Hp & _).
  - by left.
  - split; vm_compute; discriminate.
  - split; vm_compute; discriminate.
  - vm_compute. discriminate.
  - exact H.
  - exists rows. apply Permutation_length in Hp as Hl. split; [rewrite Hp; vm_compute; reflexivity|rewrite Hl; vm_compute; reflexivity].
Defined.

(** ** Errors *)
(** A page cursor that does not fit is refused.  In an environment where
    no operation fails, a request listing with a cursor that [decodeCursor]
    refuses is answered exactly so: 400 invalid for a text that is no cursor of
    this listing, 409 stale for a cursor of another epoch or state version. *)
Theorem bad_cursor_refused env x c trust dialogID stateFilter cursor limit l f :
  healthy env -> TransportNodeID trust = cfg_node env -> normalizedLimit limit = Some l -> in_set stateFilter request_states = true ->
  decodeCursor cursor (request_scope dialogID stateFilter) (node_state (durable c)) = inl f ->
  exists r c', respond (requests_page trust dialogID stateFilter cursor limit) env x c = (Some r, c')
    /\ (HTTPStatus r = 400 /\ error_code r = Some "invalid" \/ HTTPStatus r = 409 /\ error_code r = Some "stale")
    /\ HTTPStatus r = failure_status f /\ durable c' = durable c.
Proof.
  intros Hok Htrust Hl Hf Hd.
  assert ((failure_status f = 400 /\ failure_code f = "invalid") \/ (failure_status f = 409 /\ failure_code f = "stale")) as Hcode by (by eapply decodeCursor_failure).
  apply (wp_answers env _ (fun r c' => (HTTPStatus r = 400 /\ error_code r = Some "invalid" \/ HTTPStatus r = 409 /\ error_code r = Some "stale")
    /\ HTTPStatus r = failure_status f /\ durable c' = durable c)).
  unfold request_scope in Hd. unfold requests_page, authorizeRead, open_read, Invalid, or_cursor.
  rewrite Hl, Hf. cbn [negb]. repeat (wp_step_ok Hok; rewrite ?Hd); simplify_bool; try congruence.
  cbn [HTTPStatus Body durable]. split; [|done]. destruct Hcode as [[-> ->]|[-> ->]]; [left|right]; done.
Qed.

Lemma bad_cursor_refused_witness :
  exists r c', respond (requests_page demo_trust "" "" "not a cursor" 0) (demo_env "008") demo_aux (demo_core demo_db3) = (Some r, c')
    /\ HTTPStatus r = 400.
Proof.
  destruct (bad_cursor_refused (demo_env "008") demo_aux (demo_core demo_db3) demo_trust "" "" "not a cursor" 0 100
              (invalid_cursor "cursor is invalid")) as (r & c' & E & _ & Hs & _).
  - intros n. reflexivity.
  - reflexivity.
  - reflexivity.
  - reflexivity.
  - vm_compute. reflexivity.
  - exists r, c'. split; [exact E|exact Hs].
Defined.

(** A page cursor round-trips.  The text [encodeCursor] makes of a cursor
    of at most [MaximumCursorBytes], decoded for the same listing, gives back
    the offset as long as the node is at the cursor's epoch and state version;
    at any other state it is refused as stale, and for any other listing as
    invalid. *)
Theorem page_cursor_roundtrip c scope s :
  cursor_fine c -> byte_length (marshal (pageCursor_json c)) <= MaximumCursorBytes ->
  decodeCursor (encodeCursor c) scope s =
    if negb (pc_scope c =s scope) then inl (invalid_cursor "cursor is invalid")
    else if (pc_epoch c =? Epoch s) && (pc_state c =? StateVersion s) then inr (pc_offset c)
    else inl (stale_cursor "cursor snapshot is stale").
Proof.
  intros Hc Hlen. unfold decodeCursor, encodeCursor. rewrite EncodeToString_nonempty by apply marshal_object_nonempty.
  rewrite cursor_bytes_encode, pageCursor_of_marshal by done. destruct Hc as (_ & _ & [Ho _]).
  replace (pc_offset c <? 0) with false by (symmetry; apply Z.ltb_ge; lia). cbn [orb].
  destruct (pc_scope c =s scope); [|done]. cbn [negb].
  by destruct (pc_epoch c =? Epoch s), (pc_state c =? StateVersion s).
Qed.

Lemma page_cursor_roundtrip_witness :
  decodeCursor "eyJlIjoxLCJzIjozLCJvIjoyLCJwIjoiZGlhbG9ncyJ9" "dialogs" (node_state demo_fresh) = inl (stale_cursor "cursor snapshot is stale")
  /\ encodeCursor (mkPageCursor 1 3 2 "dialogs") = "eyJlIjoxLCJzIjozLCJvIjoyLCJwIjoiZGlhbG9ncyJ9".
Proof.
  assert (encodeCursor (mkPageCursor 1 3 2 "dialogs") = "eyJlIjoxLCJzIjozLCJvIjoyLCJwIjoiZGlhbG9ncyJ9") as E by (vm_compute; reflexivity).
  split; [|exact E]. rewrite <- E.
  rewrite (page_cursor_roundtrip (mkPageCursor 1 3 2 "dialogs") "dialogs" (node_state demo_fresh)).
  - vm_compute. reflexivity.
  - split_and!; split; vm_compute; discriminate.
  - vm_compute. discriminate.
Defined.












(** ** Reads change nothing *)
(** Reads change nothing.  Every read endpoint, the events of an attempt
    and the event stream end, whatever the environment refuses and at whatever
    state they start, with the committed database, the artifact files, the
    control reserve and the process state they found. *)
Theorem reads_change_nothing env x c :
  (forall m, read_handler m -> untouched c (run m env x c).2)
  /\ (forall trust attempt after limit, untouched c (run (AttemptEvents trust attempt after limit) env x c).2)
  /\ (forall trust after limit, untouched c (run (ReplayEvents trust after limit) env x c).2)
  /\ untouched c (run Busy env x c).2.
Proof.
  assert (forall A (m : M A), reads m -> untouched c (run m env x c).2) as Hr.
  { intros A m Hm. specialize (Hm env c x). unfold run. by destruct (m env x c) as [[[e|a] x'] c']. }
  split_and!; intros; apply Hr; eauto using read_handler_reads, reads_AttemptEvents, reads_ReplayEvents, reads_Busy.
Qed.

Lemma reads_change_nothing_witness :
  durable (run (Snapshot demo_trust) (demo_env_with (fun n => Nat.ltb n 2) "009") demo_aux (demo_core demo_db3)).2 = demo_db3.
Proof.
  destruct (reads_change_nothing (demo_env_with (fun n => Nat.ltb n 2) "009") demo_aux (demo_core demo_db3)) as [H _].
  rewrite (H (Snapshot demo_trust) (read_snapshot demo_trust)). reflexivity.
Defined.
