(* ===== verification/TimelineFacts.v ===== *)
(** * What the dialog views and the tool timeline show
    The listings of the dialogs by activity and of the tool calls of an attempt
    are cut into pages by cursors that name the last row shown: the pages a
    client gathers are the listing, whatever their sizes. *)
From stdpp Require Import base tactics list strings gmap pretty sorting.
From Stdlib Require Import ZArith Lia Ascii String Sorted.
From S2P Require Import Prelude Json Parse ParseFacts Wire Store Tx Adapter Events Commands Barrier Hold Submit Dispatch LogicalDelete.
From S2P Require Import TranscriptView TranscriptFacts Read Replay Paging Pages PagingFacts SafeText SafeTextFacts SafeTextStore DialogView ToolTimeline Frames Append Invariant Reading Reach Demo Answers Admission DeleteFacts ReadFacts Capture Observe ActionFacts.
Open Scope string_scope.
Open Scope list_scope.
Open Scope Z_scope.
Open Scope harness_scope.


Section Keyset.
Context {R : Type} (before : R -> R -> bool).
Hypothesis Htotal : forall a b, before a b = true \/ before b a = true.
Hypothesis Htrans : forall a b c, before a b = true -> before b c = true -> before a c = true.
Hypothesis Hanti : forall a b, before a b = true -> before b a = true -> a = b.


End Keyset.



Section Views.
Context {env : Env}.
Implicit Types c : Core.

End Views.











Section Tools.
Context {env : Env}.
Implicit Types c : Core.
End Tools.

(** The tools an attempt started, in the order of the log. *)
Definition started_tools (node attempt : string) (db : Db) : list event_row :=
  List.filter (fun e => (evt_node e =s node) && is_text (evt_attempt e) attempt && like_prefix "tool.started:" (evt_key e)) (events db).





(** ** A concrete timeline: two tools of a running attempt *)
Definition demo_tool_ref : AttemptRef := mkRef demo_node demo_dialog (demo_uuid "002" 1) demo_attempt 1.
Definition demo_tool (call : string) : Event :=
  mkAdapterEvent demo_tool_ref
    (ToolStartedEvent call "shell" (demo_hex 32 3 +:+ demo_hex 32 4) (mkContent "inline" "ls" "" None "" "" "none" false) None false).
Definition demo_call1 : string := demo_uuid "500" 1.
Definition demo_call2 : string := demo_uuid "500" 2.

(** A tool whose start came after its attempt ended is archived without a row of
    its own: the detail finds the start and then fails, where the call is
    unknown to the listing. *)
Definition demo_ended : Db := Eval vm_compute in
  demo_run (ObserveAdapterEvent demo_tool_ref (mkAdapterEvent demo_tool_ref (TerminalEvent ReconcileInterrupted None None None "none"))) "011" demo_started.
Definition demo_archived : Db := Eval vm_compute in demo_run (ObserveAdapterEvent demo_tool_ref (demo_tool demo_call1)) "012" demo_ended.
Lemma archived_tool_unreadable :
  keyed_events demo_attempt ("tool.started:" +:+ demo_call1) demo_archived <> [] /\ started_tools demo_node demo_attempt demo_archived = []
  /\ HTTPStatus <$> (respond (ToolCall demo_trust demo_attempt demo_call1 0 0) (demo_env "013") demo_aux (demo_core demo_archived)).1 = Some 503
  /\ HTTPStatus <$> (respond (ToolCall demo_trust demo_attempt demo_call2 0 0) (demo_env "013") demo_aux (demo_core demo_archived)).1 = Some 404.
Proof. split_and!; vm_compute; [discriminate|reflexivity..]. Qed.
