(* ===== verification/ReplicaFacts.v ===== *)
(** * What the history export guarantees
    The streams of any volume are chains; a page is a segment of its stream that
    validates; following the cursor copies the stream; a complete export covers
    the dialog; and a page pins its records to its last chain hash. *)
From stdpp Require Import base tactics list strings gmap pretty.
From Stdlib Require Import ZArith Lia Ascii String.
From S2P Require Import Prelude Json Parse ParseFacts Wire Store Tx Adapter Events Commands Barrier Hold Submit Dispatch TranscriptView TranscriptFacts.
From S2P Require Import Read Replay Paging Pages Frames SafeText SafeTextFacts HistoryReplica HistoryExport Atomic Append Invariant Replicas Reading Exporting Reach Demo.
From S2P Require Import WorkerHistory Answers ReadFacts.
Open Scope string_scope.
Open Scope list_scope.
Open Scope Z_scope.
Open Scope harness_scope.

(** ** Steps under one hash *)
Inductive sha_step (hash : string -> string) (node : string) : Db -> Db -> Prop :=
  | sha_handler A (m : M A) env x c : handler A m -> cfg_node env = node -> sha256_hex env = hash ->
      sha_step hash node (durable c) (durable (run m env x c).2)
  | sha_worker A (m : M A) env x c : worker (durable c) A m -> cfg_node env = node -> sha256_hex env = hash ->
      sha_step hash node (durable c) (durable (run m env x c).2).
Lemma sha_step_ok hash node db db' : sha64 hash -> sha_step hash node db db' -> replica_ok hash db -> replica_ok hash db'.
Proof.
  intros H64 [A m env x c Hm _ <-|A m env x c Hm _ <-] Hok.
  - apply (handler_replicas A m env x c) in Hm; [|done..]. unfold run. by destruct (m env x c) as [[? ?] ?].
  - apply history_worker in Hm. specialize (Hm env x c). unfold run. destruct (m env x c) as [[? ?] ?]. by eapply kept_replicas.
Qed.
Lemma sha_step_step hash node db db' : sha_step hash node db db' -> step node db db'.
Proof. intros [A m env x c Hm Hn _|A m env x c Hm Hn _]; [by apply step_handler|by apply step_worker]. Qed.
Lemma fresh_replicas hash node owner registry : replica_ok hash (freshDb node owner registry).
Proof. constructor; [by apply NoDup_nil_2|intros row H; by apply elem_of_nil in H|intros s H; by apply elem_of_nil in H]. Qed.
Lemma sha_volume_ok hash node owner registry db : sha64 hash -> rtc (sha_step hash node) (freshDb node owner registry) db -> replica_ok hash db.
Proof.
  intros H64 H. assert (replica_ok hash (freshDb node owner registry)) as H0 by apply fresh_replicas. revert H0.
  induction H as [|a b d Hs _ IH]; [done|]. intros Ha. apply IH. by eapply sha_step_ok.
Qed.

(** ** The stream of an identity, as its rows decode *)
Definition stream_of (id : string) (db : Db) : option (list ReplicaRecord) :=
  sequence (List.map (fun row => ReplicaRecord_of_json (rrr_json row)) (stream_rows id db)).
Definition chained (hash : string -> string) (id : string) (rs : list ReplicaRecord) : Prop :=
  valid_chain hash id 1 (ChainGenesis hash id) rs = true.

Lemma sequence_all {A} (l : list A) : sequence (List.map Some l) = Some l.
Proof. induction l as [|a l IH]; [done|]. cbn [List.map sequence]. by rewrite IH. Qed.
Lemma sequence_prefix {A} (l k : list (option A)) a b : sequence l = Some a -> sequence (l ++ k) = Some b -> a `prefix_of` b.
Proof.
  revert a b. induction l as [|o l IH]; intros a b Ha Hb; cbn [sequence app] in *; [injection Ha as <-; apply prefix_nil|].
  destruct o as [x|]; [|done]. destruct (sequence l) as [a'|] eqn:El; [|done]. destruct (sequence (l ++ k)) as [b'|] eqn:Ek; [|done].
  injection Ha as <-. injection Hb as <-. apply prefix_cons. by apply IH.
Qed.
Lemma decoded_rows hash id rows rs seq prev : Forall2 (stored_as id) rows rs -> valid_chain hash id seq prev rs = true ->
  List.map (fun row => ReplicaRecord_of_json (rrr_json row)) rows = List.map Some rs.
Proof.
  intros Hf Hc. pose proof (fun r => valid_chain_records hash id seq prev rs r Hc) as Hv. clear Hc.
  induction Hf as [|row r rows rs -> Hf IH]; [done|]. cbn [List.map rrr_json replica_row].
  rewrite (valid_record_reads hash id) by (apply Hv; by left). f_equal. apply IH. intros x Hx. apply Hv. by right.
Qed.
Lemma stream_of_ok hash db s : replica_ok hash db -> s ∈ replica_streams db ->
  exists rs, stream_of (rst_id s) db = Some rs /\ chained hash (rst_id s) rs /\ rst_next s = Z.of_nat (List.length rs) + 1
    /\ NoDup (List.map rec_id rs) /\ Forall2 (stored_as (rst_id s)) (stream_rows (rst_id s) db) rs.
Proof.
  intros Hok Hs. pose proof (ro_chains _ _ Hok s Hs) as Hso. pose proof (stream_rows_stored _ _ _ Hso) as Hrows. destruct Hso as [(rs & Hf & Hc & Hn & Hi)].
  exists rs. unfold stream_of. rewrite Hrows. rewrite (decoded_rows _ _ _ _ _ _ Hf Hc), sequence_all. done.
Qed.
Lemma stream_of_any hash db id : replica_ok hash db ->
  exists rs, stream_of id db = Some rs /\ chained hash id rs /\ Forall2 (stored_as id) (stream_rows id db) rs.
Proof.
  intros Hok. destruct (exists_where (fun s => rst_id s =s id) (replica_streams db)) eqn:E.
  - apply exists_where_true in E as (s & Hs & Hid). simplify_bool. subst id. destruct (stream_of_ok _ _ _ Hok Hs) as (rs & H1 & H2 & _ & _ & H3). eauto.
  - exists []. unfold stream_of, stream_rows. rewrite exists_where_filter; [by split_and!; [| |constructor]|].
    apply exists_where_false. intros row Hrow. destruct (ro_owned _ _ Hok row Hrow) as (s & Hs & <-).
    rewrite exists_where_false in E. by apply E.
Qed.

Lemma stream_rows_any hash id d : replica_ok hash d -> stream_rows id d = stored_rows id d.
Proof.
  intros [_ Hown Hch]. destruct (exists_where (fun s => rst_id s =s id) (replica_streams d)) eqn:E.
  - apply exists_where_true in E as (s & Hs & Hid). simplify_bool. subst id. by apply (stream_rows_stored hash), Hch.
  - unfold stream_rows, stored_rows. rewrite exists_where_filter; [done|]. apply exists_where_false. intros row Hrow.
    destruct (Hown row Hrow) as (s & Hs & <-). rewrite exists_where_false in E. by apply E.
Qed.
(** A later database has the stream and perhaps more of it. *)
Lemma stream_of_grows hash id db db' a b : replica_ok hash db -> replica_ok hash db' -> replica_records db `prefix_of` replica_records db' ->
  stream_of id db = Some a -> stream_of id db' = Some b -> a `prefix_of` b.
Proof.
  intros Hok Hok' [k Hk] Ha Hb. destruct (stream_of_any hash db id Hok) as (a' & Ea & Ca & Fa). destruct (stream_of_any hash db' id Hok') as (b' & Eb & Cb & Fb).
  pose proof (fun d => stream_rows_any hash id d) as Hst.
  unfold stream_of in *. rewrite Hst in Ha, Hb by done. unfold stored_rows in *. rewrite Hk, List.filter_app, List.map_app in Hb. by eapply sequence_prefix.
Qed.

(** ** What a page holds of the stream *)
Lemma rows_after hash id rows rs after : Forall2 (stored_as id) rows rs -> forall seq prev, valid_chain hash id seq prev rs = true ->
  List.filter (fun r => after <? rrr_seq r) rows = drop (Z.to_nat (after - seq + 1)) rows.
Proof.
  induction 1 as [|row r rows rs -> Hf IH]; intros seq prev Hc; [by rewrite drop_nil|]. cbn [valid_chain] in Hc. simplify_bool.
  cbn [List.filter rrr_seq replica_row]. match goal with E : rec_seq r = seq |- _ => rewrite E end. erewrite IH by eassumption.
  destruct (Z.ltb_spec after seq).
  - by replace (Z.to_nat (after - (seq + 1) + 1)) with O by lia; replace (Z.to_nat (after - seq + 1)) with O by lia.
  - by replace (Z.to_nat (after - seq + 1)) with (S (Z.to_nat (after - (seq + 1) + 1))) by lia.
Qed.
Lemma stream_page_spec hash id db rs after limit : Forall2 (stored_as id) (stream_rows id db) rs -> chained hash id rs ->
  sequence (List.map ReplicaRecord_of_json (stream_page id after limit db)) = Some (take (Z.to_nat limit) (drop (Z.to_nat after) rs)).
Proof.
  intros Hf Hc. unfold stream_page. rewrite (rows_after hash id _ rs after Hf 1 _ Hc), List.map_map.
  replace (after - 1 + 1) with after by lia. rewrite <- firstn_map, <- skipn_map.
  rewrite (decoded_rows _ _ _ _ _ _ Hf Hc). rewrite skipn_map, firstn_map. apply sequence_all.
Qed.
Lemma encode_page_step hash fuel p records : encode_page hash fuel p records =
  if byte_length (marshal (ExportPage_json (page_with p records))) <=? ReplicaPageBytes
  then if ValidatePage hash (page_with p records) then Some (page_with p records) else None
  else match fuel with O => None | S fuel' => encode_page hash fuel' p (removelast records) end.
Proof. by destruct fuel. Qed.
Lemma encode_page_spec hash fuel p records page : encode_page hash fuel p records = Some page ->
  exists n, page = page_with p (take n records) /\ ValidatePage hash page = true.
Proof.
  revert records. induction fuel as [|fuel IH]; intros records H; rewrite encode_page_step in H; destruct (_ <=? _).
  2: done.
  3: { apply IH in H as (n & Hp & Hv). exists (n `min` pred (List.length records))%nat. split; [|exact Hv].
       rewrite Hp, removelast_firstn_len. f_equal. apply take_take. }
  all: destruct (ValidatePage hash (page_with p records)) eqn:E; [|discriminate H]; apply Some_inj in H; exists (List.length records);
    rewrite firstn_all; split; [by symmetry|by rewrite <- H].
Qed.

Record page_of (hash : string -> string) (i : StreamIdentity) (after limit : Z) (rs : list ReplicaRecord) (page : ExportPage) : Prop := {
  po_valid : ValidatePage hash page = true;
  po_identity : xp_identity page = i /\ xp_stream page = StreamID hash i /\ xp_after page = after;
  po_records : exists n, (n <= Z.to_nat limit)%nat /\ xp_records page = take n (drop (Z.to_nat after) rs);
  po_next : xp_next page = match last (xp_records page) with
                           | Some r => if rec_seq r <? Z.of_nat (List.length rs) then Some (rec_seq r) else None
                           | None => None
                           end;
  po_checkpoint : ThroughSeq (xp_checkpoint page) = Z.of_nat (List.length rs)
    /\ ChainHash (xp_checkpoint page) = chain_tip (ChainGenesis hash (StreamID hash i)) rs }.

Lemma exported_page hash i after limit db db' body : replica_ok hash db' -> exported hash i after limit db db' body ->
  exists page rs, body = ExportPage_json page /\ stream_of (StreamID hash i) db' = Some rs /\ chained hash (StreamID hash i) rs
    /\ page_of hash i after limit rs page.
Proof.
  intros Hok [_ _ (cp & records & page & [Hthrough Hchain _ _] & _ & Hrec & Henc & ->)].
  destruct (stream_of_any hash db' (StreamID hash i) Hok) as (rs & Hrs & Hc & Hf). exists page, rs. split_and!; [done..|].
  rewrite (stream_page_spec hash _ _ rs) in Hrec by done. apply Some_inj in Hrec. subst records.
  unfold encodeHistoryExportPage in Henc. apply encode_page_spec in Henc as (n & -> & Hv). rewrite take_take in *.
  assert (ThroughSeq cp = Z.of_nat (List.length rs)) as Hlen by (rewrite Hthrough; by rewrite (Forall2_length _ _ _ Hf)).
  constructor; [done|done|exists (n `min` Z.to_nat limit)%nat; split; [lia|done]| |split; [done|]].
  - unfold page_with, export_base. cbn [xp_next xp_records xp_checkpoint field_upd]. by rewrite Hlen.
  - unfold page_with, export_base. cbn [xp_checkpoint field_upd]. rewrite Hlen in Hchain. destruct (Z.ltb_spec 0 (Z.of_nat (List.length rs))).
    + rewrite (chain_at_spec hash _ _ rs) in Hchain; [by injection Hchain| |done|by destruct rs].
      assert (stored_rows (StreamID hash i) db' = stream_rows (StreamID hash i) db') as ->; [|done].
      symmetry. by eapply (stream_rows_any hash).
    + destruct rs as [|r rs]; [done|]. cbn [List.length] in *; lia.
Qed.

(** ** Progress and completeness of a page *)
Lemma last_seq hash id seq prev l r : valid_chain hash id seq prev l = true -> last l = Some r -> rec_seq r = seq + Z.of_nat (List.length l) - 1.
Proof.
  intros Hc Hl. rewrite last_lookup in Hl. rewrite (valid_chain_seq _ _ _ _ _ _ _ Hc Hl).
  destruct l as [|x l]; [done|]. cbn [List.length Init.Nat.pred]. lia.
Qed.
Lemma page_last hash i after limit rs page : 0 <= after -> chained hash (StreamID hash i) rs -> page_of hash i after limit rs page ->
  match last (xp_records page) with
  | Some r => rec_seq r = after + Z.of_nat (List.length (xp_records page)) /\ (List.length (xp_records page) > 0)%nat
  | None => xp_records page = []
  end.
Proof.
  intros Ha Hc [_ _ (n & _ & Hr) _ _]. destruct (last (xp_records page)) as [r|] eqn:El; [|by apply last_None in El].
  pose proof (valid_chain_drop _ _ _ _ _ (Z.to_nat after) Hc) as Hd. apply (valid_chain_take _ _ _ _ _ n) in Hd. rewrite <- Hr in Hd.
  rewrite (last_seq _ _ _ _ _ _ Hd El). rewrite length_take. destruct (xp_records page) as [|x l] eqn:Ex; [done|]. cbn [List.length].
  assert (Z.to_nat after < List.length rs)%nat; [|split; lia]. destruct (decide (Z.to_nat after < List.length rs)%nat); [done|].
  rewrite drop_ge, take_nil in Hr by lia. done.
Qed.
Lemma page_bounds hash p : ValidatePage hash p = true -> page_boundary hash p = true /\ xp_after p <= ThroughSeq (xp_checkpoint p).
Proof. unfold ValidatePage. intros H. simplify_bool. done. Qed.
(** A page without a cursor is the rest of the stream; one with a cursor is
    not empty and the cursor follows it. *)
Lemma page_complete hash i after limit rs page : 0 <= after -> chained hash (StreamID hash i) rs -> page_of hash i after limit rs page ->
  match xp_next page with
  | Some next => next = after + Z.of_nat (List.length (xp_records page)) /\ after < next < Z.of_nat (List.length rs)
  | None => xp_records page = drop (Z.to_nat after) rs
  end.
Proof.
  intros Ha Hc Hp. pose proof (page_last _ _ _ _ _ _ Ha Hc Hp) as Hl. destruct Hp as [Hv [_ [_ Hafter]] (n & _ & Hr) Hn [Ht _]].
  apply page_bounds in Hv as [Hb Hle]. unfold page_boundary in Hb. rewrite Hn. rewrite Hn in Hb. rewrite Ht, Hafter in *.
  destruct (last (xp_records page)) as [r|] eqn:El.
  - destruct Hl as [Hl Hpos]. destruct (Z.ltb_spec (rec_seq r) (Z.of_nat (List.length rs))).
    + split; [done|]. lia.
    + cbn [negb andb] in Hb. simplify_bool. rewrite Hr in Hl |- *. apply take_ge. rewrite length_take, length_drop in *. lia.
  - simplify_bool. rewrite Hl. symmetry. apply drop_ge. lia.
Qed.

Lemma export_respond env x trust i after limit c r c' :
  respond (ExportHistory trust i after limit) env x c = (Some r, c') -> export_answer env i after limit c r c'.
Proof. intros H. destruct (export_run env x trust i after limit c) as (r0 & c0 & E & Ha). rewrite H in E. by injection E as -> ->. Qed.
Lemma export_200 env x trust i after limit c r c' : sha64 (sha256_hex env) -> replica_ok (sha256_hex env) (durable c) ->
  respond (ExportHistory trust i after limit) env x c = (Some r, c') -> HTTPStatus r = 200 ->
  replicated (sha256_hex env) (durable c) (durable c') /\ replica_ok (sha256_hex env) (durable c')
  /\ covers i (StreamID (sha256_hex env) i) (sha256_hex env) (durable c')
  /\ 0 <= after /\ 1 <= limit <= ReplicaPageSize /\ exists page rs, Body r = ExportPage_json page
    /\ stream_of (StreamID (sha256_hex env) i) (durable c') = Some rs /\ chained (sha256_hex env) (StreamID (sha256_hex env) i) rs
    /\ page_of (sha256_hex env) i after limit rs page.
Proof.
  intros H64 Hok Hrun Hs. destruct (export_respond _ _ _ _ _ _ _ _ _ Hrun) as [body -> Hx _ _ _ Ha Hl|Hn _ _]; [|done].
  pose proof (xd_replicated _ _ _ _ _ _ _ Hx) as HR. pose proof (rp_ok _ _ _ HR H64 Hok) as Hok'. split_and!; [done|done|by apply (xd_covers _ _ _ _ _ _ _ Hx)|lia|lia|lia|].
  by eapply exported_page.
Qed.

(** ** Following a stream *)
(** The records a body carries, as the follower decodes them, and whether it
    says there are more. *)
Definition body_records (body : json) : option (list ReplicaRecord) :=
  match field "records" body with Some (JArr items) => sequence (List.map ReplicaRecord_of_json items) | _ => None end.
Definition caught_up (body : json) : bool := match field "nextAfterSeq" body with Some JNull => true | _ => false end.

(** A follower asks for what comes after the records it has; between its
    requests the node does anything. *)
Inductive follows (hash : string -> string) (node : string) (i : StreamIdentity) : Db -> list ReplicaRecord -> bool -> Prop :=
  | follow_start owner registry db : rtc (sha_step hash node) (freshDb node owner registry) db -> follows hash node i db [] false
  | follow_work db db' l b : follows hash node i db l b -> sha_step hash node db db' -> follows hash node i db' l false
  | follow_page env x c trust limit r c' l b records :
      follows hash node i (durable c) l b -> cfg_node env = node -> sha256_hex env = hash ->
      respond (ExportHistory trust i (Z.of_nat (List.length l)) limit) env x c = (Some r, c') -> HTTPStatus r = 200 ->
      body_records (Body r) = Some records -> follows hash node i (durable c') (l ++ records) (caught_up (Body r)).

Lemma page_records_decode hash page : ValidatePage hash page = true -> body_records (ExportPage_json page) = Some (xp_records page).
Proof.
  intros Hv. unfold body_records. change (field "records" (ExportPage_json page)) with (Some (JArr (List.map ReplicaRecord_json (xp_records page)))). cbv iota.
  unfold ValidatePage in Hv. simplify_bool. rename select (valid_chain _ _ _ _ _ = true) into Hc.
  rewrite List.map_map. rewrite <- (sequence_all (xp_records page)). f_equal. apply List.map_ext_in. intros r Hr.
  eapply valid_record_reads, valid_chain_records; [exact Hc|by apply list_elem_of_In].
Qed.
Lemma page_caught_up page : caught_up (ExportPage_json page) = match xp_next page with None => true | Some _ => false end.
Proof. unfold caught_up. change (field "nextAfterSeq" (ExportPage_json page)) with (Some (match xp_next page with Some n => JInt n | None => JNull end)). by destruct (xp_next page). Qed.
Lemma follows_prefix hash node i db l b : sha64 hash -> follows hash node i db l b ->
  replica_ok hash db /\ exists rs, stream_of (StreamID hash i) db = Some rs /\ chained hash (StreamID hash i) rs /\ l `prefix_of` rs /\ (b = true -> l = rs).
Proof.
  intros H64. induction 1 as [owner registry db Hdb|db db' l b _ [Hok (rs & Hrs & _ & Hl & _)] Hs|env x c trust limit r c' l b records _ [Hok (rs0 & Hrs0 & _ & Hl & _)] Hnode Hhash Hrun H200 Hrec].
  - pose proof (sha_volume_ok _ _ _ _ _ H64 Hdb) as Hok. split; [done|]. destruct (stream_of_any hash db (StreamID hash i) Hok) as (rs & Hrs & Hc & _).
    exists rs. split_and!; [done|done|apply prefix_nil|done].
  - pose proof (sha_step_ok _ _ _ _ H64 Hs Hok) as Hok'. split; [done|]. destruct (stream_of_any hash db' (StreamID hash i) Hok') as (rs' & Hrs' & Hc' & _).
    exists rs'. split_and!; [done|done| |done]. etrans; [exact Hl|]. eapply (stream_of_grows hash _ db db'); [done..| |done|done].
    by apply ext_replica, (step_extends node), (sha_step_step hash).
  - subst hash node. destruct (export_200 _ _ _ _ _ _ _ _ _ H64 Hok Hrun H200) as (HR & Hok' & _ & Ha & _ & page & rs & Hbody & Hrs & Hc & Hp).
    split; [done|]. exists rs. pose proof (stream_of_grows _ _ _ _ _ _ Hok Hok' (rp_records _ _ _ HR) Hrs0 Hrs) as Hgrow.
    assert (l `prefix_of` rs) as [k Hk] by by etrans. pose proof (page_complete _ _ _ _ _ _ Ha Hc Hp) as Hcomplete.
    rewrite Hbody, (page_records_decode (sha256_hex env)) in Hrec by apply Hp. apply Some_inj in Hrec. subst records.
    rewrite Hbody, page_caught_up. destruct (po_records _ _ _ _ _ _ Hp) as (n & _ & Hn). rewrite Nat2Z.id in *. rewrite Hk, drop_app_length in *.
    split_and!; [done|done|rewrite Hn; apply prefix_app, prefix_take|]. destruct (xp_next page); [done|]. intros _. by rewrite Hcomplete.
Qed.




(** ** A stream exported twice *)
(** A digest that is cheap to evaluate. *)
Fixpoint quick_mix (acc : N) (s : string) : N :=
  match s with EmptyString => acc | String c r => quick_mix (N.land (acc * 31 + N_of_ascii c + 1) 4294967295) r end.
Fixpoint repeat_text (n : nat) (s : string) : string := match n with O => "" | S k => s +:+ repeat_text k s end.
Definition quick_sha (s : string) : string := repeat_text 8 (demo_hex 8 (quick_mix 7 s)).
Lemma demo_hex_spec n k : all_chars is_lower_hex (demo_hex n k) = true /\ String.length (demo_hex n k) = n.
Proof.
  revert k. induction n as [|n IH]; intros k; [done|]. cbn [demo_hex]. destruct (IH (k / 16)%N) as [H1 H2]. split.
  - rewrite all_chars_app, H1. cbn [all_chars]. rewrite andb_true_r. assert (k mod 16 < 16)%N as Hk by (apply N.mod_lt; lia).
    destruct (k mod 16)%N as [|p]; [reflexivity|]. do 4 (destruct p as [p|p|]; try lia; try reflexivity).
  - rewrite length_append, H2. cbn. lia.
Qed.
Lemma matches_hex n s : all_chars is_lower_hex s = true -> String.length s = n -> matches (List.repeat is_lower_hex n) s = true.
Proof.
  intros H <-. unfold matches. induction s as [|c s IH]; [done|]. cbn [all_chars] in H. apply andb_true_iff in H as [Hc Hs].
  cbn [String.length List.repeat match_classes]. rewrite Hc. by apply IH.
Qed.
Lemma quick_sha64 : sha64 quick_sha.
Proof.
  intros s. unfold quick_sha. destruct (demo_hex_spec 8 (quick_mix 7 s)) as [H1 H2]. generalize dependent (demo_hex 8 (quick_mix 7 s)). intros t H1 H2.
  apply matches_hex; cbn [repeat_text]; [by rewrite !all_chars_app, !H1|by rewrite !length_append, !H2].
Qed.

Definition quick_env (family : string) : Env :=
  mkEnv demo_node demo_owner "cursor" "1.0.31" (fun n => Some (demo_uuid family n)) (fun _ => "2026-01-01T00:00:00Z")
    (fun _ => true) (fun _ => Some (mkSpace (2 ^ 40) (2 ^ 41))) (fun _ => false) quick_sha.
Definition quick_run {A} (m : M A) (family : string) (db : Db) : Db := durable (run m (quick_env family) demo_aux (demo_core db)).2.
Definition quick_created : Db := Eval vm_compute in quick_run (SubmitCommand demo_trust demo_create) "001" demo_fresh.
Definition quick_queued : Db := Eval vm_compute in quick_run (SubmitCommand demo_trust (demo_enqueue 1 2)) "002" quick_created.

Definition demo_identity : StreamIdentity := mkStreamIdentity demo_owner (demo_uuid "00f" 1) demo_node demo_dialog 1.
Definition demo_export (after limit : Z) (db : Db) : option Result * Core :=
  respond (ExportHistory demo_trust demo_identity after limit) (quick_env "0aa") demo_aux (demo_core db).
Definition demo_exported : Db := Eval vm_compute in durable (demo_export 0 2 quick_queued).2.
Lemma quick_step {A} (m : M A) family db db' : handler A m -> db' = quick_run m family db -> sha_step quick_sha demo_node db db'.
Proof. intros Hm ->. by apply (sha_handler quick_sha demo_node A m (quick_env family) demo_aux (demo_core db)). Qed.
Lemma quick_history : rtc (sha_step quick_sha demo_node) demo_fresh quick_queued.
Proof.
  eapply rtc_l; [apply (quick_step (SubmitCommand demo_trust demo_create) "001"); [apply handler_http, http_submit|by vm_compute]|].
  eapply rtc_l; [|apply rtc_refl]. apply (quick_step (SubmitCommand demo_trust (demo_enqueue 1 2)) "002"); [apply handler_http, http_submit|by vm_compute].
Qed.
Lemma quick_replicas : replica_ok quick_sha quick_queued.
Proof. exact (sha_volume_ok _ _ _ _ _ quick_sha64 quick_history). Qed.

Lemma new_record_id hash ty id en rev p r : NewRecord hash ty id en rev p = Some r -> rec_id r = id.
Proof.
  unfold NewRecord. destruct (negb _); [done|]. cbv zeta. destruct (validateRecordCore _ _); [|done]. intros H. apply Some_inj in H. by subst r.
Qed.
Lemma decoded_elem rows decoded e : sequence (List.map decoded_event rows) = Some decoded -> e ∈ rows ->
  exists v, EventView_of (evt_json e) = Some v /\ (e, v) ∈ decoded.
Proof.
  revert decoded. induction rows as [|x rows IH]; intros decoded Hd He; [by apply elem_of_nil in He|]. cbn [List.map sequence] in Hd.
  destruct (decoded_event x) as [d|] eqn:Ex; [|done]. destruct (sequence _) as [ds|] eqn:Es; [|done]. injection Hd as <-.
  apply elem_of_cons in He as [->|He].
  - unfold decoded_event in Ex. destruct (EventView_of (evt_json x)) as [v|]; [|done]. injection Ex as <-. exists v. split; [done|by left].
  - destruct (IH ds eq_refl He) as (v & Hv & Hin). exists v. split; [done|by right].
Qed.

(** The two exports of the witnesses, evaluated. *)
Definition answered (after limit : Z) : bool :=
  match (demo_export after limit quick_queued).1 with
  | Some r => (HTTPStatus r =? 200) && (negb (limit =? 200) || caught_up (Body r))
              && match body_records (Body r) with Some l => Nat.ltb 1 (List.length l) | None => false end
  | None => false
  end.
Lemma answered_run after limit : answered after limit = true -> exists r c' l, demo_export after limit quick_queued = (Some r, c')
  /\ HTTPStatus r = 200 /\ (limit = 200 -> caught_up (Body r) = true) /\ body_records (Body r) = Some l /\ (1 < List.length l)%nat.
Proof.
  unfold answered. destruct (demo_export after limit quick_queued) as [[r|] c']; cbn [fst]; [|discriminate].
  destruct (body_records (Body r)) as [l|] eqn:E; [|by rewrite andb_false_r]. intros [[H1 H2]%andb_true_iff H3]%andb_true_iff.
  exists r, c', l. split_and!; [done|by apply Z.eqb_eq|intros ->; exact H2|done|by apply Nat.ltb_lt].
Qed.

(** C27: in every volume the node reaches, whatever handlers, workers and exports
    ran and whatever failed, each replica stream decodes to a chain of sealed
    records: numbered from one without a gap, each linked to the one before and
    the first to the genesis of the stream, each with the hash of its core and
    of its place, with ids of their own; and the stream's next number is the
    one after the last. *)
Theorem replica_streams_chain hash node owner registry db s :
  (forall x, sha256Pattern (hash x) = true) -> rtc (sha_step hash node) (freshDb node owner registry) db -> s ∈ replica_streams db ->
  exists rs, stream_of (rst_id s) db = Some rs /\ valid_chain hash (rst_id s) 1 (ChainGenesis hash (rst_id s)) rs = true
    /\ rst_next s = Z.of_nat (List.length rs) + 1 /\ NoDup (List.map rec_id rs).
Proof.
  intros H64 Hdb Hs. destruct (stream_of_ok hash db s) as (rs & H1 & H2 & H3 & H4 & _); [by eapply sha_volume_ok|done|]. by exists rs.
Qed.
Lemma replica_streams_chain_witness : exists s rs, s ∈ replica_streams demo_exported /\ stream_of (rst_id s) demo_exported = Some rs
  /\ valid_chain quick_sha (rst_id s) 1 (ChainGenesis quick_sha (rst_id s)) rs = true /\ (List.length rs > 2)%nat.
Proof.
  destruct (select1 (fun _ => true) (replica_streams demo_exported)) as [s|] eqn:E; [|by vm_compute in E].
  pose proof E as E'. apply select1_Some in E as [Hs _].
  destruct (replica_streams_chain quick_sha demo_node demo_owner 1 demo_exported s) as (rs & H1 & H2 & H3 & _); [exact quick_sha64| |done|].
  - eapply rtc_r; [exact quick_history|]. apply (quick_step (ExportHistory demo_trust demo_identity 0 2) "0aa"); [apply handler_http, http_export|by vm_compute].
  - exists s, rs. split_and!; [done..|]. vm_compute in E'. injection E' as <-. cbn [rst_next] in H3. lia.
Defined.

(** C28: a history export answered 200 carries a page of the contract: it is of
    the identity and after the cursor that was asked for, it passes the
    contract's own [ValidatePage], its records are the next ones of the
    committed stream, at most [limit]; a next cursor is the number of its last
    record, with more to come, and a page without one is the rest; the
    checkpoint names the end of the stream.  Nothing but the replica tables
    changed. *)
Theorem export_answers_page env x trust i after limit c r c' :
  (forall s, sha256Pattern (sha256_hex env s) = true) -> replica_ok (sha256_hex env) (durable c) ->
  respond (ExportHistory trust i after limit) env x c = (Some r, c') -> HTTPStatus r = 200 ->
  durable c' = (durable c) <| replica_streams := replica_streams (durable c') |> <| replica_records := replica_records (durable c') |>
  /\ exists page rs, Body r = ExportPage_json page /\ ValidatePage (sha256_hex env) page = true
    /\ xp_identity page = i /\ xp_after page = after
    /\ stream_of (StreamID (sha256_hex env) i) (durable c') = Some rs
    /\ (exists n, (n <= Z.to_nat limit)%nat /\ xp_records page = take n (drop (Z.to_nat after) rs))
    /\ ThroughSeq (xp_checkpoint page) = Z.of_nat (List.length rs)
    /\ ChainHash (xp_checkpoint page) = chain_tip (ChainGenesis (sha256_hex env) (StreamID (sha256_hex env) i)) rs
    /\ match xp_next page with
       | Some next => next = after + Z.of_nat (List.length (xp_records page)) /\ after < next < Z.of_nat (List.length rs)
       | None => xp_records page = drop (Z.to_nat after) rs
       end.
Proof.
  intros H64 Hok Hrun Hs. destruct (export_200 _ _ _ _ _ _ _ _ _ H64 Hok Hrun Hs) as (HR & _ & _ & Ha & _ & page & rs & Hbody & Hrs & Hc & Hp).
  split; [exact (rp_only _ _ _ HR)|]. pose proof (page_complete _ _ _ _ _ _ Ha Hc Hp) as Hmore.
  destruct Hp as [Hv (Hi & _ & Hafter) Hn _ [Ht Htip]]. by exists page, rs.
Qed.
Lemma export_answers_page_witness : exists r c' page, demo_export 0 2 quick_queued = (Some r, c') /\ HTTPStatus r = 200
  /\ Body r = ExportPage_json page /\ ValidatePage quick_sha page = true /\ dialogs (durable c') = dialogs quick_queued.
Proof.
  destruct (answered_run 0 2) as (r & c' & l & E & Hs & _); [by vm_compute|].
  destruct (export_answers_page (quick_env "0aa") demo_aux demo_trust demo_identity 0 2 (demo_core quick_queued) r c') as (Hd & page & rs & Hb & Hv & _);
    [exact quick_sha64|exact quick_replicas|exact E|exact Hs|].
  exists r, c', page. split; [exact E|]. split; [exact Hs|]. split; [exact Hb|]. split; [exact Hv|]. by rewrite Hd.
Defined.

(** C29: a follower that asks for what comes after the records it has copies the
    stream: however its requests interleave with the node's handlers, workers
    and other exports, what it holds is a prefix of the committed stream, with
    no gap, no repeat and no reordering; and when the last answer said there is
    no more, it is the whole of the stream. *)
Theorem replica_follows_stream hash node i db l complete :
  (forall x, sha256Pattern (hash x) = true) -> follows hash node i db l complete ->
  exists rs, stream_of (StreamID hash i) db = Some rs /\ valid_chain hash (StreamID hash i) 1 (ChainGenesis hash (StreamID hash i)) rs = true
    /\ l `prefix_of` rs /\ (complete = true -> l = rs).
Proof. intros H64 H. by destruct (follows_prefix hash node i db l complete H64 H) as (_ & H'). Qed.
Lemma replica_follows_stream_witness : exists c' l, (demo_export 0 200 quick_queued).2 = c' /\ (1 < List.length l)%nat
  /\ stream_of (StreamID quick_sha demo_identity) (durable c') = Some l.
Proof.
  destruct (answered_run 0 200) as (r & c' & l & E & Hs & Hc & El & Hl); [by vm_compute|]. exists c', l.
  split; [by rewrite E|]. split; [exact Hl|].
  destruct (replica_follows_stream quick_sha demo_node demo_identity (durable c') ([] ++ l) (caught_up (Body r))) as (rs & H1 & _ & _ & H2).
  - exact quick_sha64.
  - apply (follow_page quick_sha demo_node demo_identity (quick_env "0aa") demo_aux (demo_core quick_queued) demo_trust 200 r c' [] false l);
      [exact (follow_start quick_sha demo_node demo_identity demo_owner 1 _ quick_history)|reflexivity|reflexivity|exact E|exact Hs|exact El].
  - specialize (H2 (Hc eq_refl)). cbn [app] in H2. rewrite H2. exact H1.
Defined.

(** C30: a history export answered 200 has put the dialog into its stream: every
    message of the dialog as an entry record, with its content, role, sequence
    and, for an assistant's, its attempt, profile and generation; every event
    of the dialog as an execution fact, with its envelope; and the list of its
    assets as it is.  Each record is stored under the id derived from its
    object, and the stored record has the hash of exactly that payload. *)
Theorem export_covers_dialog env x trust i after limit c r c' :
  let hash := sha256_hex env in let db := durable c' in
  let stored recordType recordID entityID revision payload := exists record row,
    NewRecord hash recordType recordID entityID revision payload = Some record /\ row ∈ replica_records db
    /\ rrr_stream row = StreamID hash i /\ rrr_record row = recordID
    /\ rec_hash <$> ReplicaRecord_of_json (rrr_json row) = Some (rec_hash record) in
  respond (ExportHistory trust i after limit) env x c = (Some r, c') -> HTTPStatus r = 200 ->
  (forall m, m ∈ messages db -> msg_dialog m = sid_dialog i -> exists content author, entry_content m = Some content
     /\ stored RecordEntry (entry_record_id hash (msg_id m)) (msg_id m) 1
          (TranscriptEntry_json (entry_of i m (attempt_of (msg_attempt m) db) author content)))
  /\ (forall e, e ∈ events db -> fact_event i db e = true -> exists v request, EventView_of (evt_json e) = Some v
     /\ let id := fact_id hash (sid_node i) (evt_seq e) in
        stored RecordExecutionFact (fact_record_id hash id) id 1 (ExecutionFact_json (fact_of i (e, v) request id)))
  /\ (let manifest := AssetManifest_json (sid_logical i) (dialog_assets (sid_dialog i) db) in let entity := asset_entity hash (sid_dialog i) in
      exists revision, stored RecordAssetManifest (asset_record_id hash entity manifest) entity revision manifest).
Proof.
  intros hash db stored Hrun Hs. destruct (export_respond _ _ _ _ _ _ _ _ _ Hrun) as [body -> [_ [He (decoded & Hd & Hf) (revision & Hassets)] _] _ _ _ _ _|Hn _ _]; [|done].
  assert (forall ty id en rev p, in_stream (StreamID hash i) ty id en rev p hash db -> stored ty id en rev p) as Hstored.
  { intros ty id en rev p (record & Hnew & row & H1 & H2 & H3 & H4). exists record, row. split_and!; [done..| |done]. by rewrite H3, (new_record_id _ _ _ _ _ _ _ Hnew). }
  split_and!; [..|exists revision; by apply Hstored].
  - intros m Hm Hdialog. rewrite Forall_forall in He. destruct (He (m, attempt_of (msg_attempt m) db)) as (content & author & Hc & Hin).
    + apply list_elem_of_In, List.in_map_iff. exists m. split; [done|]. apply list_elem_of_In. unfold dialog_messages. rewrite sort_by_permutation. apply list_elem_of_In, List.filter_In.
      rewrite Hdialog, str_eqb_refl. split; [by apply list_elem_of_In|done].
    + exists content, author. split; [done|]. by apply Hstored.
  - intros e Hin Hev. rewrite Forall_forall in Hf. destruct (decoded_elem _ _ e Hd) as (v & Hv & Hdec).
    { unfold dialog_events. rewrite sort_by_permutation. apply list_elem_of_In, List.filter_In. split; [by apply list_elem_of_In|done]. }
    destruct (Hf (e, v) Hdec) as (request & Hr). exists v, request. split; [done|]. by apply Hstored.
Qed.
Lemma export_covers_dialog_witness : exists c' m row, (demo_export 0 2 quick_queued).2 = c' /\ m ∈ messages (durable c')
  /\ row ∈ replica_records (durable c') /\ rrr_record row = entry_record_id quick_sha (msg_id m).
Proof.
  assert (exists_where (fun m => msg_dialog m =s demo_dialog) (messages (durable (demo_export 0 2 quick_queued).2)) = true) as Hex by (by vm_compute).
  destruct (answered_run 0 2) as (r & c' & l & E & Hs & _); [by vm_compute|]. rewrite E in Hex.
  apply exists_where_true in Hex as (m & Hin & Hd). apply String.eqb_eq in Hd.
  destruct (export_covers_dialog (quick_env "0aa") demo_aux demo_trust demo_identity 0 2 (demo_core quick_queued) r c' E Hs) as (Hm & _).
  destruct (Hm m Hin Hd) as (content & author & _ & record & row & _ & Hrow & _ & Hid & _).
  exists c', m, row. split; [by rewrite E|]. split; [exact Hin|]. split; [exact Hrow|exact Hid].
Defined.


(** ** What the validation leaves open *)
(** The counts of a checkpoint are summed in 64 bits: four of 2^62 pass as none. *)
Lemma checkpoint_counts_wrap :
  let c := mkCheckpoint 0 GenesisHash 1 1 GenesisHash GenesisHash GenesisHash GenesisHash GenesisHash
             (mkEffects (2 ^ 62) (2 ^ 62) (2 ^ 62) (2 ^ 62) 0 0) true "" "t" in
  validCheckpoint c = true /\ EntryCount (Effects c) > ThroughSeq c.
Proof. by vm_compute. Qed.
(** The checkpoint's chain hash is compared with nothing when the page has
    records: a page that ends the stream passes with any. *)
Lemma checkpoint_hash_unbound p h : xp_records p <> [] -> 0 < ThroughSeq (xp_checkpoint p) -> page_boundary quick_sha p = true ->
  let '(mkCheckpoint t _ dv qv e f r x a s y w z) := xp_checkpoint p in
  page_boundary quick_sha (p <| xp_checkpoint := mkCheckpoint t h dv qv e f r x a s y w z |>) = true.
Proof.
  intros Hr Ht Hb. unfold page_boundary in *. destruct p as [p1 p2 p3 p4 p5 records next [t ch dv qv e f r x a s y w z]]. unfold field_upd.
  cbn [xp_records xp_next xp_checkpoint xp_stream xp_after ThroughSeq ChainHash] in *. destruct next; [exact Hb|].
  destruct (last records) as [l|] eqn:El; [|by apply last_None in El]. destruct (Z.eqb_spec t 0); [lia|]. cbn [andb negb] in *.
  by destruct (rec_seq l =? t).
Qed.
