(* ===== verification/Auth.v ===== *)
(** * Provider authentication, [providerauth/types.go] and [providerauth/manager.go]
    The manager of the node's provider credential: its durable state, the
    sections it runs under its mutex, and the operations that replace, check or
    drop the credential.  What the backend answers is an argument of the section
    that uses it; [AuthSystem] runs the sections in any order the two mutexes
    allow. *)
From stdpp Require Import base tactics list strings gmap.
From Stdlib Require Import ZArith Lia Ascii String.
From S2P Require Import Prelude Json Wire Instant TranscriptView.
Open Scope string_scope.
Open Scope list_scope.
Open Scope Z_scope.
Open Scope harness_scope.

(** ** Types *)
Definition AuthSchemaID : string := "harness-provider-auth-v1".
Definition StateUnknown : string := "unknown".
Definition StateUnauthenticated : string := "unauthenticated".
Definition StateAuthenticated : string := "authenticated".
Definition StateReauthenticationRequired : string := "reauthentication_required".
Definition OperationPending : string := "pending".
Definition OperationSucceeded : string := "succeeded".
Definition OperationFailed : string := "failed".
Definition OperationCancelled : string := "cancelled".
Definition OperationExpired : string := "expired".

Record AuthCapabilities := mkCapabilities { Methods : list string; CanCheck : bool; CanLogout : bool }.
Record Operation := mkOperation {
  op_id : string; op_command : string; op_method : string; op_status : string; op_created : string; op_updated : string;
  op_reason : option string; op_url : option string; op_code : option string; op_expires : option string;
  op_timeout : option string }.
#[export] Instance operation_eta : Eta Operation := fun o =>
  mkOperation (op_id o) (op_command o) (op_method o) (op_status o) (op_created o) (op_updated o) (op_reason o) (op_url o)
    (op_code o) (op_expires o) (op_timeout o).
Record AuthEnvelope := mkAuthEnvelope {
  en_schema : string; en_node : string; en_revision : Z; en_state : string; en_checked : option string;
  en_reason : option string; en_capabilities : AuthCapabilities; en_operation : option Operation }.
Record StartRequest := mkStart { sr_node : string; sr_command : string; sr_method : string; sr_secret : string }.
Record CommandRequest := mkCommandRequest { cr_node : string; cr_command : string }.

Record APIError := mkAPIError { api_status : Z; api_code : string }.
Definition ErrInvalidRequest : APIError := mkAPIError 400 "invalid_request".
Definition ErrNotFound : APIError := mkAPIError 404 "not_found".
Definition ErrPendingOperation : APIError := mkAPIError 409 "pending_operation".
Definition ErrBusy : APIError := mkAPIError 409 "busy".
Definition ErrIDConflict : APIError := mkAPIError 409 "id_conflict".
Definition ErrUnsupportedMethod : APIError := mkAPIError 422 "unsupported_method".
Definition ErrInvalidSecret : APIError := mkAPIError 422 "invalid_secret".
Definition ErrProviderUnavailable : APIError := mkAPIError 503 "provider_unavailable".

(** The last constructor is any other text a backend might answer. *)
Inductive ProbeResult := ProbeAuthenticated | ProbeUnauthenticated | ProbeInvalid | ProbeUnavailable | ProbeOther.

(** ** Durable state *)
Record commandRecord := mkCommandRecord { rc_kind : string; rc_operation : string }.
Record persistedState := mkPersisted {
  Initialized : bool; Revision : Z; auth_state : string; CheckedAt : option string; ReasonCode : option string;
  LatestID : string; Operations : gmap string Operation; auth_commands : gmap string commandRecord }.
#[export] Instance persistedState_eta : Eta persistedState := fun s =>
  mkPersisted (Initialized s) (Revision s) (auth_state s) (CheckedAt s) (ReasonCode s) (LatestID s) (Operations s) (auth_commands s).
#[export] Instance commandRecord_eta : Eta commandRecord := fun r => mkCommandRecord (rc_kind r) (rc_operation r).

(** *** [json.Marshal] *)
Definition pointer_json (o : option string) : json := match o with Some s => JStr s | None => JNull end.
Definition map_json {A} (f : A -> json) (m : gmap string A) : json :=
  JObj (sort_by_key (List.map (fun p => (p.1, f p.2)) (map_to_list m))).
Definition Operation_json (o : Operation) : json := JObj
  [("operationId", JStr (op_id o)); ("commandId", JStr (op_command o)); ("method", JStr (op_method o));
   ("status", JStr (op_status o)); ("createdAt", JStr (op_created o)); ("updatedAt", JStr (op_updated o));
   ("reasonCode", pointer_json (op_reason o)); ("verificationUrl", pointer_json (op_url o));
   ("userCode", pointer_json (op_code o)); ("expiresAt", pointer_json (op_expires o));
   ("timeoutAt", pointer_json (op_timeout o))].
Definition commandRecord_json (r : commandRecord) : json := JObj
  ([("kind", JStr (rc_kind r))] ++ if rc_operation r =s "" then [] else [("operationId", JStr (rc_operation r))]).
Definition persistedState_json (s : persistedState) : json := JObj
  ([("initialized", JBool (Initialized s)); ("revision", JInt (Revision s)); ("state", JStr (auth_state s));
    ("checkedAt", pointer_json (CheckedAt s)); ("reasonCode", pointer_json (ReasonCode s))]
   ++ (if LatestID s =s "" then [] else [("latestOperationId", JStr (LatestID s))])
   ++ [("operations", map_json Operation_json (Operations s)); ("commands", map_json commandRecord_json (auth_commands s))]).

(** *** [json.Unmarshal]: unknown members are skipped, [null] keeps a value *)
Definition into_pointer (v : json) : option (option string) :=
  match v with JNull => Some None | JStr s => Some (Some s) | _ => None end.
Definition set_operation (name : string) (v : json) (o : Operation) : option Operation :=
  if name =s "OPERATIONID" then x ← into_string v (op_id o); Some (o <| op_id := x |>)
  else if name =s "COMMANDID" then x ← into_string v (op_command o); Some (o <| op_command := x |>)
  else if name =s "METHOD" then x ← into_string v (op_method o); Some (o <| op_method := x |>)
  else if name =s "STATUS" then x ← into_string v (op_status o); Some (o <| op_status := x |>)
  else if name =s "CREATEDAT" then x ← into_string v (op_created o); Some (o <| op_created := x |>)
  else if name =s "UPDATEDAT" then x ← into_string v (op_updated o); Some (o <| op_updated := x |>)
  else if name =s "REASONCODE" then x ← into_pointer v; Some (o <| op_reason := x |>)
  else if name =s "VERIFICATIONURL" then x ← into_pointer v; Some (o <| op_url := x |>)
  else if name =s "USERCODE" then x ← into_pointer v; Some (o <| op_code := x |>)
  else if name =s "EXPIRESAT" then x ← into_pointer v; Some (o <| op_expires := x |>)
  else if name =s "TIMEOUTAT" then x ← into_pointer v; Some (o <| op_timeout := x |>)
  else Some o.
Definition set_commandRecord (name : string) (v : json) (r : commandRecord) : option commandRecord :=
  if name =s "KIND" then x ← into_string v (rc_kind r); Some (r <| rc_kind := x |>)
  else if name =s "OPERATIONID" then x ← into_string v (rc_operation r); Some (r <| rc_operation := x |>)
  else Some r.
Definition no_operation : Operation := mkOperation "" "" "" "" "" "" None None None None None.
Definition no_command : commandRecord := mkCommandRecord "" "".

Section Maps.
Context {A : Type} (element : json -> option A).
Fixpoint map_members (l : list (string * json)) (m : gmap string A) : option (gmap string A) :=
  match l with [] => Some m | (k, v) :: l' => a ← element v; map_members l' (<[k := a]> m) end.
(** A nil map is an empty one: [load] replaces it. *)
Definition into_map (v : json) (m : gmap string A) : option (gmap string A) :=
  match v with JNull => Some ∅ | JObj l => map_members l m | _ => None end.
End Maps.
Definition set_persistedState (name : string) (v : json) (s : persistedState) : option persistedState :=
  if name =s "INITIALIZED" then x ← into_bool v (Initialized s); Some (s <| Initialized := x |>)
  else if name =s "REVISION" then x ← into_int v (Revision s); Some (s <| Revision := x |>)
  else if name =s "STATE" then x ← into_string v (auth_state s); Some (s <| auth_state := x |>)
  else if name =s "CHECKEDAT" then x ← into_pointer v; Some (s <| CheckedAt := x |>)
  else if name =s "REASONCODE" then x ← into_pointer v; Some (s <| ReasonCode := x |>)
  else if name =s "LATESTOPERATIONID" then x ← into_string v (LatestID s); Some (s <| LatestID := x |>)
  else if name =s "OPERATIONS" then
    x ← into_map (fun v => into_struct set_operation v no_operation) v (Operations s); Some (s <| Operations := x |>)
  else if name =s "COMMANDS" then
    x ← into_map (fun v => into_struct set_commandRecord v no_command) v (auth_commands s); Some (s <| auth_commands := x |>)
  else Some s.
Definition no_state : persistedState := mkPersisted false 0 "" None None "" ∅ ∅.

(** ** The manager
    [done] are the contexts of operations that have ended, with the error they
    report; [state_file] is the file [state.json]. *)
Inductive ctx_error := Canceled | DeadlineExceeded.
Inductive state_file := NoFile | BadFile | StateFile (v : json).
Record Manager := mkManager {
  state : persistedState; cancels : gset string; done : gmap string ctx_error; transitioning : bool; path : state_file }.
#[export] Instance manager_eta : Eta Manager := fun m => mkManager (state m) (cancels m) (done m) (transitioning m) (path m).

(** A write may fail before the rename, or after it, when the directory is
    synced. *)
Inductive file_write := Written | Unsynced | Unwritten.
Record AuthEnv := mkAuthEnv {
  auth_node : string;
  auth_clock : nat -> Z;              (** the n-th reading of the clock *)
  auth_write : nat -> file_write;     (** the n-th write of the state file *)
  auth_id : nat -> option string;     (** the n-th random UUID *)
  auth_deadline : nat -> bool }.      (** whether the deadline of a context has fired at its n-th reading *)
Record Ticks := mkTicks { t_clock : nat; t_write : nat; t_id : nat; t_deadline : nat }.

Definition A (X : Type) : Type := AuthEnv -> Ticks -> Manager -> X * Ticks * Manager.
#[export] Instance A_ret : MRet A := fun X a env t m => (a, t, m).
#[export] Instance A_bind : MBind A := fun X Y k p env t m => let '(a, t', m') := p env t m in k a env t' m'.
Definition look {X} (f : Manager -> X) : A X := fun env t m => (f m, t, m).
Definition node_id : A string := fun env t m => (auth_node env, t, m).
Definition update (f : Manager -> Manager) : A unit := fun env t m => (tt, t, f m).
Definition read_clock : A Z := fun env t m =>
  (auth_clock env (t_clock t), mkTicks (S (t_clock t)) (t_write t) (t_id t) (t_deadline t), m).
Definition set_state (f : persistedState -> persistedState) : A unit := update (fun m => m <| state ::= f |>).
Definition set_op (id : string) (o : Operation) : A unit := set_state (fun s => s <| Operations ::= <[id := o]> |>).
Definition now : A string := t ← read_clock; mret (timestamp t).
Definition randomUUID : A (option string) := fun env t m =>
  (auth_id env (t_id t), mkTicks (t_clock t) (t_write t) (S (t_id t)) (t_deadline t), m).

(** [manager.write], with the bytes of the state; [true] is an error. *)
Definition persistLocked : A bool := fun env t m =>
  let t' := mkTicks (t_clock t) (S (t_write t)) (t_id t) (t_deadline t) in
  let m' := m <| path := StateFile (persistedState_json (state m)) |> in
  match auth_write env (t_write t) with
  | Written => (false, t', m')
  | Unsynced => (true, t', m')
  | Unwritten => (true, t', m)
  end.
Definition failClosedLocked : A unit :=
  set_state (fun s => s <| auth_state := StateUnknown |> <| ReasonCode := Some "provider_unavailable" |> <| Revision ::= Z.succ |>).
(** [if manager.persistLocked() != nil { failClosedLocked; persistLocked }]. *)
Definition persist_or_fail_closed : A bool :=
  err ← persistLocked;
  if (err : bool) then failClosedLocked ;; persistLocked ;; mret true else mret false.

(** [ctx.Err()] of the operation's context, and its [cancel]. *)
Definition ctx_err (id : string) : A (option ctx_error) := fun env t m =>
  let t' := mkTicks (t_clock t) (t_write t) (t_id t) (S (t_deadline t)) in
  match done m !! id with
  | Some e => (Some e, t', m)
  | None =>
      if auth_deadline env (t_deadline t) then (Some DeadlineExceeded, t', m <| done ::= <[id := DeadlineExceeded]> |>)
      else (None, t', m)
  end.
(** [ctx.Err() != nil], and [errors.Is(ctx.Err(), context.DeadlineExceeded)]. *)
Definition ended (e : option ctx_error) : bool := match e with Some _ => true | None => false end.
Definition is_deadline (e : option ctx_error) : bool := match e with Some DeadlineExceeded => true | _ => false end.
(** [cancel()] ends a context that has not ended yet. *)
Definition cancelled (ids : gset string) (m : Manager) : gmap string ctx_error :=
  done m ∪ gset_to_gmap Canceled (ids ∩ cancels m).
Definition cancel_contexts (ids : gset string) : A unit :=
  update (fun m => m <| done := cancelled ids m |> <| cancels := cancels m ∖ ids |>).

(** ** The parts of the sections *)
Definition pending (o : Operation) : bool := op_status o =s OperationPending.
Definition has_pending (s : persistedState) : bool := existsb (fun p => pending p.2) (map_to_list (Operations s)).
Definition maxCommandReceipts : Z := 4096.
Definition providerAuthTimeout : Z := 30 * 10 ^ 9.

(** Whether [expirePendingLocked] ends the operation: its deadline has passed,
    or cannot be read. *)
Definition expires (now : Z) (o : Operation) : bool :=
  pending o
  && match op_timeout o with
     | Some text => match time_instant text with Some deadline => negb (now <? deadline) | None => true end
     | None => false
     end.
Definition expired (now : Z) (o : Operation) : Operation :=
  o <| op_status := OperationExpired |> <| op_reason := Some "expired" |> <| op_updated := timestamp now |>.
Definition expire_all (now : Z) (ops : gmap string Operation) : gmap string Operation :=
  (fun o => if expires now o then expired now o else o) <$> ops.
Definition expiring (now : Z) (ops : gmap string Operation) : gset string :=
  dom (filter (fun p => expires now p.2 = true) ops).
Definition expirePendingLocked (now : Z) : A bool :=
  ops ← look (fun m => Operations (state m));
  let ids := expiring now ops in
  if bool_decide (ids = ∅) then mret false else
  cancel_contexts ids ;;
  set_state (fun s => s <| Operations ::= expire_all now |> <| Revision ::= Z.succ |>) ;;
  persist_or_fail_closed.
(** [expirePendingLocked(manager.clock())]. *)
Definition expire : A bool := t ← read_clock; expirePendingLocked t.

Definition capabilities : AuthCapabilities := mkCapabilities ["secret"] true true.
Definition envelope (node : string) (s : persistedState) (operationID : string) : AuthEnvelope :=
  let id := if operationID =s "" then LatestID s else operationID in
  mkAuthEnvelope AuthSchemaID node (Revision s) (auth_state s) (CheckedAt s) (ReasonCode s) capabilities (Operations s !! id).
Definition envelopeLocked (operationID : string) : A AuthEnvelope :=
  node ← node_id; s ← look state; mret (envelope node s operationID).

Definition ensureCommandCapacityLocked (s : persistedState) : option APIError :=
  if maxCommandReceipts <=? Z.of_nat (size (auth_commands s)) then Some ErrBusy else None.
Definition containsControl (value : string) : bool :=
  existsb (fun c => List.existsb (Ascii.eqb c) [ascii_of_N 0; ascii_of_N 13; ascii_of_N 10]) (list_ascii_of_string value).
Definition validateCommand (request : CommandRequest) (kind : string) : A (option APIError) :=
  node ← node_id;
  if negb (cr_node request =s node) then mret (Some ErrNotFound) else
  if negb (uuidPattern (cr_command request)) then mret (Some ErrInvalidRequest) else
  s ← look state;
  match auth_commands s !! cr_command request with
  | Some prior => mret (if rc_kind prior =s kind then None else Some ErrIDConflict)
  | None => mret None
  end.
Definition Answer : Type := APIError + AuthEnvelope.
Definition refuse {X} (e : APIError) : A (APIError + X) := mret (inl e).

(** ** [Open] *)
(** [load]: [None] refuses the file, [true] is a first run. *)
Definition load (file : state_file) : option (bool * persistedState) :=
  match file with
  | NoFile => Some (true, no_state)
  | BadFile => None
  | StateFile v =>
      s ← into_struct set_persistedState v no_state;
      if negb (Initialized s) || (Revision s <? 1) then None else Some (false, s)
  end.
Definition interrupted_operation (o : Operation) (updated : string) : Operation :=
  o <| op_status := OperationFailed |> <| op_reason := Some "interrupted_by_restart" |> <| op_updated := updated |>.
Fixpoint interrupt (l : list (string * Operation)) : A bool :=
  match l with
  | [] => mret false
  | (id, o) :: l' =>
      if pending o then
        t ← now; set_op id (interrupted_operation o t) ;; set_state (fun s => s <| Revision ::= Z.succ |>) ;;
        interrupt l' ;; mret true
      else interrupt l'
  end.
(** The answer is whether a manager was returned; [bootstrap firstRun] says
    whether the backend has a credential, [None] that it failed. *)
Definition Open (bootstrap : bool -> option bool) : A bool :=
  file ← look path;
  match load file with
  | None => mret false
  | Some (firstRun, s) =>
      update (fun m => mkManager s ∅ ∅ false (path m)) ;;
      match bootstrap firstRun with
      | None => mret false
      | Some hasCredential =>
          (if firstRun then set_state (fun s => s <| Initialized := true |> <| Revision := 1 |>) else mret tt) ;;
          set_state (fun s => s <| auth_state := if hasCredential then StateUnknown else StateUnauthenticated |>
                                <| ReasonCode := None |> <| CheckedAt := None |>) ;;
          (if firstRun then mret tt else set_state (fun s => s <| Revision ::= Z.succ |>)) ;;
          ops ← look (fun m => Operations (state m));
          recovered ← interrupt (map_to_list ops);
          s ← look state;
          if firstRun || recovered || (0 <? Revision s) then err ← persistLocked; mret (negb err) else mret true
      end
  end.

(** ** Reads *)
Definition ProviderAuthReady : A bool :=
  err ← expire;
  if (err : bool) then mret false else
  m ← look id;
  if negb (auth_state (state m) =s StateAuthenticated) || transitioning m then mret false
  else mret (negb (has_pending (state m))).
Definition AuthSnapshot (nodeID : string) : A Answer :=
  node ← node_id;
  if negb (nodeID =s node) then refuse ErrNotFound else
  err ← expire;
  if (err : bool) then refuse ErrProviderUnavailable else e ← envelopeLocked ""; mret (inr e).
Definition AuthOperation (nodeID operationID : string) : A Answer :=
  node ← node_id;
  if negb (nodeID =s node) then refuse ErrNotFound else
  if negb (uuidPattern operationID) then refuse ErrInvalidRequest else
  err ← expire;
  if (err : bool) then refuse ErrProviderUnavailable else
  s ← look state;
  match Operations s !! operationID with
  | None => refuse ErrNotFound
  | Some _ => e ← envelopeLocked operationID; mret (inr e)
  end.

(** ** [Start]
    [busy] is what the transition gate answers.  Beside the answer, the id of
    the operation whose two goroutines were launched. *)
Definition new_operation (id command : string) (nowTime : Z) : Operation :=
  mkOperation id command "secret" OperationPending (timestamp nowTime) (timestamp nowTime) None None None None
    (Some (timestamp (nowTime + providerAuthTimeout))).
Definition Start (request : StartRequest) (busy : bool) : A (Answer * option string) :=
  let no e : A (Answer * option string) := mret (inl e, None) in
  node ← node_id;
  if negb (sr_node request =s node) then no ErrNotFound else
  if negb (uuidPattern (sr_command request)) then no ErrInvalidRequest else
  if negb (sr_method request =s "secret") then no ErrUnsupportedMethod else
  if (sr_secret request =s "") || (16 * 1024 <? byte_length (sr_secret request)) || containsControl (sr_secret request)
  then no ErrInvalidSecret else
  err ← expire;
  if (err : bool) then no ErrProviderUnavailable else
  s ← look state;
  match auth_commands s !! sr_command request with
  | Some prior =>
      if negb (rc_kind prior =s "start:secret") then no ErrIDConflict
      else e ← envelopeLocked (rc_operation prior); mret (inr e, None)
  | None =>
      if busy then no ErrBusy else
      if has_pending s then no ErrPendingOperation else
      match ensureCommandCapacityLocked s with
      | Some e => no e
      | None =>
          new ← randomUUID;
          match new with
          | None => no ErrProviderUnavailable
          | Some operationID =>
              nowTime ← read_clock;
              set_op operationID (new_operation operationID (sr_command request) nowTime) ;;
              set_state (fun s => s <| auth_commands ::= <[sr_command request := mkCommandRecord "start:secret" operationID]> |>
                                    <| LatestID := operationID |> <| Revision ::= Z.succ |>) ;;
              err ← persistLocked;
              if (err : bool) then
                set_state (fun s => s <| Operations ::= delete operationID |> <| auth_commands ::= delete (sr_command request) |>) ;;
                no ErrProviderUnavailable
              else
                update (fun m => m <| cancels := {[operationID]} ∪ cancels m |>) ;;
                e ← envelopeLocked operationID;
                mret (inr e, Some operationID)
          end
      end
  end.

(** ** [replace] and [finishReplacement]
    [finishReplacement] lets the manager's mutex go while the replacement
    commits: its two halves are two sections.  [terminalize] is its closure. *)
Definition terminalize (id : string) (o : Operation) (status reason : string) : A unit :=
  t ← now;
  set_op id (o <| op_status := status |> <| op_reason := Some reason |> <| op_updated := t |>) ;;
  cancel_contexts {[id]} ;;
  set_state (fun s => s <| Revision ::= Z.succ |>) ;;
  persist_or_fail_closed ;; mret tt.
Inductive finish := FinishReturn | FinishRollback | FinishCommit.
Definition finishReplacement_begin (id : string) (result : ProbeResult) (replacement busy : bool) : A finish :=
  err ← expire;
  if (err : bool) then mret (if replacement then FinishRollback else FinishReturn) else
  s ← look state;
  match Operations s !! id with
  | None => mret FinishReturn
  | Some o =>
      if negb (pending o) then mret FinishReturn else
      e ← ctx_err id;
      if is_deadline e then terminalize id o OperationExpired "expired" ;; mret FinishReturn else
      e ← ctx_err id;
      if ended e then terminalize id o OperationCancelled "cancelled" ;; mret FinishReturn else
      match result with
      | ProbeInvalid | ProbeUnauthenticated => terminalize id o OperationFailed "invalid_secret" ;; mret FinishReturn
      | ProbeUnavailable => terminalize id o OperationFailed "provider_unavailable" ;; mret FinishReturn
      | _ =>
          if busy then terminalize id o OperationFailed "provider_unavailable" ;; mret FinishReturn else
          update (fun m => m <| transitioning := true |>) ;; mret FinishCommit
      end
  end.
(** [true] asks for [Finalize], [false] for [Rollback]. *)
Definition finishReplacement_end (id : string) (commitErr : bool) : A bool :=
  update (fun m => m <| transitioning := false |>) ;;
  expireErr ← expire;
  s ← look state;
  match Operations s !! id with
  | None => mret false
  | Some o =>
      e ← (if expireErr || negb (pending o) then mret None else ctx_err id);
      if expireErr || negb (pending o) || ended e || commitErr then
        (if pending o then
           e ← ctx_err id;
           if is_deadline e then terminalize id o OperationExpired "expired" else
           e ← ctx_err id;
           if ended e then terminalize id o OperationCancelled "cancelled"
           else terminalize id o OperationFailed "provider_unavailable"
         else mret tt) ;; mret false
      else
        t ← now;
        let succeeded := o <| op_status := OperationSucceeded |> <| op_reason := None |> <| op_updated := t |> in
        set_op id succeeded ;;
        checked ← now;
        set_state (fun s => s <| auth_state := StateAuthenticated |> <| ReasonCode := None |> <| CheckedAt := Some checked |>) ;;
        cancel_contexts {[id]} ;;
        set_state (fun s => s <| Revision ::= Z.succ |>) ;;
        err ← persistLocked;
        if (err : bool) then
          t ← now;
          set_op id (succeeded <| op_status := OperationFailed |> <| op_reason := Some "provider_unavailable" |> <| op_updated := t |>) ;;
          failClosedLocked ;; persistLocked ;; mret false
        else mret true
  end.
Definition recordReplacementCleanupFailure (id : string) : A unit :=
  s ← look state;
  match Operations s !! id with
  | Some o =>
      if pending o then
        t ← now; set_op id (o <| op_status := OperationFailed |> <| op_reason := Some "provider_unavailable" |> <| op_updated := t |>)
      else mret tt
  | None => mret tt
  end ;;
  failClosedLocked ;; persistLocked ;; mret tt.
(** The watchdog's section, after its timer. *)
Definition expireOperation (id : string) : A unit :=
  s ← look state;
  match Operations s !! id with
  | Some o => if pending o then expire ;; mret tt else mret tt
  | None => mret tt
  end.

(** ** [Check] and [Refresh]
    The probe runs with the manager's mutex free, under [actionMu]: each is two
    sections.  [verdict] is the switch on what the probe said. *)
Definition verdict (result : ProbeResult) (s : persistedState) : persistedState :=
  let '(v, reason) := match result with
    | ProbeAuthenticated => (StateAuthenticated, None)
    | ProbeUnauthenticated => (StateUnauthenticated, None)
    | ProbeInvalid => (StateReauthenticationRequired, Some "credential_rejected")
    | ProbeUnavailable | ProbeOther => (StateUnknown, Some "provider_unavailable")
    end in
  s <| auth_state := v |> <| ReasonCode := reason |>.
(** [inl] answers at once, [inr] goes on to the probe. *)
Definition Check_begin (request : CommandRequest) : A (Answer + unit) :=
  let no e : A (Answer + unit) := mret (inl (inl e)) in
  issue ← validateCommand request "check";
  match issue with
  | Some e => no e
  | None =>
      err ← expire;
      if (err : bool) then no ErrProviderUnavailable else
      s ← look state;
      match auth_commands s !! cr_command request with
      | Some prior =>
          if negb (rc_kind prior =s "check") then no ErrIDConflict else e ← envelopeLocked ""; mret (inl (inr e))
      | None =>
          if has_pending s then no ErrPendingOperation else
          match ensureCommandCapacityLocked s with Some e => no e | None => mret (inr tt) end
      end
  end.
Definition Check_end (request : CommandRequest) (result : ProbeResult) : A Answer :=
  err ← expire;
  if (err : bool) then refuse ErrProviderUnavailable else
  set_state (fun s => s <| auth_commands ::= <[cr_command request := mkCommandRecord "check" ""]> |> <| Revision ::= Z.succ |>) ;;
  checked ← now;
  set_state (fun s => verdict result (s <| CheckedAt := Some checked |>)) ;;
  err ← persist_or_fail_closed;
  if (err : bool) then refuse ErrProviderUnavailable else e ← envelopeLocked ""; mret (inr e).
(** [false] returns without a probe. *)
Definition Refresh_begin : A bool :=
  err ← expire;
  if (err : bool) then mret false else s ← look state; mret (negb (has_pending s)).
Definition Refresh_end (result : ProbeResult) : A unit :=
  err ← expire;
  if (err : bool) then mret tt else
  set_state (fun s => s <| Revision ::= Z.succ |>) ;;
  checked ← now;
  set_state (fun s => verdict result (s <| CheckedAt := Some checked |>)) ;;
  persist_or_fail_closed ;; mret tt.

(** ** [Cancel] *)
Definition Cancel (operationID : string) (request : CommandRequest) : A Answer :=
  let kind := "cancel:" +:+ operationID in
  issue ← validateCommand request kind;
  match issue with
  | Some e => refuse e
  | None =>
      err ← expire;
      if (err : bool) then refuse ErrProviderUnavailable else
      s ← look state;
      match Operations s !! operationID with
      | None => refuse ErrNotFound
      | Some o =>
          match auth_commands s !! cr_command request with
          | Some prior => if negb (rc_kind prior =s kind) then refuse ErrIDConflict else e ← envelopeLocked operationID; mret (inr e)
          | None =>
              match ensureCommandCapacityLocked s with
              | Some e => refuse e
              | None =>
                  set_state (fun s => s <| auth_commands ::= <[cr_command request := mkCommandRecord kind operationID]> |>) ;;
                  (if pending o then
                     t ← now;
                     set_op operationID (o <| op_status := OperationCancelled |> <| op_reason := Some "cancelled" |> <| op_updated := t |>) ;;
                     cancel_contexts {[operationID]}
                   else mret tt) ;;
                  set_state (fun s => s <| Revision ::= Z.succ |>) ;;
                  err ← persist_or_fail_closed;
                  if (err : bool) then refuse ErrProviderUnavailable else e ← envelopeLocked operationID; mret (inr e)
              end
          end
      end
  end.

(** ** [Logout] *)
Definition Logout_begin (request : CommandRequest) (busy : bool) : A (Answer + unit) :=
  let no e : A (Answer + unit) := mret (inl (inl e)) in
  issue ← validateCommand request "logout";
  match issue with
  | Some e => no e
  | None =>
      err ← expire;
      if (err : bool) then no ErrProviderUnavailable else
      s ← look state;
      match auth_commands s !! cr_command request with
      | Some prior =>
          if negb (rc_kind prior =s "logout") then no ErrIDConflict else e ← envelopeLocked ""; mret (inl (inr e))
      | None =>
          if busy then no ErrBusy else
          if has_pending s then no ErrPendingOperation else
          match ensureCommandCapacityLocked s with
          | Some e => no e
          | None => update (fun m => m <| transitioning := true |>) ;; mret (inr tt)
          end
      end
  end.
Definition Logout_end (request : CommandRequest) (failed : bool) : A Answer :=
  update (fun m => m <| transitioning := false |>) ;;
  if failed then failClosedLocked ;; persistLocked ;; refuse ErrProviderUnavailable else
  set_state (fun s => s <| auth_commands ::= <[cr_command request := mkCommandRecord "logout" ""]> |>
                        <| auth_state := StateUnauthenticated |> <| ReasonCode := None |>) ;;
  checked ← now;
  set_state (fun s => s <| CheckedAt := Some checked |> <| Revision ::= Z.succ |>) ;;
  err ← persist_or_fail_closed;
  if (err : bool) then refuse ErrProviderUnavailable else e ← envelopeLocked ""; mret (inr e).
