(* ===== verification/AuthSystem.v ===== *)
(** * The manager at work
    [providerauth/manager.go] with its goroutines.  [mu] guards the sections of
    [Auth], each of which is one step here.  [actionMu] is held across several
    of them by the operation [action] describes; [tasks] are the goroutines
    that replace a credential, one per operation.  The watchdog of an operation
    and the reads take [mu] alone: they may run between any two steps.  What the
    backend and its replacement answer is the environment's choice; the trace
    [events] records, newest first, what was asked of them and what clients
    were told. *)
From stdpp Require Import base tactics list strings gmap.
From Stdlib Require Import ZArith Lia Ascii String.
From S2P Require Import Prelude Json Wire Instant TranscriptView Auth.
Open Scope string_scope.
Open Scope list_scope.
Open Scope Z_scope.
Open Scope harness_scope.

(** What a probe was about: the secret of an operation, or the stored one. *)
Inductive probe := Candidate (id : string) | Stored.
Inductive replacement_call := CallCommit | CallRollback | CallFinalize | CallClose.
Inductive auth_event :=
  | EvOpened
  | EvProbed (about : probe) (result : ProbeResult)
  | EvStarted (command id : string)
  | EvCalled (id : string) (call : replacement_call) (err : bool)
  | EvLoggedOut (command : string) (err : bool)
  | EvReply (command kind : string) (a : Answer).

(** Where the goroutine [replace] of an operation stands. *)
Inductive task :=
  | Probing                                              (** before the backend answers *)
  | Finishing (result : ProbeResult) (replacement : bool) (** before [finishReplacement] takes [actionMu] *)
  | Closing                                              (** before [replacement.Close()] *)
  | CleaningUp.                                          (** after [Close] failed *)
(** What the holder of [actionMu] does with [mu] free. *)
Inductive act :=
  | CheckProbing (request : CommandRequest)
  | RefreshProbing
  | LoggingOut (request : CommandRequest)
  | LoggedOut (request : CommandRequest) (err : bool)
  | Committing (id : string)
  | CommitAnswered (id : string) (err : bool)
  | Finalizing (id : string)
  | RollingBack (id : string) (recorded : bool)  (** whether an error of it is recorded *)
  | Recording (id : string).

Record AuthSystem := mkAuthSystem {
  running : bool; mgr : Manager; action : option act; tasks : gmap string task; events : list auth_event }.
#[export] Instance authSystem_eta : Eta AuthSystem := fun s =>
  mkAuthSystem (running s) (mgr s) (action s) (tasks s) (events s).

(** What [replace] passes to [finishReplacement]; [prepared] is whether
    [prepareReplacement] built a replacement. *)
Definition replace_outcome (result : ProbeResult) (prepared : bool) : task :=
  match result with
  | ProbeAuthenticated => if prepared then Finishing ProbeAuthenticated true else Finishing ProbeUnavailable false
  | ProbeInvalid | ProbeUnauthenticated | ProbeUnavailable => Finishing result false
  | ProbeOther => Finishing ProbeUnavailable false
  end.
(** The goroutine after [finishReplacement]. *)
Definition after_finish (id : string) (replacement : bool) (t : gmap string task) : gmap string task :=
  if replacement then <[id := Closing]> t else delete id t.

Section Steps.
Context (node : string).

(** One section of a running manager, in some environment of the node.  Random
    identities are new. *)
Definition runs {X} (p : A X) (m : Manager) (x : X) (m' : Manager) : Prop :=
  exists env t t', auth_node env = node
    /\ (forall n id, auth_id env n = Some id -> uuidPattern id = true /\ Operations (state m) !! id = None)
    /\ p env t m = (x, t', m').
Definition says (es : list auth_event) (s : AuthSystem) : AuthSystem := s <| events := es ++ events s |>.

Inductive auth_step : AuthSystem -> AuthSystem -> Prop :=
  | step_crash s : auth_step s (s <| running := false |> <| action := None |> <| tasks := ∅ |>)
  | step_open s bootstrap ok m' : running s = false -> runs (Open bootstrap) (mgr s) ok m' ->
      auth_step s (says (if ok then [EvOpened] else []) (s <| running := ok |> <| mgr := m' |>))
  | step_ready s b m' : running s = true -> runs ProviderAuthReady (mgr s) b m' -> auth_step s (s <| mgr := m' |>)
  | step_snapshot s nodeID a m' : running s = true -> runs (AuthSnapshot nodeID) (mgr s) a m' -> auth_step s (s <| mgr := m' |>)
  | step_operation s nodeID id a m' : running s = true -> runs (AuthOperation nodeID id) (mgr s) a m' ->
      auth_step s (s <| mgr := m' |>)
  | step_watchdog s id m' : running s = true -> runs (expireOperation id) (mgr s) tt m' -> auth_step s (s <| mgr := m' |>)
  (** [Start] and the goroutine it launches *)
  | step_start s request busy a m' : running s = true -> action s = None -> runs (Start request busy) (mgr s) (a, None) m' ->
      auth_step s (says [EvReply (sr_command request) "start:secret" a] (s <| mgr := m' |>))
  | step_launch s request busy a id m' : running s = true -> action s = None ->
      runs (Start request busy) (mgr s) (a, Some id) m' ->
      auth_step s (says [EvReply (sr_command request) "start:secret" a; EvStarted (sr_command request) id]
                     (s <| mgr := m' |> <| tasks ::= <[id := Probing]> |>))
  | step_probe s id result prepared : running s = true -> tasks s !! id = Some Probing ->
      auth_step s (says [EvProbed (Candidate id) result] (s <| tasks ::= <[id := replace_outcome result prepared]> |>))
  | step_finish s id result replacement busy f m' : running s = true -> action s = None ->
      tasks s !! id = Some (Finishing result replacement) -> (busy = true -> result = ProbeAuthenticated /\ replacement = true) ->
      runs (finishReplacement_begin id result replacement busy) (mgr s) f m' ->
      auth_step s match f with
        | FinishReturn => s <| mgr := m' |> <| tasks ::= after_finish id replacement |>
        | FinishRollback => s <| mgr := m' |> <| action := Some (RollingBack id false) |>
        | FinishCommit => s <| mgr := m' |> <| action := Some (Committing id) |>
        end
  | step_commit s id err : running s = true -> action s = Some (Committing id) ->
      auth_step s (says [EvCalled id CallCommit err] (s <| action := Some (CommitAnswered id err) |>))
  | step_finish_end s id err done m' : running s = true -> action s = Some (CommitAnswered id err) ->
      runs (finishReplacement_end id err) (mgr s) done m' ->
      auth_step s (s <| mgr := m' |> <| action := Some (if done : bool then Finalizing id else RollingBack id true) |>)
  | step_finalize s id err : running s = true -> action s = Some (Finalizing id) ->
      auth_step s (says [EvCalled id CallFinalize err]
        (if err : bool then s <| action := Some (Recording id) |> else s <| action := None |> <| tasks ::= <[id := Closing]> |>))
  | step_rollback s id recorded err : running s = true -> action s = Some (RollingBack id recorded) ->
      auth_step s (says [EvCalled id CallRollback err]
        (if (err && recorded)%bool then s <| action := Some (Recording id) |>
         else s <| action := None |> <| tasks ::= <[id := Closing]> |>))
  | step_record s id m' : running s = true -> action s = Some (Recording id) ->
      runs (recordReplacementCleanupFailure id) (mgr s) tt m' ->
      auth_step s (s <| mgr := m' |> <| action := None |> <| tasks ::= <[id := Closing]> |>)
  | step_close s id err : running s = true -> tasks s !! id = Some Closing ->
      auth_step s (says [EvCalled id CallClose err] (s <| tasks ::= if err : bool then <[id := CleaningUp]> else delete id |>))
  | step_clean_up s id m' : running s = true -> tasks s !! id = Some CleaningUp ->
      runs (recordReplacementCleanupFailure id) (mgr s) tt m' ->
      auth_step s (s <| mgr := m' |> <| tasks ::= delete id |>)
  (** [Check], [Refresh], [Cancel] and [Logout] *)
  | step_check s request a m' : running s = true -> action s = None -> runs (Check_begin request) (mgr s) (inl a) m' ->
      auth_step s (says [EvReply (cr_command request) "check" a] (s <| mgr := m' |>))
  | step_check_begin s request m' : running s = true -> action s = None -> runs (Check_begin request) (mgr s) (inr tt) m' ->
      auth_step s (s <| mgr := m' |> <| action := Some (CheckProbing request) |>)
  | step_check_end s request result a m' : running s = true -> action s = Some (CheckProbing request) ->
      runs (Check_end request result) (mgr s) a m' ->
      auth_step s (says [EvReply (cr_command request) "check" a; EvProbed Stored result] (s <| mgr := m' |> <| action := None |>))
  | step_refresh s b m' : running s = true -> action s = None -> runs Refresh_begin (mgr s) b m' ->
      auth_step s (s <| mgr := m' |> <| action := if b : bool then Some RefreshProbing else None |>)
  | step_refresh_end s result m' : running s = true -> action s = Some RefreshProbing -> runs (Refresh_end result) (mgr s) tt m' ->
      auth_step s (says [EvProbed Stored result] (s <| mgr := m' |> <| action := None |>))
  | step_cancel s id request a m' : running s = true -> action s = None -> runs (Cancel id request) (mgr s) a m' ->
      auth_step s (says [EvReply (cr_command request) "cancel" a] (s <| mgr := m' |>))
  | step_logout s request busy a m' : running s = true -> action s = None -> runs (Logout_begin request busy) (mgr s) (inl a) m' ->
      auth_step s (says [EvReply (cr_command request) "logout" a] (s <| mgr := m' |>))
  | step_logout_begin s request busy m' : running s = true -> action s = None ->
      runs (Logout_begin request busy) (mgr s) (inr tt) m' ->
      auth_step s (s <| mgr := m' |> <| action := Some (LoggingOut request) |>)
  | step_logout_backend s request err : running s = true -> action s = Some (LoggingOut request) ->
      auth_step s (says [EvLoggedOut (cr_command request) err] (s <| action := Some (LoggedOut request err) |>))
  | step_logout_end s request err a m' : running s = true -> action s = Some (LoggedOut request err) ->
      runs (Logout_end request err) (mgr s) a m' ->
      auth_step s (says [EvReply (cr_command request) "logout" a] (s <| mgr := m' |> <| action := None |>)).

Definition auth_fresh : AuthSystem := mkAuthSystem false (mkManager no_state ∅ ∅ false NoFile) None ∅ [].
Inductive auth_reachable : AuthSystem -> Prop :=
  | auth_start : auth_reachable auth_fresh
  | auth_next s s' : auth_reachable s -> auth_step s s' -> auth_reachable s'.
End Steps.
