(* ===== verification/AuthSections.v ===== *)
(** * The sections of the provider authentication
    The state file is read back as it was written, and what each section of
    [Auth] does to a manager: it settles operations and records commands
    ([moves]), and all but the verdicts of a probe and the end of a replacement
    make nobody authenticated ([evolves]). *)
From stdpp Require Import base tactics list strings gmap.
From Stdlib Require Import ZArith Lia Ascii String.
From S2P Require Import Prelude Json Wire Instant TranscriptView TranscriptFacts Auth AuthSystem.
Open Scope string_scope.
Open Scope list_scope.
Open Scope Z_scope.
Open Scope harness_scope.

(** ** The state file *)
Lemma insert_by_key_perm {A} (x : string * A) l : insert_by_key x l ≡ₚ x :: l.
Proof. induction l as [|y l IH]; cbn; [done|]. destruct (key_le _ _); [done|]. rewrite IH. apply Permutation_swap. Qed.
Lemma sort_by_key_perm {A} (l : list (string * A)) : sort_by_key l ≡ₚ l.
Proof. induction l as [|x l IH]; cbn; [done|]. by rewrite insert_by_key_perm, IH. Qed.
Lemma map_members_spec {A} (element : json -> option A) f (l : list (string * A)) m :
  (forall a, element (f a) = Some a) ->
  map_members element (List.map (fun p => (p.1, f p.2)) l) m = Some (foldl (fun m p => <[p.1 := p.2]> m) m l).
Proof.
  intros Hf. revert m. induction l as [|[k a] l IH]; intros m; [done|]. cbn. rewrite Hf. cbn. apply IH.
Qed.
Lemma foldl_insert_map {A} (l : list (string * A)) (m : gmap string A) :
  l ≡ₚ map_to_list m -> foldl (fun m p => <[p.1 := p.2]> m) ∅ l = m.
Proof.
  intros Hp. assert (foldl (fun (m : gmap string A) p => <[p.1 := p.2]> m) ∅ l = list_to_map (reverse l)) as ->.
  { clear Hp. induction l as [|[k a] l IH] using rev_ind; [done|]. by rewrite foldl_snoc, reverse_snoc, IH. }
  assert (reverse l ≡ₚ map_to_list m) as Hr by (by rewrite reverse_Permutation).
  rewrite <- (list_to_map_to_list m). apply list_to_map_proper; [|done].
  rewrite Hr. apply NoDup_fst_map_to_list.
Qed.
Lemma into_map_json {A} (element : json -> option A) f (m : gmap string A) :
  (forall a, element (f a) = Some a) -> into_map element (map_json f m) ∅ = Some m.
Proof.
  intros Hf. unfold into_map, map_json.
  pose proof (sort_by_key_perm (List.map (fun p => (p.1, f p.2)) (map_to_list m))) as Hs.
  apply Permutation_map_inv in Hs as (l & E & Hl).
  rewrite E, map_members_spec by done. f_equal. by apply foldl_insert_map.
Qed.

Lemma into_pointer_json o : into_pointer (pointer_json o) = Some o.
Proof. by destruct o. Qed.
Ltac auth_member set :=
  eapply decode_next; [vm_compute; reflexivity
                      |cbn [set String.eqb Ascii.eqb Bool.eqb]; rewrite ?into_pointer_json; reflexivity
                      |lazymatch goal with |- decode_members ?f ?m ?r = ?res => let r' := eval cbv in r in change (decode_members f m r' = res) end].
Lemma operation_roundtrip o : into_struct set_operation (Operation_json o) no_operation = Some o.
Proof.
  destruct o as [id command method status created updated reason url code expires timeout]. unfold Operation_json, into_struct. cbv iota.
  cbn [op_id op_command op_method op_status op_created op_updated op_reason op_url op_code op_expires op_timeout].
  do 11 auth_member set_operation. reflexivity.
Qed.
Lemma commandRecord_roundtrip r : into_struct set_commandRecord (commandRecord_json r) no_command = Some r.
Proof.
  destruct r as [kind operation]. unfold commandRecord_json, into_struct. cbv iota. cbn [rc_kind rc_operation app].
  auth_member set_commandRecord. destruct (String.eqb_spec operation "") as [->|]; [reflexivity|]. auth_member set_commandRecord. reflexivity.
Qed.

(** What [persistLocked] wrote is what [load] reads, unless the revision has
    left [int64], where [load] refuses. *)
Lemma decode_none {R} (set : string -> json -> R -> option R) k key v m (r : R) :
  fold_name k = key -> set key v r = None -> decode_members set ((k, v) :: m) r = None.
Proof. intros <- H. cbn [decode_members]. by rewrite H. Qed.
Lemma persistedState_roundtrip s : 0 <= Revision s ->
  into_struct set_persistedState (persistedState_json s) no_state = if Revision s <=? int64_max then Some s else None.
Proof.
  destruct s as [init rev st checked reason latest ops cmds]. cbn [Revision]. intros Hr. unfold persistedState_json, into_struct. cbv iota.
  cbn [Initialized Revision auth_state CheckedAt ReasonCode LatestID Operations auth_commands app].
  assert (forall v o, set_persistedState "REVISION" v o = x ← into_int v (Revision o); Some (o <| Revision := x |>)) as Hrev by reflexivity.
  eapply decode_next; [vm_compute; reflexivity|reflexivity|].
  assert (into_int (JInt rev) (Revision (no_state <| Initialized := init |>)) = if rev <=? int64_max then Some rev else None) as Hi
    by (by apply parse_int64_nonneg).
  destruct (rev <=? int64_max).
  - eapply decode_next; [vm_compute; reflexivity|rewrite Hrev, Hi; reflexivity|].
    do 3 (eapply decode_next; [vm_compute; reflexivity|cbn [set_persistedState String.eqb Ascii.eqb Bool.eqb]; rewrite ?into_pointer_json; reflexivity|]).
    assert (forall l,
      decode_members set_persistedState [("operations", map_json Operation_json ops); ("commands", map_json commandRecord_json cmds)]
        (mkPersisted init rev st checked reason l ∅ ∅) = Some (mkPersisted init rev st checked reason l ops cmds)) as Hmaps.
    { intros l. eapply decode_next; [vm_compute; reflexivity| |].
      { cbn [set_persistedState String.eqb Ascii.eqb Bool.eqb Operations]. rewrite into_map_json by apply operation_roundtrip. reflexivity. }
      eapply decode_next; [vm_compute; reflexivity| |reflexivity].
      cbn [set_persistedState String.eqb Ascii.eqb Bool.eqb auth_commands]. match goal with |- context[into_map _ _ ?m] => change m with (∅ : gmap string commandRecord) end.
      rewrite into_map_json by apply commandRecord_roundtrip. reflexivity. }
    destruct (String.eqb_spec latest "") as [->|]; [apply (Hmaps "")|].
    eapply decode_next; [vm_compute; reflexivity|reflexivity|]. apply (Hmaps latest).
  - eapply decode_none; [vm_compute; reflexivity|]. by rewrite Hrev, Hi.
Qed.
Lemma load_saved s b s' : 0 <= Revision s -> load (StateFile (persistedState_json s)) = Some (b, s') -> b = false /\ s' = s.
Proof.
  intros Hr. cbn [load]. rewrite persistedState_roundtrip by done. destruct (_ <=? _); [|done]. cbn [mbind option_bind].
  destruct (_ || _); [done|]. by intros [= <- <-].
Qed.

(** ** Weakest preconditions of sections *)
Definition wpa {X} (env : AuthEnv) (p : A X) (Q : X -> Manager -> Prop) (m : Manager) : Prop :=
  forall t, let '(x, _, m') := p env t m in Q x m'.
Section Wpa.
Context (env : AuthEnv).
Lemma wpa_ret {X} (x : X) Q m : Q x m -> wpa env (mret x) Q m.
Proof. by intros H t. Qed.
Lemma wpa_bind {X Y} (p : A X) (k : X -> A Y) Q m : wpa env p (fun x => wpa env (k x) Q) m -> wpa env (p ≫= k) Q m.
Proof.
  intros H t. unfold mbind, A_bind. specialize (H t). destruct (p env t m) as [[x t'] m']. apply H.
Qed.
Lemma wpa_mono {X} (p : A X) (Q Q' : X -> Manager -> Prop) m : wpa env p Q m -> (forall x m', Q x m' -> Q' x m') -> wpa env p Q' m.
Proof. intros H HQ t. specialize (H t). destruct (p env t m) as [[x t'] m']. by apply HQ. Qed.
Lemma wpa_look {X} (f : Manager -> X) Q m : Q (f m) m -> wpa env (look f) Q m.
Proof. by intros H t. Qed.
Lemma wpa_node Q m : Q (auth_node env) m -> wpa env node_id Q m.
Proof. by intros H t. Qed.
Lemma wpa_update f Q m : Q tt (f m) -> wpa env (update f) Q m.
Proof. by intros H t. Qed.
Lemma wpa_set_state f Q m : Q tt (m <| state ::= f |>) -> wpa env (set_state f) Q m.
Proof. by intros H t. Qed.
Lemma wpa_set_op id o Q m : Q tt (m <| state ::= (fun s => s <| Operations ::= <[id := o]> |>) |>) -> wpa env (set_op id o) Q m.
Proof. by intros H t. Qed.
Lemma wpa_clock (Q : Z -> Manager -> Prop) m : (forall n, Q (auth_clock env n) m) -> wpa env read_clock Q m.
Proof. intros H t. apply H. Qed.
Lemma wpa_now (Q : string -> Manager -> Prop) m : (forall x, Q x m) -> wpa env now Q m.
Proof. intros H. unfold now. apply wpa_bind, wpa_clock. intros n. by apply wpa_ret. Qed.
Lemma wpa_uuid Q m : (forall n, Q (auth_id env n) m) -> wpa env randomUUID Q m.
Proof. intros H t. apply H. Qed.
Lemma wpa_persist (Q : bool -> Manager -> Prop) m :
  (forall err, Q err (m <| path := StateFile (persistedState_json (state m)) |>)) -> Q true m -> wpa env persistLocked Q m.
Proof. intros H1 H2 t. unfold persistLocked. by destruct (auth_write env (t_write t)). Qed.
Lemma wpa_ctx_err id (Q : option ctx_error -> Manager -> Prop) m :
  (forall e, Q e m) -> (Q (Some DeadlineExceeded) (m <| done ::= <[id := DeadlineExceeded]> |>)) -> wpa env (ctx_err id) Q m.
Proof. intros H1 H2 t. unfold ctx_err. destruct (done m !! id); [apply H1|]. by destruct (auth_deadline env _). Qed.
Lemma wpa_cancel ids (Q : unit -> Manager -> Prop) m :
  Q tt (m <| done := cancelled ids m |> <| cancels := cancels m ∖ ids |>) -> wpa env (cancel_contexts ids) Q m.
Proof. by intros H t. Qed.
End Wpa.

(** What the sections do to a manager: [moves] settles operations, records
    commands and writes the state; [evolves] also records no command and makes
    nobody authenticated. *)
Record moves (m m' : Manager) : Prop := mkMoves {
  mv_settled : forall id o, Operations (state m) !! id = Some o -> pending o = false -> Operations (state m') !! id = Some o;
  mv_known : forall id, Operations (state m') !! id = None <-> Operations (state m) !! id = None;
  mv_pending : forall id o, Operations (state m') !! id = Some o -> pending o = true -> Operations (state m) !! id = Some o;
  mv_commands : auth_commands (state m) ⊆ auth_commands (state m');
  mv_transitioning : transitioning m' = transitioning m;
  mv_path : path m' = path m
    \/ exists s, path m' = StateFile (persistedState_json s) /\ auth_commands (state m) ⊆ auth_commands s /\ Revision (state m) <= Revision s;
  mv_revision : Revision (state m) <= Revision (state m') }.
Record evolves (m m' : Manager) : Prop := mkEvolves {
  ev_moves : moves m m';
  ev_commands : auth_commands (state m') = auth_commands (state m);
  ev_auth : auth_state (state m') = StateAuthenticated -> auth_state (state m) = StateAuthenticated }.
#[export] Instance moves_preorder : PreOrder moves.
Proof.
  split.
  - intros m. split; auto; lia.
  - intros m1 m2 m3 [A1 A2 A3 A4 A5 A6 A7] [B1 B2 B3 B4 B5 B6 B7]. split; [by eauto|intros id; by rewrite B2|by eauto|by etrans|congruence| |lia].
    destruct B6 as [->|(s & -> & Hc & Hr)]; [done|]. right. exists s. split_and!; [done|by etrans|lia].
Qed.
#[export] Instance evolves_preorder : PreOrder evolves.
Proof.
  split; [intros m; by split|]. intros m1 m2 m3 [A1 A2 A3] [B1 B2 B3]. split; [by etrans|congruence|auto].
Qed.

Lemma evolves_path m : evolves m (m <| path := StateFile (persistedState_json (state m)) |>).
Proof. split; [|done..]. split; auto; [right; exists (state m); split_and!; [done..|cbn; lia]|cbn; lia]. Qed.
Lemma evolves_contexts m d c : evolves m (m <| done := d |> <| cancels := c |>).
Proof. split; [|done..]. split; auto; cbn; lia. Qed.
Lemma evolves_done m d : evolves m (m <| done := d |>).
Proof. split; [|done..]. split; auto; cbn; lia. Qed.
Lemma moves_state m f : (forall s, Operations (f s) = Operations s) -> auth_commands (state m) ⊆ auth_commands (f (state m)) ->
  (forall s, Revision s <= Revision (f s)) -> moves m (m <| state ::= f |>).
Proof. intros H1 H2 H3. split; cbn; rewrite ?H1; auto. Qed.
Lemma evolves_state m f : (forall s, Operations (f s) = Operations s) -> (forall s, auth_commands (f s) = auth_commands s) ->
  (forall s, auth_state (f s) = StateAuthenticated -> auth_state s = StateAuthenticated) -> (forall s, Revision s <= Revision (f s)) ->
  evolves m (m <| state ::= f |>).
Proof. intros H1 H2 H3 H4. split; [apply moves_state; [done|by rewrite H2|done]|cbn; auto..]. Qed.
Lemma moves_settle m m' id o o' : Operations (state m) !! id = Some o -> pending o = true -> pending o' = false ->
  Operations (state m') = <[id := o']> (Operations (state m)) -> auth_commands (state m') = auth_commands (state m) ->
  transitioning m' = transitioning m -> Revision (state m) <= Revision (state m') ->
  (path m' = path m
   \/ exists s, path m' = StateFile (persistedState_json s) /\ auth_commands (state m) ⊆ auth_commands s /\ Revision (state m) <= Revision s) ->
  moves m m'.
Proof.
  intros Ho Hp Hp' E1 E2 E3 E4 E5. split; rewrite ?E1, ?E2; auto.
  - intros id1 o1 H1 Hn. destruct (decide (id = id1)) as [->|]; [congruence|by rewrite lookup_insert_ne].
  - intros id1. destruct (decide (id = id1)) as [->|]; [by rewrite lookup_insert_eq, Ho|by rewrite lookup_insert_ne].
  - intros id1 o1 H1 Hn. destruct (decide (id = id1)) as [->|]; [|by rewrite lookup_insert_ne in H1].
    rewrite lookup_insert_eq in H1. congruence.
Qed.
Lemma evolves_op m id o o' : Operations (state m) !! id = Some o -> pending o = true -> pending o' = false ->
  evolves m (m <| state ::= (fun s => s <| Operations ::= <[id := o']> |>) |>).
Proof. intros Ho Hp Hp'. split; [|done..]. eapply moves_settle; [done..|cbn; lia|by left]. Qed.
Lemma expires_pending now o : expires now o = true -> pending o = true.
Proof. unfold expires. by intros [H _]%andb_prop. Qed.
Lemma lookup_expire_all now ops id :
  expire_all now ops !! id = (fun o => if expires now o then expired now o else o) <$> ops !! id.
Proof. apply lookup_fmap. Qed.
Lemma evolves_expire_all m now :
  evolves m (m <| state ::= (fun s => s <| Operations ::= expire_all now |> <| Revision ::= Z.succ |>) |>).
Proof.
  split; [|done..]. split; cbn; auto; [| | |lia]; intros id; rewrite lookup_expire_all.
  - intros o -> Hp. cbn. destruct (expires now o) eqn:E; [|done]. apply expires_pending in E. congruence.
  - by destruct (_ !! id).
  - intros o' H Hp. destruct (Operations (state m) !! id) as [o|] eqn:E; [|done]. cbn in H. destruct (expires now o); [|congruence].
    injection H as <-. done.
Qed.

(** *** The shared parts *)
Lemma wpa_fail_closed env (Q : unit -> Manager -> Prop) m :
  (forall m', evolves m m' -> auth_state (state m') = StateUnknown -> Operations (state m') = Operations (state m) -> Q tt m') ->
  wpa env failClosedLocked Q m.
Proof. intros H. apply wpa_set_state, H; [|done..]. apply evolves_state; intros s; try done. cbn. lia. Qed.
Lemma wpa_persist_evolves env (Q : bool -> Manager -> Prop) m :
  (forall err m', evolves m m' -> state m' = state m -> Q err m') -> wpa env persistLocked Q m.
Proof. intros H. apply wpa_persist; [intros err; apply H; [apply evolves_path|done]|by apply H]. Qed.
Lemma wpa_persist_or_fail env (Q : bool -> Manager -> Prop) m :
  (forall m', evolves m m' -> auth_state (state m') = StateUnknown -> Operations (state m') = Operations (state m) -> Q true m') ->
  (Q false (m <| path := StateFile (persistedState_json (state m)) |>)) -> wpa env persist_or_fail_closed Q m.
Proof.
  intros H1 H2. apply wpa_bind, wpa_persist.
  - intros [|]; [|by apply wpa_ret]. apply wpa_bind, wpa_fail_closed. intros m1 E1 S1 O1. apply wpa_bind, wpa_persist_evolves.
    intros _ m2 E2 S2. apply wpa_ret, H1; [|by rewrite S2..]. etrans; [apply evolves_path|]. by etrans.
  - apply wpa_bind, wpa_fail_closed. intros m1 E1 S1 O1. apply wpa_bind, wpa_persist_evolves.
    intros _ m2 E2 S2. apply wpa_ret, H1; [by etrans|by rewrite S2..].
Qed.

Definition unexpired (env : AuthEnv) (m : Manager) : Prop :=
  exists n, forall id o, Operations (state m) !! id = Some o -> expires (auth_clock env n) o = false.
Lemma expiring_empty now ops : expiring now ops = ∅ -> forall id o, ops !! id = Some o -> expires now o = false.
Proof.
  unfold expiring. intros H%dom_empty_inv_L id o Ho. destruct (expires now o) eqn:E; [|done].
  assert (filter (fun p : string * Operation => expires now p.2 = true) ops !! id = Some o) as H1 by (by apply map_lookup_filter_Some).
  by rewrite H in H1.
Qed.
Lemma expire_all_unexpired now ops id o : expire_all now ops !! id = Some o -> expires now o = false.
Proof.
  rewrite lookup_expire_all. destruct (ops !! id) as [o0|]; [|done]. cbn. destruct (expires now o0) eqn:E; intros [= <-]; done.
Qed.
Lemma wpa_expire env (Q : bool -> Manager -> Prop) m :
  (forall err m', evolves m m' -> (err = true -> auth_state (state m') = StateUnknown) -> unexpired env m' -> Q err m') ->
  wpa env expire Q m.
Proof.
  intros H. apply wpa_bind, wpa_clock. intros n. unfold expirePendingLocked. apply wpa_bind, wpa_look.
  case_bool_decide as He.
  - apply wpa_ret, H; [done..|]. exists n. by apply expiring_empty.
  - apply wpa_bind, wpa_cancel. set (m1 := m <| done := _ |> <| cancels := _ |>). apply wpa_bind, wpa_set_state.
    set (m2 := m1 <| state ::= _ |>).
    assert (evolves m m2) as E2 by (etrans; [apply evolves_contexts|apply evolves_expire_all]).
    assert (forall m', Operations (state m') = Operations (state m2) -> unexpired env m') as Hu.
    { intros m' E. exists n. rewrite E. intros id o. apply expire_all_unexpired. }
    apply wpa_persist_or_fail.
    + intros m' E' S' O'. apply H; [by etrans|done|by apply Hu].
    + apply H; [etrans; [exact E2|apply evolves_path]|done|by apply Hu].
Qed.
Lemma wpa_terminalize env (Q : unit -> Manager -> Prop) m id o status reason :
  Operations (state m) !! id = Some o -> pending o = true -> (status =s OperationPending) = false ->
  (forall m', evolves m m' -> Q tt m') -> wpa env (terminalize id o status reason) Q m.
Proof.
  intros Ho Hp Hs H. apply wpa_bind, wpa_now. intros t. apply wpa_bind, wpa_set_op. set (m1 := m <| state ::= _ |>).
  apply wpa_bind, wpa_cancel. set (m2 := m1 <| done := _ |> <| cancels := _ |>). apply wpa_bind, wpa_set_state.
  set (m3 := m2 <| state ::= _ |>).
  assert (evolves m m3) as E3.
  { transitivity m1; [by eapply evolves_op|]. transitivity m2; [apply evolves_contexts|]. apply evolves_state; intros s; try done. cbn. lia. }
  apply wpa_bind, wpa_persist_or_fail.
  - intros m' E' _ _. apply wpa_ret, H. by etrans.
  - apply wpa_ret, H. etrans; [exact E3|apply evolves_path].
Qed.
Lemma wpa_ctx_evolves env (Q : option ctx_error -> Manager -> Prop) m id :
  (forall e m', evolves m m' -> state m' = state m -> Q e m') -> wpa env (ctx_err id) Q m.
Proof. intros H. apply wpa_ctx_err; [intros e; by apply H|by apply H; [apply evolves_done|]]. Qed.
Lemma has_pending_false s : has_pending s = false -> forall id o, Operations s !! id = Some o -> pending o = false.
Proof.
  unfold has_pending. intros H id o Ho. destruct (pending o) eqn:E; [|done].
  rewrite <- H. symmetry. apply existsb_exists. exists (id, o). split; [|done]. by apply list_elem_of_In, elem_of_map_to_list.
Qed.
Lemma has_pending_true s : has_pending s = true -> exists id o, Operations s !! id = Some o /\ pending o = true.
Proof.
  unfold has_pending. intros ([id o] & Hin & Hp)%existsb_exists. exists id, o. split; [|done].
  by apply list_elem_of_In, elem_of_map_to_list in Hin.
Qed.

(** *** The sections *)
Ltac awp :=
  repeat lazymatch goal with
  | |- wpa _ (_ ≫= _) _ _ => apply wpa_bind
  | |- wpa _ (look _) _ _ => apply wpa_look
  | |- wpa _ node_id _ _ => apply wpa_node
  | |- wpa _ (mret _) _ _ => apply wpa_ret
  | |- wpa _ (refuse _) _ _ => apply wpa_ret
  | |- wpa _ (envelopeLocked _) _ _ => apply wpa_bind
  end.
Lemma wpa_ready env m : wpa env ProviderAuthReady (fun b m' => evolves m m'
  /\ (b = true -> auth_state (state m') = StateAuthenticated /\ transitioning m' = false /\ has_pending (state m') = false)) m.
Proof.
  apply wpa_bind, wpa_expire. intros err m1 E1 _ _. destruct err; [apply wpa_ret; split; [exact E1|discriminate]|]. awp.
  change (id m1) with m1. destruct (auth_state (state m1) =s StateAuthenticated) eqn:Ea; cbn [negb orb];
    [|apply wpa_ret; split; [exact E1|discriminate]].
  destruct (transitioning m1) eqn:Et; apply wpa_ret; (split; [exact E1|]); [discriminate|].
  intros Hp%negb_true_iff. apply String.eqb_eq in Ea. auto.
Qed.
Lemma wpa_snapshot env m nodeID : wpa env (AuthSnapshot nodeID) (fun _ m' => evolves m m') m.
Proof.
  apply wpa_bind, wpa_node. destruct (negb _); [by apply wpa_ret|]. apply wpa_bind, wpa_expire. intros [] m1 E1 _ _; by awp.
Qed.
Lemma wpa_operation env m nodeID id : wpa env (AuthOperation nodeID id) (fun a m' => evolves m m'
    /\ forall e, a = inr e -> unexpired env m' /\ exists o, Operations (state m') !! id = Some o /\ en_operation e = Some o) m.
Proof.
  apply wpa_bind, wpa_node. destruct (negb _); [by apply wpa_ret|]. destruct (uuidPattern id) eqn:Hid; [|by apply wpa_ret].
  apply wpa_bind, wpa_expire. intros [] m1 E1 _ Hu; [by apply wpa_ret|]. apply wpa_bind, wpa_look.
  destruct (_ !! id) as [o|] eqn:Ho; awp; (split; [done|]); [|done]. intros e [= <-]. split; [done|]. exists o. split; [done|].
  unfold envelope, en_operation. destruct (String.eqb_spec id "") as [->|]; [done|exact Ho].
Qed.
Lemma wpa_watchdog env m id : wpa env (expireOperation id) (fun _ m' => evolves m m') m.
Proof.
  apply wpa_bind, wpa_look. destruct (_ !! _) as [o|]; [|by apply wpa_ret]. destruct (pending o); [|by apply wpa_ret].
  apply wpa_bind, wpa_expire. intros e m1 E1 _ _. by apply wpa_ret.
Qed.
Lemma wpa_finish_begin env m id result replacement busy :
  wpa env (finishReplacement_begin id result replacement busy) (fun f m' =>
    match f with
    | FinishCommit => exists m1 o, evolves m m1 /\ m' = m1 <| transitioning := true |>
                      /\ Operations (state m1) !! id = Some o /\ pending o = true
                      /\ (result = ProbeAuthenticated \/ result = ProbeOther)
    | _ => evolves m m'
    end) m.
Proof.
  apply wpa_bind, wpa_expire. intros err m1 E1 _ _. destruct err; [destruct replacement; by apply wpa_ret|].
  apply wpa_bind, wpa_look. destruct (_ !! id) as [o|] eqn:Ho; [|by apply wpa_ret].
  destruct (pending o) eqn:Hp; [|by apply wpa_ret]. cbn [negb].
  apply wpa_bind, wpa_ctx_evolves. intros e1 m2 E2 S2. rewrite <- S2 in Ho.
  destruct (is_deadline e1).
  { eapply wpa_bind, wpa_terminalize; [done..|]. intros m' E'. apply wpa_ret. etrans; [|done]. by etrans. }
  apply wpa_bind, wpa_ctx_evolves. intros e2 m3 E3 S3. rewrite <- S3 in Ho.
  assert (evolves m m3) as E by (etrans; [exact E1|by etrans]).
  destruct (ended e2).
  { eapply wpa_bind, wpa_terminalize; [done..|]. intros m' E'. apply wpa_ret. by etrans. }
  destruct result; try (eapply wpa_bind, wpa_terminalize; [done..|]; intros m' E'; apply wpa_ret; by etrans).
  all: destruct busy; [eapply wpa_bind, wpa_terminalize; [done..|]; intros m' E'; apply wpa_ret; by etrans|].
  all: apply wpa_bind, wpa_update, wpa_ret; exists m3, o; split_and!; [exact E|done|exact Ho|exact Hp|auto].
Qed.

(** An operation succeeded: what [finishReplacement] leaves then. *)
Record succeeded_in (id : string) (m m' : Manager) : Prop := mkSucceeded {
  su_pending : exists o, Operations (state m) !! id = Some o /\ pending o = true;
  su_moves : moves m m';
  su_commands : auth_commands (state m') = auth_commands (state m);
  su_operation : exists o, Operations (state m') !! id = Some o /\ op_status o = OperationSucceeded;
  su_state : auth_state (state m') = StateAuthenticated }.
Lemma evolves_reset m m' m'' : moves m m' -> auth_commands (state m') = auth_commands (state m) -> evolves m' m'' ->
  auth_state (state m'') = StateUnknown -> evolves m m''.
Proof.
  intros H1 H2 [H3 H4 H5] H6. split; [by etrans|congruence|]. rewrite H6. discriminate.
Qed.
Lemma wpa_finish_end env m id commitErr :
  wpa env (finishReplacement_end id commitErr) (fun ok m' =>
    if ok then commitErr = false /\ succeeded_in id (m <| transitioning := false |>) m' else evolves (m <| transitioning := false |>) m') m.
Proof.
  apply wpa_bind, wpa_update. set (m0 := m <| transitioning := false |>).
  apply wpa_bind, wpa_expire. intros err m1 E1 _ _. apply wpa_bind, wpa_look.
  destruct (_ !! id) as [o|] eqn:Ho; [|by apply wpa_ret].
  assert (forall m2 e, evolves m1 m2 -> state m2 = state m1 ->
    wpa (X := bool) env ((if pending o then
           e ← ctx_err id;
           if is_deadline e then terminalize id o OperationExpired "expired" else
           e ← ctx_err id;
           if ended e then terminalize id o OperationCancelled "cancelled"
           else terminalize id o OperationFailed "provider_unavailable"
         else mret tt) ;; mret e) (fun ok m' => ok = e /\ evolves m0 m') m2) as Hend.
  { intros m2 e E2 S2. rewrite <- S2 in Ho. assert (evolves m0 m2) as E by (by etrans). destruct (pending o) eqn:Hp; [|by awp].
    apply wpa_bind, wpa_bind, wpa_ctx_evolves. intros e1 m3 E3 S3. rewrite <- S3 in Ho.
    destruct (is_deadline e1); [eapply wpa_terminalize; [done..|]; intros m' E'; apply wpa_ret; split; [done|]; etrans; [exact E|by etrans]|].
    apply wpa_bind, wpa_ctx_evolves. intros e2 m4 E4 S4. rewrite <- S4 in Ho. assert (evolves m0 m4) as E' by (etrans; [exact E|by etrans]).
    destruct (ended e2); (eapply wpa_terminalize; [done..|]); intros m' E''; apply wpa_ret; (split; [done|by etrans]). }
  apply wpa_bind. destruct (err || negb (pending o)) eqn:Hbad; cbn [orb].
  { apply wpa_ret. eapply wpa_mono; [by apply Hend|]. intros b m' [-> H]. exact H. }
  apply wpa_ctx_evolves. intros e m2 E2 S2. destruct (ended e || commitErr) eqn:Hc.
  { eapply wpa_mono; [by apply Hend|]. intros b m' [-> H]. exact H. }
  clear Hend. apply orb_false_iff in Hbad as [_ Hp%negb_false_iff]. apply orb_false_iff in Hc as [_ ->].
  rewrite <- S2 in Ho. assert (evolves m0 m2) as E by (by etrans). clear E1 E2 S2.
  apply wpa_bind, wpa_now. intros t. apply wpa_bind, wpa_set_op.
  set (o' := o <| op_status := OperationSucceeded |> <| op_reason := None |> <| op_updated := t |>).
  set (m3 := m2 <| state ::= _ |>). assert (evolves m2 m3) as E3 by (by eapply evolves_op).
  apply wpa_bind, wpa_now. intros checked. apply wpa_bind, wpa_set_state. set (m4 := m3 <| state ::= _ |>).
  apply wpa_bind, wpa_cancel. set (m5 := m4 <| done := _ |> <| cancels := _ |>). apply wpa_bind, wpa_set_state.
  set (m6 := m5 <| state ::= _ |>).
  assert (moves m0 m6) as M6.
  { transitivity m3; [apply (ev_moves m0 m3); by etrans|]. transitivity m4; [by apply moves_state; [..|intros s; cbn; lia]|].
    transitivity m5; [apply (ev_moves _ _ (evolves_contexts _ _ _))|]. apply moves_state; [done..|intros s; cbn; lia]. }
  assert (auth_commands (state m6) = auth_commands (state m0)) as C6 by (by rewrite <- (ev_commands _ _ E)).
  assert (Operations (state m6) !! id = Some o') as O6 by (apply lookup_insert_eq).
  apply wpa_bind, wpa_persist_evolves. intros [|] m7 E7 S7.
  - apply wpa_bind, wpa_now. intros t2. apply wpa_bind, wpa_set_op. apply wpa_bind.
    set (o'' := o' <| op_status := OperationFailed |> <| op_reason := Some "provider_unavailable" |> <| op_updated := t2 |>).
    set (m8 := m7 <| state ::= _ |>).
    assert (moves m0 m8) as M8.
    { transitivity m2; [apply (ev_moves _ _ E)|]. apply (moves_settle m2 m8 id o o''); [done..| | |cbn|cbn|].
      - change (<[id := o'']> (Operations (state m7)) = <[id := o'']> (Operations (state m2))). rewrite S7. apply insert_insert_eq.
      - change (auth_commands (state m7) = auth_commands (state m2)). by rewrite S7.
      - by rewrite (mv_transitioning _ _ (ev_moves _ _ E7)).
      - rewrite S7. cbn. lia.
      - change (path m8) with (path m7). destruct (mv_path _ _ (ev_moves _ _ E7)) as [->|(s & -> & Hc & Hr)]; [by left|right].
        exists s. split_and!; [done|exact Hc|]. cbn in Hr. lia. }
    apply wpa_fail_closed. intros m9 E9 S9 O9. apply wpa_bind, wpa_persist_evolves. intros _ m10 E10 S10. apply wpa_ret.
    apply (evolves_reset m0 m8); [done| |by etrans|congruence].
    change (auth_commands (state m8)) with (auth_commands (state m7)). by rewrite S7.
  - apply wpa_ret. split; [done|]. split; [|by etrans; [|apply (ev_moves _ _ E7)]|congruence| |by rewrite S7].
    + exists o. split; [|done]. by apply (mv_pending _ _ (ev_moves _ _ E)).
    + exists o'. by rewrite S7, O6.
Qed.
Lemma wpa_record env m id : wpa env (recordReplacementCleanupFailure id) (fun _ m' => evolves m m') m.
Proof.
  apply wpa_bind, wpa_look, wpa_bind.
  assert (forall m1, evolves m m1 -> wpa env (failClosedLocked ;; persistLocked ;; mret tt) (fun _ m' => evolves m m') m1) as H.
  { intros m1 E1. apply wpa_bind, wpa_fail_closed. intros m2 E2 _ _. apply wpa_bind, wpa_persist_evolves. intros _ m3 E3 _.
    apply wpa_ret. etrans; [exact E1|by etrans]. }
  destruct (_ !! id) as [o|] eqn:Ho; [destruct (pending o) eqn:Hp|].
  - apply wpa_bind, wpa_now. intros t. apply wpa_set_op, H. by eapply evolves_op.
  - by apply wpa_ret, H.
  - by apply wpa_ret, H.
Qed.

Lemma wpa_validate env request kind (Q : option APIError -> Manager -> Prop) m : (forall e, Q e m) -> wpa env (validateCommand request kind) Q m.
Proof.
  intros H. apply wpa_bind, wpa_node. destruct (negb _); [by apply wpa_ret|]. destruct (negb _); [by apply wpa_ret|].
  apply wpa_bind, wpa_look. destruct (_ !! _); by apply wpa_ret.
Qed.
(** What lets [Check] and [Logout] go on: nothing is pending and the command is
    new. *)
Definition clear_to_run (cmd : string) (m : Manager) : Prop :=
  has_pending (state m) = false /\ auth_commands (state m) !! cmd = None.
Lemma wpa_check_begin env m request : wpa env (Check_begin request) (fun r m' => evolves m m'
  /\ (r = inr tt -> clear_to_run (cr_command request) m')) m.
Proof.
  apply wpa_bind, wpa_validate. intros [e|]; [apply wpa_ret; split; [done|discriminate]|].
  apply wpa_bind, wpa_expire. intros err m1 E1 _ _. destruct err; [apply wpa_ret; split; [done|discriminate]|].
  apply wpa_bind, wpa_look. destruct (_ !! cr_command request) as [prior|] eqn:Hc.
  { destruct (negb _); awp; (split; [done|discriminate]). }
  destruct (has_pending _) eqn:Hp; [awp; (split; [done|discriminate])|].
  destruct (ensureCommandCapacityLocked _); awp; (split; [done|]); [discriminate|]. intros _. by split.
Qed.
Lemma wpa_logout_begin env m request busy : wpa env (Logout_begin request busy) (fun r m' =>
  match r with
  | inl _ => evolves m m'
  | inr _ => exists m1, evolves m m1 /\ m' = m1 <| transitioning := true |> /\ clear_to_run (cr_command request) m1
  end) m.
Proof.
  apply wpa_bind, wpa_validate. intros [e|]; [by apply wpa_ret|].
  apply wpa_bind, wpa_expire. intros err m1 E1 _ _. destruct err; [by apply wpa_ret|].
  apply wpa_bind, wpa_look. destruct (_ !! cr_command request) as [prior|] eqn:Hc; [destruct (negb _); by awp|].
  destruct busy; [by awp|]. destruct (has_pending _) eqn:Hp; [by awp|].
  destruct (ensureCommandCapacityLocked _); [by awp|]. apply wpa_bind, wpa_update, wpa_ret. by exists m1.
Qed.
(** The record of a command, and a state that is authenticated only if [ok]. *)
Lemma moves_record m cmd r f : auth_commands (state m) !! cmd = None ->
  (forall s, Operations (f s) = Operations s) -> (forall s, auth_commands (f s) = <[cmd := r]> (auth_commands s)) ->
  (forall s, Revision s <= Revision (f s)) -> moves m (m <| state ::= f |>).
Proof. intros Hc H1 H2 H3. apply moves_state; [done| |done]. rewrite H2. by apply insert_subseteq. Qed.
Definition records (cmd : string) (r : commandRecord) (m m' : Manager) : Prop :=
  auth_commands (state m') = auth_commands (state m) \/ auth_commands (state m') = <[cmd := r]> (auth_commands (state m)).
Lemma verdict_facts result s : Operations (verdict result s) = Operations s /\ auth_commands (verdict result s) = auth_commands s
  /\ Revision (verdict result s) = Revision s /\ (auth_state (verdict result s) = StateAuthenticated -> result = ProbeAuthenticated).
Proof. by destruct result. Qed.
Lemma wpa_verdict {X} env result (k : bool -> A X) Q m :
  (forall err m', moves m m' -> auth_commands (state m') = auth_commands (state m) ->
     (auth_state (state m') = StateAuthenticated -> result = ProbeAuthenticated) -> wpa env (k err) Q m') ->
  wpa env (checked ← now; set_state (fun s => verdict result (s <| CheckedAt := Some checked |>)) ;; err ← persist_or_fail_closed; k err) Q m.
Proof.
  intros H. apply wpa_bind, wpa_now. intros checked. apply wpa_bind, wpa_set_state. set (m1 := m <| state ::= _ |>).
  destruct (verdict_facts result ((state m) <| CheckedAt := Some checked |>)) as (V1 & V2 & V3 & V4).
  assert (moves m m1) as M.
  { apply moves_state; [intros s; by destruct result|by destruct result|intros s; destruct result; cbn; lia]. }
  apply wpa_bind, wpa_persist_or_fail.
  - intros m' E' S' _. apply H; [transitivity m1; [done|apply E']|by rewrite (ev_commands _ _ E')|].
    rewrite S'. discriminate.
  - apply H; [transitivity m1; [done|apply evolves_path]|exact V2|exact V4].
Qed.
Lemma wpa_check_end env m request result : auth_commands (state m) !! cr_command request = None ->
  wpa env (Check_end request result) (fun _ m' => moves m m' /\ records (cr_command request) (mkCommandRecord "check" "") m m'
    /\ (auth_state (state m') = StateAuthenticated -> result = ProbeAuthenticated)) m.
Proof.
  intros Hc. apply wpa_bind, wpa_expire. intros [] m1 E1 S1 _.
  { apply wpa_ret. split_and!; [apply E1|left; apply (ev_commands _ _ E1)|rewrite S1 by done; discriminate]. }
  apply wpa_bind, wpa_set_state. set (m2 := m1 <| state ::= _ |>).
  assert (moves m1 m2) as M2.
  { apply (moves_record m1 (cr_command request) (mkCommandRecord "check" "")); try done; [by rewrite (ev_commands _ _ E1)|intros s; cbn; lia]. }
  apply wpa_verdict. intros err m3 M3 C3 V3.
  assert (moves m m3 /\ records (cr_command request) (mkCommandRecord "check" "") m m3
    /\ (auth_state (state m3) = StateAuthenticated -> result = ProbeAuthenticated)) as H.
  { split_and!; [transitivity m1; [apply E1|by etrans]|right|done]. rewrite C3, <- (ev_commands _ _ E1). done. }
  destruct err; awp; exact H.
Qed.
Lemma wpa_refresh_begin env m : wpa env Refresh_begin (fun b m' => evolves m m' /\ (b = true -> has_pending (state m') = false)) m.
Proof.
  apply wpa_bind, wpa_expire. intros [] m1 E1 S1 _; [apply wpa_ret; split; [done|discriminate]|].
  apply wpa_bind, wpa_look, wpa_ret. split; [done|]. apply negb_true_iff.
Qed.
Lemma wpa_refresh_end env m result : wpa env (Refresh_end result) (fun _ m' => moves m m'
    /\ auth_commands (state m') = auth_commands (state m) /\ (auth_state (state m') = StateAuthenticated -> result = ProbeAuthenticated)) m.
Proof.
  apply wpa_bind, wpa_expire. intros [] m1 E1 S1 _.
  { apply wpa_ret. split_and!; [apply E1|apply (ev_commands _ _ E1)|rewrite S1 by done; discriminate]. }
  apply wpa_bind, wpa_set_state. set (m2 := m1 <| state ::= _ |>). apply wpa_verdict. intros err m3 M3 C3 V3. apply wpa_ret.
  split_and!; [|by rewrite C3, <- (ev_commands _ _ E1)|done]. transitivity m1; [apply E1|]. transitivity m2; [|done].
  apply moves_state; [done..|intros s; cbn; lia].
Qed.
Lemma wpa_cancel_section env m id request : wpa env (Cancel id request) (fun _ m' => moves m m'
    /\ (auth_state (state m') = StateAuthenticated -> auth_state (state m) = StateAuthenticated)) m.
Proof.
  assert (forall m', evolves m m' -> moves m m' /\ (auth_state (state m') = StateAuthenticated -> auth_state (state m) = StateAuthenticated)) as Hev
    by (intros m' [? ? ?]; done).
  apply wpa_bind, wpa_validate. intros [e|]; [awp; by apply Hev|].
  apply wpa_bind, wpa_expire. intros [] m1 E1 S1 _; [awp; by apply Hev|].
  apply wpa_bind, wpa_look. destruct (_ !! id) as [o|] eqn:Ho; [|awp; by apply Hev].
  destruct (auth_commands _ !! _) as [prior|] eqn:Hc; [destruct (negb _); awp; by apply Hev|].
  destruct (ensureCommandCapacityLocked _); [awp; by apply Hev|].
  apply wpa_bind, wpa_set_state. set (m2 := m1 <| state ::= _ |>).
  assert (moves m m2) as M2.
  { transitivity m1; [apply E1|]. eapply (moves_record m1); [exact Hc|done..]. }
  assert (forall m3, evolves m2 m3 -> wpa env (set_state (fun s => s <| Revision ::= Z.succ |>) ;; err ← persist_or_fail_closed;
    if (err : bool) then refuse ErrProviderUnavailable else e ← envelopeLocked id; mret (inr e))
    (fun _ m' => moves m m' /\ (auth_state (state m') = StateAuthenticated -> auth_state (state m) = StateAuthenticated)) m3) as Hend.
  { intros m3 E3. apply wpa_bind, wpa_set_state. set (m4 := m3 <| state ::= _ |>).
    assert (evolves m2 m4) as E4 by (transitivity m3; [done|apply evolves_state; try done; intros s; cbn; lia]).
    assert (forall m', evolves m4 m' -> moves m m' /\ (auth_state (state m') = StateAuthenticated -> auth_state (state m) = StateAuthenticated)) as Hm.
    { intros m' E'. split; [transitivity m2; [done|]; transitivity m4; [apply E4|apply E']|].
      intros H. apply (ev_auth _ _ E1). apply (ev_auth _ _ E4). by apply (ev_auth _ _ E'). }
    apply wpa_bind, wpa_persist_or_fail; [intros m' E' _ _|]; awp; apply Hm; [done|apply evolves_path]. }
  apply wpa_bind. destruct (pending o) eqn:Hp; [|by apply wpa_ret, Hend].
  apply wpa_bind, wpa_now. intros t. apply wpa_bind, wpa_set_op. set (m3 := m2 <| state ::= _ |>). apply wpa_cancel, Hend.
  transitivity m3; [by eapply evolves_op|apply evolves_contexts].
Qed.
Lemma wpa_logout_end env m request failed : auth_commands (state m) !! cr_command request = None ->
  wpa env (Logout_end request failed) (fun _ m' => moves (m <| transitioning := false |>) m'
    /\ records (cr_command request) (mkCommandRecord "logout" "") m m' /\ auth_state (state m') <> StateAuthenticated) m.
Proof.
  intros Hc. apply wpa_bind, wpa_update. set (m0 := m <| transitioning := false |>). destruct failed.
  { apply wpa_bind, wpa_fail_closed. intros m1 E1 S1 _. apply wpa_bind, wpa_persist_evolves. intros _ m2 E2 S2. apply wpa_ret.
    assert (evolves m0 m2) as E by (by etrans). split_and!; [apply E|left; by rewrite (ev_commands _ _ E)|by rewrite S2, S1]. }
  apply wpa_bind, wpa_set_state. set (m1 := m0 <| state ::= _ |>).
  assert (moves m0 m1) as M1 by (apply (moves_record m0 (cr_command request) (mkCommandRecord "logout" "")); done).
  apply wpa_bind, wpa_now. intros checked. apply wpa_bind, wpa_set_state. set (m2 := m1 <| state ::= _ |>).
  assert (evolves m1 m2) as E2 by (apply evolves_state; try done; intros s; cbn; lia).
  assert (forall m', evolves m2 m' -> moves m0 m' /\ records (cr_command request) (mkCommandRecord "logout" "") m m'
    /\ auth_state (state m') <> StateAuthenticated) as H.
  { intros m' E'. split_and!; [transitivity m1; [done|]; transitivity m2; [apply E2|apply E']|right; by rewrite (ev_commands _ _ E')|].
    intros Ha%(ev_auth _ _ E'). discriminate. }
  apply wpa_bind, wpa_persist_or_fail; [intros m' E' _ _|]; awp; apply H; [done|apply evolves_path].
Qed.
(** What a [Start] that launched its goroutines left. *)
Record launched (cmd id : string) (m m' : Manager) : Prop := mkLaunched {
  la_from : exists m1 now, evolves m m1 /\ has_pending (state m1) = false /\ auth_commands (state m1) !! cmd = None
    /\ Operations (state m') = <[id := new_operation id cmd now]> (Operations (state m1))
    /\ auth_commands (state m') = <[cmd := mkCommandRecord "start:secret" id]> (auth_commands (state m1))
    /\ auth_state (state m') = auth_state (state m1) /\ Revision (state m1) <= Revision (state m');
  la_transitioning : transitioning m' = transitioning m;
  la_path : path m' = StateFile (persistedState_json (state m')) }.
Lemma wpa_persist_exact env (Q : bool -> Manager -> Prop) m :
  (forall m', state m' = state m -> cancels m' = cancels m -> done m' = done m -> transitioning m' = transitioning m ->
     (path m' = path m \/ path m' = StateFile (persistedState_json (state m))) -> Q true m') ->
  Q false (m <| path := StateFile (persistedState_json (state m)) |>) -> wpa env persistLocked Q m.
Proof. intros H1 H2. apply wpa_persist; [intros []; [apply H1; auto|done]|apply H1; auto]. Qed.
Lemma wpa_start env m request busy :
  (forall n id, auth_id env n = Some id -> Operations (state m) !! id = None) ->
  wpa env (Start request busy) (fun r m' => match r with
    | (_, None) => evolves m m'
    | (a, Some id) => launched (sr_command request) id m m' /\ Operations (state m) !! id = None /\ exists e, a = inr e
    end) m.
Proof.
  intros Hids. apply wpa_bind, wpa_node. do 4 (destruct (negb _ || _); [by apply wpa_ret|] || (destruct (negb _); [by apply wpa_ret|]) || (destruct (_ || containsControl _); [by apply wpa_ret|])).
  apply wpa_bind, wpa_expire. intros [] m1 E1 S1 _; [by apply wpa_ret|].
  apply wpa_bind, wpa_look. destruct (_ !! sr_command request) as [prior|] eqn:Hc; [destruct (negb _); by awp|].
  destruct busy; [by awp|]. destruct (has_pending _) eqn:Hp; [by awp|]. destruct (ensureCommandCapacityLocked _); [by awp|].
  apply wpa_bind, wpa_uuid. intros n. destruct (auth_id env n) as [id|] eqn:Hid; [|by awp].
  pose proof (Hids _ _ Hid) as Hnone. pose proof (proj2 (mv_known _ _ (ev_moves _ _ E1) id) Hnone) as Hnone1.
  apply wpa_bind, wpa_clock. intros k. apply wpa_bind, wpa_set_op. set (m2 := m1 <| state ::= _ |>).
  apply wpa_bind, wpa_set_state. set (m3 := m2 <| state ::= _ |>). apply wpa_bind, wpa_persist_exact.
  - intros m4 S4 _ _ T4 P4. apply wpa_bind, wpa_set_state, wpa_ret. set (m5 := m4 <| state ::= _ |>).
    assert (Operations (state m5) = Operations (state m1)) as O5.
    { change (delete id (Operations (state m4)) = Operations (state m1)). rewrite S4. by apply delete_insert_id. }
    assert (auth_commands (state m5) = auth_commands (state m1)) as C5.
    { change (delete (sr_command request) (auth_commands (state m4)) = auth_commands (state m1)). rewrite S4. by apply delete_insert_id. }
    assert (Revision (state m5) = Z.succ (Revision (state m1))) as R5 by (change (Revision (state m4) = Z.succ (Revision (state m1))); by rewrite S4).
    transitivity m1; [done|]. split; [|done|].
    + split; rewrite ?O5, ?C5, ?R5; auto; [|lia]. change (path m5) with (path m4). destruct P4 as [->| ->]; [by left|right].
      exists (state m3). split_and!; [done| |cbn; lia]. by apply insert_subseteq.
    + change (auth_state (state m5)) with (auth_state (state m4)). by rewrite S4.
  - apply wpa_bind, wpa_update. awp. split; [|eauto]. split; [|by rewrite <- (mv_transitioning _ _ (ev_moves _ _ E1))|done].
    exists m1, (auth_clock env k). split_and!; try done. cbn. lia.
Qed.
Lemma wpa_interrupt env l (Q : bool -> Manager -> Prop) : forall m,
  NoDup (l.*1) -> (forall id o, (id, o) ∈ l -> Operations (state m) !! id = Some o) ->
  (forall b m', evolves m m' -> path m' = path m ->
     (forall id o, (id, o) ∈ l -> exists o', Operations (state m') !! id = Some o' /\ pending o' = false) -> Q b m') ->
  wpa env (interrupt l) Q m.
Proof.
  revert Q. induction l as [|[id o] l IH]; intros Q m Hnd Hl H; cbn [interrupt].
  - apply wpa_ret, H; [done|done|]. set_solver.
  - apply NoDup_cons in Hnd as [Hid Hnd]. pose proof (Hl id o ltac:(left)) as Ho.
    destruct (pending o) eqn:Hp.
    + apply wpa_bind, wpa_now. intros t. apply wpa_bind, wpa_set_op. set (m1 := m <| state ::= _ |>).
      assert (evolves m m1) as E1 by (by eapply evolves_op).
      apply wpa_bind, wpa_set_state. set (m2 := m1 <| state ::= _ |>).
      assert (evolves m1 m2) as E2 by (apply evolves_state; try done; intros s; cbn; lia).
      apply wpa_bind, IH; [done| |].
      { intros id1 o1 Hin. change (<[id := interrupted_operation o t]> (Operations (state m)) !! id1 = Some o1).
        rewrite lookup_insert_ne; [apply Hl; by right|]. intros ->. apply Hid. apply list_elem_of_fmap. by exists (id1, o1). }
      intros b m3 E3 P3 Hl3. apply wpa_ret, H; [etrans; [exact E1|by etrans]|done|].
      intros id1 o1 [[= -> ->]|Hin]%elem_of_cons; [|by eapply Hl3].
      exists (interrupted_operation o t). split; [|done]. apply (mv_settled _ _ (ev_moves _ _ E3)); [|done]. apply lookup_insert_eq.
    + apply IH; [done|intros id1 o1 Hin; apply Hl; by right|]. intros b m' E' P' Hl'. apply H; [done..|].
      intros id1 o1 [[= -> ->]|Hin]%elem_of_cons; [|by eapply Hl'].
      exists o. split; [|done]. by apply (mv_settled _ _ (ev_moves _ _ E')).
Qed.
(** What [Open] leaves of the state it loaded. *)
Record opened (s : persistedState) (m m' : Manager) (ok : bool) : Prop := mkOpened {
  opened_path : path m' = path m
    \/ exists s', path m' = StateFile (persistedState_json s') /\ auth_commands s' = auth_commands s /\ 1 <= Revision s';
  opened_state : ok = true -> auth_commands (state m') = auth_commands s /\ 1 <= Revision (state m') /\ transitioning m' = false
    /\ auth_state (state m') <> StateAuthenticated
    /\ (exists b, path m' = StateFile (persistedState_json (state m')) /\ load (path m) = Some (b, s))
    /\ (forall id o, Operations (state m') !! id = Some o -> pending o = false)
    /\ (forall id o, Operations s !! id = Some o -> pending o = false -> Operations (state m') !! id = Some o) }.
Lemma wpa_open env m bootstrap : wpa env (Open bootstrap) (fun ok m' =>
  match load (path m) with None => ok = false /\ m' = m | Some (_, s) => opened s m m' ok end) m.
Proof.
  apply wpa_bind, wpa_look. destruct (load (path m)) as [[firstRun s]|] eqn:Hload; [|by apply wpa_ret].
  apply wpa_bind, wpa_update. set (m1 := mkManager s ∅ ∅ false (path m)).
  destruct (bootstrap firstRun) as [hasCredential|]; [|apply wpa_ret; split; [by left|discriminate]].
  assert (firstRun = true \/ 1 <= Revision s) as Hrev.
  { unfold load in Hload. destruct (path m); [by injection Hload as <- <-; left|done|]. right.
    destruct (into_struct _ _ _) as [s1|]; [|done]. cbn [mbind option_bind] in Hload.
    destruct (_ || (_ <? 1)) eqn:E; [done|]. injection Hload as <- <-. apply orb_false_iff in E as [_ E%Z.ltb_ge]. done. }
  apply wpa_bind.
  assert (forall m2, path m2 = path m -> transitioning m2 = false -> auth_commands (state m2) = auth_commands s ->
    Operations (state m2) = Operations s -> 1 <= Revision (state m2) -> auth_state (state m2) <> StateAuthenticated ->
    wpa env (ops ← look (fun m => Operations (state m)); recovered ← interrupt (map_to_list ops); s ← look state;
      if firstRun || recovered || (0 <? Revision s) then err ← persistLocked; mret (negb err) else mret true)
      (fun ok m' => opened s m m' ok) m2) as Hend.
  { intros m2 P2 T2 C2 O2 R2 A2. apply wpa_bind, wpa_look, wpa_bind.
    apply wpa_interrupt; [apply NoDup_fst_map_to_list|intros id o; by rewrite elem_of_map_to_list|].
    intros b m3 E3 P3 Hint. apply wpa_bind, wpa_look.
    pose proof (mv_revision _ _ (ev_moves _ _ E3)) as R3. rewrite (proj2 (Z.ltb_lt 0 (Revision (state m3)))) by lia. rewrite orb_true_r.
    assert (auth_commands (state m3) = auth_commands s) as C3 by (by rewrite (ev_commands _ _ E3)).
    apply wpa_bind, wpa_persist.
    - intros err. apply wpa_ret. split; [right; exists (state m3); split_and!; [done|done|lia]|]. intros _.
      change (state (m3 <| path := _ |>)) with (state m3). split_and!; [done|lia| | | | |].
      + change (transitioning m3 = false). by rewrite (mv_transitioning _ _ (ev_moves _ _ E3)).
      + intros Ha. by apply A2, (ev_auth _ _ E3).
      + by exists firstRun.
      + intros id o Ho. destruct (pending o) eqn:Hp; [|done]. pose proof (mv_pending _ _ (ev_moves _ _ E3) _ _ Ho Hp) as Ho2.
        destruct (Hint id o) as (o' & Ho' & Hp'); [by apply elem_of_map_to_list|]. congruence.
      + intros id o Ho Hp. apply (mv_settled _ _ (ev_moves _ _ E3)); [by rewrite O2|done].
    - apply wpa_ret. split; [left; by rewrite P3|discriminate]. }
  destruct firstRun; [apply wpa_set_state|apply wpa_ret]; apply wpa_bind, wpa_set_state, wpa_bind;
    [apply wpa_ret|apply wpa_set_state]; apply Hend; try done; try (cbn; destruct hasCredential; discriminate).
  cbn. destruct Hrev; [done|lia].
Qed.
