(* ===== verification/AuthFacts.v ===== *)
(** * What the provider authentication guarantees
    The invariant of every state [AuthSystem] reaches, whatever the backend
    answers, which writes fail and when the process crashes: one operation is
    pending at most, the commands that launched one are on file, and the manager
    is authenticated only on the word of a probe. *)
From stdpp Require Import base tactics list strings gmap.
From Stdlib Require Import ZArith Lia Ascii String.
From S2P Require Import Prelude Json Wire Instant TranscriptView TranscriptFacts Auth AuthSystem AuthSections.
Open Scope string_scope.
Open Scope list_scope.
Open Scope Z_scope.
Open Scope harness_scope.

(** ** What the trace says *)
(** The commands that launched a replacement. *)
Definition launches (evs : list auth_event) : list string :=
  omap (fun e => match e with EvStarted command _ => Some command | _ => None end) evs.
(** Events that leave the word of an earlier probe standing: no restart, no
    logout, no other answer about the stored credential. *)
Definition keeps (e : auth_event) : Prop :=
  match e with EvOpened => False | EvLoggedOut _ err => err = true | EvProbed Stored r => r = ProbeAuthenticated | _ => True end.
Definition accepted (about : probe) (evs newer : list auth_event) : Prop :=
  exists older, evs = newer ++ EvProbed about ProbeAuthenticated :: older /\ Forall keeps newer.
(** A probe accepted the stored credential, or one that was committed since. *)
Definition vouched (evs : list auth_event) : Prop :=
  (exists newer, accepted Stored evs newer)
  \/ exists id newer, accepted (Candidate id) evs newer /\ EvCalled id CallCommit false ∈ newer.

Lemma accepted_app about es evs newer : Forall keeps es -> accepted about evs newer -> accepted about (es ++ evs) (es ++ newer).
Proof. intros H (older & -> & Hn). exists older. by rewrite app_assoc, Forall_app. Qed.
Lemma vouched_app es evs : Forall keeps es -> vouched evs -> vouched (es ++ evs).
Proof.
  intros H [[newer Hn]|(id & newer & Hn & Hc)]; [left|right].
  - exists (es ++ newer). by apply accepted_app.
  - exists id, (es ++ newer). split; [by apply accepted_app|]. apply elem_of_app. by right.
Qed.

(** ** The invariant *)
Definition is_pending (id : string) (m : Manager) : Prop := exists o, Operations (state m) !! id = Some o /\ pending o = true.
Definition quiet (m : Manager) : Prop := forall id, ~ is_pending id m.
Definition new_command (cmd : string) (m : Manager) : Prop := auth_commands (state m) !! cmd = None.
Definition act_ok (a : option act) (m : Manager) (evs : list auth_event) : Prop :=
  match a with
  | Some (CheckProbing request) => quiet m /\ new_command (cr_command request) m
  | Some RefreshProbing => quiet m
  | Some (LoggingOut request) | Some (LoggedOut request _) =>
      quiet m /\ new_command (cr_command request) m /\ transitioning m = true
  | Some (Committing id) => transitioning m = true /\ (is_pending id m -> exists newer, accepted (Candidate id) evs newer)
  | Some (CommitAnswered id err) => transitioning m = true
      /\ (err = false -> is_pending id m -> exists newer, accepted (Candidate id) evs newer /\ EvCalled id CallCommit false ∈ newer)
  | _ => True
  end.
Definition task_ok (m : Manager) (evs : list auth_event) (id : string) (t : task) : Prop :=
  match t with
  | Finishing result _ => result <> ProbeOther
      /\ (result = ProbeAuthenticated -> is_pending id m -> exists newer, accepted (Candidate id) evs newer)
  | _ => True
  end.
Definition auth_ok (a : option act) (m : Manager) (evs : list auth_event) : Prop :=
  auth_state (state m) = StateAuthenticated -> vouched evs \/ exists request, a = Some (LoggedOut request false).
Definition ops_ok (m : Manager) : Prop :=
  (forall id1 id2, is_pending id1 m -> is_pending id2 m -> id1 = id2)
  /\ (forall id o, Operations (state m) !! id = Some o -> pending o = true -> exists cmd now, o = new_operation id cmd now).
Definition start_record (id : string) : commandRecord := mkCommandRecord "start:secret" id.
Definition recorded_in (evs : list auth_event) (s : persistedState) : Prop :=
  forall cmd id, EvStarted cmd id ∈ evs -> auth_commands s !! cmd = Some (start_record id).
Definition filed (evs : list auth_event) (p : state_file) : Prop :=
  launches evs = [] \/ exists s, p = StateFile (persistedState_json s) /\ 0 <= Revision s /\ recorded_in evs s.
Record AuthInv (s : AuthSystem) : Prop := mkAuthInv {
  ai_file : filed (events s) (path (mgr s));
  ai_once : NoDup (launches (events s));
  ai_down : running s = false -> action s = None /\ tasks s = ∅;
  ai_up : running s = true ->
    0 <= Revision (state (mgr s)) /\ recorded_in (events s) (state (mgr s)) /\ ops_ok (mgr s)
    /\ act_ok (action s) (mgr s) (events s) /\ map_Forall (task_ok (mgr s) (events s)) (tasks s)
    /\ auth_ok (action s) (mgr s) (events s) }.

(** ** What [moves] keeps *)
Lemma moves_pending m m' id : moves m m' -> is_pending id m' -> is_pending id m.
Proof. intros H (o & Ho & Hp). exists o. split; [|done]. by apply (mv_pending _ _ H). Qed.
Lemma moves_quiet m m' : moves m m' -> quiet m -> quiet m'.
Proof. intros H Hq id Hp. by eapply Hq, moves_pending. Qed.
Lemma moves_ops m m' : moves m m' -> ops_ok m -> ops_ok m'.
Proof.
  intros H [H1 H2]. split; [intros id1 id2 P1 P2; apply H1; by eapply moves_pending|].
  intros id o Ho Hp. by apply H2, Hp; apply (mv_pending _ _ H).
Qed.
Lemma moves_recorded m m' evs : moves m m' -> recorded_in evs (state m) -> recorded_in evs (state m').
Proof. intros H Hr cmd id Hin. eapply lookup_weaken; [by apply Hr|apply (mv_commands _ _ H)]. Qed.
Lemma moves_filed m m' evs : moves m m' -> 0 <= Revision (state m) -> recorded_in evs (state m) -> filed evs (path m) -> filed evs (path m').
Proof.
  intros H Hrev Hr Hf. destruct (mv_path _ _ H) as [->|(s & -> & Hc & Hs)]; [done|]. right. exists s. split_and!; [done|lia|].
  intros cmd id Hin. eapply lookup_weaken; [by apply Hr|done].
Qed.
Lemma moves_task m m' evs id t : moves m m' -> task_ok m evs id t -> task_ok m' evs id t.
Proof. destruct t as [|r rep| |]; try done. intros H [H1 H2]. split; [done|]. intros Hr Hp. apply H2; [done|]. by eapply moves_pending. Qed.
Lemma moves_tasks m m' evs (ts : gmap string task) : moves m m' -> map_Forall (task_ok m evs) ts -> map_Forall (task_ok m' evs) ts.
Proof. intros H Ht id t Hl. eapply moves_task; [done|]. by apply Ht. Qed.
Lemma tasks_app m es evs (ts : gmap string task) : Forall keeps es \/ quiet m -> map_Forall (task_ok m evs) ts -> map_Forall (task_ok m (es ++ evs)) ts.
Proof.
  intros Hk Ht id t Hl. specialize (Ht id t Hl). destruct t as [|r rep| |]; try done. destruct Ht as [H1 H2]. split; [done|].
  intros Hr Hp. destruct Hk as [Hk|Hq]; [|by destruct (Hq id)]. destruct (H2 Hr Hp) as [newer Hn]. exists (es ++ newer). by apply accepted_app.
Qed.
Lemma evolves_act m m' evs a : evolves m m' -> act_ok a m evs -> act_ok a m' evs.
Proof.
  intros [H C _]. pose proof (mv_transitioning _ _ H) as T. destruct a as [[]|]; cbn; unfold new_command; rewrite ?T, ?C; try done.
  - intros [Hq Hc]. split; [by eapply moves_quiet|done].
  - by apply moves_quiet.
  - intros (Hq & Hc & Ht). split_and!; [by eapply moves_quiet|done..].
  - intros (Hq & Hc & Ht). split_and!; [by eapply moves_quiet|done..].
  - intros [Ht Ha]. split; [done|]. intros Hp. by eapply Ha, moves_pending.
  - intros [Ht Ha]. split; [done|]. intros He Hp. by eapply Ha, moves_pending.
Qed.
Lemma act_app es evs a m : Forall keeps es -> act_ok a m evs -> act_ok a m (es ++ evs).
Proof.
  intros Hk. destruct a as [[]|]; cbn; try done.
  - intros [Ht Ha]. split; [done|]. intros Hp. destruct (Ha Hp) as [newer Hn]. exists (es ++ newer). by apply accepted_app.
  - intros [Ht Ha]. split; [done|]. intros He Hp. destruct (Ha He Hp) as (newer & Hn & Hc). exists (es ++ newer).
    split; [by apply accepted_app|]. apply elem_of_app. by right.
Qed.
Lemma moves_transitioning m m' b : moves m m' -> moves (m <| transitioning := b |>) (m' <| transitioning := b |>).
Proof. by intros [H1 H2 H3 H4 H5 H6 H7]. Qed.
Lemma moves_at m m' : moves m m' -> moves (m <| transitioning := transitioning m' |>) m'.
Proof. by intros [H1 H2 H3 H4 H5 H6 H7]. Qed.

(** ** Every step keeps the invariant *)
Lemma launches_app es evs : launches (es ++ evs) = launches es ++ launches evs.
Proof. apply omap_app. Qed.
Lemma elem_of_launches cmd id evs : EvStarted cmd id ∈ evs -> cmd ∈ launches evs.
Proof. intros H. apply list_elem_of_omap. by exists (EvStarted cmd id). Qed.
Lemma launches_elem cmd evs : cmd ∈ launches evs -> exists id, EvStarted cmd id ∈ evs.
Proof. intros (e & He & Hs)%list_elem_of_omap. destruct e; try done. injection Hs as ->. by exists id. Qed.
Lemma recorded_app es evs s : launches es = [] -> recorded_in (es ++ evs) s <-> recorded_in evs s.
Proof.
  intros He. split; intros H cmd id Hin; apply H; [apply elem_of_app; by right|].
  apply elem_of_app in Hin as [Hin|Hin]; [|done]. apply elem_of_launches in Hin. rewrite He in Hin. by apply elem_of_nil in Hin.
Qed.
Lemma filed_app es evs p : launches es = [] -> filed evs p -> filed (es ++ evs) p.
Proof.
  intros He [H|(s & -> & Hr & Hc)]; [left; by rewrite launches_app, He|right]. exists s. split_and!; [done..|]. by apply recorded_app.
Qed.
(** A step of a running manager that launches nothing. *)
Lemma inv_next s es m' a ts : AuthInv s -> running s = true -> launches es = [] ->
  moves ((mgr s) <| transitioning := transitioning m' |>) m' ->
  act_ok a m' (es ++ events s) -> map_Forall (task_ok m' (es ++ events s)) ts -> auth_ok a m' (es ++ events s) ->
  AuthInv (mkAuthSystem true m' a ts (es ++ events s)).
Proof.
  intros [Hf Ho _ Hup] Hrun He Hm Hact Htask Hauth. destruct (Hup Hrun) as (Hrev & Hrec & Hops & _).
  pose proof (mv_revision _ _ Hm) as Hr. cbn in Hr. split; cbn [events mgr running action tasks].
  - apply filed_app; [done|]. by apply (moves_filed _ _ _ Hm).
  - by rewrite launches_app, He.
  - done.
  - intros _. split_and!; [lia|apply recorded_app; [done|]; by apply (moves_recorded _ _ _ Hm)|by apply (moves_ops _ _ Hm)|done..].
Qed.
(** A step that is a section, and only that. *)
Lemma inv_evolves s es m' : AuthInv s -> running s = true -> launches es = [] -> Forall keeps es -> evolves (mgr s) m' ->
  AuthInv (mkAuthSystem true m' (action s) (tasks s) (es ++ events s)).
Proof.
  intros Hi Hrun He Hk H. destruct (ai_up _ Hi Hrun) as (_ & _ & _ & Hact & Htask & Hauth).
  apply inv_next; [done..|by apply moves_at, H|by eapply act_app, evolves_act| |].
  - apply tasks_app; [by left|]. eapply moves_tasks; [apply H|done].
  - intros Ha. destruct (Hauth (ev_auth _ _ H Ha)) as [Hv|Hl]; [left; by apply vouched_app|by right].
Qed.
(** A step that ends the action, and may leave the goroutine of an operation
    to close its replacement. *)
Definition idle (a : option act) : Prop :=
  match a with None | Some (Finalizing _) | Some (RollingBack _ _) | Some (Recording _) => True | _ => False end.
Lemma idle_act a m evs : idle a -> act_ok a m evs.
Proof. by destruct a as [[]|]. Qed.
Lemma inv_idle s es m' a ts : AuthInv s -> running s = true -> launches es = [] -> Forall keeps es ->
  moves ((mgr s) <| transitioning := transitioning m' |>) m' ->
  (auth_state (state m') = StateAuthenticated -> auth_state (state (mgr s)) = StateAuthenticated /\ (forall r, action s <> Some (LoggedOut r false))) ->
  idle a -> (forall id t, ts !! id = Some t -> tasks s !! id = Some t \/ t = Closing \/ t = CleaningUp \/ t = Probing) ->
  AuthInv (mkAuthSystem true m' a ts (es ++ events s)).
Proof.
  intros Hi Hrun He Hk Hm Ha Hidle Hts. destruct (ai_up _ Hi Hrun) as (_ & _ & _ & Hact & Htask & Hauth).
  apply inv_next; [done..|by apply idle_act| |].
  - apply tasks_app; [by left|]. intros id t Hl. destruct (Hts id t Hl) as [Hl'|[->|[->| ->]]]; [|done..].
    eapply moves_task; [exact Hm|]. by apply Htask.
  - intros Hs. destruct (Ha Hs) as [Hs' Hno]. destruct (Hauth Hs') as [Hv|[r Hr]]; [left; by apply vouched_app|by destruct (Hno r)].
Qed.
Lemma runs_wpa {X} node (p : A X) m x m' (Q : X -> Manager -> Prop) : runs node p m x m' ->
  (forall env, (forall n id, auth_id env n = Some id -> Operations (state m) !! id = None) -> wpa env p Q m) -> Q x m'.
Proof.
  intros (env & t & t' & _ & Hid & E) H. assert (wpa env p Q m) as Hw by (apply H; intros n id Hn; by apply (Hid n)).
  specialize (Hw t). by rewrite E in Hw.
Qed.
Lemma after_finish_lookup id replacement ts id' t : after_finish id replacement ts !! id' = Some t -> ts !! id' = Some t \/ t = Closing.
Proof.
  unfold after_finish. destruct replacement.
  - destruct (decide (id = id')) as [->|]; [rewrite lookup_insert_eq; intros [= <-]; by right|rewrite lookup_insert_ne by done; by left].
  - intros [_ H]%lookup_delete_Some. by left.
Qed.

Section Preservation.
Context (node : string).
Ltac spec H lem := pose proof (runs_wpa _ _ _ _ _ _ H (fun env _ => lem env)) as ?; clear H; cbn beta in *.
Lemma inv_open s bootstrap ok m' : AuthInv s -> running s = false -> runs node (Open bootstrap) (mgr s) ok m' ->
  AuthInv (says (if ok then [EvOpened] else []) (s <| running := ok |> <| mgr := m' |>)).
Proof.
  intros [Hf Ho Hd _] Hrun H. destruct (Hd Hrun) as [Ea Et]. destruct s as [r m a ts evs]. cbn in *. subst r a ts.
  assert (launches ((if ok then [EvOpened] else []) ++ evs) = launches evs) as Hl by (by destruct ok).
  pose proof (runs_wpa _ _ _ _ _ _ H (fun env _ => wpa_open env m bootstrap)) as Hs. cbn beta in Hs. clear H.
  destruct (load (path m)) as [[firstRun s]|] eqn:Hload.
  - destruct Hs as [Hp Hst].
    assert (launches evs = [] \/ recorded_in evs s) as Hrec.
    { destruct Hf as [Hn|(s0 & Es & Hr & Hc)]; [by left|right]. rewrite Es in Hload. apply load_saved in Hload as [_ ->]; done. }
    assert (forall s', auth_commands s' = auth_commands s -> launches evs = [] \/ recorded_in evs s') as Hrec'.
    { intros s' E. destruct Hrec as [Hn|Hr]; [by left|right]. intros cmd id Hin. rewrite E. by apply Hr. }
    split; cbn [says events mgr running action tasks].
    + apply filed_app; [by destruct ok|]. change (filed evs (path m')). destruct Hp as [->|(s' & -> & Hc & Hr)]; [done|].
      destruct (Hrec' s' Hc) as [Hn|Hr']; [by left|right]. exists s'. split_and!; [done|lia|done].
    + change (NoDup (launches ((if ok then [EvOpened] else []) ++ evs))). by rewrite Hl.
    + done.
    + intros Hok. cbn in Hok. subst ok. destruct (Hst eq_refl) as (Hc & Hr & Ht & Hau & _ & Hq & _). split_and!; [cbn; lia| |..].
      * apply (recorded_app [EvOpened] evs); [done|]. destruct (Hrec' _ Hc) as [Hn|Hr']; [|done].
        intros cmd id Hin%elem_of_launches. rewrite Hn in Hin. by apply elem_of_nil in Hin.
      * split; [intros id1 id2 (o & Ho1 & Hp1); rewrite (Hq _ _ Ho1) in Hp1; done|]. intros id o Ho1 Hp1. by rewrite (Hq _ _ Ho1) in Hp1.
      * done.
      * apply map_Forall_empty.
      * intros Ha. by destruct Hau.
  - destruct Hs as [-> ->]. by split.
Qed.
Lemma inv_crash s : AuthInv s -> AuthInv (s <| running := false |> <| action := None |> <| tasks := ∅ |>).
Proof. intros [Hf Ho _ _]. by split. Qed.
Lemma inv_launch s request busy a id m' : AuthInv s -> running s = true -> action s = None ->
  runs node (Start request busy) (mgr s) (a, Some id) m' ->
  AuthInv (says [EvReply (sr_command request) "start:secret" a; EvStarted (sr_command request) id]
    (s <| mgr := m' |> <| tasks ::= <[id := Probing]> |>)).
Proof.
  intros Hi Hrun Hact H.
  pose proof (runs_wpa _ _ _ _ _ _ H (fun env Hid => wpa_start env (mgr s) request busy Hid)) as Hs. cbn beta iota in Hs. clear H.
  destruct Hs as ([(m1 & now & E1 & Hq & Hnew & EO & EC & EA & ER) HT HP] & Hfresh & _).
  destruct (ai_up _ Hi Hrun) as (Hrev & Hrec & [Hone Hform] & _ & Htask & Hauth). destruct Hi as [Hf Ho _ _].
  set (cmd := sr_command request) in *.
  assert (cmd ∉ launches (events s)) as Hnl.
  { intros [id' Hin]%launches_elem. apply Hrec in Hin. rewrite <- (ev_commands _ _ E1) in Hin. by rewrite Hnew in Hin. }
  set (es := [EvReply cmd "start:secret" a; EvStarted cmd id]).
  assert (recorded_in (es ++ events s) (state m')) as Hrec'.
  { intros cmd' id' Hin. rewrite EC. cbn [es app] in Hin. apply elem_of_cons in Hin as [|Hin]; [done|].
    apply elem_of_cons in Hin as [[= -> ->]|Hin]; [apply lookup_insert_eq|].
    rewrite lookup_insert_ne; [rewrite (ev_commands _ _ E1); by apply Hrec|]. intros ->. by apply Hnl, (elem_of_launches _ id'). }
  assert (forall id', is_pending id' m' -> id' = id) as Hp.
  { intros id' (o & Ho' & Hp'). destruct (decide (id = id')) as [|Hne]; [done|]. rewrite EO, lookup_insert_ne in Ho' by done.
    by rewrite (has_pending_false _ Hq _ _ Ho') in Hp'. }
  pose proof (mv_revision _ _ (ev_moves _ _ E1)) as HR.
  destruct s as [r m ac ts evs]. cbn in *. subst r ac. split; cbn [says events mgr running action tasks].
  - right. exists (state m'). split_and!; [done|lia|exact Hrec'].
  - cbn. by apply NoDup_cons.
  - done.
  - intros _. split_and!; [cbn; lia|exact Hrec'|split|done| |].
    + intros id1 id2 H1%Hp H2%Hp. congruence.
    + intros id' o Ho' Hp'. assert (id' = id) as -> by (apply Hp; by exists o). cbn in Ho'. rewrite EO, lookup_insert_eq in Ho'.
      injection Ho' as <-. by exists cmd, now.
    + intros id' t Hl. cbn in Hl. destruct (decide (id = id')) as [->|Hne]; [by rewrite lookup_insert_eq in Hl; injection Hl as <-|].
      rewrite lookup_insert_ne in Hl by done. specialize (Htask id' t Hl). destruct t as [|res rep| |]; try done.
      destruct Htask as [H1 _]. split; [done|]. intros _ Hpe. by destruct (Hne (eq_sym (Hp _ Hpe))).
    + intros Ha. cbn in Ha. rewrite EA in Ha. destruct (Hauth (ev_auth _ _ E1 Ha)) as [Hv|[rq Hr]]; [left|done].
      apply (vouched_app es evs); [|done]. by repeat constructor.
Qed.

Lemma closing_task id (ts : gmap string task) id' t : <[id := Closing]> ts !! id' = Some t -> ts !! id' = Some t \/ t = Closing \/ t = CleaningUp \/ t = Probing.
Proof. intros [[_ <-]|[_ H]]%lookup_insert_Some; auto. Qed.
Lemma evolves_idle m m' a : evolves m m' -> idle a -> auth_state (state m') = StateAuthenticated ->
  auth_state (state m) = StateAuthenticated /\ forall r, a <> Some (LoggedOut r false).
Proof. intros H Hi Ha. split; [by apply (ev_auth _ _ H)|]. by intros r ->. Qed.
Lemma inv_probe s id result prepared : AuthInv s -> running s = true -> tasks s !! id = Some Probing ->
  AuthInv (says [EvProbed (Candidate id) result] (s <| tasks ::= <[id := replace_outcome result prepared]> |>)).
Proof.
  intros Hi Hrun Hid. destruct (ai_up _ Hi Hrun) as (_ & _ & _ & Hact & Htask & Hauth). destruct s as [r m a ts evs]. cbn in *. subst r.
  assert (Forall keeps [EvProbed (Candidate id) result]) as Hk by (by repeat constructor).
  apply (inv_next (mkAuthSystem true m a ts evs) [EvProbed (Candidate id) result] m a (<[id := replace_outcome result prepared]> ts)); try done; cbn [action tasks events mgr].
  - by apply moves_at.
  - by apply act_app.
  - intros id' t Hl. apply lookup_insert_Some in Hl as [[<- <-]|[_ Hl]]; [|by apply (tasks_app _ [EvProbed (Candidate id) result] _ ts); [left|..]].
    destruct result, prepared; cbn; (split; [done|]); intros Hr; try done. intros _. exists [], evs. by split.
  - intros Ha. destruct (Hauth Ha) as [Hv|Hl]; [left; by apply vouched_app|by right].
Qed.
Lemma inv_finish s id result replacement busy f m' : AuthInv s -> running s = true -> action s = None ->
  tasks s !! id = Some (Finishing result replacement) -> runs node (finishReplacement_begin id result replacement busy) (mgr s) f m' ->
  AuthInv match f with
    | FinishReturn => s <| mgr := m' |> <| tasks ::= after_finish id replacement |>
    | FinishRollback => s <| mgr := m' |> <| action := Some (RollingBack id false) |>
    | FinishCommit => s <| mgr := m' |> <| action := Some (Committing id) |>
    end.
Proof.
  intros Hi Hrun Hac Hid H. spec H (fun env => wpa_finish_begin env (mgr s) id result replacement busy).
  destruct (ai_up _ Hi Hrun) as (_ & _ & _ & _ & Htask & Hauth). destruct s as [r m a ts evs]. cbn in *. subst r a. destruct f.
  - apply (inv_idle (mkAuthSystem true m None ts evs) [] m' None); try done; [apply moves_at, H0|by apply evolves_idle|].
    intros id' t [Hl|Hl]%after_finish_lookup; auto.
  - apply (inv_idle (mkAuthSystem true m None ts evs) [] m' (Some (RollingBack id false)) ts); try done; [apply moves_at, H0|by apply evolves_idle|].
    auto.
  - destruct H0 as (m1 & o & E1 & -> & Ho & Hp & Hr).
    apply (inv_next (mkAuthSystem true m None ts evs) [] _ (Some (Committing id)) ts); try done; cbn [action tasks events mgr app].
    + by apply moves_transitioning, E1.
    + split; [done|]. intros Hpe. pose proof (Htask id _ Hid) as Ht. cbn in Ht. destruct Ht as [Hno Ht].
      destruct Hr as [Hr|Hr]; [|done]. apply Ht; [done|]. by apply (moves_pending _ _ _ (ev_moves _ _ E1)).
    + apply (moves_tasks (m <| transitioning := true |>)); [by apply moves_transitioning, E1|exact Htask].
    + intros Ha. destruct (Hauth (ev_auth _ _ E1 Ha)) as [Hv|[rq Hrq]]; [by left|done].
Qed.
Lemma inv_finish_end s id err ok m' : AuthInv s -> running s = true -> action s = Some (CommitAnswered id err) ->
  runs node (finishReplacement_end id err) (mgr s) ok m' ->
  AuthInv (s <| mgr := m' |> <| action := Some (if ok : bool then Finalizing id else RollingBack id true) |>).
Proof.
  intros Hi Hrun Hac H. spec H (fun env => wpa_finish_end env (mgr s) id err).
  destruct (ai_up _ Hi Hrun) as (_ & _ & _ & Hact & Htask & Hauth). destruct s as [r m a ts evs]. cbn in *. subst r a. destruct ok.
  - destruct H0 as [-> [(o & Ho & Hp) HM HC _ _]]. destruct Hact as [_ Hacc].
    apply (inv_next (mkAuthSystem true m (Some (CommitAnswered id false)) ts evs) [] m' (Some (Finalizing id)) ts); try done; cbn [events mgr app].
    + by apply (moves_at _ _ HM).
    + apply (moves_tasks (m <| transitioning := false |>)); [done|]. exact Htask.
    + intros _. left. right. destruct (Hacc eq_refl) as (newer & Hn & Hc); [by exists o|]. by exists id, newer.
  - apply (inv_idle (mkAuthSystem true m (Some (CommitAnswered id err)) ts evs) [] m' (Some (RollingBack id true)) ts); try done; cbn [events mgr action tasks].
    + exact (moves_at _ _ (ev_moves _ _ H0)).
    + intros Ha. split; [by apply (ev_auth _ _ H0)|done].
    + auto.
Qed.
Lemma inv_check_end s request result a m' : AuthInv s -> running s = true -> action s = Some (CheckProbing request) ->
  runs node (Check_end request result) (mgr s) a m' ->
  AuthInv (says [EvReply (cr_command request) "check" a; EvProbed Stored result] (s <| mgr := m' |> <| action := None |>)).
Proof.
  intros Hi Hrun Hac H. destruct (ai_up _ Hi Hrun) as (_ & _ & _ & Hact & Htask & Hauth). rewrite Hac in Hact. destruct Hact as [Hq Hn].
  spec H (fun env => wpa_check_end env (mgr s) request result Hn). destruct H0 as (HM & _ & Ha).
  destruct s as [r m ac ts evs]. cbn in *. subst r ac.
  apply (inv_next (mkAuthSystem true m (Some (CheckProbing request)) ts evs) [EvReply (cr_command request) "check" a; EvProbed Stored result] m' None ts);
    try done; cbn [events mgr].
  - by apply moves_at.
  - apply tasks_app; [right; by eapply moves_quiet|]. by eapply moves_tasks.
  - intros Hs. left. left. rewrite (Ha Hs). exists [EvReply (cr_command request) "check" a], evs. split; [done|]. by repeat constructor.
Qed.
Lemma inv_refresh_end s result m' : AuthInv s -> running s = true -> action s = Some RefreshProbing ->
  runs node (Refresh_end result) (mgr s) tt m' -> AuthInv (says [EvProbed Stored result] (s <| mgr := m' |> <| action := None |>)).
Proof.
  intros Hi Hrun Hac H. destruct (ai_up _ Hi Hrun) as (_ & _ & _ & Hact & Htask & Hauth). rewrite Hac in Hact.
  spec H (fun env => wpa_refresh_end env (mgr s) result). destruct H0 as (HM & _ & Ha).
  destruct s as [r m ac ts evs]. cbn in *. subst r ac.
  apply (inv_next (mkAuthSystem true m (Some RefreshProbing) ts evs) [EvProbed Stored result] m' None ts); try done; cbn [events mgr].
  - by apply moves_at.
  - apply tasks_app; [right; by eapply moves_quiet|]. by eapply moves_tasks.
  - intros Hs. left. left. rewrite (Ha Hs). exists [], evs. by split.
Qed.
Lemma inv_logout_begin s request busy m' : AuthInv s -> running s = true -> action s = None ->
  runs node (Logout_begin request busy) (mgr s) (inr tt) m' -> AuthInv (s <| mgr := m' |> <| action := Some (LoggingOut request) |>).
Proof.
  intros Hi Hrun Hac H. spec H (fun env => wpa_logout_begin env (mgr s) request busy). destruct H0 as (m1 & E1 & -> & Hp & Hc).
  destruct (ai_up _ Hi Hrun) as (_ & _ & _ & _ & Htask & Hauth). destruct s as [r m ac ts evs]. cbn in *. subst r ac.
  apply (inv_next (mkAuthSystem true m None ts evs) [] (m1 <| transitioning := true |>) (Some (LoggingOut request)) ts); try done; cbn [events mgr app].
  - by apply moves_transitioning, E1.
  - split_and!; [|done..]. intros id (o & Ho & Hpo). by rewrite (has_pending_false _ Hp _ _ Ho) in Hpo.
  - apply (moves_tasks (m <| transitioning := true |>)); [by apply moves_transitioning, E1|exact Htask].
  - intros Ha. destruct (Hauth (ev_auth _ _ E1 Ha)) as [Hv|[rq Hrq]]; [by left|done].
Qed.
Lemma inv_logout_backend s request err : AuthInv s -> running s = true -> action s = Some (LoggingOut request) ->
  AuthInv (says [EvLoggedOut (cr_command request) err] (s <| action := Some (LoggedOut request err) |>)).
Proof.
  intros Hi Hrun Hac. destruct (ai_up _ Hi Hrun) as (_ & _ & _ & Hact & Htask & Hauth). destruct s as [r m ac ts evs]. cbn in *. subst r ac.
  apply (inv_next (mkAuthSystem true m (Some (LoggingOut request)) ts evs) [EvLoggedOut (cr_command request) err] m (Some (LoggedOut request err)) ts);
    try done; cbn [events mgr].
  - by apply moves_at.
  - apply tasks_app; [right; apply Hact|done].
  - intros Ha. destruct err; [|right; by exists request]. left. destruct (Hauth Ha) as [Hv|[rq Hrq]]; [|done].
    apply (vouched_app [_]); [by repeat constructor|done].
Qed.
Lemma inv_logout_end s request err a m' : AuthInv s -> running s = true -> action s = Some (LoggedOut request err) ->
  runs node (Logout_end request err) (mgr s) a m' ->
  AuthInv (says [EvReply (cr_command request) "logout" a] (s <| mgr := m' |> <| action := None |>)).
Proof.
  intros Hi Hrun Hac H. destruct (ai_up _ Hi Hrun) as (_ & _ & _ & Hact & Htask & Hauth). rewrite Hac in Hact.
  destruct Hact as (Hq & Hn & _). spec H (fun env => wpa_logout_end env (mgr s) request err Hn). destruct H0 as (HM & _ & Hno).
  destruct s as [r m ac ts evs]. cbn in *. subst r ac.
  apply (inv_next (mkAuthSystem true m (Some (LoggedOut request err)) ts evs) [EvReply (cr_command request) "logout" a] m' None ts);
    try done; cbn [events mgr].
  - exact (moves_at _ _ HM).
  - apply tasks_app; [left; by repeat constructor|]. apply (moves_tasks (m <| transitioning := false |>)); [done|exact Htask].
  - intros Ha. by destruct Hno.
Qed.
Lemma inv_check_begin s request m' : AuthInv s -> running s = true -> action s = None ->
  runs node (Check_begin request) (mgr s) (inr tt) m' -> AuthInv (s <| mgr := m' |> <| action := Some (CheckProbing request) |>).
Proof.
  intros Hi Hrun Hac H. spec H (fun env => wpa_check_begin env (mgr s) request). destruct H0 as [E1 Hc]. destruct (Hc eq_refl) as [Hp Hn].
  destruct (ai_up _ Hi Hrun) as (_ & _ & _ & _ & Htask & Hauth). destruct s as [r m ac ts evs]. cbn in *. subst r ac.
  apply (inv_next (mkAuthSystem true m None ts evs) [] m' (Some (CheckProbing request)) ts); try done; cbn [events mgr app].
  - apply moves_at, E1.
  - split; [|done]. intros id (o & Ho & Hpo). by rewrite (has_pending_false _ Hp _ _ Ho) in Hpo.
  - eapply moves_tasks; [apply E1|done].
  - intros Ha. destruct (Hauth (ev_auth _ _ E1 Ha)) as [Hv|[rq Hrq]]; [by left|done].
Qed.
Lemma inv_refresh_begin s b m' : AuthInv s -> running s = true -> action s = None ->
  runs node Refresh_begin (mgr s) b m' -> AuthInv (s <| mgr := m' |> <| action := if b : bool then Some RefreshProbing else None |>).
Proof.
  intros Hi Hrun Hac H. spec H (fun env => wpa_refresh_begin env (mgr s)). destruct H0 as [E1 Hp].
  destruct (ai_up _ Hi Hrun) as (_ & _ & _ & _ & Htask & Hauth). destruct s as [r m ac ts evs]. cbn in *. subst r ac.
  apply (inv_next (mkAuthSystem true m None ts evs) [] m' (if b then Some RefreshProbing else None) ts); try done; cbn [events mgr app].
  - apply moves_at, E1.
  - destruct b; [|done]. intros id (o & Ho & Hpo). by rewrite (has_pending_false _ (Hp eq_refl) _ _ Ho) in Hpo.
  - eapply moves_tasks; [apply E1|done].
  - intros Ha. destruct (Hauth (ev_auth _ _ E1 Ha)) as [Hv|[rq Hrq]]; [by left|done].
Qed.
(** Steps that are a section alone, and steps that end the action. *)
Lemma inv_section {X} (p : A X) s es x m' (Q : X -> Manager -> Prop) : AuthInv s -> running s = true -> runs node p (mgr s) x m' ->
  launches es = [] -> Forall keeps es ->
  (forall env, (forall n id, auth_id env n = Some id -> Operations (state (mgr s)) !! id = None) -> wpa env p Q (mgr s)) ->
  (Q x m' -> evolves (mgr s) m') -> AuthInv (says es (s <| mgr := m' |>)).
Proof.
  intros Hi Hrun H He Hk Hw HQ. pose proof (HQ (runs_wpa _ _ _ _ _ _ H Hw)) as HE. destruct s as [r m a ts evs]. cbn in *. subst r.
  by apply (inv_evolves (mkAuthSystem true m a ts evs) es m').
Qed.
Lemma keeps_call id call err : Forall keeps [EvCalled id call err].
Proof. by repeat constructor. Qed.
Lemma inv_done s es m' a ts : AuthInv s -> running s = true -> launches es = [] -> Forall keeps es ->
  evolves (mgr s) m' -> idle (action s) -> idle a -> 
  (forall id t, ts !! id = Some t -> tasks s !! id = Some t \/ t = Closing \/ t = CleaningUp \/ t = Probing) ->
  AuthInv (mkAuthSystem true m' a ts (es ++ events s)).
Proof. intros Hi Hrun He Hk HE Ha Ha' Hts. apply inv_idle; try done; [apply moves_at, HE|by apply evolves_idle]. Qed.
Lemma inv_cancel s id request a m' : AuthInv s -> running s = true -> action s = None -> runs node (Cancel id request) (mgr s) a m' ->
  AuthInv (says [EvReply (cr_command request) "cancel" a] (s <| mgr := m' |>)).
Proof.
  intros Hi Hrun Hac H. spec H (fun env => wpa_cancel_section env (mgr s) id request). destruct H0 as [HM Ha].
  destruct s as [r m ac ts evs]. cbn in *. subst r ac.
  apply (inv_idle (mkAuthSystem true m None ts evs) [_] m' None ts); try done; [by repeat constructor|by apply moves_at| |by auto].
  intros Hs. by split; [apply Ha|].
Qed.
Lemma inv_finalize s id err : AuthInv s -> running s = true -> action s = Some (Finalizing id) ->
  AuthInv (says [EvCalled id CallFinalize err]
    (if err : bool then s <| action := Some (Recording id) |> else s <| action := None |> <| tasks ::= <[id := Closing]> |>)).
Proof.
  intros Hi Hrun Hac. destruct s as [r m ac ts evs]. cbn in *. subst r ac. set (s := mkAuthSystem true m (Some (Finalizing id)) ts evs) in *.
  pose proof (keeps_call id CallFinalize err) as Hk.
  destruct err; [apply (inv_done s [EvCalled id CallFinalize true] m (Some (Recording id)) ts Hi eq_refl eq_refl Hk)|apply (inv_done s [EvCalled id CallFinalize false] m None (<[id := Closing]> ts) Hi eq_refl eq_refl Hk)];
    try done; [by auto|]. intros id' t. apply closing_task.
Qed.
Lemma inv_rollback s id recorded err : AuthInv s -> running s = true -> action s = Some (RollingBack id recorded) ->
  AuthInv (says [EvCalled id CallRollback err]
    (if (err && recorded)%bool then s <| action := Some (Recording id) |> else s <| action := None |> <| tasks ::= <[id := Closing]> |>)).
Proof.
  intros Hi Hrun Hac. destruct s as [r m ac ts evs]. cbn in *. subst r ac. set (s := mkAuthSystem true m (Some (RollingBack id recorded)) ts evs) in *.
  pose proof (keeps_call id CallRollback err) as Hk.
  destruct (err && recorded)%bool; [apply (inv_done s [EvCalled id CallRollback err] m (Some (Recording id)) ts Hi eq_refl eq_refl Hk)|apply (inv_done s [EvCalled id CallRollback err] m None (<[id := Closing]> ts) Hi eq_refl eq_refl Hk)];
    try done; [by auto|]. intros id' t. apply closing_task.
Qed.
Lemma inv_record s id m' : AuthInv s -> running s = true -> action s = Some (Recording id) ->
  runs node (recordReplacementCleanupFailure id) (mgr s) tt m' ->
  AuthInv (s <| mgr := m' |> <| action := None |> <| tasks ::= <[id := Closing]> |>).
Proof.
  intros Hi Hrun Hac H. spec H (fun env => wpa_record env (mgr s) id). destruct s as [r m ac ts evs]. cbn in *. subst r ac.
  apply (inv_done (mkAuthSystem true m (Some (Recording id)) ts evs) [] m' None (<[id := Closing]> ts)); try done.
  intros id' t. apply closing_task.
Qed.
Lemma inv_commit s id err : AuthInv s -> running s = true -> action s = Some (Committing id) ->
  AuthInv (says [EvCalled id CallCommit err] (s <| action := Some (CommitAnswered id err) |>)).
Proof.
  intros Hi Hrun Hac. destruct (ai_up _ Hi Hrun) as (_ & _ & _ & Hact & Htask & Hauth). destruct s as [r m ac ts evs]. cbn in *. subst r ac.
  apply (inv_next (mkAuthSystem true m (Some (Committing id)) ts evs) [EvCalled id CallCommit err] m (Some (CommitAnswered id err)) ts);
    try done; cbn [events mgr].
  - by apply moves_at.
  - destruct Hact as [Ht Hacc]. split; [done|]. intros -> Hp. destruct (Hacc Hp) as [newer Hn]. exists ([EvCalled id CallCommit false] ++ newer).
    split; [apply accepted_app; [by repeat constructor|done]|]. by left.
  - apply tasks_app; [left; by repeat constructor|done].
  - intros Ha. left. destruct (Hauth Ha) as [Hv|[rq Hrq]]; [|done]. apply (vouched_app [_]); [by repeat constructor|done].
Qed.
(** [Close] runs with no mutex: whatever the action is, it goes on. *)
Lemma inv_tasks s es m' ts : AuthInv s -> running s = true -> launches es = [] -> Forall keeps es -> evolves (mgr s) m' ->
  (forall id t, ts !! id = Some t -> tasks s !! id = Some t \/ t = Closing \/ t = CleaningUp) ->
  AuthInv (says es (s <| mgr := m' |> <| tasks := ts |>)).
Proof.
  intros Hi Hrun He Hk HE Hts. pose proof (inv_evolves s es m' Hi Hrun He Hk HE) as Hi'.
  destruct (ai_up _ Hi' eq_refl) as (_ & _ & _ & Hact & Htask & Hauth). destruct s as [r m a ts0 evs]. cbn in *. subst r.
  apply (inv_next (mkAuthSystem true m a ts0 evs) es m' a ts); try done; [apply moves_at, HE|].
  intros id t Hl. destruct (Hts id t Hl) as [Hl'|[->| ->]]; [|done..]. by apply Htask.
Qed.
Theorem auth_step_inv s s' : auth_step node s s' -> AuthInv s -> AuthInv s'.
Proof.
  intros Hstep Hi. destruct Hstep.
  - by apply inv_crash.
  - by eapply inv_open.
  - eapply (inv_section _ s []); [done..|intros env _; apply wpa_ready|]. by intros [? _].
  - eapply (inv_section _ s []); [done..|intros env _; apply wpa_snapshot|]. done.
  - eapply (inv_section _ s [] _ _ (fun _ m' => evolves (mgr s) m')); [done..| |done]. intros env _.
    eapply wpa_mono; [apply wpa_operation|]. by intros ?? [? _].
  - eapply (inv_section _ s []); [done..|intros env _; apply wpa_watchdog|]. done.
  - eapply inv_section; [done..|by repeat constructor|intros env Hid; by apply wpa_start|]. done.
  - by eapply inv_launch.
  - by apply inv_probe.
  - by eapply inv_finish.
  - by apply inv_commit.
  - by eapply inv_finish_end.
  - by apply inv_finalize.
  - by apply inv_rollback.
  - by apply inv_record.
  - assert (forall ts, (forall id' t, ts !! id' = Some t -> tasks s !! id' = Some t \/ t = Closing \/ t = CleaningUp) ->
      AuthInv (says [EvCalled id CallClose err] (s <| tasks := ts |>))) as Hc.
    { intros ts Hts. by apply (inv_tasks s [EvCalled id CallClose err] (mgr s) ts); try apply keeps_call. }
    destruct err; apply Hc; intros id' t; [intros [[_ <-]|[_ Hl]]%lookup_insert_Some; auto|intros [_ Hl]%lookup_delete_Some; auto].
  - pose proof (runs_wpa _ _ _ _ _ _ H1 (fun env _ => wpa_record env (mgr s) id)) as HE. cbn beta in HE.
    assert (AuthInv (says [] (s <| mgr := m' |> <| tasks := delete id (tasks s) |>))) as Hc; [|by destruct s].
    apply inv_tasks; try done. intros id' t [_ Hl]%lookup_delete_Some. auto.
  - eapply inv_section; [done..|by repeat constructor|intros env Hid; by apply wpa_check_begin|]. by intros [? _].
  - by apply inv_check_begin.
  - by apply inv_check_end.
  - by apply inv_refresh_begin.
  - by apply inv_refresh_end.
  - by eapply inv_cancel.
  - eapply inv_section; [done..|by repeat constructor|intros env Hid; by apply wpa_logout_begin|]. done.
  - by eapply inv_logout_begin.
  - by apply inv_logout_backend.
  - by eapply inv_logout_end.
Qed.
Lemma auth_reachable_inv s : auth_reachable node s -> AuthInv s.
Proof.
  induction 1 as [|s s' _ IH Hs]; [|by eapply auth_step_inv]. split; [by left|constructor|done|done].
Qed.
End Preservation.

(** ** Claims *)
Definition settles_from (m m' : Manager) : Prop :=
  forall id o, Operations (state m) !! id = Some o -> pending o = false -> Operations (state m') !! id = Some o.
Lemma settles_moves m m' b : moves (m <| transitioning := b |>) m' -> settles_from m m'.
Proof. intros H id o. apply (mv_settled _ _ H). Qed.
Lemma settles_evolves m m' : evolves m m' -> settles_from m m'.
Proof. intros H id o. apply (mv_settled _ _ (ev_moves _ _ H)). Qed.
Lemma settles_runs {X} node (p : A X) m x m' (Q : AuthEnv -> X -> Manager -> Prop) : runs node p m x m' ->
  (forall env, (forall n id, auth_id env n = Some id -> Operations (state m) !! id = None) -> wpa env p (Q env) m) ->
  (forall env, Q env x m' -> settles_from m m') -> settles_from m m'.
Proof.
  intros (env & t & t' & _ & Hid & E) Hw HQ. apply (HQ env).
  assert (wpa env p (Q env) m) as H by (apply Hw; intros n id Hn; by apply (Hid n)). specialize (H t). by rewrite E in H.
Qed.
Lemma step_settles node s s' : auth_step node s s' -> AuthInv s -> running s = true -> running s' = true -> settles_from (mgr s) (mgr s').
Proof.
  intros Hstep Hi Hrun Hrun'. destruct (ai_up _ Hi Hrun) as (_ & _ & _ & Hact & _ & _).
  assert (settles_from (mgr s) (mgr s)) as Hsame by (by intros id o).
  destruct Hstep.
  - done.
  - congruence.
  - eapply (settles_runs _ _ _ _ _ _ H0); [intros env _; apply wpa_ready|]. intros env [HE _]. by apply settles_evolves.
  - eapply (settles_runs _ _ _ _ _ _ H0); [intros env _; apply wpa_snapshot|]. intros env HE. by apply settles_evolves.
  - eapply (settles_runs _ _ _ _ _ _ H0); [intros env _; apply wpa_operation|]. intros env [HE _]. by apply settles_evolves.
  - eapply (settles_runs _ _ _ _ _ _ H0); [intros env _; apply wpa_watchdog|]. intros env HE. by apply settles_evolves.
  - eapply (settles_runs _ _ _ _ _ _ H1); [intros env Hid; by apply wpa_start|]. intros env HE. by apply settles_evolves.
  - eapply (settles_runs _ _ _ _ _ _ H1); [intros env Hid; by apply wpa_start|].
    intros env ([(m1 & now & E1 & _ & _ & EO & _) _ _] & Hfresh & _) id' o Ho Hp. cbn in *. rewrite EO.
    rewrite lookup_insert_ne; [by apply (settles_evolves _ _ E1)|congruence].
  - done.
  - assert (settles_from (mgr s) m') as Hm; [|by destruct f].
    eapply (settles_runs _ _ _ _ _ _ H3); [intros env _; apply wpa_finish_begin|]. intros env HE.
    destruct f; [by apply settles_evolves..|]. destruct HE as (m1 & o & E1 & -> & _). by apply (settles_evolves _ _ E1).
  - done.
  - eapply (settles_runs _ _ _ _ _ _ H1); [intros env _; apply wpa_finish_end|]. intros env HE. destruct done; [|by apply (settles_evolves _ _ HE)].
    eapply settles_moves, (su_moves _ _ _ (proj2 HE)).
  - by destruct err.
  - by destruct (err && recorded)%bool.
  - eapply (settles_runs _ _ _ _ _ _ H1); [intros env _; apply wpa_record|]. intros env HE. by apply settles_evolves.
  - by destruct err.
  - eapply (settles_runs _ _ _ _ _ _ H1); [intros env _; apply wpa_record|]. intros env HE. by apply settles_evolves.
  - eapply (settles_runs _ _ _ _ _ _ H1); [intros env _; apply wpa_check_begin|]. intros env [HE _]. by apply settles_evolves.
  - eapply (settles_runs _ _ _ _ _ _ H1); [intros env _; apply wpa_check_begin|]. intros env [HE _]. by apply settles_evolves.
  - rewrite H0 in Hact. eapply (settles_runs _ _ _ _ _ _ H1); [intros env _; apply wpa_check_end, Hact|]. intros env [HM _] id o. apply (mv_settled _ _ HM).
  - eapply (settles_runs _ _ _ _ _ _ H1); [intros env _; apply wpa_refresh_begin|]. intros env [HE _]. by apply settles_evolves.
  - eapply (settles_runs _ _ _ _ _ _ H1); [intros env _; apply wpa_refresh_end|]. intros env [HM _] id o. apply (mv_settled _ _ HM).
  - eapply (settles_runs _ _ _ _ _ _ H1); [intros env _; apply wpa_cancel_section|]. intros env [HM _] id' o. apply (mv_settled _ _ HM).
  - eapply (settles_runs _ _ _ _ _ _ H1); [intros env _; apply wpa_logout_begin|]. intros env HE. by apply settles_evolves.
  - eapply (settles_runs _ _ _ _ _ _ H1); [intros env _; apply wpa_logout_begin|]. intros env (m1 & E1 & -> & _). by apply (settles_evolves _ _ E1).
  - done.
  - rewrite H0 in Hact. eapply (settles_runs _ _ _ _ _ _ H1); [intros env _; apply wpa_logout_end, Hact|]. intros env [HM _].
    by eapply settles_moves.
Qed.

(** C33: readiness rests on a probe.  In every state the manager reaches, whatever
    fails and however its sections interleave, it reports itself ready only when
    nothing is pending or in transition and, since the process started, a probe
    accepted the stored credential or one committed since, with no logout and no
    other verdict on the stored credential after it. *)
Theorem auth_ready_vouched node s m' : auth_reachable node s -> running s = true -> runs node ProviderAuthReady (mgr s) true m' ->
  vouched (events s) /\ has_pending (state m') = false /\ transitioning m' = false.
Proof.
  intros Hr%auth_reachable_inv Hrun H. destruct (ai_up _ Hr Hrun) as (_ & _ & _ & Hact & _ & Hauth).
  pose proof (runs_wpa _ _ _ _ _ _ H (fun env _ => wpa_ready env (mgr s))) as [HE Hok]. destruct (Hok eq_refl) as (Ha & Ht & Hp).
  split; [|done]. destruct (Hauth (ev_auth _ _ HE Ha)) as [Hv|[request Hl]]; [done|].
  rewrite Hl in Hact. destruct Hact as (_ & _ & Ht'). rewrite (mv_transitioning _ _ (ev_moves _ _ HE)) in Ht. congruence.
Qed.

(** C34: a start command launches one replacement at most, across restarts and
    whatever fails; submitting it again launches nothing. *)
Theorem auth_starts_once node s : auth_reachable node s ->
  NoDup (launches (events s))
  /\ forall cmd id request busy a new m', EvStarted cmd id ∈ events s -> running s = true ->
     runs node (Start request busy) (mgr s) (a, new) m' -> sr_command request = cmd -> new = None.
Proof.
  intros Hr%auth_reachable_inv. split; [apply Hr|]. intros cmd id request busy a new m' Hin Hrun H <-.
  destruct (ai_up _ Hr Hrun) as (_ & Hrec & _). destruct new as [id'|]; [|done].
  pose proof (runs_wpa _ _ _ _ _ _ H (fun env Hid => wpa_start env (mgr s) request busy Hid)) as ([(m1 & now & E1 & _ & Hnew & _) _ _] & _).
  apply Hrec in Hin. rewrite <- (ev_commands _ _ E1), Hnew in Hin. done.
Qed.

(** C35: operations settle.  One at most is pending; a settled one never changes
    while the process runs; and an operation created at [created] is no longer
    pending when it is read thirty seconds later, even if its goroutine hangs. *)
Theorem auth_operations_settle node s : auth_reachable node s -> running s = true ->
  (forall id1 id2, is_pending id1 (mgr s) -> is_pending id2 (mgr s) -> id1 = id2)
  /\ (forall s', auth_step node s s' -> running s' = true -> settles_from (mgr s) (mgr s'))
  /\ (forall id, is_pending id (mgr s) -> exists cmd created, Operations (state (mgr s)) !! id = Some (new_operation id cmd created))
  /\ (forall id cmd created env t a t' m', Operations (state (mgr s)) !! id = Some (new_operation id cmd created) ->
        printable (created + providerAuthTimeout) = true -> (forall n, created + providerAuthTimeout <= auth_clock env n) ->
        AuthOperation (auth_node env) id env t (mgr s) = (inr a, t', m') ->
        exists o, en_operation a = Some o /\ pending o = false).
Proof.
  intros Hr%auth_reachable_inv Hrun. destruct (ai_up _ Hr Hrun) as (_ & _ & [Hone Hform] & _).
  split_and!; [done|by intros; eapply step_settles| |].
  - intros id (o & Ho & Hp). destruct (Hform id o Ho Hp) as (cmd & created & ->). by exists cmd, created.
  - intros id cmd created env t a t' m' Ho Hpr Hclock E. pose proof (wpa_operation env (mgr s) (auth_node env) id t) as H. rewrite E in H.
    destruct H as [HE H]. destruct (H a eq_refl) as ([n Hu] & o & Ho' & Ha). exists o. split; [done|].
    destruct (pending o) eqn:Hpo; [|done]. exfalso.
    pose proof (mv_pending _ _ (ev_moves _ _ HE) _ _ Ho' Hpo) as Ho2. rewrite Ho in Ho2. injection Ho2 as <-.
    specialize (Hu id _ Ho'). unfold expires in Hu. cbn [new_operation op_timeout] in Hu. rewrite timestamp_instant in Hu by done.
    rewrite Hpo in Hu. apply negb_false_iff, Z.ltb_lt in Hu. specialize (Hclock n). lia.
Qed.

(** ** A concrete manager *)
Definition demo_auth_node : string := "11111111-1111-4111-8111-111111111111".
Definition demo_auth_command : string := "22222222-2222-4222-8222-222222222222".
Definition demo_auth_operation : string := "33333333-3333-4333-8333-333333333333".
Definition demo_auth_env (seconds : Z) (id : option string) : AuthEnv :=
  mkAuthEnv demo_auth_node (fun _ => (1700000000 + seconds) * 10 ^ 9) (fun _ => Written) (fun _ => id) (fun _ => false).
Definition ran {X} (id : option string) (p : A X) (m : Manager) : X * Manager :=
  let '(x, _, m') := p (demo_auth_env 0 id) (mkTicks 0 0 0 0) m in (x, m').
Lemma ran_runs {X} id (p : A X) m x :
  match id with Some i => uuidPattern i && bool_decide (Operations (state m) !! i = None) | None => true end = true ->
  (ran id p m).1 = x -> runs demo_auth_node p m x (ran id p m).2.
Proof.
  intros Hid <-. exists (demo_auth_env 0 id), (mkTicks 0 0 0 0). unfold ran.
  destruct (p (demo_auth_env 0 id) (mkTicks 0 0 0 0) m) as [[y t'] m']. exists t'. split; [done|]. split; [|done].
  intros n i [= ->]. apply andb_prop in Hid as [H1 H2]. by apply bool_decide_eq_true in H2.
Qed.
Definition demo_auth_opened : AuthSystem := says [EvOpened]
  (auth_fresh <| running := true |> <| mgr := (ran None (Open (fun _ => Some true)) (mgr auth_fresh)).2 |>).
Definition demo_check : CommandRequest := mkCommandRequest demo_auth_node demo_auth_command.
Definition demo_auth_checking : AuthSystem :=
  demo_auth_opened <| mgr := (ran None (Check_begin demo_check) (mgr demo_auth_opened)).2 |> <| action := Some (CheckProbing demo_check) |>.
Definition demo_auth_checked : AuthSystem :=
  let '(a, m') := ran None (Check_end demo_check ProbeAuthenticated) (mgr demo_auth_checking) in
  says [EvReply demo_auth_command "check" a; EvProbed Stored ProbeAuthenticated] (demo_auth_checking <| mgr := m' |> <| action := None |>).
Definition demo_auth_start : StartRequest := mkStart demo_auth_node demo_auth_command "secret" "key".
Definition demo_auth_launched : AuthSystem :=
  let '((a, _), m') := ran (Some demo_auth_operation) (Start demo_auth_start false) (mgr demo_auth_opened) in
  says [EvReply demo_auth_command "start:secret" a; EvStarted demo_auth_command demo_auth_operation]
    (demo_auth_opened <| mgr := m' |> <| tasks ::= <[demo_auth_operation := Probing]> |>).
Lemma demo_auth_opened_reachable : auth_reachable demo_auth_node demo_auth_opened.
Proof.
  eapply auth_next; [apply auth_start|]. apply (step_open demo_auth_node auth_fresh (fun _ => Some true) true); [done|].
  by apply ran_runs; [|vm_compute].
Qed.
Lemma demo_auth_checked_reachable : auth_reachable demo_auth_node demo_auth_checked.
Proof.
  eapply auth_next; [eapply auth_next; [apply demo_auth_opened_reachable|]|].
  - eapply (step_check_begin _ _ demo_check); [done..|]. apply (ran_runs None); [done|by vm_compute].
  - unfold demo_auth_checked.
    pose proof (ran_runs None (Check_end demo_check ProbeAuthenticated) (mgr demo_auth_checking) _ eq_refl eq_refl) as H.
    destruct (ran None (Check_end demo_check ProbeAuthenticated) (mgr demo_auth_checking)) as [a m'].
    by apply (step_check_end _ demo_auth_checking demo_check).
Qed.
Lemma demo_auth_launched_reachable : auth_reachable demo_auth_node demo_auth_launched.
Proof.
  eapply auth_next; [apply demo_auth_opened_reachable|]. unfold demo_auth_launched.
  pose proof (ran_runs (Some demo_auth_operation) (Start demo_auth_start false) (mgr demo_auth_opened) _ eq_refl eq_refl) as H.
  assert ((ran (Some demo_auth_operation) (Start demo_auth_start false) (mgr demo_auth_opened)).1.2 = Some demo_auth_operation) as E by (by vm_compute).
  destruct (ran (Some demo_auth_operation) (Start demo_auth_start false) (mgr demo_auth_opened)) as [[a new] m']. cbn in E, H. subst new.
  by apply (step_launch _ demo_auth_opened demo_auth_start false).
Qed.
Lemma auth_ready_vouched_witness : auth_state (state (mgr demo_auth_checked)) = StateAuthenticated /\ vouched (events demo_auth_checked).
Proof.
  split; [by vm_compute|].
  apply (auth_ready_vouched demo_auth_node demo_auth_checked (ran None ProviderAuthReady (mgr demo_auth_checked)).2 demo_auth_checked_reachable).
  - by vm_compute.
  - apply ran_runs; [done|by vm_compute].
Defined.
Lemma auth_starts_once_witness : launches (events demo_auth_launched) = [demo_auth_command]
  /\ (ran None (Start demo_auth_start false) (mgr demo_auth_launched)).1.2 = None.
Proof.
  split; [by vm_compute|]. destruct (auth_starts_once demo_auth_node demo_auth_launched demo_auth_launched_reachable) as [_ H].
  pose proof (ran_runs None (Start demo_auth_start false) (mgr demo_auth_launched) _ eq_refl eq_refl) as Hr.
  destruct (ran None (Start demo_auth_start false) (mgr demo_auth_launched)) as [[a new] m'].
  apply (H demo_auth_command demo_auth_operation demo_auth_start false a new m'); [|by vm_compute|exact Hr|done].
  vm_compute. right. left.
Defined.
Lemma auth_operations_settle_witness : is_pending demo_auth_operation (mgr demo_auth_launched)
  /\ exists a, (AuthOperation (auth_node (demo_auth_env 30 None)) demo_auth_operation (demo_auth_env 30 None) (mkTicks 0 0 0 0) (mgr demo_auth_launched)).1.1 = inr a
     /\ exists o, en_operation a = Some o /\ pending o = false.
Proof.
  assert (Operations (state (mgr demo_auth_launched)) !! demo_auth_operation
    = Some (new_operation demo_auth_operation demo_auth_command (1700000000 * 10 ^ 9))) as Ho by (by vm_compute).
  split; [eexists; split; [exact Ho|vm_compute; reflexivity]|].
  destruct (auth_operations_settle demo_auth_node demo_auth_launched demo_auth_launched_reachable) as (_ & _ & _ & H); [by vm_compute|].
  specialize (H demo_auth_operation demo_auth_command (1700000000 * 10 ^ 9) (demo_auth_env 30 None) (mkTicks 0 0 0 0)).
  assert (match (AuthOperation (auth_node (demo_auth_env 30 None)) demo_auth_operation (demo_auth_env 30 None) (mkTicks 0 0 0 0) (mgr demo_auth_launched)).1.1 with
          | inr _ => true | inl _ => false end = true) as Hok by (by vm_compute).
  destruct (AuthOperation (auth_node (demo_auth_env 30 None)) demo_auth_operation (demo_auth_env 30 None) (mkTicks 0 0 0 0) (mgr demo_auth_launched)) as [[[e|a] t'] m']; [done|].
  exists a. split; [reflexivity|]. apply (H a t' m' Ho); [vm_compute; reflexivity| |reflexivity]. intros n. vm_compute. discriminate.
Defined.

(** A logout whose receipt could not be written is acknowledged when it is
    submitted again; a restart has forgotten it, and runs it a second time. *)
Definition failing_auth_env : AuthEnv := mkAuthEnv demo_auth_node (fun _ => 1700000000 * 10 ^ 9) (fun _ => Unwritten) (fun _ => None) (fun _ => false).
Lemma acknowledged_logout_repeats :
  let m0 := (ran None (Logout_begin demo_check false) (mgr demo_auth_opened)).2 in
  let '(answer, _, m1) := Logout_end demo_check false failing_auth_env (mkTicks 0 0 0 0) m0 in
  let again := (ran None (Logout_begin demo_check false) m1).1 in
  let m2 := (ran None (Open (fun _ => Some false)) m1).2 in
  answer = inl ErrProviderUnavailable /\ (exists e, again = inl (inr e))
  /\ (ran None (Logout_begin demo_check false) m2).1 = inr tt.
Proof. vm_compute. split; [reflexivity|]. split; [eexists; reflexivity|reflexivity]. Qed.
