(* ===== verification/Settings.v ===== *)
(** * Node settings, [nodesettings/types.go], [manager.go] and [validation.go]
    The draft and the applied settings of a node with their private secrets,
    the document on disk, the validation of drafts and documents, the catalog
    checks and what the public envelope shows.  [SettingsManager] holds the
    operations. *)
From stdpp Require Import base tactics list strings gmap.
From Stdlib Require Import ZArith Lia Ascii String.
From S2P Require Import Prelude Json Wire Instant TranscriptView Auth.
Open Scope string_scope.
Open Scope list_scope.
Open Scope Z_scope.
Open Scope harness_scope.

(** ** Types *)
Definition SettingsSchemaID : string := "harness-node-settings-v2".
Definition ModelCatalogSchemaID : string := "harness-model-catalog-v2".
Definition MCPDocumentSchemaID : string := "harness-mcp-document-v2".
Definition maximumServers : Z := 50.
Definition nativeMCPTimeoutMetadataMS : Z := 30000.

Record Inference := mkInference { in_model : option string; in_speed : option string; in_effort : option string }.
#[export] Instance inference_eta : Eta Inference := fun i => mkInference (in_model i) (in_speed i) (in_effort i).
#[export] Instance Inference_eq_dec : EqDecision Inference.
Proof. solve_decision. Defined.
Record MCPAuth := mkMCPAuth { au_kind : string; au_configured : bool; au_action : string; au_secret : string }.
Record MCPServer := mkMCPServer {
  sv_id : string; sv_name : string; sv_enabled : bool; sv_transport : string; sv_url : string; sv_timeout : Z;
  sv_auth : MCPAuth }.
#[export] Instance mcpServer_eta : Eta MCPServer := fun s =>
  mkMCPServer (sv_id s) (sv_name s) (sv_enabled s) (sv_transport s) (sv_url s) (sv_timeout s) (sv_auth s).
(** Slices may be nil. *)
Record MCPDocument := mkMCPDocument { doc_schema : string; doc_servers : option (list MCPServer) }.
Record SettingsSnapshot := mkSnapshot {
  sn_inference : Inference; sn_document : MCPDocument; sn_servers : option (list MCPServer) }.
Record SettingsCapabilities := mkSettingsCapabilities {
  sc_provider : string; sc_catalog : string; sc_model_default : string; sc_speed_default : string; sc_reasoning_default : string;
  sc_check : string; sc_timeout : string; sc_restart : string; sc_schema : string; sc_transports : list string }.
Record SettingsOperation := mkSettingsOperation {
  so_id : string; so_command : string; so_target : Z; so_previous : Z; so_status : string; so_phase : string; so_reason : string;
  so_created : string; so_updated : string }.
#[export] Instance settingsOperation_eta : Eta SettingsOperation := fun o =>
  mkSettingsOperation (so_id o) (so_command o) (so_target o) (so_previous o) (so_status o) (so_phase o) (so_reason o)
    (so_created o) (so_updated o).
Record SettingsEnvelope := mkSettingsEnvelope {
  se_schema : string; se_node : string; se_draft_revision : Z; se_applied_revision : Z; se_draft : SettingsSnapshot;
  se_applied : SettingsSnapshot; se_capabilities : SettingsCapabilities; se_operation : option SettingsOperation }.
Record PutRequest := mkPut { pr_expected : Z; pr_draft : SettingsSnapshot }.
Record ApplyRequest := mkApply { ar_command : string; ar_expected : Z; ar_target : Z }.
Record MCPCheckRequest := mkMCPCheckRequest { kr_expected : Z; kr_server : string }.
Record MCPCheck := mkMCPCheck {
  ck_schema : string; ck_node : string; ck_server : string; ck_at : string; ck_state : string; ck_reason : string; ck_tools : option Z }.
Record SettingsError := mkSettingsError { st_status : Z; st_code : string }.
Definition invalid : SettingsError := mkSettingsError 400 "invalid_request".
Definition notFound : SettingsError := mkSettingsError 404 "not_found".
Definition unavailable : SettingsError := mkSettingsError 503 "settings_unavailable".

(** What the native worker is configured with. *)
Record RuntimeMCPServer := mkRuntimeServer { rs_id : string; rs_transport : string; rs_url : string; rs_token : string }.
#[export] Instance RuntimeMCPServer_eq_dec : EqDecision RuntimeMCPServer.
Proof. solve_decision. Defined.
Record RuntimeConfig := mkRuntimeConfig { rt_model : string; rt_params : gmap string string; rt_servers : list RuntimeMCPServer }.
#[export] Instance RuntimeConfig_eq_dec : EqDecision RuntimeConfig.
Proof. solve_decision. Defined.
Record NativeParameter := mkParameter { np_id : string; np_values : list string }.
Record NativeVariant := mkVariant { nv_params : gmap string string; nv_default : bool }.
Record NativeModel := mkModel { nm_id : string; nm_name : string; nm_parameters : list NativeParameter; nm_variants : list NativeVariant }.

(** ** Private settings *)
Record privateMCP := mkPrivateMCP {
  pm_id : string; pm_name : string; pm_enabled : bool; pm_transport : string; pm_url : string; pm_timeout : Z; pm_token : string }.
#[export] Instance privateMCP_eta : Eta privateMCP := fun p =>
  mkPrivateMCP (pm_id p) (pm_name p) (pm_enabled p) (pm_transport p) (pm_url p) (pm_timeout p) (pm_token p).
Record privateSnapshot := mkPrivate { ps_servers : option (list privateMCP); ps_inference : Inference }.
#[export] Instance privateSnapshot_eta : Eta privateSnapshot := fun p => mkPrivate (ps_servers p) (ps_inference p).
Definition servers_of (p : privateSnapshot) : list privateMCP := default [] (ps_servers p).
Record operationRecord := mkOperationRecord {
  or_operation : SettingsOperation; or_expected : Z; or_target_revision : Z; or_target : privateSnapshot }.
#[export] Instance operationRecord_eta : Eta operationRecord := fun r =>
  mkOperationRecord (or_operation r) (or_expected r) (or_target_revision r) (or_target r).
Record diskState := mkDisk {
  ds_draft_revision : Z; ds_applied_revision : Z; ds_draft : privateSnapshot; ds_applied : privateSnapshot;
  ds_operations : option (gmap string operationRecord) }.
#[export] Instance diskState_eta : Eta diskState := fun s =>
  mkDisk (ds_draft_revision s) (ds_applied_revision s) (ds_draft s) (ds_applied s) (ds_operations s).
Definition records (s : diskState) : gmap string operationRecord := default ∅ (ds_operations s).

(** ** [json.Marshal] *)
Definition omit_empty (name : string) (s : string) : list (string * json) := if s =s "" then [] else [(name, JStr s)].
Definition Inference_json (i : Inference) : json := JObj
  [("modelId", pointer_json (in_model i)); ("speedMode", pointer_json (in_speed i)); ("reasoningEffort", pointer_json (in_effort i))].
Definition privateMCP_json (p : privateMCP) : json := JObj
  ([("id", JStr (pm_id p)); ("name", JStr (pm_name p)); ("enabled", JBool (pm_enabled p)); ("transport", JStr (pm_transport p));
    ("url", JStr (pm_url p)); ("timeoutMs", JInt (pm_timeout p))] ++ omit_empty "bearerToken" (pm_token p)).
Definition slice_json {A} (f : A -> json) (l : option (list A)) : json :=
  match l with Some l => JArr (List.map f l) | None => JNull end.
Definition privateSnapshot_json (p : privateSnapshot) : json := JObj
  [("mcpServers", slice_json privateMCP_json (ps_servers p)); ("inference", Inference_json (ps_inference p))].
Definition SettingsOperation_json (o : SettingsOperation) : json := JObj
  ([("operationId", JStr (so_id o)); ("commandId", JStr (so_command o)); ("targetRevision", JInt (so_target o));
    ("previousRevision", JInt (so_previous o)); ("status", JStr (so_status o)); ("phase", JStr (so_phase o))]
   ++ omit_empty "reasonCode" (so_reason o) ++ [("createdAt", JStr (so_created o)); ("updatedAt", JStr (so_updated o))]).
Definition operationRecord_json (r : operationRecord) : json := JObj
  [("operation", SettingsOperation_json (or_operation r)); ("expectedRevision", JInt (or_expected r));
   ("targetRevision", JInt (or_target_revision r)); ("target", privateSnapshot_json (or_target r))].
Definition diskState_json (s : diskState) : json := JObj
  [("draftRevision", JInt (ds_draft_revision s)); ("appliedRevision", JInt (ds_applied_revision s));
   ("draft", privateSnapshot_json (ds_draft s)); ("applied", privateSnapshot_json (ds_applied s));
   ("operations", match ds_operations s with Some m => map_json operationRecord_json m | None => JNull end)].

(** ** [decodeDiskState]: a member of no field is an error *)
Section Slices.
Context {A : Type} (element : json -> option A).
Definition into_slice (v : json) : option (option (list A)) :=
  match v with JNull => Some None | JArr l => l' ← sequence (List.map element l); Some (Some l') | _ => None end.
End Slices.
Definition set_inference (name : string) (v : json) (i : Inference) : option Inference :=
  if name =s "MODELID" then x ← into_pointer v; Some (i <| in_model := x |>)
  else if name =s "SPEEDMODE" then x ← into_pointer v; Some (i <| in_speed := x |>)
  else if name =s "REASONINGEFFORT" then x ← into_pointer v; Some (i <| in_effort := x |>)
  else None.
Definition set_privateMCP (name : string) (v : json) (p : privateMCP) : option privateMCP :=
  if name =s "ID" then x ← into_string v (pm_id p); Some (p <| pm_id := x |>)
  else if name =s "NAME" then x ← into_string v (pm_name p); Some (p <| pm_name := x |>)
  else if name =s "ENABLED" then x ← into_bool v (pm_enabled p); Some (p <| pm_enabled := x |>)
  else if name =s "TRANSPORT" then x ← into_string v (pm_transport p); Some (p <| pm_transport := x |>)
  else if name =s "URL" then x ← into_string v (pm_url p); Some (p <| pm_url := x |>)
  else if name =s "TIMEOUTMS" then x ← into_int v (pm_timeout p); Some (p <| pm_timeout := x |>)
  else if name =s "BEARERTOKEN" then x ← into_string v (pm_token p); Some (p <| pm_token := x |>)
  else None.
Definition no_mcp : privateMCP := mkPrivateMCP "" "" false "" "" 0 "".
Definition no_inference : Inference := mkInference None None None.
Definition no_snapshot : privateSnapshot := mkPrivate None no_inference.
Definition set_privateSnapshot (name : string) (v : json) (p : privateSnapshot) : option privateSnapshot :=
  if name =s "MCPSERVERS" then x ← into_slice (fun v => into_struct set_privateMCP v no_mcp) v; Some (p <| ps_servers := x |>)
  else if name =s "INFERENCE" then x ← into_struct set_inference v (ps_inference p); Some (p <| ps_inference := x |>)
  else None.
Definition set_settingsOperation (name : string) (v : json) (o : SettingsOperation) : option SettingsOperation :=
  if name =s "OPERATIONID" then x ← into_string v (so_id o); Some (o <| so_id := x |>)
  else if name =s "COMMANDID" then x ← into_string v (so_command o); Some (o <| so_command := x |>)
  else if name =s "TARGETREVISION" then x ← into_int v (so_target o); Some (o <| so_target := x |>)
  else if name =s "PREVIOUSREVISION" then x ← into_int v (so_previous o); Some (o <| so_previous := x |>)
  else if name =s "STATUS" then x ← into_string v (so_status o); Some (o <| so_status := x |>)
  else if name =s "PHASE" then x ← into_string v (so_phase o); Some (o <| so_phase := x |>)
  else if name =s "REASONCODE" then x ← into_string v (so_reason o); Some (o <| so_reason := x |>)
  else if name =s "CREATEDAT" then x ← into_string v (so_created o); Some (o <| so_created := x |>)
  else if name =s "UPDATEDAT" then x ← into_string v (so_updated o); Some (o <| so_updated := x |>)
  else None.
Definition no_settings_operation : SettingsOperation := mkSettingsOperation "" "" 0 0 "" "" "" "" "".
Definition set_operationRecord (name : string) (v : json) (r : operationRecord) : option operationRecord :=
  if name =s "OPERATION" then x ← into_struct set_settingsOperation v (or_operation r); Some (r <| or_operation := x |>)
  else if name =s "EXPECTEDREVISION" then x ← into_int v (or_expected r); Some (r <| or_expected := x |>)
  else if name =s "TARGETREVISION" then x ← into_int v (or_target_revision r); Some (r <| or_target_revision := x |>)
  else if name =s "TARGET" then x ← into_struct set_privateSnapshot v (or_target r); Some (r <| or_target := x |>)
  else None.
Definition no_record : operationRecord := mkOperationRecord no_settings_operation 0 0 no_snapshot.
Definition into_records (v : json) (m : option (gmap string operationRecord)) : option (option (gmap string operationRecord)) :=
  match v with
  | JNull => Some None
  | JObj l => x ← map_members (fun v => into_struct set_operationRecord v no_record) l (default ∅ m); Some (Some x)
  | _ => None
  end.
Definition set_diskState (name : string) (v : json) (s : diskState) : option diskState :=
  if name =s "DRAFTREVISION" then x ← into_int v (ds_draft_revision s); Some (s <| ds_draft_revision := x |>)
  else if name =s "APPLIEDREVISION" then x ← into_int v (ds_applied_revision s); Some (s <| ds_applied_revision := x |>)
  else if name =s "DRAFT" then x ← into_struct set_privateSnapshot v (ds_draft s); Some (s <| ds_draft := x |>)
  else if name =s "APPLIED" then x ← into_struct set_privateSnapshot v (ds_applied s); Some (s <| ds_applied := x |>)
  else if name =s "OPERATIONS" then x ← into_records v (ds_operations s); Some (s <| ds_operations := x |>)
  else None.
Definition no_disk : diskState := mkDisk 0 0 no_snapshot no_snapshot None.
Definition decodeDiskState (v : json) : option diskState := into_struct set_diskState v no_disk.

(** ** Texts and patterns *)
Definition is_identifier_char (c : ascii) : bool := is_alnum c || existsb (is_char c) ["."; "_"; "-"]%char.
Definition identifierPattern (s : string) : bool :=
  match s with
  | EmptyString => false
  | String c s' => is_alnum c && all_chars is_identifier_char s' && (byte_length s <=? 64)
  end.
(** This package's [uuidPattern] admits version 4 only. *)
Definition uuid4Pattern (s : string) : bool := uuidPattern s && (String.substring 14 1 s =s "4").
Definition one_of (s : string) (l : list string) : bool := List.existsb (String.eqb s) l.
(** The runes [strings.TrimSpace] cuts off. *)
Definition bytes_of (l : list N) : string := string_of_list_ascii (List.map ascii_of_N l).
Definition space_runes : list string := List.map bytes_of
  ([[9]; [10]; [11]; [12]; [13]; [32]; [194; 133]; [194; 160]; [225; 154; 128]; [226; 128; 168]; [226; 128; 169]; [226; 128; 175];
    [226; 129; 159]; [227; 128; 128]] ++ List.map (fun n => [226; 128; 128 + N.of_nat n]) (seq 0 11))%N.
Definition has_suffix (suffix s : string) : bool :=
  let n := String.length s in let k := String.length suffix in
  Nat.leb k n && (String.substring (n - k) k s =s suffix).
Definition trimmed (s : string) : bool := negb (List.existsb (fun r => String.prefix r s || has_suffix r s) space_runes).
Definition contains_byte (bytes : list N) (s : string) : bool :=
  existsb (fun c => List.existsb (N.eqb (N_of_ascii c)) bytes) (list_ascii_of_string s).
Definition validText (value : string) (maximum : Z) : bool :=
  negb (value =s "") && (byte_length value <=? maximum) && trimmed value && negb (contains_byte [0%N] value).
Definition valid_text_pointer (value : option string) (maximum : Z) : bool :=
  match value with Some s => validText s maximum | None => true end.
Definition validSpeed (value : string) : bool := one_of value ["off"; "on"; "false"; "true"].
Definition validOperationStatus (value : string) : bool := one_of value ["pending"; "succeeded"; "failed"; "cancelled"].
Definition validOperationPhase (value : string) : bool :=
  one_of value ["preflight"; "draining"; "restarting"; "verifying"; "complete"].

(** ** Endpoints: what [url.Parse] makes of a text
    The check admits a text whose scheme is http or https, with a host, no
    userinfo and no fragment.  Which literals between brackets are hosts
    depends on the release of the library: [bracketed_host] decides it. *)
Class SettingsNode := {
  settings_node : string;             (** [nodeID] *)
  catalog_source : bool;              (** [catalogSource != nil] *)
  runtime_bound : bool;               (** [BindRuntime] was given a gate and an applier *)
  bracketed_host : string -> bool }.
(** Cuts at the first occurrence of a byte; [None] when there is none. *)
Fixpoint cut (c : ascii) (s : string) : string * option string :=
  match s with
  | EmptyString => ("", None)
  | String d s' => if (d =? c)%char then ("", Some s') else let '(a, b) := cut c s' in (String d a, b)
  end.
Definition is_hex_digit (c : ascii) : bool := is_digit c || char_between "a" "f" c || char_between "A" "F" c.
(** Escapes are two hexadecimal digits. *)
Fixpoint well_escaped (s : string) : bool :=
  match s with
  | EmptyString => true
  | String "%" (String a (String b s')) => is_hex_digit a && is_hex_digit b && well_escaped s'
  | String "%" _ => false
  | String _ s' => well_escaped s'
  end.
(** In a host only bytes outside ASCII may be escaped, and [%25]. *)
Definition is_host_char (c : ascii) : bool :=
  (128 <=? N_of_ascii c)%N || is_alnum c
  || List.existsb (is_char c) ["-"; "_"; "."; "~"; "!"; "$"; "&"; "'"; "("; ")"; "*"; "+"; ","; ";"; "="; ":"; "["; "]"; "<"; ">"]%char || (N_of_ascii c =? 34)%N.
Fixpoint well_escaped_host (s : string) : bool :=
  match s with
  | EmptyString => true
  | String "%" (String a (String b s')) =>
      is_hex_digit a && is_hex_digit b && (negb (char_between "0" "7" a) || ((a =? "2")%char && (b =? "5")%char)) && well_escaped_host s'
  | String "%" _ => false
  | String c s' => is_host_char c && well_escaped_host s'
  end.
(** What follows the last colon, if there is one. *)
Fixpoint after_last_colon (s : string) : option string :=
  match s with
  | EmptyString => None
  | String c s' => match after_last_colon s' with Some p => Some p | None => if (c =? ":")%char then Some s' else None end
  end.

Section Validation.
Context `{SettingsNode}.
(** [parseHost] accepts it. *)
Definition valid_host (host : string) : bool :=
  if String.prefix "[" host then bracketed_host host
  else match after_last_colon host with Some port => all_chars is_digit port | None => true end && well_escaped_host host.
(** The four conditions on a parsed URL; a fragment that is not empty is
    refused whatever it unescapes to. *)
Definition valid_endpoint (text : string) : bool :=
  let '(u, fragment) := cut "#" text in
  negb (contains_byte (N.of_nat <$> (seq 0 32 ++ [127%nat])) u)
  && match fragment with Some (String _ _) => false | _ => true end
  && match cut ":" u with
     | (scheme, Some rest) =>
         one_of (fold_name scheme) ["HTTP"; "HTTPS"] && all_chars is_alnum scheme
         && (let '(hierarchy, _) := cut "?" rest in
             match hierarchy with
             | String "/" (String "/" authority_path) =>
                 let '(authority, path) := cut "/" authority_path in
                 negb (authority =s "") && negb (contains_byte [64%N] authority) && valid_host authority
                 && match path with Some p => well_escaped p | None => true end
             | _ => false
             end)
     | _ => false
     end.

(** ** Validity of what is stored *)
Definition validPrivateMCP (p : privateMCP) : bool :=
  identifierPattern (pm_id p) && validText (pm_name p) 200 && one_of (pm_transport p) ["streamable_http"; "sse"]
  && (100 <=? pm_timeout p) && (pm_timeout p <=? 120000) && (byte_length (pm_token p) <=? 16 * 1024)
  && negb (contains_byte [13; 10; 0]%N (pm_token p)) && valid_endpoint (pm_url p).
Fixpoint valid_servers (l : list privateMCP) (seen : gset string) : bool :=
  match l with
  | [] => true
  | p :: l' => negb (bool_decide (pm_id p ∈ seen)) && validPrivateMCP p && valid_servers l' ({[pm_id p]} ∪ seen)
  end.
Definition validPrivateSnapshot (p : privateSnapshot) : bool :=
  valid_text_pointer (in_model (ps_inference p)) 200 && (Z.of_nat (List.length (servers_of p)) <=? maximumServers)
  && match in_speed (ps_inference p) with Some s => validSpeed s | None => true end
  && valid_text_pointer (in_effort (ps_inference p)) 100 && valid_servers (servers_of p) ∅.
Definition valid_time (text : string) : bool := time_parse text.
Definition valid_record (commandID : string) (r : operationRecord) : bool :=
  let o := or_operation r in
  identifierPattern commandID && (so_command o =s commandID) && uuid4Pattern (so_id o)
  && (1 <=? or_expected r) && (1 <=? or_target_revision r) && (so_target o =? or_target_revision r)
  && validPrivateSnapshot (or_target r) && (1 <=? so_previous o) && validOperationStatus (so_status o)
  && validOperationPhase (so_phase o) && ((so_reason o =s "") || identifierPattern (so_reason o))
  && negb (so_created o =s "") && negb (so_updated o =s "") && valid_time (so_created o) && valid_time (so_updated o).
Definition has_model (i : Inference) : bool := match in_model i with Some _ => true | None => false end.
Definition validDiskState (s : diskState) : bool :=
  (1 <=? ds_draft_revision s) && (1 <=? ds_applied_revision s) && (ds_applied_revision s <=? ds_draft_revision s)
  && has_model (ps_inference (ds_applied s))
  && match ds_operations s with
     | None => false
     | Some m =>
         (Z.of_nat (size m) <=? 4096) && validPrivateSnapshot (ds_draft s) && validPrivateSnapshot (ds_applied s)
         && forallb (fun p => valid_record p.1 p.2) (map_to_list m)
     end.

(** ** Drafts *)
Definition nativeSpeed (value : string) : string :=
  if value =s "off" then "false" else if value =s "on" then "true" else value.
Definition publicSpeed (value : string) : string :=
  if value =s "false" then "off" else if value =s "true" then "on" else value.
Definition migrateInference (i : Inference) : Inference := i <| in_speed ::= fmap publicSpeed |>.
Definition migrateSnapshot (p : privateSnapshot) : privateSnapshot := p <| ps_inference ::= migrateInference |>.

(** The secret of a server, [None] if its request is not acceptable. *)
Definition draft_secret (auth : MCPAuth) (prior : string) : option string :=
  if au_kind auth =s "none" then
    if negb (au_secret auth =s "") || negb (au_action auth =s "remove") then None else Some ""
  else if au_kind auth =s "bearer" then
    if au_action auth =s "keep" then if (prior =s "") || negb (au_secret auth =s "") then None else Some prior
    else if au_action auth =s "replace" then
      if negb (validText (au_secret auth) (16 * 1024)) || contains_byte [13; 10]%N (au_secret auth) then None else Some (au_secret auth)
    else None
  else None.
Definition prior_token (previous : privateSnapshot) (id : string) : string :=
  match list_find (fun p => pm_id p = id) (reverse (servers_of previous)) with Some (_, p) => pm_token p | None => "" end.
Fixpoint draft_servers (previous : privateSnapshot) (l : list MCPServer) (seen : gset string) : option (list privateMCP) :=
  match l with
  | [] => Some []
  | s :: l' =>
      if bool_decide (sv_id s ∈ seen) || negb (identifierPattern (sv_id s)) || negb (validText (sv_name s) 200)
         || negb (one_of (sv_transport s) ["streamable_http"; "sse"]) || (sv_timeout s <? 100) || (120000 <? sv_timeout s) then None else
      if negb (valid_endpoint (sv_url s)) then None else
      token ← draft_secret (sv_auth s) (prior_token previous (sv_id s));
      rest ← draft_servers previous l' ({[sv_id s]} ∪ seen);
      Some (mkPrivateMCP (sv_id s) (sv_name s) (sv_enabled s) (sv_transport s) (sv_url s) (sv_timeout s) token :: rest)
  end.
Definition sort_servers (l : list privateMCP) : list privateMCP :=
  List.map snd (sort_by_key (List.map (fun p => (pm_id p, p)) l)).
(** The servers of a draft: the document's, or those of a request of the first
    version. *)
Definition requested_servers (input : SettingsSnapshot) : option (option (list MCPServer)) :=
  let d := sn_document input in
  if negb (doc_schema d =s "") || match doc_servers d with Some _ => true | None => false end then
    if negb (doc_schema d =s MCPDocumentSchemaID) || match sn_servers input with Some _ => true | None => false end
       || match doc_servers d with Some _ => false | None => true end then None
    else Some (doc_servers d)
  else Some (sn_servers input).
Definition validateDraft (input : SettingsSnapshot) (previous : privateSnapshot) : SettingsError + privateSnapshot :=
  match requested_servers input with
  | None => inl invalid
  | Some servers =>
      let servers := default [] servers in
      let i := sn_inference input in
      if negb (valid_text_pointer (in_model i) 200) || (maximumServers <? Z.of_nat (List.length servers))
         || negb (valid_text_pointer (in_speed i) 100) || negb (valid_text_pointer (in_effort i) 100) then inl invalid else
      if match in_speed i with Some s => negb (validSpeed s) | None => false end then inl invalid else
      match draft_servers previous servers ∅ with
      | None => inl invalid
      | Some l => inr (mkPrivate (Some (sort_servers l)) (migrateInference i))
      end
  end.
End Validation.

(** ** What is shown, and what the worker is given *)
Definition publicServer (p : privateMCP) : MCPServer :=
  mkMCPServer (pm_id p) (pm_name p) (pm_enabled p) (pm_transport p) (pm_url p) (pm_timeout p)
    (mkMCPAuth (if pm_token p =s "" then "none" else "bearer") (negb (pm_token p =s "")) "" "").
Definition publicSnapshot (p : privateSnapshot) : SettingsSnapshot :=
  mkSnapshot (ps_inference p) (mkMCPDocument MCPDocumentSchemaID (Some (List.map publicServer (servers_of p)))) None.
(** The operation created last, as texts compare; which of several with the
    same text is shown depends on the order of the map. *)
Definition string_gtb (a b : string) : bool := negb (key_le a b).
Definition operations_of (s : diskState) : gmap string SettingsOperation := or_operation <$> records s.
Definition latest_operation (m : gmap string SettingsOperation) : option SettingsOperation :=
  foldl (fun o p => match o with
    | Some shown => if string_gtb (so_created p.2) (so_created shown) then Some p.2 else o
    | None => Some p.2
    end) None (map_to_list m).
Definition settings_capabilities `{SettingsNode} : SettingsCapabilities :=
  mkSettingsCapabilities "cursor" (if catalog_source then "available" else "unavailable") "unsupported" "supported" "supported"
    "supported" "unsupported" (if runtime_bound then "supported" else "unsupported") MCPDocumentSchemaID ["streamable_http"; "sse"].
Definition settings_envelope `{SettingsNode} (s : diskState) (operation : option SettingsOperation) : SettingsEnvelope :=
  mkSettingsEnvelope SettingsSchemaID settings_node (ds_draft_revision s) (ds_applied_revision s) (publicSnapshot (ds_draft s))
    (publicSnapshot (ds_applied s)) settings_capabilities
    (match operation with Some o => Some o | None => latest_operation (operations_of s) end).

Definition optional_param (name : string) (value : option string) (m : gmap string string) : gmap string string :=
  match value with Some v => <[name := v]> m | None => m end.
Definition runtimeConfig (p : privateSnapshot) : RuntimeConfig :=
  let i := ps_inference p in
  mkRuntimeConfig (default "" (in_model i))
    (optional_param "reasoning_effort" (in_effort i) (optional_param "fast" (nativeSpeed <$> in_speed i) ∅))
    (List.map (fun s => mkRuntimeServer (pm_id s) (pm_transport s) (pm_url s) (pm_token s)) (List.filter pm_enabled (servers_of p))).

(** ** [validateRuntime]: [models] is what the catalog answers; the reason of
    a refusal *)
Definition semantic (key : string) : bool := one_of key ["fast"; "reasoning_effort"].
Definition semantic_params (m : gmap string string) : gmap string string := filter (fun p => semantic p.1 = true) m.
Definition supported_param (model : NativeModel) (id value : string) : bool :=
  List.existsb (fun p => (np_id p =s id) && one_of value (np_values p)) (nm_parameters model).
Definition default_params (model : NativeModel) : gmap string string :=
  match List.find nv_default (nm_variants model) with Some v => semantic_params (nv_params v) | None => ∅ end.
Definition effective_params (model : NativeModel) (params : gmap string string) : gmap string string := params ∪ default_params model.
Definition variant_matches (effective : gmap string string) (v : NativeVariant) : bool :=
  Nat.eqb (size (semantic_params (nv_params v))) (size effective)
  && forallb (fun p => default "" (nv_params v !! p.1) =s p.2) (map_to_list effective).
Definition validate_model (model : NativeModel) (params : gmap string string) : option string :=
  if bool_decide (params = ∅)
     && (List.existsb nv_default (nm_variants model) || Nat.eqb (List.length (nm_variants model)) 0) then None else
  if negb (forallb (fun p => supported_param model p.1 p.2) (map_to_list params)) then Some "model_parameter_unsupported" else
  if List.existsb (variant_matches (effective_params model params)) (nm_variants model) then None
  else Some "model_parameters_incompatible".
Definition validateRuntime `{SettingsNode} (target : privateSnapshot) (models : option (list NativeModel)) : option string :=
  if negb (has_model (ps_inference target)) then Some "model_default_unsupported" else
  if List.existsb (fun p => pm_enabled p && negb (pm_timeout p =? nativeMCPTimeoutMetadataMS)) (servers_of target)
  then Some "mcp_timeout_unsupported" else
  if negb catalog_source then Some "catalog_unavailable" else
  match models with
  | None => Some "catalog_unavailable"
  | Some models =>
      let config := runtimeConfig target in
      match List.find (fun m => nm_id m =s rt_model config) models with
      | None => Some "model_unavailable"
      | Some model => validate_model model (rt_params config)
      end
  end.

(** ** [ModelCatalog] *)
Record Combination := mkCombination { cb_speed : option string; cb_effort : option string; cb_default : bool }.
Record Mode := mkMode { md_id : string; md_default : bool }.
Record Model := mkCatalogModel {
  mo_id : string; mo_name : string; mo_efforts : list Mode; mo_speeds : list Mode; mo_combinations : list Combination }.
Record Catalog := mkCatalog {
  ca_schema : string; ca_node : string; ca_revision : string; ca_runtime : string; ca_at : string; ca_state : string;
  ca_models : list Model; ca_reason : string }.
Definition combination_of (v : NativeVariant) : Combination :=
  mkCombination (publicSpeed <$> nv_params v !! "fast") (nv_params v !! "reasoning_effort") (nv_default v).
(** The modes of one parameter: the values of the variants, each once, in the
    order of the variants. *)
Fixpoint parameter_modes (p : NativeParameter) (variants : list NativeVariant) (seen : gset string) : list Mode :=
  match variants with
  | [] => []
  | v :: l =>
      match nv_params v !! np_id p with
      | Some value =>
          if bool_decide (value ∈ seen) || negb (one_of value (np_values p)) then parameter_modes p l seen
          else mkMode (if np_id p =s "fast" then publicSpeed value else value) (nv_default v) :: parameter_modes p l ({[value]} ∪ seen)
      | None => parameter_modes p l seen
      end
  end.
Definition modes_of (id : string) (m : NativeModel) : list Mode :=
  List.concat (List.map (fun p => if np_id p =s id then parameter_modes p (nm_variants m) ∅ else []) (nm_parameters m)).
Definition catalog_model (m : NativeModel) : Model :=
  mkCatalogModel (nm_id m) (nm_name m) (modes_of "reasoning_effort" m) (modes_of "fast" m) (List.map combination_of (nm_variants m)).
Definition sort_models (l : list Model) : list Model := List.map snd (sort_by_key (List.map (fun m => (mo_id m, m)) l)).
Definition ModelCatalog `{SettingsNode} (runtime : string) (ctx_ended : bool) (nodeID : string) (now : Z)
    (models : option (list NativeModel * string)) : SettingsError + Catalog :=
  if ctx_ended || negb (nodeID =s settings_node) then inl notFound else
  let catalog := mkCatalog ModelCatalogSchemaID nodeID "" runtime (timestamp now) "unavailable" [] in
  if negb catalog_source then inr (catalog "provider_auth_required") else
  match models with
  | None => inr (catalog "catalog_unavailable")
  | Some (native, revision) =>
      inr (mkCatalog ModelCatalogSchemaID nodeID revision runtime (timestamp now) "fresh" (sort_models (List.map catalog_model native)) "")
  end.
