(* ===== verification/SettingsManager.v ===== *)
(** * The node settings at work, [nodesettings/manager.go]
    The operations of the manager, each a section under its mutex that reads
    the clock and writes the state file at most once: what the clock, the
    random source and the file system answer are arguments.  [executeApply]
    lets the mutex go between its sections: [apply_step] interleaves them with
    every other operation, with crashes and restarts, and with the worker
    behind the interface [RuntimeApplier]. *)
From stdpp Require Import base tactics list strings gmap.
From Stdlib Require Import ZArith Lia Ascii String.
From S2P Require Import Prelude Json Wire Instant TranscriptView Auth Settings.
Open Scope string_scope.
Open Scope list_scope.
Open Scope Z_scope.
Open Scope harness_scope.

(** ** State
    A file is what [encoding/json] reads from its bytes, and how many they are. *)
Inductive settings_file := NoSettings | UnreadableSettings | Settings (size : Z) (v : json).
Record SettingsManager := mkSettingsManager { sm_state : diskState; sm_file : settings_file }.
#[export] Instance settingsManager_eta : Eta SettingsManager := fun m => mkSettingsManager (sm_state m) (sm_file m).
Definition settings_text (s : diskState) : settings_file := Settings (byte_length (marshal (diskState_json s))) (diskState_json s).
(** [persistLocked] of the state: [true] is an error. *)
Definition persisted (w : file_write) (s : diskState) (f : settings_file) : bool * settings_file :=
  match w with Written => (false, settings_text s) | Unsynced => (true, settings_text s) | Unwritten => (true, f) end.
Definition put_record (id : string) (r : operationRecord) (s : diskState) : diskState := s <| ds_operations := Some (<[id := r]> (records s)) |>.
Definition apply_pending (r : operationRecord) : bool := so_status (or_operation r) =s "pending".

Section Manager.
Context `{SettingsNode}.

(** ** [Open]: [None] is an error.  [clock] reads the time once for each record. *)
Definition initial_state (model : string) : diskState :=
  let p := mkPrivate None (mkInference (Some model) None None) in mkDisk 1 1 p p (Some ∅).
Definition interrupted_record (now : string) (r : operationRecord) : operationRecord :=
  if apply_pending r then r <| or_operation ::= fun o => o <| so_status := "failed" |> <| so_reason := "apply_interrupted" |> <| so_updated := now |> |>
  else r.
Definition reopened (clock : string -> Z) (loaded : diskState) : diskState :=
  let migrated r := r <| or_target ::= migrateSnapshot |> in
  loaded <| ds_draft ::= migrateSnapshot |> <| ds_applied ::= migrateSnapshot |>
         <| ds_operations ::= fmap (map_imap (fun id r => Some (interrupted_record (timestamp (clock id)) (migrated r)))) |>.
Definition OpenSettings (model : string) (clock : string -> Z) (w : file_write) (f : settings_file) : option diskState * settings_file :=
  if (settings_node =s "") || (model =s "") then (None, f) else
  match (match f with
         | Settings size v =>
             if 1024 * 1024 <? size then None else
             loaded ← decodeDiskState v; if validDiskState loaded then Some (reopened clock loaded) else None
         | UnreadableSettings => None
         | NoSettings => Some (initial_state model)
         end) with
  | None => (None, f)
  | Some s => let '(err, f') := persisted w s f in (if err : bool then None else Some s, f')
  end.

(** ** Reads *)
Definition SettingsAnswer : Type := SettingsError + SettingsEnvelope.
Definition GetSettings (ctx_ended : bool) (nodeID : string) (s : diskState) : SettingsAnswer :=
  if ctx_ended || negb (nodeID =s settings_node) then inl notFound else inr (settings_envelope s None).
Definition GetOperation (ctx_ended : bool) (nodeID operationID : string) (s : diskState) : SettingsAnswer :=
  if ctx_ended || negb (nodeID =s settings_node) || (operationID =s "") then inl notFound else
  match List.find (fun p => so_id p.2 =s operationID) (map_to_list (operations_of s)) with
  | Some (_, o) => inr (settings_envelope s (Some o))
  | None => inl notFound
  end.
Definition AppliedRuntimeConfig (s : diskState) : RuntimeConfig := runtimeConfig (ds_applied s).
(** [probe] is what [probeMCP] finds: the number of tools, or a reason. *)
Definition CheckMCP (ctx_ended : bool) (nodeID : string) (request : MCPCheckRequest) (now : Z) (probe : privateMCP -> Z + string) (s : diskState) :
    SettingsError + MCPCheck :=
  if ctx_ended || negb (nodeID =s settings_node) || negb (identifierPattern (kr_server request)) then inl invalid else
  if negb (kr_expected request =? ds_draft_revision s) then inl (mkSettingsError 409 "revision_conflict") else
  match List.find (fun p => pm_id p =s kr_server request) (servers_of (ds_draft s)) with
  | None => inl notFound
  | Some selected =>
      let check := mkMCPCheck SettingsSchemaID nodeID (kr_server request) (timestamp now) in
      inr match probe selected with
        | inr reason => check "unavailable" reason None
        | inl count => check "connected" "" (if pm_transport selected =s "streamable_http" then Some count else None)
        end
  end.

(** ** [PutDraft] and [Apply] *)
Definition PutDraft (ctx_ended : bool) (nodeID : string) (request : PutRequest) (w : file_write) (m : SettingsManager) :
    SettingsAnswer * SettingsManager :=
  if ctx_ended || negb (nodeID =s settings_node) then (inl notFound, m) else
  let s := sm_state m in
  if negb (pr_expected request =? ds_draft_revision s) then (inl (mkSettingsError 409 "revision_conflict"), m) else
  match validateDraft (pr_draft request) (ds_draft s) with
  | inl issue => (inl issue, m)
  | inr draft =>
      let s' := s <| ds_draft_revision ::= Z.succ |> <| ds_draft := draft |> in
      let '(err, f) := persisted w s' (sm_file m) in
      if (err : bool) then (inl unavailable, mkSettingsManager s f) else (inr (settings_envelope s' None), mkSettingsManager s' f)
  end.
(** Beside the answer, whether [executeApply] was launched. *)
Definition Apply (ctx_ended : bool) (nodeID : string) (request : ApplyRequest) (now : Z) (randomID : string) (w : file_write) (m : SettingsManager) :
    SettingsAnswer * bool * SettingsManager :=
  let no e := (inl e, false, m) in
  if ctx_ended || negb (nodeID =s settings_node) || negb (identifierPattern (ar_command request)) then no invalid else
  let s := sm_state m in
  match records s !! ar_command request with
  | Some existing =>
      if negb (or_expected existing =? ar_expected request) || negb (or_target_revision existing =? ar_target request)
      then no (mkSettingsError 409 "command_conflict")
      else (inr (settings_envelope s (Some (or_operation existing))), false, m)
  | None =>
      if negb (ar_expected request =? ds_draft_revision s) || negb (ar_target request =? ds_draft_revision s)
      then no (mkSettingsError 409 "revision_conflict") else
      if negb runtime_bound then no unavailable else
      if existsb (fun p => so_status p.2 =s "pending") (map_to_list (operations_of s)) then no (mkSettingsError 409 "apply_in_progress") else
      let t := timestamp now in
      let operation := mkSettingsOperation randomID (ar_command request) (ds_draft_revision s) (ds_applied_revision s) "pending" "preflight" "" t t in
      let s' := put_record (ar_command request) (mkOperationRecord operation (ar_expected request) (ar_target request) (ds_draft s)) s in
      let '(err, f) := persisted w s' (sm_file m) in
      if (err : bool) then (inl unavailable, false, mkSettingsManager s f)
      else (inr (settings_envelope s' (Some operation)), true, mkSettingsManager s' f)
  end.

(** ** [updateOperation]: [true] is an error *)
Definition no_settings_record : operationRecord := mkOperationRecord no_settings_operation 0 0 no_snapshot.
Definition updateOperation (commandID status phase reason : string) (applied : option privateSnapshot) (now : Z) (w : file_write) (m : SettingsManager) :
    bool * SettingsManager :=
  let s := sm_state m in
  let old := default no_settings_record (records s !! commandID) in
  let updated := timestamp now in
  let settle status reason r := r <| or_operation ::= fun o =>
    o <| so_status := status |> <| so_phase := phase |> <| so_reason := reason |> <| so_updated := updated |> |> in
  let record := settle status reason old in
  let s1 := put_record commandID record s in
  let s2 := match applied with
    | Some a => s1 <| ds_applied := a |> <| ds_applied_revision := or_target_revision record |>
    | None => s1
    end in
  let '(err, f) := persisted w s2 (sm_file m) in
  if (err : bool) then (true, mkSettingsManager (put_record commandID (settle "failed" "settings_unavailable" old) s) f)
  else (false, mkSettingsManager s2 f).
End Manager.

(** ** The worker behind the settings
    [N] is what a worker is built with.  [managed] is what the next one is
    built with, [worker] what the running one was built with. *)
Class RuntimeApplier (W N : Type) := {
  native : RuntimeConfig -> N;
  managed : W -> N;
  worker : W -> option N;
  (** [RestartSettings] of a configuration, its answers [rollbackFailed] and
      [err != nil] *)
  restarts : RuntimeConfig -> W -> bool -> bool -> W -> Prop;
  (** the start of the process, with the applied configuration *)
  boots : RuntimeConfig -> W -> Prop;
  (** a credential is replaced, or dropped, with the gate held throughout *)
  logs_in : W -> W -> Prop;
  logs_out : W -> W -> Prop }.
Class LawfulApplier (W N : Type) `{RuntimeApplier W N} := {
  restarts_ok c w rollbackFailed w' : restarts c w rollbackFailed false w' -> managed w' = native c /\ worker w' = Some (native c);
  restarts_refused c w w' : restarts c w false true w' -> managed w' = managed w /\ worker w' = worker w;
  restarts_lost c w w' : restarts c w true true w' -> managed w' = managed w /\ worker w' = None;
  boots_managed c w : boots c w -> managed w = native c;
  logs_in_worker w w' : logs_in w w' -> managed w' = managed w /\ worker w' = Some (managed w);
  logs_out_worker w w' : logs_out w w' -> managed w' = managed w /\ worker w' = None }.

(** ** [executeApply] as steps
    Where the goroutine of a command stands.  From [Rechecking] on it holds the
    transition gate. *)
Inductive apply_task :=
  | Launched                        (** before it reads its record *)
  | Preflight                       (** before the first [validateRuntime] *)
  | AtGate                          (** before [begin()] returns *)
  | Rechecking (busy : bool)        (** before the second [validateRuntime] *)
  | Announcing (busy : bool)        (** before "draining" is recorded *)
  | Draining (busy : bool)
  | Restarting                      (** before "restarting" is recorded *)
  | Swapping                        (** before [RestartSettings] of the target *)
  | Verifying                       (** before "verifying" is recorded *)
  | Completing                      (** before "succeeded" is recorded *)
  | Restoring                       (** before [RestartSettings] of the previous settings *)
  | Failing (phase reason : string). (** before the failure is recorded, its last section *)
Record task_state := mkTask { tk_at : apply_task; tk_target : privateSnapshot; tk_previous : privateSnapshot; tk_gate : bool }.

(** How the running worker came to be: built from the managed configuration;
    started before the applied settings were read; or left behind by a failed
    restoration. *)
Inductive standing := InStep | Bootstrapped | RestoreFailed.
#[export] Instance standing_eq_dec : EqDecision standing.
Proof. solve_decision. Defined.
Record ApplySystem (W : Type) := mkApplySystem {
  as_running : bool; as_manager : SettingsManager; as_tasks : gmap string task_state; as_gate : option string;
  as_worker : W; as_standing : standing }.
Arguments mkApplySystem {W}.
Arguments as_running {W}.
Arguments as_manager {W}.
Arguments as_tasks {W}.
Arguments as_gate {W}.
Arguments as_worker {W}.
Arguments as_standing {W}.

Section Steps.
Context `{SettingsNode} {W N : Type} `{RuntimeApplier W N} (initial : string).
(** An update of an operation, at some time the clock can show. *)
Definition updates (id status phase reason : string) (applied : option privateSnapshot) (m : SettingsManager) (err : bool) (m' : SettingsManager) : Prop :=
  exists now w, printable now = true /\ updateOperation id status phase reason applied now w m = (err, m').
(** The goroutine goes on at [t]; it ends and lets the gate go. *)
Definition goes (id : string) (t : apply_task) (s : ApplySystem W) (m : SettingsManager) (w : W) (st : standing) : ApplySystem W :=
  mkApplySystem true m (alter (fun k => mkTask t (tk_target k) (tk_previous k) (tk_gate k)) id (as_tasks s)) (as_gate s) w st.
Definition ends (id : string) (s : ApplySystem W) (m : SettingsManager) : ApplySystem W :=
  mkApplySystem true m (delete id (as_tasks s))
    (match as_tasks s !! id with Some k => if tk_gate k then None else as_gate s | None => as_gate s end) (as_worker s) (as_standing s).
Definition at_task (s : ApplySystem W) (id : string) (t : apply_task) (k : task_state) : Prop :=
  as_running s = true /\ as_tasks s !! id = Some k /\ tk_at k = t.
(** It goes on at [t], with nothing else changed. *)
Definition onward (id : string) (t : apply_task) (s : ApplySystem W) : ApplySystem W := goes id t s (as_manager s) (as_worker s) (as_standing s).

Inductive apply_step : ApplySystem W -> ApplySystem W -> Prop :=
  | apply_crash s : apply_step s (mkApplySystem false (as_manager s) ∅ None (as_worker s) (as_standing s))
  | apply_open s clock w s' f' worker' : as_running s = false -> (forall id, printable (clock id) = true) ->
      OpenSettings initial clock w (sm_file (as_manager s)) = (Some s', f') -> boots (AppliedRuntimeConfig s') worker' ->
      apply_step s (mkApplySystem true (mkSettingsManager s' f') ∅ None worker' Bootstrapped)
  | apply_open_fails s clock w f' : as_running s = false -> (forall id, printable (clock id) = true) ->
      OpenSettings initial clock w (sm_file (as_manager s)) = (None, f') ->
      apply_step s (mkApplySystem false (mkSettingsManager (sm_state (as_manager s)) f') ∅ None (as_worker s) (as_standing s))
  | apply_put s ctx node request w a m' : as_running s = true -> PutDraft ctx node request w (as_manager s) = (a, m') ->
      apply_step s (mkApplySystem true m' (as_tasks s) (as_gate s) (as_worker s) (as_standing s))
  | apply_refused s ctx node request now id w a m' : as_running s = true -> printable now = true -> uuid4Pattern id = true ->
      Apply ctx node request now id w (as_manager s) = (a, false, m') ->
      apply_step s (mkApplySystem true m' (as_tasks s) (as_gate s) (as_worker s) (as_standing s))
  | apply_launch s ctx node request now id w a m' : as_running s = true -> printable now = true -> uuid4Pattern id = true ->
      Apply ctx node request now id w (as_manager s) = (a, true, m') ->
      apply_step s (mkApplySystem true m' (<[ar_command request := mkTask Launched no_snapshot no_snapshot false]> (as_tasks s))
                      (as_gate s) (as_worker s) (as_standing s))
  | apply_login s w' : as_running s = true -> as_gate s = None -> logs_in (as_worker s) w' ->
      apply_step s (mkApplySystem true (as_manager s) (as_tasks s) None w'
                      (match as_standing s with RestoreFailed => RestoreFailed | _ => InStep end))
  | apply_logout s w' : as_running s = true -> as_gate s = None -> logs_out (as_worker s) w' ->
      apply_step s (mkApplySystem true (as_manager s) (as_tasks s) None w'
                      (match as_standing s with RestoreFailed => RestoreFailed | _ => InStep end))
  | apply_read s id k : at_task s id Launched k ->
      apply_step s (mkApplySystem true (as_manager s)
        (<[id := mkTask Preflight (or_target (default no_settings_record (records (sm_state (as_manager s)) !! id))) (ds_applied (sm_state (as_manager s))) false]>
           (as_tasks s)) (as_gate s) (as_worker s) (as_standing s))
  | apply_preflight s id k models : at_task s id Preflight k ->
      apply_step s (onward id match validateRuntime (tk_target k) models with Some reason => Failing "preflight" reason | None => AtGate end s)
  | apply_gate s id k busy : at_task s id AtGate k -> as_gate s = None ->
      apply_step s (mkApplySystem true (as_manager s) (<[id := mkTask (Rechecking busy) (tk_target k) (tk_previous k) true]> (as_tasks s))
                      (Some id) (as_worker s) (as_standing s))
  | apply_recheck s id k busy models : at_task s id (Rechecking busy) k ->
      apply_step s (onward id match validateRuntime (tk_target k) models with Some reason => Failing "preflight" reason | None => Announcing busy end s)
  | apply_announce s id k busy err m' : at_task s id (Announcing busy) k ->
      updates id "pending" "draining" "" None (as_manager s) err m' ->
      apply_step s (if err : bool then ends id s m' else goes id (Draining busy) s m' (as_worker s) (as_standing s))
  | apply_drain s id k busy : at_task s id (Draining true) k -> apply_step s (onward id (Draining busy) s)
  | apply_timeout s id k : at_task s id (Draining true) k -> apply_step s (onward id (Failing "draining" "drain_timeout") s)
  | apply_drained s id k : at_task s id (Draining false) k -> apply_step s (onward id Restarting s)
  | apply_restarting s id k err m' : at_task s id Restarting k ->
      updates id "pending" "restarting" "" None (as_manager s) err m' ->
      apply_step s (if err : bool then ends id s m' else goes id Swapping s m' (as_worker s) (as_standing s))
  | apply_swap s id k rollbackFailed w' : at_task s id Swapping k ->
      restarts (runtimeConfig (tk_target k)) (as_worker s) rollbackFailed false w' ->
      apply_step s (goes id Verifying s (as_manager s) w' InStep)
  | apply_swap_fails s id k rollbackFailed w' : at_task s id Swapping k ->
      restarts (runtimeConfig (tk_target k)) (as_worker s) rollbackFailed true w' ->
      apply_step s (goes id (Failing "restarting" (if rollbackFailed then "rollback_failed" else "native_restart_failed")) s
                      (as_manager s) w' (as_standing s))
  | apply_verify s id k err m' : at_task s id Verifying k ->
      updates id "pending" "verifying" "" None (as_manager s) err m' ->
      apply_step s (goes id (if err : bool then Restoring else Completing) s m' (as_worker s) (as_standing s))
  | apply_complete s id k err m' : at_task s id Completing k ->
      updates id "succeeded" "complete" "" (Some (tk_target k)) (as_manager s) err m' ->
      apply_step s (if err : bool then goes id Restoring s m' (as_worker s) (as_standing s) else ends id s m')
  | apply_restore s id k w' : at_task s id Restoring k ->
      restarts (runtimeConfig (tk_previous k)) (as_worker s) false false w' ->
      apply_step s (goes id (Failing "verifying" "settings_unavailable") s (as_manager s) w' InStep)
  | apply_restore_fails s id k failed err w' : at_task s id Restoring k -> (failed || err = true)%bool ->
      restarts (runtimeConfig (tk_previous k)) (as_worker s) failed err w' ->
      apply_step s (goes id (Failing "verifying" "rollback_failed") s (as_manager s) w' RestoreFailed)
  | apply_fail s id k phase reason err m' : at_task s id (Failing phase reason) k ->
      updates id "failed" phase reason None (as_manager s) err m' ->
      apply_step s (ends id s m').

(** The file system before the first start, and no worker. *)
Definition apply_fresh (w : W) : ApplySystem W :=
  mkApplySystem false (mkSettingsManager no_disk NoSettings) ∅ None w InStep.
Inductive apply_reachable : ApplySystem W -> Prop :=
  | apply_start w : apply_reachable (apply_fresh w)
  | apply_next s s' : apply_reachable s -> apply_step s s' -> apply_reachable s'.
End Steps.
