(* ===== verification/SettingsFacts.v ===== *)
(** * The settings on disk
    A state file is read back as it was written, every state the manager
    reaches is one it can read, and what it shows depends on no secret. *)
From stdpp Require Import base tactics list strings gmap.
From Stdlib Require Import ZArith Lia Ascii String.
From S2P Require Import Prelude Json Wire Instant TranscriptView TranscriptFacts Auth AuthSystem AuthSections Settings SettingsManager.
Open Scope string_scope.
Open Scope list_scope.
Open Scope Z_scope.
Open Scope harness_scope.

(** ** The round trip of the state file *)
Definition in_int64 (z : Z) : Prop := 0 <= z <= int64_max.
Definition snapshot_in_range (p : privateSnapshot) : Prop := Forall (fun s => in_int64 (pm_timeout s)) (servers_of p).
Definition record_in_range (r : operationRecord) : Prop :=
  in_int64 (so_target (or_operation r)) /\ in_int64 (so_previous (or_operation r)) /\ in_int64 (or_expected r)
  /\ in_int64 (or_target_revision r) /\ snapshot_in_range (or_target r).
Definition disk_in_range (s : diskState) : Prop :=
  in_int64 (ds_draft_revision s) /\ in_int64 (ds_applied_revision s) /\ snapshot_in_range (ds_draft s) /\ snapshot_in_range (ds_applied s)
  /\ map_Forall (fun _ r => record_in_range r) (records s).
Lemma into_int_json z old : in_int64 z -> into_int (JInt z) old = Some z.
Proof.
  intros [H1 H2]. change (parse_int64 (itoa z) = Some z). rewrite parse_int64_nonneg by done. by apply Z.leb_le in H2 as ->.
Qed.
Ltac member_value := first [reflexivity | rewrite into_pointer_json; reflexivity | rewrite into_int_json by assumption; reflexivity
                            |match goal with H : ?x = Some _ |- context[?x] => rewrite H; reflexivity end].
Ltac settings_member set :=
  eapply decode_next; [vm_compute; reflexivity
                      |cbn [set String.eqb Ascii.eqb Bool.eqb]; member_value
                      |lazymatch goal with |- decode_members ?f ?m ?r = ?res => let r' := eval cbv in r in change (decode_members f m r' = res) end].
(** A string member that is left out when it is empty. *)
Lemma decode_omitted {R} (set : string -> json -> R -> option R) name key value m (r r' : R) res :
  fold_name name = key -> set key (JStr value) r = Some r' -> (value = "" -> r' = r) -> decode_members set m r' = res ->
  decode_members set (omit_empty name value ++ m) r = res.
Proof.
  intros Hk Hs He Hm. unfold omit_empty. destruct (String.eqb_spec value "") as [->|].
  - cbn [app]. by rewrite <- (He eq_refl).
  - cbn [app]. by eapply decode_next.
Qed.
Lemma inference_roundtrip i : into_struct set_inference (Inference_json i) no_inference = Some i.
Proof. destruct i as [model speed effort]. unfold Inference_json, into_struct. cbv iota. cbn [in_model in_speed in_effort]. do 3 settings_member set_inference. reflexivity. Qed.
Lemma privateMCP_roundtrip p : in_int64 (pm_timeout p) -> into_struct set_privateMCP (privateMCP_json p) no_mcp = Some p.
Proof.
  destruct p as [id name enabled transport url timeout token]. cbn [pm_timeout]. intros Ht. unfold privateMCP_json, into_struct. cbv iota.
  cbn [pm_id pm_name pm_enabled pm_transport pm_url pm_timeout pm_token app]. do 6 settings_member set_privateMCP.
  rewrite <- (app_nil_r (omit_empty _ _)). eapply decode_omitted; [vm_compute; reflexivity|reflexivity|by intros ->|reflexivity].
Qed.
Lemma slice_roundtrip {A} (element : json -> option A) f (l : option (list A)) :
  Forall (fun a => element (f a) = Some a) (default [] l) -> into_slice element (slice_json f l) = Some l.
Proof.
  intros Hl. destruct l as [xs|]; [|done]. cbn [slice_json into_slice]. rewrite List.map_map. change (Forall (fun a => element (f a) = Some a) xs) in Hl.
  assert (sequence (List.map (fun x => element (f x)) xs) = Some xs) as ->; [|done].
  induction Hl as [|a l Ha _ IH]; [done|]. cbn. rewrite Ha. cbn. by rewrite IH.
Qed.
Lemma privateSnapshot_roundtrip p : snapshot_in_range p -> into_struct set_privateSnapshot (privateSnapshot_json p) no_snapshot = Some p.
Proof.
  destruct p as [servers i]. unfold snapshot_in_range, servers_of. cbn [ps_servers]. intros Hs.
  assert (into_slice (fun v => into_struct set_privateMCP v no_mcp) (slice_json privateMCP_json servers) = Some servers) as Hsl.
  { apply slice_roundtrip. eapply Forall_impl; [exact Hs|]. intros p. apply privateMCP_roundtrip. }
  pose proof (inference_roundtrip i) as Hi. unfold privateSnapshot_json, into_struct. cbv iota. cbn [ps_servers ps_inference].
  eapply decode_next; [vm_compute; reflexivity|cbn [set_privateSnapshot String.eqb Ascii.eqb Bool.eqb]; rewrite Hsl; reflexivity|].
  eapply decode_next; [vm_compute; reflexivity| |reflexivity]. cbn [set_privateSnapshot String.eqb Ascii.eqb Bool.eqb].
  match goal with |- context[into_struct _ _ ?r] => change r with no_inference end. rewrite Hi. reflexivity.
Qed.
Lemma settingsOperation_roundtrip o : in_int64 (so_target o) -> in_int64 (so_previous o) ->
  into_struct set_settingsOperation (SettingsOperation_json o) no_settings_operation = Some o.
Proof.
  destruct o as [id command target previous status phase reason created updated]. cbn [so_target so_previous]. intros Ht Hp.
  unfold SettingsOperation_json, into_struct. cbv iota.
  cbn [so_id so_command so_target so_previous so_status so_phase so_reason so_created so_updated app]. do 6 settings_member set_settingsOperation.
  eapply decode_omitted; [vm_compute; reflexivity|reflexivity|by intros ->|]. do 2 settings_member set_settingsOperation. reflexivity.
Qed.
Lemma operationRecord_roundtrip r : record_in_range r -> into_struct set_operationRecord (operationRecord_json r) no_record = Some r.
Proof.
  destruct r as [o expected target_revision target]. intros (H1 & H2 & H3 & H4 & H5). cbn [or_operation or_expected or_target_revision or_target] in *.
  pose proof (settingsOperation_roundtrip o H1 H2) as Ho. pose proof (privateSnapshot_roundtrip target H5) as Ht.
  unfold operationRecord_json, into_struct. cbv iota. cbn [or_operation or_expected or_target_revision or_target].
  eapply decode_next; [vm_compute; reflexivity| |].
  { cbn [set_operationRecord String.eqb Ascii.eqb Bool.eqb]. match goal with |- context[into_struct _ _ ?r] => change r with no_settings_operation end.
    rewrite Ho. reflexivity. }
  do 2 (eapply decode_next; [vm_compute; reflexivity|cbn [set_operationRecord String.eqb Ascii.eqb Bool.eqb]; rewrite into_int_json by assumption; reflexivity|]).
  eapply decode_next; [vm_compute; reflexivity| |reflexivity].
  cbn [set_operationRecord String.eqb Ascii.eqb Bool.eqb]. match goal with |- context[into_struct _ _ ?r] => change r with no_snapshot end.
  rewrite Ht. reflexivity.
Qed.
Lemma map_members_on {A} (element : json -> option A) f (l : list (string * A)) m :
  Forall (fun p => element (f p.2) = Some p.2) l ->
  map_members element (List.map (fun p => (p.1, f p.2)) l) m = Some (foldl (fun m p => <[p.1 := p.2]> m) m l).
Proof. intros Hl. revert m. induction Hl as [|[k a] l Ha _ IH]; intros m; [done|]. cbn in *. rewrite Ha. cbn. apply IH. Qed.
Lemma into_records_json m o : default ∅ o = (∅ : gmap string operationRecord) -> map_Forall (fun _ r => record_in_range r) m ->
  into_records (map_json operationRecord_json m) o = Some (Some m).
Proof.
  intros Ho Hm. unfold into_records, map_json. rewrite Ho.
  pose proof (sort_by_key_perm (List.map (fun p => (p.1, operationRecord_json p.2)) (map_to_list m))) as Hs.
  apply Permutation_map_inv in Hs as (l & E & Hl). rewrite E, map_members_on.
  - cbn [mbind option_bind]. do 2 f_equal. by apply foldl_insert_map.
  - apply Forall_forall. intros [k r] Hin. apply operationRecord_roundtrip. apply (Hm k). rewrite <- Hl in Hin. by apply elem_of_map_to_list in Hin.
Qed.
Lemma diskState_roundtrip s : disk_in_range s -> decodeDiskState (diskState_json s) = Some s.
Proof.
  destruct s as [dr ar draft applied ops]. intros (H1 & H2 & H3 & H4 & H5). unfold records in H5. cbn [ds_draft_revision ds_applied_revision ds_draft ds_applied ds_operations] in *.
  pose proof (privateSnapshot_roundtrip draft H3) as Hd. pose proof (privateSnapshot_roundtrip applied H4) as Ha.
  assert (forall s, default ∅ (ds_operations s) = (∅ : gmap string operationRecord) -> set_diskState "OPERATIONS" (match ops with Some m => map_json operationRecord_json m | None => JNull end) s
    = Some (s <| ds_operations := ops |>)) as Hops.
  { intros s Hs. cbn [set_diskState String.eqb Ascii.eqb Bool.eqb]. destruct ops as [m|]; [|done]. by rewrite into_records_json. }
  unfold decodeDiskState, diskState_json, into_struct. cbv iota. cbn [ds_draft_revision ds_applied_revision ds_draft ds_applied ds_operations].
  do 2 (eapply decode_next; [vm_compute; reflexivity|cbn [set_diskState String.eqb Ascii.eqb Bool.eqb]; rewrite into_int_json by assumption; reflexivity|]).
  do 2 (eapply decode_next; [vm_compute; reflexivity|cbn [set_diskState String.eqb Ascii.eqb Bool.eqb];
     match goal with |- context[into_struct _ _ ?r] => change r with no_snapshot end; first [rewrite Hd|rewrite Ha]; reflexivity|]).
  eapply decode_next; [vm_compute; reflexivity|by apply Hops|]. reflexivity.
Qed.

(** ** Sound states
    What [validDiskState] asks of a state, but for the number of its
    operations; and that no revision exceeds that of the draft. *)
Section Sound.
Context `{SettingsNode}.
Definition sound_snapshot (p : privateSnapshot) : Prop := validPrivateSnapshot p = true /\ migrateSnapshot p = p.
Record sound_record (bound : Z) (id : string) (r : operationRecord) : Prop := mkSoundRecord {
  sr_valid : valid_record id r = true; sr_migrated : migrateSnapshot (or_target r) = or_target r;
  sr_target : or_target_revision r <= bound; sr_expected : or_expected r <= bound; sr_previous : so_previous (or_operation r) <= bound }.
Record sound_disk (s : diskState) : Prop := mkSoundDisk {
  sd_revisions : 1 <= ds_applied_revision s <= ds_draft_revision s;
  sd_model : has_model (ps_inference (ds_applied s)) = true;
  sd_operations : ds_operations s = Some (records s);
  sd_draft : sound_snapshot (ds_draft s); sd_applied : sound_snapshot (ds_applied s);
  sd_records : map_Forall (sound_record (ds_draft_revision s)) (records s) }.
Lemma valid_servers_spec l seen : valid_servers l seen = true <->
  Forall (fun p => validPrivateMCP p = true) l /\ NoDup (pm_id <$> l) /\ Forall (fun p => pm_id p ∉ seen) l.
Proof.
  revert seen. induction l as [|p l IH]; intros seen; cbn [valid_servers fmap list_fmap].
  { split; [|done]. intros _. split_and!; constructor. }
  rewrite !andb_true_iff, negb_true_iff, bool_decide_eq_false, IH, !Forall_cons, NoDup_cons. rewrite !Forall_forall. rewrite list_elem_of_fmap.
  split.
  - intros [[H1 H2] (H3 & H4 & H5)]. split_and!; try done; [|intros q Hq; specialize (H5 q Hq); set_solver].
    intros (q & Hq & Hin). specialize (H5 q Hin). set_solver.
  - intros ([H1 H2] & [H3 H4] & [H5 H6]). split_and!; try done. intros q Hq Hin. apply elem_of_union in Hin as [Hin|Hin]; [|by apply (H6 q)].
    apply elem_of_singleton in Hin. apply H3. by exists q.
Qed.
Lemma sort_servers_perm l : sort_servers l ≡ₚ l.
Proof.
  unfold sort_servers. rewrite sort_by_key_perm. rewrite List.map_map. by rewrite List.map_id.
Qed.
Lemma valid_servers_perm l l' : l ≡ₚ l' -> valid_servers l ∅ = valid_servers l' ∅.
Proof.
  intros Hp. apply Bool.eq_iff_eq_true. rewrite !valid_servers_spec. by rewrite Hp.
Qed.
Lemma contains_byte_app a b s : contains_byte (a ++ b) s = contains_byte a s || contains_byte b s.
Proof.
  unfold contains_byte. induction (list_ascii_of_string s) as [|c l IH]; [done|]. cbn [existsb]. rewrite existsb_app, IH.
  by repeat match goal with |- context[List.existsb ?f ?x] => destruct (List.existsb f x) end.
Qed.
Definition token_ok (token : string) : bool := (byte_length token <=? 16 * 1024) && negb (contains_byte [13; 10; 0]%N token).
Lemma prior_token_ok p id : validPrivateSnapshot p = true -> token_ok (prior_token p id) = true.
Proof.
  unfold validPrivateSnapshot. intros [_ Hv]%andb_prop. apply valid_servers_spec in Hv as (Hv & _ & _). unfold prior_token.
  destruct (list_find _ _) as [[i q]|] eqn:E; [|done]. apply list_find_Some in E as (Hq & _ & _).
  apply list_elem_of_lookup_2 in Hq. rewrite elem_of_reverse in Hq. rewrite Forall_forall in Hv. specialize (Hv _ Hq).
  unfold validPrivateMCP in Hv. unfold token_ok. rewrite !andb_true_iff in Hv. rewrite andb_true_iff. by destruct Hv as [[[_ ?] ?] _].
Qed.
Lemma draft_secret_ok auth prior token : token_ok prior = true -> draft_secret auth prior = Some token -> token_ok token = true.
Proof.
  unfold draft_secret. intros Hp. repeat (case_match; try done); intros [= <-]; try done.
  match goal with H : negb (validText _ _) || _ = false |- _ => apply orb_false_iff in H as [Hv%negb_false_iff Hc] end.
  unfold validText in Hv. simplify_bool. unfold token_ok. change [13; 10; 0]%N with ([13; 10] ++ [0])%N.
  rewrite contains_byte_app, Hc. apply andb_true_intro. split; [apply Z.leb_le; assumption|]. apply negb_true_iff. assumption.
Qed.
Lemma migrate_twice i : migrateInference (migrateInference i) = migrateInference i.
Proof.
  destruct i as [model [speed|] effort]; [|done]. unfold migrateInference, field_upd. cbn.
  assert (publicSpeed (publicSpeed speed) = publicSpeed speed) as ->; [|done]. unfold publicSpeed.
  destruct (speed =s "false") eqn:E1; [done|]. destruct (speed =s "true") eqn:E2; [done|]. by rewrite E1, E2.
Qed.
Lemma valid_speed_migrated i : match in_speed i with Some s => validSpeed s | None => true end = true ->
  match in_speed (migrateInference i) with Some s => validSpeed s | None => true end = true.
Proof.
  destruct i as [model [speed|] effort]; [|done]. intros Hs. change (validSpeed (publicSpeed speed) = true). unfold publicSpeed.
  destruct (String.eqb_spec speed "false"); [done|]. destruct (String.eqb_spec speed "true"); [done|exact Hs].
Qed.
Lemma draft_servers_ok previous l seen l' : validPrivateSnapshot previous = true -> draft_servers previous l seen = Some l' ->
  valid_servers l' seen = true /\ List.length l' = List.length l.
Proof.
  intros Hp. revert seen l'. induction l as [|s l IH]; intros seen l'; cbn [draft_servers]; [by intros [= <-]|].
  destruct (_ || _) eqn:E; [done|]. destruct (valid_endpoint _) eqn:Eu; [|done]. cbn [negb].
  destruct (draft_secret _ _) as [token|] eqn:Et; [|done]. cbn [mbind option_bind].
  destruct (draft_servers previous l _) as [rest|] eqn:Er; [|done]. cbn [mbind option_bind]. intros [= <-].
  destruct (IH _ _ Er) as [H1 H2]. split; [|by cbn; rewrite H2].
  apply draft_secret_ok in Et; [|by apply prior_token_ok]. unfold token_ok in Et. simplify_bool.
  cbn [valid_servers pm_id]. rewrite H1, andb_true_r. apply andb_true_intro. split; [by apply negb_true_iff|].
  unfold validPrivateMCP. cbn. rewrite !andb_true_iff. split_and!; try done; try (by apply Z.leb_le; lia). by apply negb_true_iff.
Qed.
Lemma validateDraft_sound input previous draft : validPrivateSnapshot previous = true -> validateDraft input previous = inr draft -> sound_snapshot draft.
Proof.
  intros Hp. unfold validateDraft. destruct (requested_servers input) as [servers|]; [|done].
  set (l := default [] servers). clearbody l. destruct (_ || _) eqn:E; [done|].
  destruct (match in_speed _ with Some s => negb (validSpeed s) | None => false end) eqn:Es; [done|].
  destruct (draft_servers previous l ∅) as [l'|] eqn:El; [|done]. intros [= <-].
  apply draft_servers_ok in El as [H1 H2]; [|done]. simplify_bool. split.
  - unfold validPrivateSnapshot. cbn [ps_inference ps_servers servers_of]. rewrite !andb_true_iff. split_and!.
    + by destruct (sn_inference input).
    + apply Z.leb_le. unfold servers_of. cbn [ps_servers default]. rewrite sort_servers_perm. unfold id. lia.
    + apply valid_speed_migrated. destruct (in_speed _); [by apply negb_false_iff|done].
    + by destruct (sn_inference input).
    + rewrite <- H1. by apply valid_servers_perm, sort_servers_perm.
  - unfold migrateSnapshot, field_upd. cbn. by rewrite migrate_twice.
Qed.

Lemma timestamp_parses t : printable t = true -> time_parse (timestamp t) = true.
Proof. intros H0%timestamp_instant. unfold time_instant in H0. by destruct (time_parse _). Qed.
Lemma timestamp_filled t : printable t = true -> negb (timestamp t =s "") = true.
Proof. intros H0%timestamp_parses. by destruct (timestamp t). Qed.
Lemma sound_valid s : sound_disk s -> Z.of_nat (size (records s)) <= 4096 -> validDiskState s = true.
Proof.
  intros [H1 H2 H3 [H4 _] [H5 _] H6] Hsize. unfold validDiskState. rewrite H2, H3, H4, H5, !andb_true_iff.
  split_and!; try done; try (apply Z.leb_le; lia). apply forallb_forall. intros [id r] Hin%list_elem_of_In%elem_of_map_to_list.
  apply (sr_valid _ _ _ (H6 _ _ Hin)).
Qed.
Lemma valid_snapshot_range p : validPrivateSnapshot p = true -> snapshot_in_range p.
Proof.
  unfold validPrivateSnapshot. intros [_ Hv]%andb_prop. apply valid_servers_spec in Hv as (Hv & _ & _).
  eapply Forall_impl; [exact Hv|]. intros q Hq. unfold validPrivateMCP in Hq. rewrite !andb_true_iff, !Z.leb_le in Hq.
  unfold in_int64, int64_max. lia.
Qed.
Lemma sound_range s : sound_disk s -> ds_draft_revision s <= int64_max -> disk_in_range s.
Proof.
  intros [H1 H2 H3 [H4 _] [H5 _] H6] Hmax. split_and!; try (by apply valid_snapshot_range); unfold in_int64; try lia.
  intros id r Hr. destruct (H6 _ _ Hr) as [Hv _ Ht He Hp]. unfold valid_record in Hv. rewrite !andb_true_iff, !Z.leb_le, !Z.eqb_eq in Hv.
  destruct Hv as [[[[[[[[[[[[[[_ _] _] ?] ?] ?] ?] ?] _] _] _] _] _] _] _].
  split_and!; unfold in_int64; try lia. by apply valid_snapshot_range.
Qed.
Lemma sound_record_mono b b' id r : sound_record b id r -> b <= b' -> sound_record b' id r.
Proof. intros [H1 H2 H3 H4 H5] Hb. split; try done; lia. Qed.
Lemma sound_put_record s id r : sound_disk s -> sound_record (ds_draft_revision s) id r -> sound_disk (put_record id r s).
Proof.
  intros [H1 H2 H3 H4 H5 H6] Hr. split; try done. intros id' r' Hl. unfold records, put_record in Hl. cbn in Hl.
  apply lookup_insert_Some in Hl as [[<- <-]|[_ Hl]]; [done|by apply H6].
Qed.
Definition settled_record (status phase reason updated : string) (r : operationRecord) : operationRecord :=
  r <| or_operation ::= fun o => o <| so_status := status |> <| so_phase := phase |> <| so_reason := reason |> <| so_updated := updated |> |>.
Lemma sound_settled b id r status phase reason now : sound_record b id r -> validOperationStatus status = true -> validOperationPhase phase = true ->
  (reason =s "") || identifierPattern reason = true -> printable now = true ->
  sound_record b id (settled_record status phase reason (timestamp now) r).
Proof.
  intros [H1 H2 H3 H4 H5] Hs Hp Hr Ht. split; try done. destruct r as [[i c t p st ph re cr up] e tr target].
  unfold valid_record, settled_record, field_upd in *. cbn in *. rewrite !andb_true_iff in H1 |- *.
  destruct H1 as [[[[[[[[[[[[[[? ?] ?] ?] ?] ?] ?] ?] ?] ?] ?] ?] ?] ?] ?].
  split_and!; try done; [by apply timestamp_filled|by apply timestamp_parses].
Qed.

(** ** The memory and the file *)
Record manager_ok (m : SettingsManager) : Prop := mkManagerOk {
  mo_state : sound_disk (sm_state m);
  mo_file : exists s, sm_file m = settings_text s /\ sound_disk s
    /\ ds_draft_revision (sm_state m) <= ds_draft_revision s }.
(** A section that writes [s'] and keeps it, or goes back to [s0] when the write
    failed. *)
Lemma persisted_ok w s' s0 f err f' : persisted w s' f = (err, f') -> manager_ok (mkSettingsManager s0 f) -> sound_disk s' ->
  ds_draft_revision s0 <= ds_draft_revision s' ->
  if err then manager_ok (mkSettingsManager s0 f') else f' = settings_text s' /\ manager_ok (mkSettingsManager s' f').
Proof.
  intros Hw [H1 H2] Hs Hd. destruct w; injection Hw as <- <-; [|split; [done|by exists s']|by split].
  split; [done|]. split; [done|]. by exists s'.
Qed.
Lemma manager_ok_eta m : manager_ok m -> manager_ok (mkSettingsManager (sm_state m) (sm_file m)).
Proof. by destruct m. Qed.
Lemma put_ok ctx node request w m a m' : PutDraft ctx node request w m = (a, m') -> manager_ok m ->
  manager_ok m' /\ ds_applied (sm_state m') = ds_applied (sm_state m) /\ records (sm_state m') = records (sm_state m).
Proof.
  intros Hput Hm. unfold PutDraft in Hput. destruct (ctx || _); [by injection Hput as <- <-|].
  destruct (negb (pr_expected _ =? _)); [by injection Hput as <- <-|]. pose proof (mo_state _ Hm) as Hs. destruct (sd_draft _ Hs) as [Hd _].
  destruct (validateDraft _ _) as [issue|draft] eqn:Ed; [by injection Hput as <- <-|]. apply validateDraft_sound in Ed; [|done].
  destruct (persisted _ _ _) as [err f'] eqn:Ew. eapply persisted_ok in Ew; [|by apply manager_ok_eta|..].
  - destruct err; injection Hput as <- <-; [done|]. by destruct Ew.
  - destruct Hs as [H1 H2 H3 H4 H5 H6]. split; cbn; try done; [lia|]. intros id r Hr. eapply sound_record_mono; [by apply H6|cbn; lia].
  - cbn. lia.
Qed.
Lemma apply_ok ctx node request now id w m a launched m' : Apply ctx node request now id w m = (a, launched, m') ->
  manager_ok m -> printable now = true -> uuid4Pattern id = true ->
  manager_ok m' /\ ds_applied (sm_state m') = ds_applied (sm_state m)
  /\ (if launched then
        (forall i r, records (sm_state m) !! i = Some r -> apply_pending r = false)
        /\ exists r, records (sm_state m) !! ar_command request = None
          /\ records (sm_state m') = <[ar_command request := r]> (records (sm_state m)) /\ apply_pending r = true
      else records (sm_state m') = records (sm_state m)).
Proof.
  intros Happ Hm Hnow Hid. unfold Apply in Happ. destruct (ctx || _ || negb (identifierPattern _)) eqn:E0; [by injection Happ as <- <- <-|].
  destruct (records _ !! _) as [existing|] eqn:El; [destruct (negb (or_expected _ =? _) || _); by injection Happ as <- <- <-|].
  destruct (negb (ar_expected _ =? _) || _) eqn:E1; [by injection Happ as <- <- <-|].
  destruct (negb runtime_bound); [by injection Happ as <- <- <-|].
  destruct (existsb _ _) eqn:Ep; [by injection Happ as <- <- <-|]. simplify_bool.
  destruct (persisted _ _ _) as [err f'] eqn:Ew. pose proof (mo_state _ Hm) as Hs.
  assert (1 <= ds_applied_revision (sm_state m) <= ds_draft_revision (sm_state m)) as Hrev by apply Hs.
  eapply persisted_ok in Ew; [|by apply manager_ok_eta|..|reflexivity].
  - destruct err; injection Happ as <- <- <-; [by split_and!|]. destruct Ew as [-> Hok]. split_and!; [done|done| |].
    + intros i r Hr. destruct (apply_pending r) eqn:Hp; [|done]. rewrite <- Ep. symmetry. apply existsb_exists. exists (i, or_operation r).
      split; [|done]. apply list_elem_of_In, elem_of_map_to_list. unfold operations_of. by rewrite lookup_fmap, Hr.
    + eexists. split_and!; [done|reflexivity|done].
  - apply sound_put_record; [done|]. split; cbn; try lia; [|by apply Hs].
    unfold valid_record. cbn. rewrite !andb_true_iff, !Z.leb_le, !Z.eqb_eq.
    split_and!; try done; try lia; try (by apply String.eqb_refl); try (by apply timestamp_filled); try (by apply timestamp_parses). apply Hs.
Qed.
Lemma update_ok id status phase reason applied now w m err m' old :
  updateOperation id status phase reason applied now w m = (err, m') -> manager_ok m -> records (sm_state m) !! id = Some old ->
  validOperationStatus status = true -> validOperationPhase phase = true -> (reason =s "") || identifierPattern reason = true -> printable now = true ->
  match applied with Some a => a = or_target old /\ has_model (ps_inference a) = true | None => True end ->
  manager_ok m'
  /\ ds_applied (sm_state m') = (if err then ds_applied (sm_state m) else default (ds_applied (sm_state m)) applied)
  /\ exists r, records (sm_state m') = <[id := r]> (records (sm_state m)) /\ or_target r = or_target old
     /\ or_target_revision r = or_target_revision old /\ so_status (or_operation r) = (if err then "failed" else status).
Proof.
  intros Hup Hm Hl Hst Hph Hre Hnow Happ. unfold updateOperation in Hup. rewrite Hl in Hup. cbn [default] in Hup. cbn beta zeta in Hup.
  pose proof (mo_state _ Hm) as Hs. pose proof (sd_records _ Hs _ _ Hl) as Hold.
  match type of Hup with context[put_record id ?r (sm_state m)] => change r with (settled_record status phase reason (timestamp now) old) in Hup end.
  set (r1 := settled_record status phase reason (timestamp now) old) in *.
  match type of Hup with context[if _ then (true, mkSettingsManager (put_record id ?r (sm_state m)) _) else _] =>
    change r with (settled_record "failed" phase "settings_unavailable" (timestamp now) old) in Hup end.
  set (r2 := settled_record "failed" phase "settings_unavailable" (timestamp now) old) in *.
  assert (sound_record (ds_draft_revision (sm_state m)) id r1 /\ sound_record (ds_draft_revision (sm_state m)) id r2) as [Hr1 Hr2]
    by (split; by apply sound_settled).
  pose proof (sound_put_record _ _ _ Hs Hr1) as Hs1. pose proof (sound_put_record _ _ _ Hs Hr2) as Hs2.
  match type of Hup with context[persisted w ?s _] => set (s2 := s) in * end.
  assert (sound_disk s2 /\ ds_draft_revision s2 = ds_draft_revision (sm_state m)
    /\ ds_applied s2 = default (ds_applied (sm_state m)) applied /\ records s2 = <[id := r1]> (records (sm_state m))) as (Hs2' & Hdr & Hap & Hrec).
  { subst s2. destruct applied as [a|]; [|done]. destruct Happ as [-> Hmod]. split_and!; try done.
    destruct Hs1 as [G1 G2 G3 G4 G5 G6]. split; cbn; try done.
    - destruct Hr1 as [Hv _ Ht _ _]. unfold valid_record in Hv. rewrite !andb_true_iff, !Z.leb_le in Hv.
      destruct Hv as [[[[[[[[[[[[[[_ _] _] _] ?] _] _] _] _] _] _] _] _] _] _]. done.
    - destruct Hold as [Hv Hmig _ _ _]. unfold valid_record in Hv. rewrite !andb_true_iff in Hv.
      destruct Hv as [[[[[[[[[[[[[[_ _] _] _] _] _] ?] _] _] _] _] _] _] _] _]. by split. }
  destruct (persisted _ _ _) as [e f'] eqn:Ew. destruct e; injection Hup as <- <-.
  - split; [|split; [done|by exists r2]].
    assert (manager_ok (mkSettingsManager (sm_state m) f')) as [_ Hf].
    { eapply persisted_ok in Ew; [exact Ew|by apply manager_ok_eta|done|by rewrite Hdr]. }
    by split.
  - eapply persisted_ok in Ew; [|by apply manager_ok_eta|done|by rewrite Hdr]. destruct Ew as [-> Hok].
    split_and!; [done|done|by exists r1].
Qed.

(** ** [Open] *)
Lemma decode_sound s : sound_disk s -> decodeDiskState (diskState_json s) = if ds_draft_revision s <=? int64_max then Some s else None.
Proof.
  intros Hs. destruct (ds_draft_revision s <=? int64_max) eqn:E; [by apply diskState_roundtrip, sound_range, Z.leb_le|].
  unfold decodeDiskState, diskState_json, into_struct. cbv iota. eapply decode_none; [vm_compute; reflexivity|].
  cbn [set_diskState String.eqb Ascii.eqb Bool.eqb].
  assert (into_int (JInt (ds_draft_revision s)) (ds_draft_revision no_disk) = None) as ->; [|done].
  change (parse_int64 (itoa (ds_draft_revision s)) = None). rewrite parse_int64_nonneg, E; [done|]. destruct Hs. lia.
Qed.
Lemma records_reopened clock s : records (reopened clock s)
  = map_imap (fun id r => Some (interrupted_record (timestamp (clock id)) (r <| or_target ::= migrateSnapshot |>))) (records s).
Proof. unfold records, reopened. cbn. destruct (ds_operations s) as [m|]; [done|]. cbn. by rewrite map_imap_empty. Qed.
Lemma reopened_record clock s id : sound_disk s ->
  records (reopened clock s) !! id = interrupted_record (timestamp (clock id)) <$> records s !! id.
Proof.
  intros Hs. rewrite records_reopened, map_lookup_imap. destruct (records s !! id) as [r|] eqn:E; [|done]. cbn. do 2 f_equal.
  destruct r as [o e tr t]. unfold field_upd. cbn. f_equal. by apply (sr_migrated _ _ _ (sd_records _ Hs _ _ E)).
Qed.
Lemma sound_interrupted b id r now : sound_record b id r -> printable now = true -> sound_record b id (interrupted_record (timestamp now) r).
Proof.
  intros Hr Hnow. unfold interrupted_record. destruct (apply_pending r); [|done].
  assert (validOperationPhase (so_phase (or_operation r)) = true) as Hp.
  { destruct Hr as [Hv _ _ _ _]. unfold valid_record in Hv. rewrite !andb_true_iff in Hv. by destruct Hv as [[[[[[? ?] _] _] _] _] _]. }
  pose proof (sound_settled b id r "failed" (so_phase (or_operation r)) "apply_interrupted" now Hr eq_refl Hp eq_refl Hnow) as Hs.
  by destruct r as [[] ? ? ?].
Qed.
Lemma sound_reopened clock s : (forall id, printable (clock id) = true) -> sound_disk s -> sound_disk (reopened clock s).
Proof.
  intros Hclock Hs. pose proof (reopened_record clock s) as Hrec. destruct Hs as [H1 H2 H3 [H4 H4'] [H5 H5'] H6].
  split; unfold reopened; cbn [ds_applied_revision ds_draft_revision ds_draft ds_applied field_upd]; rewrite ?H4', ?H5'; try done.
  - unfold reopened. cbn. by rewrite H3.
  - intros id r Hr. rewrite Hrec in Hr by done. destruct (records s !! id) as [r0|] eqn:E; [|done]. injection Hr as <-.
    apply sound_interrupted; [by apply H6|done].
Qed.
Lemma initial_sound model : validText model 200 = true -> sound_disk (initial_state model).
Proof.
  intros Hm. assert (sound_snapshot (mkPrivate None (mkInference (Some model) None None))) as Hp.
  { split; [|done]. unfold validPrivateSnapshot. cbn. by rewrite Hm. }
  by split.
Qed.
Definition file_ok (f : settings_file) : Prop := f = NoSettings \/ exists s, f = settings_text s /\ sound_disk s.
Lemma open_ok model clock w f o f' : OpenSettings model clock w f = (o, f') -> validText model 200 = true ->
  (forall id, printable (clock id) = true) -> file_ok f ->
  file_ok f' /\ match o with
  | None => True
  | Some s => manager_ok (mkSettingsManager s f') /\ forall id r, records s !! id = Some r -> apply_pending r = false
  end.
Proof.
  intros Hopen Hmodel Hclock Hf. unfold OpenSettings in Hopen. destruct (_ || _); [by injection Hopen as <- <-|].
  match type of Hopen with context[match ?x with Some _ => _ | None => (None, f) end] => destruct x as [s|] eqn:Es end; [|by injection Hopen as <- <-].
  assert (sound_disk s /\ forall id r, records s !! id = Some r -> apply_pending r = false) as [Hs Hno].
  { destruct Hf as [->|(s0 & -> & Hs0)]; [injection Es as <-; split; [by apply initial_sound|]|].
    { intros id r Hr. change ((∅ : gmap string operationRecord) !! id = Some r) in Hr. by rewrite lookup_empty in Hr. }
    unfold settings_text in Es. destruct (_ <? _); [done|]. rewrite decode_sound in Es by done. destruct (_ <=? _); [|done]. cbn [mbind option_bind] in Es.
    destruct (validDiskState s0); [|done]. injection Es as <-. split; [by apply sound_reopened|].
    intros id r Hr. rewrite reopened_record in Hr by done. destruct (records s0 !! id) as [r0|]; [|done]. injection Hr as <-.
    unfold interrupted_record. destruct (apply_pending r0) eqn:Ep; [done|exact Ep]. }
  destruct w; injection Hopen as <- <-.
  - split; [right; by exists s|]. split; [|done]. split; [done|]. by exists s.
  - split; [right; by exists s|done].
  - by split.
Qed.
End Sound.

(** ** Secrets
    Two states are alike when they differ in the bytes of secrets only. *)
Definition redact_mcp (p : privateMCP) : privateMCP := p <| pm_token ::= fun t => if t =s "" then "" else "*" |>.
Definition redact (p : privateSnapshot) : privateSnapshot := p <| ps_servers ::= option_map (List.map redact_mcp) |>.
Definition redact_record (r : operationRecord) : operationRecord := r <| or_target ::= redact |>.
Definition redact_records (m : gmap string operationRecord) : gmap string operationRecord := redact_record <$> m.
Definition redact_state (s : diskState) : diskState :=
  s <| ds_draft ::= redact |> <| ds_applied ::= redact |> <| ds_operations ::= option_map redact_records |>.
Definition alike (s1 s2 : diskState) : Prop := redact_state s1 = redact_state s2.
Lemma redact_token t : ((if t =s "" then "" else "*") =s "") = (t =s "").
Proof. destruct (t =s "") eqn:E; [done|done]. Qed.
Lemma redacted_servers p : servers_of (redact p) = List.map redact_mcp (servers_of p).
Proof. by destruct p as [[l|] i]. Qed.
Lemma public_redacted p : publicSnapshot (redact p) = publicSnapshot p.
Proof.
  unfold publicSnapshot. rewrite redacted_servers, List.map_map. destruct p as [servers i]. do 3 f_equal. apply List.map_ext.
  intros [id name enabled transport url timeout token]. unfold publicServer. cbn. by rewrite redact_token.
Qed.
Lemma operations_redacted s : operations_of (redact_state s) = operations_of s.
Proof.
  unfold operations_of, records. destruct s as [a b c d [m|]]; cbn; [|done]. unfold redact_records. rewrite <- map_fmap_compose. apply map_fmap_ext. by intros i [].
Qed.
Lemma records_redacted s : records (redact_state s) = redact_record <$> records s.
Proof. unfold records. destruct s as [a b c d [m|]]; cbn; [done|]. by rewrite fmap_empty. Qed.
Lemma alike_lookup s1 s2 id : alike s1 s2 -> redact_record <$> records s1 !! id = redact_record <$> records s2 !! id.
Proof. intros E. by rewrite <- !lookup_fmap, <- !records_redacted, E. Qed.

Section Secrets.
Context `{SettingsNode}.
Lemma envelope_redacted s o : settings_envelope (redact_state s) o = settings_envelope s o.
Proof. unfold settings_envelope. rewrite operations_redacted. destruct s as [a b c d ops]. cbn. by rewrite !public_redacted. Qed.
Lemma alike_envelope s1 s2 o : alike s1 s2 -> settings_envelope s1 o = settings_envelope s2 o.
Proof. intros E. by rewrite <- (envelope_redacted s1), <- (envelope_redacted s2), E. Qed.
Lemma prior_redacted p id : prior_token (redact p) id = (if prior_token p id =s "" then "" else "*").
Proof.
  unfold prior_token. rewrite redacted_servers. change (List.map redact_mcp (servers_of p)) with (redact_mcp <$> servers_of p).
  rewrite <- fmap_reverse. induction (reverse (servers_of p)) as [|q l IH]; [done|].
  cbn [fmap list_fmap list_find]. destruct (decide (pm_id q = id)) as [E|E].
  - rewrite decide_True by done. done.
  - rewrite decide_False by done. unfold fmap, option_fmap, option_map in *.
    match type of IH with match ?x with _ => _ end = (if match ?y with _ => _ end =s _ then _ else _) => destruct x as [[]|], y as [[]|] end; exact IH.
Qed.
Definition blank (t : string) : string := if t =s "" then "" else "*".
Lemma draft_secret_alike auth prior1 prior2 : blank prior1 = blank prior2 ->
  match draft_secret auth prior1, draft_secret auth prior2 with
  | Some t1, Some t2 => blank t1 = blank t2 | None, None => True | _, _ => False end.
Proof.
  intros E. assert ((prior1 =s "") = (prior2 =s "")) as E'.
  { unfold blank in E. by destruct (prior1 =s ""), (prior2 =s ""). }
  unfold draft_secret. rewrite E'. destruct (au_kind auth =s "none"); [by destruct (_ || _)|]. destruct (au_kind auth =s "bearer"); [|done].
  destruct (au_action auth =s "keep"); [by destruct (_ || _)|]. destruct (au_action auth =s "replace"); [by destruct (_ || _)|done].
Qed.
Lemma draft_servers_alike p1 p2 l seen : (forall id, blank (prior_token p1 id) = blank (prior_token p2 id)) ->
  match draft_servers p1 l seen, draft_servers p2 l seen with
  | Some l1, Some l2 => List.map redact_mcp l1 = List.map redact_mcp l2 | None, None => True | _, _ => False end.
Proof.
  intros Hp. revert seen. induction l as [|s l IH]; intros seen; [done|]. cbn [draft_servers]. destruct (_ || _); [done|].
  destruct (negb _); [done|]. pose proof (draft_secret_alike (sv_auth s) _ _ (Hp (sv_id s))) as Hs.
  destruct (draft_secret _ (prior_token p1 _)) as [t1|], (draft_secret _ (prior_token p2 _)) as [t2|]; try done. cbn [mbind option_bind].
  specialize (IH ({[sv_id s]} ∪ seen)). destruct (draft_servers p1 l _), (draft_servers p2 l _); try done. cbn [mbind option_bind List.map].
  rewrite IH. f_equal. unfold redact_mcp, field_upd. cbn. fold (blank t1) (blank t2). by rewrite Hs.
Qed.
Lemma sort_by_key_map {A B} (f : A -> B) (l : list (string * A)) :
  sort_by_key (List.map (fun p => (p.1, f p.2)) l) = List.map (fun p => (p.1, f p.2)) (sort_by_key l).
Proof.
  induction l as [|x l IH]; [done|]. cbn [List.map sort_by_key]. rewrite IH. generalize (sort_by_key l). clear l IH. intros l.
  induction l as [|y l IH]; [done|]. cbn [List.map insert_by_key fst]. destruct (key_le _ _); [done|]. by rewrite IH.
Qed.
Lemma sort_servers_redacted l : List.map redact_mcp (sort_servers l) = sort_servers (List.map redact_mcp l).
Proof.
  unfold sort_servers. rewrite !List.map_map. change (List.map (fun x => (pm_id (redact_mcp x), redact_mcp x)) l) with
    (List.map (fun x => (fun p => (p.1, redact_mcp p.2)) (pm_id x, x)) l).
  rewrite <- (List.map_map (fun x => (pm_id x, x)) (fun p => (p.1, redact_mcp p.2))), sort_by_key_map, List.map_map. done.
Qed.
Lemma validateDraft_alike input p1 p2 : redact p1 = redact p2 ->
  match validateDraft input p1, validateDraft input p2 with
  | inr d1, inr d2 => redact d1 = redact d2 | inl e1, inl e2 => e1 = e2 | _, _ => False end.
Proof.
  intros E. unfold validateDraft. destruct (requested_servers input) as [servers|]; [|done]. destruct (_ || _); [done|].
  destruct (match in_speed _ with Some s => negb (validSpeed s) | None => false end); [done|].
  assert (forall id, blank (prior_token p1 id) = blank (prior_token p2 id)) as Hp.
  { intros id. unfold blank. by rewrite <- !prior_redacted, E. }
  pose proof (draft_servers_alike p1 p2 (default [] servers) ∅ Hp) as Hd.
  destruct (draft_servers p1 _ _) as [l1|], (draft_servers p2 _ _) as [l2|]; try done.
  unfold redact, field_upd. cbn. by rewrite !sort_servers_redacted, Hd.
Qed.
Lemma alike_operations s1 s2 : alike s1 s2 -> operations_of s1 = operations_of s2.
Proof. intros E. by rewrite <- (operations_redacted s1), <- (operations_redacted s2), E. Qed.
Lemma alike_iff s1 s2 : alike s1 s2 <-> ds_draft_revision s1 = ds_draft_revision s2 /\ ds_applied_revision s1 = ds_applied_revision s2
  /\ redact (ds_draft s1) = redact (ds_draft s2) /\ redact (ds_applied s1) = redact (ds_applied s2)
  /\ option_map redact_records (ds_operations s1) = option_map redact_records (ds_operations s2).
Proof.
  destruct s1 as [a1 b1 c1 d1 e1], s2 as [a2 b2 c2 d2 e2]. cbn [ds_draft_revision ds_applied_revision ds_draft ds_applied ds_operations].
  change (alike _ _) with (mkDisk a1 b1 (redact c1) (redact d1) (option_map redact_records e1) = mkDisk a2 b2 (redact c2) (redact d2) (option_map redact_records e2)).
  generalize (redact c1) (redact c2) (redact d1) (redact d2) (option_map redact_records e1) (option_map redact_records e2). intros. split; [by intros [= -> -> -> -> ->]|].
  by intros (-> & -> & -> & -> & ->).
Qed.
Lemma alike_fields s1 s2 : alike s1 s2 -> ds_draft_revision s1 = ds_draft_revision s2 /\ ds_applied_revision s1 = ds_applied_revision s2
  /\ redact (ds_draft s1) = redact (ds_draft s2) /\ redact (ds_applied s1) = redact (ds_applied s2)
  /\ redact_record <$> records s1 = redact_record <$> records s2.
Proof.
  intros E. pose proof E as (? & ? & ? & ? & _)%alike_iff. split_and!; try done. by rewrite <- !records_redacted, E.
Qed.
Lemma put_record_redacted id r s : redact_state (put_record id r s) = put_record id (redact_record r) (redact_state s).
Proof.
  unfold put_record at 2. rewrite records_redacted. unfold put_record, redact_state, field_upd. cbn. unfold redact_records. by rewrite fmap_insert.
Qed.
Lemma put_record_alike id r1 r2 s1 s2 : alike s1 s2 -> redact_record r1 = redact_record r2 -> alike (put_record id r1 s1) (put_record id r2 s2).
Proof. unfold alike. intros E Er. by rewrite !put_record_redacted, E, Er. Qed.
Lemma redact_record_fields r1 r2 : redact_record r1 = redact_record r2 <-> or_operation r1 = or_operation r2 /\ or_expected r1 = or_expected r2
  /\ or_target_revision r1 = or_target_revision r2 /\ redact (or_target r1) = redact (or_target r2).
Proof.
  destruct r1 as [o1 x1 t1 p1], r2 as [o2 x2 t2 p2]. cbn [or_operation or_expected or_target_revision or_target].
  change (redact_record _) with (mkOperationRecord o1 x1 t1 (redact p1)) at 1. change (redact_record _) with (mkOperationRecord o2 x2 t2 (redact p2)).
  generalize (redact p1) (redact p2). intros. split; [by intros [= -> -> -> ->]|]. by intros (-> & -> & -> & ->).
Qed.
Lemma put_draft_alike ctx node request w m1 m2 : alike (sm_state m1) (sm_state m2) ->
  (PutDraft ctx node request w m1).1 = (PutDraft ctx node request w m2).1
  /\ alike (sm_state (PutDraft ctx node request w m1).2) (sm_state (PutDraft ctx node request w m2).2).
Proof.
  intros E. destruct (alike_fields _ _ E) as (E1 & E2 & E3 & E4 & E5). unfold PutDraft. destruct (ctx || _); [done|]. rewrite E1.
  destruct (negb _); [done|]. pose proof (validateDraft_alike (pr_draft request) _ _ E3) as Hd.
  destruct (validateDraft _ (ds_draft (sm_state m1))) as [e1|d1], (validateDraft _ (ds_draft (sm_state m2))) as [e2|d2]; try done; [by subst|].
  assert (forall s1 s2, alike s1 s2 -> alike (s1 <| ds_draft_revision ::= Z.succ |> <| ds_draft := d1 |>) (s2 <| ds_draft_revision ::= Z.succ |> <| ds_draft := d2 |>)) as Hs.
  { clear -Hd. intros s1 s2. rewrite !alike_iff. cbn. intros (-> & ? & ? & ? & ?). done. }
  specialize (Hs _ _ E). destruct w; cbn; try done. split; [|done]. f_equal. by apply alike_envelope.
Qed.
Lemma apply_alike ctx node request now id w m1 m2 : alike (sm_state m1) (sm_state m2) ->
  (Apply ctx node request now id w m1).1 = (Apply ctx node request now id w m2).1
  /\ alike (sm_state (Apply ctx node request now id w m1).2) (sm_state (Apply ctx node request now id w m2).2).
Proof.
  intros E. destruct (alike_fields _ _ E) as (E1 & E2 & E3 & E4 & E5). unfold Apply. destruct (ctx || _ || _); [done|].
  pose proof (alike_lookup _ _ (ar_command request) E) as El.
  destruct (records (sm_state m1) !! _) as [r1|] eqn:L1, (records (sm_state m2) !! _) as [r2|] eqn:L2; try done.
  - assert (redact_record r1 = redact_record r2) as (-> & -> & -> & _)%redact_record_fields by exact (inj Some _ _ El).
    destruct (_ || _); [done|]. cbn. split; [|done]. by rewrite (alike_envelope _ _ _ E).
  - rewrite E1, E2, (alike_operations _ _ E). destruct (negb (ar_expected _ =? _) || _); [done|]. destruct (negb runtime_bound); [done|]. destruct (existsb _ _); [done|].
    set (r1 := mkOperationRecord _ _ _ (ds_draft (sm_state m1))). set (r2 := mkOperationRecord _ _ _ (ds_draft (sm_state m2))).
    assert (redact_record r1 = redact_record r2) as Er by (unfold redact_record, field_upd; cbn; by rewrite E3).
    pose proof (put_record_alike (ar_command request) r1 r2 _ _ E Er) as Hs. destruct w; cbn; try done.
    split; [|done]. by rewrite (alike_envelope _ _ _ Hs).
Qed.
Lemma update_alike id status phase reason a1 a2 now w m1 m2 : alike (sm_state m1) (sm_state m2) -> redact <$> a1 = redact <$> a2 ->
  (updateOperation id status phase reason a1 now w m1).1 = (updateOperation id status phase reason a2 now w m2).1
  /\ alike (sm_state (updateOperation id status phase reason a1 now w m1).2) (sm_state (updateOperation id status phase reason a2 now w m2).2).
Proof.
  intros E Ea. unfold updateOperation. set (o1 := default no_settings_record (records (sm_state m1) !! id)). set (o2 := default no_settings_record (records (sm_state m2) !! id)).
  assert (redact_record o1 = redact_record o2) as (Eo & Ex & Et & Ep)%redact_record_fields.
  { pose proof (alike_lookup _ _ id E) as El. subst o1 o2. destruct (records (sm_state m1) !! id), (records (sm_state m2) !! id); try done. exact (inj Some _ _ El). }
  clearbody o1 o2. cbn beta zeta. cbn [or_target_revision field_upd]. rewrite Et.
  assert (forall st re, redact_record (settled_record st phase re (timestamp now) o1) = redact_record (settled_record st phase re (timestamp now) o2)) as Hset.
  { intros st re. apply redact_record_fields. destruct o1, o2. cbn in *. by rewrite Eo. }
  assert (forall st re, alike (put_record id (settled_record st phase re (timestamp now) o1) (sm_state m1)) (put_record id (settled_record st phase re (timestamp now) o2) (sm_state m2))) as Hput
    by (intros st re; by apply put_record_alike).
  pose proof (Hput "failed" "settings_unavailable") as Hfail. specialize (Hput status reason).
  destruct a1 as [a1|], a2 as [a2|]; try done.
  - assert (redact a1 = redact a2) as Ha by exact (inj Some _ _ Ea). destruct w; cbn [persisted fst snd sm_state]; (split; [done|]); [|exact Hfail..].
    revert Hput. unfold settled_record. rewrite !alike_iff. cbn. by intros (-> & ? & ? & ? & ?).
  - destruct w; cbn [persisted fst snd sm_state]; (split; [done|]); [exact Hput|exact Hfail..].
Qed.

(** C39: secrets are write-only.  What the settings show, and whether they
    accept a draft or a command, depends only on which servers have a secret,
    never on its bytes: in two states that differ in the bytes of secrets alone,
    every answer is the same, and the states after it differ in them alone. *)
Theorem settings_hide_secrets m1 m2 : alike (sm_state m1) (sm_state m2) ->
  (forall ctx node, GetSettings ctx node (sm_state m1) = GetSettings ctx node (sm_state m2))
  /\ (forall ctx node id, GetOperation ctx node id (sm_state m1) = GetOperation ctx node id (sm_state m2))
  /\ (forall ctx node request w, (PutDraft ctx node request w m1).1 = (PutDraft ctx node request w m2).1
        /\ alike (sm_state (PutDraft ctx node request w m1).2) (sm_state (PutDraft ctx node request w m2).2))
  /\ (forall ctx node request now id w, (Apply ctx node request now id w m1).1 = (Apply ctx node request now id w m2).1
        /\ alike (sm_state (Apply ctx node request now id w m1).2) (sm_state (Apply ctx node request now id w m2).2))
  /\ (forall id status phase reason a1 a2 now w, redact <$> a1 = redact <$> a2 ->
        (updateOperation id status phase reason a1 now w m1).1 = (updateOperation id status phase reason a2 now w m2).1
        /\ alike (sm_state (updateOperation id status phase reason a1 now w m1).2) (sm_state (updateOperation id status phase reason a2 now w m2).2)).
Proof.
  intros E. split_and!.
  - intros ctx node. unfold GetSettings. by rewrite (alike_envelope _ _ _ E).
  - intros ctx node id. unfold GetOperation. rewrite (alike_operations _ _ E). destruct (_ || _); [done|].
    destruct (List.find _ _) as [[i o]|]; [|done]. by rewrite (alike_envelope _ _ _ E).
  - intros. by apply put_draft_alike.
  - intros. by apply apply_alike.
  - intros. by apply update_alike.
Qed.
End Secrets.

(** ** Concrete settings *)
Definition demo_settings : SettingsNode := {|
  settings_node := "11111111-1111-4111-8111-111111111111"; catalog_source := true; runtime_bound := true;
  bracketed_host := fun _ => false |}.
#[local] Existing Instance demo_settings.
Definition secretive (token : string) : SettingsManager :=
  let p := mkPrivate (Some [mkPrivateMCP "tools" "Tools" true "sse" "https://tools.example/mcp" 30000 token]) (mkInference (Some "model") None None) in
  mkSettingsManager (mkDisk 1 1 p p (Some ∅)) NoSettings.
Definition demo_keep : PutRequest := mkPut 1 (mkSnapshot (mkInference (Some "other") None None) (mkMCPDocument MCPDocumentSchemaID
  (Some [mkMCPServer "tools" "Tools" true "sse" "https://tools.example/mcp" 30000 (mkMCPAuth "bearer" false "keep" "")])) None).
Lemma settings_hide_secrets_witness :
  pm_token <$> servers_of (ds_draft (sm_state (PutDraft false settings_node demo_keep Written (secretive "alpha")).2)) = ["alpha"]
  /\ (PutDraft false settings_node demo_keep Written (secretive "alpha")).1 = (PutDraft false settings_node demo_keep Written (secretive "beta")).1
  /\ match (PutDraft false settings_node demo_keep Written (secretive "alpha")).1 with inr _ => True | inl _ => False end.
Proof.
  split; [by vm_compute|]. split; [|by vm_compute].
  destruct (settings_hide_secrets (secretive "alpha") (secretive "beta")) as (_ & _ & H & _); [by vm_compute|]. apply H.
Defined.

(** ** What the settings do not hold to *)
(** Commands are never refused for their number, and [Open] refuses a file with
    more than 4096: the next start fails. *)
Lemma settings_outgrow_restart ctx node request now id w m e m' model clock :
  Apply ctx node request now id w m = (inr e, true, m') -> manager_ok m -> printable now = true -> uuid4Pattern id = true ->
  4096 <= Z.of_nat (size (records (sm_state m))) -> OpenSettings model clock Written (sm_file m') = (None, sm_file m').
Proof.
  intros Happ Hm Hnow Hid Hsize. pose proof (apply_ok _ _ _ _ _ _ _ _ _ _ Happ Hm Hnow Hid) as ([Hs _] & _ & _ & r & Hnone & Hrec & _).
  assert (sm_file m' = settings_text (sm_state m')) as ->.
  { unfold Apply in Happ. repeat case_match; simplify_eq/=; by destruct w; simplify_eq/=. }
  unfold OpenSettings. destruct (_ || _); [done|]. unfold settings_text at 1. destruct (_ <? _); [done|]. rewrite decode_sound by done.
  destruct (_ <=? _); [|done]. cbn [mbind option_bind]. assert (validDiskState (sm_state m') = false) as ->; [|done].
  unfold validDiskState. rewrite (sd_operations _ Hs), Hrec, map_size_insert_None by done.
  assert (Z.of_nat (S (size (records (sm_state m)))) <=? 4096 = false) as -> by (apply Z.leb_gt; lia).
  cbn [andb]. apply andb_false_r.
Qed.
(** The latest operation is chosen by comparing texts: half a second after noon
    is before noon. *)
Lemma latest_operation_is_textual :
  string_gtb (timestamp (1700000000 * 10 ^ 9)) (timestamp (1700000000 * 10 ^ 9 + 5 * 10 ^ 8)) = true.
Proof. by vm_compute. Qed.
