(* ===== verification/SettingsValidation.v ===== *)
(** * Located validation of settings documents, [nodesettings/validation.go]
    The validators report where a request is wrong before it is decoded: the
    errors are sorted by their JSON pointer.  A document they find valid is one
    that [validateDraft] accepts, but for the secrets it refers to. *)
From stdpp Require Import base tactics list strings gmap.
From Stdlib Require Import ZArith Lia Ascii String.
From S2P Require Import Prelude Json Wire Instant TranscriptView Auth AuthSections Settings SettingsManager SettingsFacts.
Open Scope string_scope.
Open Scope list_scope.
Open Scope Z_scope.
Open Scope harness_scope.

(** ** [MCPAuth.UnmarshalJSON] and the decoding of a server *)
Record auth_input := mkAuthInput { ai_kind : string; ai_action : string; ai_secret : string; ai_configured : option bool }.
#[export] Instance auth_input_eta : Eta auth_input := fun a => mkAuthInput (ai_kind a) (ai_action a) (ai_secret a) (ai_configured a).
Definition into_bool_pointer (v : json) : option (option bool) :=
  match v with JNull => Some None | JBool b => Some (Some b) | _ => None end.
Definition set_auth_input (name : string) (v : json) (a : auth_input) : option auth_input :=
  if name =s "KIND" then x ← into_string v (ai_kind a); Some (a <| ai_kind := x |>)
  else if name =s "SECRETACTION" then x ← into_string v (ai_action a); Some (a <| ai_action := x |>)
  else if name =s "SECRET" then x ← into_string v (ai_secret a); Some (a <| ai_secret := x |>)
  else if name =s "BEARERTOKENCONFIGURED" then x ← into_bool_pointer v; Some (a <| ai_configured := x |>)
  else None.
Definition auth_of_input (input : auth_input) : MCPAuth :=
  let action :=
    if negb (ai_action input =s "") then ai_action input
    else if (ai_kind input =s "bearer") && match ai_configured input with Some b => b | None => false end then "keep"
    else if ai_kind input =s "none" then "remove" else "" in
  mkMCPAuth (ai_kind input) false action (ai_secret input).
Definition MCPAuth_of_json (v : json) : option MCPAuth :=
  input ← into_struct set_auth_input v (mkAuthInput "" "" "" None); Some (auth_of_input input).
(** Members of no field are skipped here. *)
Definition set_MCPServer (name : string) (v : json) (s : MCPServer) : option MCPServer :=
  if name =s "ID" then x ← into_string v (sv_id s); Some (s <| sv_id := x |>)
  else if name =s "NAME" then x ← into_string v (sv_name s); Some (s <| sv_name := x |>)
  else if name =s "ENABLED" then x ← into_bool v (sv_enabled s); Some (s <| sv_enabled := x |>)
  else if name =s "TRANSPORT" then x ← into_string v (sv_transport s); Some (s <| sv_transport := x |>)
  else if name =s "URL" then x ← into_string v (sv_url s); Some (s <| sv_url := x |>)
  else if name =s "TIMEOUTMS" then x ← into_int v (sv_timeout s); Some (s <| sv_timeout := x |>)
  else if name =s "AUTH" then x ← MCPAuth_of_json v; Some (s <| sv_auth := x |>)
  else Some s.
Definition no_server : MCPServer := mkMCPServer "" "" false "" "" 0 (mkMCPAuth "" false "" "").
Definition MCPServer_of_json (v : json) : option MCPServer := into_struct set_MCPServer v no_server.

(** ** Errors and their places *)
Record ValidationError := mkIssue { ve_path : string; ve_code : string }.
Fixpoint replace_char (c : ascii) (by_ : string) (s : string) : string :=
  match s with EmptyString => "" | String d s' => (if (d =? c)%char then by_ else String d "") +:+ replace_char c by_ s' end.
Definition pointerToken (value : string) : string := replace_char "/" "~1" (replace_char "~" "~0" value).
(** The members of an object as a Go map: the last of several with one name. *)
Definition member (name : string) (v : json) : option json :=
  match v with
  | JObj l => match List.find (fun p => p.1 =s name) (reverse l) with Some p => Some p.2 | None => None end
  | _ => None
  end.
Definition checkFields (v : json) (path : string) (fields : list string) : list ValidationError :=
  match v with
  | JObj l =>
      List.map (fun name => mkIssue (path +:+ "/" +:+ pointerToken name) "unknown_field")
        (List.filter (fun name => negb (one_of name fields)) (remove_dups (List.map fst l)))
  | _ => [mkIssue path "invalid_type"]
  end.
(** The order of errors with one path is left open by [sort.Slice], as is the
    order in which [checkFields] meets the members of a map; here it is the
    order in which they stand. *)
Definition sort_issues (l : list ValidationError) : list ValidationError :=
  List.map snd (sort_by_key (List.map (fun e => (ve_path e, e)) l)).
Definition issue (b : bool) (path code : string) : list ValidationError := if b then [mkIssue path code] else [].

(** ** Documents *)
Record raw_document := mkRawDocument { rd_schema : string; rd_servers : option (list json) }.
#[export] Instance raw_document_eta : Eta raw_document := fun d => mkRawDocument (rd_schema d) (rd_servers d).
Definition set_raw_document (name : string) (v : json) (d : raw_document) : option raw_document :=
  if name =s "SCHEMAID" then x ← into_string v (rd_schema d); Some (d <| rd_schema := x |>)
  else if name =s "SERVERS" then x ← into_slice Some v; Some (d <| rd_servers := x |>)
  else Some d.
Definition server_fields : list string := ["id"; "name"; "enabled"; "transport"; "url"; "timeoutMs"; "auth"].
Definition auth_fields : list string := ["kind"; "secretAction"; "secret"; "bearerTokenConfigured"].
Definition absent (name : string) (v : json) : bool := match member name v with Some _ => false | None => true end.

Section Documents.
Context `{SettingsNode}.
Definition auth_issues (base : string) (a : MCPAuth) : list ValidationError :=
  issue (negb (one_of (au_kind a) ["none"; "bearer"])) (base +:+ "/auth/kind") "unsupported_auth"
  ++ issue (negb (one_of (au_action a) ["keep"; "replace"; "remove"])) (base +:+ "/auth/secretAction") "invalid_secret_action"
  ++ issue ((au_kind a =s "none") && (negb (au_action a =s "remove") || negb (au_secret a =s ""))) (base +:+ "/auth") "invalid_auth"
  ++ issue ((au_kind a =s "bearer")
            && (((au_action a =s "keep") && negb (au_secret a =s ""))
                || ((au_action a =s "replace") && (negb (validText (au_secret a) (16 * 1024)) || contains_byte [13; 10]%N (au_secret a)))))
       (base +:+ "/auth") "invalid_auth".
Definition server_issues (base : string) (seen : gset string) (v : json) (s : MCPServer) : list ValidationError :=
  issue (negb (identifierPattern (sv_id s)) || bool_decide (sv_id s ∈ seen)) (base +:+ "/id") "invalid_id"
  ++ issue (negb (validText (sv_name s) 200)) (base +:+ "/name") "invalid_name"
  ++ issue (negb (one_of (sv_transport s) ["streamable_http"; "sse"])) (base +:+ "/transport") "unsupported_transport"
  ++ issue (negb (valid_endpoint (sv_url s))) (base +:+ "/url") "invalid_url"
  ++ issue ((sv_timeout s <? 100) || (120000 <? sv_timeout s)) (base +:+ "/timeoutMs") "invalid_timeout"
  ++ List.concat (List.map (fun name => issue (absent name v) (base +:+ "/" +:+ name) "required")
       ["id"; "name"; "enabled"; "transport"; "url"; "timeoutMs"])
  ++ (if absent "auth" v then [mkIssue (base +:+ "/auth") "required"] else auth_issues base (sv_auth s)).
Fixpoint servers_issues (l : list json) (index : Z) (seen : gset string) : list ValidationError :=
  match l with
  | [] => []
  | v :: l' =>
      let base := "/mcpDocument/servers/" +:+ itoa index in
      let shape := checkFields v base server_fields
        ++ match member "auth" v with Some a => checkFields a (base +:+ "/auth") auth_fields | None => [] end in
      match MCPServer_of_json v with
      | None => shape ++ (match shape with [] => [mkIssue base "invalid_type"] | _ => [] end) ++ servers_issues l' (index + 1) seen
      | Some s => shape ++ server_issues base seen v s ++ servers_issues l' (index + 1) ({[sv_id s]} ∪ seen)
      end
  end.
Definition document_issues (v : json) : list ValidationError :=
  checkFields v "/mcpDocument" ["schemaId"; "servers"]
  ++ match into_struct set_raw_document v (mkRawDocument "" None) with
     | None => [mkIssue "/mcpDocument" "invalid_type"]
     | Some d =>
         issue (negb (rd_schema d =s MCPDocumentSchemaID)) "/mcpDocument/schemaId" "unsupported_schema"
         ++ issue (match rd_servers d with None => true | Some l => maximumServers <? Z.of_nat (List.length l) end)
              "/mcpDocument/servers" "invalid_servers"
         ++ servers_issues (default [] (rd_servers d)) 0 ∅
     end.
Record MCPValidation := mkValidation { mv_schema : string; mv_valid : bool; mv_errors : list ValidationError }.
(** A document that does not decode is returned with [Valid] as it was made,
    false, and its errors in the order they were found. *)
Definition ValidateMCPDocumentJSON (v : json) : MCPValidation :=
  let errors := document_issues v in
  match into_struct set_raw_document v (mkRawDocument "" None) with
  | None => mkValidation "harness-mcp-validation-v2" false errors
  | Some _ => mkValidation "harness-mcp-validation-v2" (match errors with [] => true | _ => false end) (sort_issues errors)
  end.

(** ** [ValidatePutJSON]: [None] is a text that is not JSON *)
Definition legacy_issues (v : json) (index : Z) : list ValidationError :=
  let base := "/draft/mcpServers/" +:+ itoa index in
  checkFields v base server_fields
  ++ match member "auth" v with Some a => checkFields a (base +:+ "/auth") auth_fields | None => [] end.
Fixpoint indexed {A B} (f : A -> Z -> list B) (l : list A) (index : Z) : list B :=
  match l with [] => [] | a :: l' => f a index ++ indexed f l' (index + 1) end.
Definition draft_issues (draft : json) : list ValidationError :=
  match member "inference" draft with
  | Some i => checkFields i "/draft/inference" ["modelId"; "speedMode"; "reasoningEffort"]
  | None => [mkIssue "/draft/inference" "required"]
  end
  ++ match member "mcpDocument" draft with
     | Some d => List.map (fun e => mkIssue ("/draft" +:+ ve_path e) (ve_code e)) (mv_errors (ValidateMCPDocumentJSON d))
     | None => issue (absent "mcpServers" draft) "/draft/mcpDocument" "required"
     end
  ++ match member "mcpServers" draft with
     | Some (JArr l) => indexed legacy_issues l 0
     | Some _ => [mkIssue "/draft/mcpServers" "invalid_type"]
     | None => []
     end.
Definition ValidatePutJSON (raw : option json) : list ValidationError :=
  match raw with
  | Some (JObj l as root) =>
      let errors := checkFields root "" ["expectedRevision"; "draft"]
        ++ issue (absent "expectedRevision" root) "/expectedRevision" "required" in
      match member "draft" root with
      | None => errors ++ [mkIssue "/draft" "required"]
      | Some draft =>
          let errors := errors ++ checkFields draft "/draft" ["inference"; "mcpDocument"; "mcpServers"] in
          match draft with
          | JObj _ => sort_issues (errors ++ draft_issues draft)
          | _ => errors ++ [mkIssue "/draft" "invalid_type"]
          end
      end
  | _ => [mkIssue "" "invalid_type"]
  end.

(** ** What a document found valid leaves open *)
(** The servers of a document as the typed decoder reads them; the request was
    refused before when a member is repeated in it. *)
Definition MCPDocument_of_json (v : json) : option MCPDocument :=
  d ← into_struct set_raw_document v (mkRawDocument "" None);
  match rd_servers d with
  | None => Some (mkMCPDocument (rd_schema d) None)
  | Some l => servers ← sequence (List.map MCPServer_of_json l); Some (mkMCPDocument (rd_schema d) (Some servers))
  end.
(** A server whose secret is at hand: none is wanted, one is given, or the one
    to be kept exists. *)
Definition secret_at_hand (previous : privateSnapshot) (s : MCPServer) : bool :=
  (au_kind (sv_auth s) =s "none") || (au_action (sv_auth s) =s "replace")
  || ((au_action (sv_auth s) =s "keep") && negb (prior_token previous (sv_id s) =s "")).
Definition inference_ok (i : Inference) : bool :=
  valid_text_pointer (in_model i) 200 && valid_text_pointer (in_effort i) 100
  && match in_speed i with Some s => validText s 100 && validSpeed s | None => true end.

Lemma issue_nil b path code : issue b path code = [] <-> b = false.
Proof. by destruct b. Qed.
Lemma is_some_bool {A} (o : option A) (b : bool) : b = (match o with Some _ => true | None => false end) -> is_Some o <-> b = true.
Proof. intros ->. destruct o; split; [done|by eexists|by intros [? ?]|done]. Qed.

Lemma auth_issues_nil base a prior : auth_issues base a = [] ->
  is_Some (draft_secret a prior) <->
  (au_kind a =s "none") || (au_action a =s "replace") || ((au_action a =s "keep") && negb (prior =s "")) = true.
Proof.
  unfold auth_issues. rewrite !app_nil, !issue_nil. unfold draft_secret, one_of. cbn [existsb].
  intros (H1 & H2 & H3 & H4). apply is_some_bool. revert H1 H2 H3 H4.
  destruct (au_kind a =s "none") eqn:Ek; [apply String.eqb_eq in Ek; rewrite Ek|]; cbn;
    [by destruct (au_action a =s "remove"), (au_secret a =s "")|].
  destruct (au_kind a =s "bearer"); cbn; [|done].
  destruct (au_action a =s "keep") eqn:Ea; [apply String.eqb_eq in Ea; rewrite Ea|]; cbn;
    [by destruct (au_secret a =s ""), (prior =s "")|].
  destruct (au_action a =s "replace"); cbn; [|done]. by destruct (validText _ _), (contains_byte _ _).
Qed.

Lemma server_issues_nil base seen v s : server_issues base seen v s = [] ->
  bool_decide (sv_id s ∈ seen) || negb (identifierPattern (sv_id s)) || negb (validText (sv_name s) 200)
    || negb (one_of (sv_transport s) ["streamable_http"; "sse"]) || (sv_timeout s <? 100) || (120000 <? sv_timeout s) = false
  /\ valid_endpoint (sv_url s) = true /\ exists base, auth_issues base (sv_auth s) = [].
Proof.
  unfold server_issues. rewrite !app_nil, !issue_nil. intros (H1 & H2 & H3 & H4 & H5 & _ & H6).
  apply orb_false_iff in H1 as [H1a H1b], H5 as [H5a H5b]. apply negb_false_iff in H4. rewrite H1a, H1b, H2, H3, H5a, H5b.
  split; [done|]. split; [done|]. destruct (absent "auth" v); [done|]. by eexists.
Qed.

Lemma servers_issues_nil previous l index seen : servers_issues l index seen = [] ->
  exists servers, sequence (List.map MCPServer_of_json l) = Some servers /\ List.length servers = List.length l
    /\ (is_Some (draft_servers previous servers seen) <-> forallb (secret_at_hand previous) servers = true).
Proof.
  revert index seen. induction l as [|v l IH]; intros index seen; cbn [servers_issues].
  { intros _. exists []. repeat split; eauto. }
  set (shape := checkFields _ _ _ ++ _). clearbody shape.
  destruct (MCPServer_of_json v) as [s|] eqn:Es; [|destruct shape; by rewrite ?app_nil; intros (? & ? & ?)].
  rewrite !app_nil. intros (_ & (Hg & Hu & base & Ha)%server_issues_nil & Hr).
  destruct (IH _ _ Hr) as (servers & Hq & Hn & Hd). exists (s :: servers).
  cbn [List.map sequence]. rewrite Es, Hq. split; [done|]. split; [cbn; by rewrite Hn|]. cbn [draft_servers forallb].
  rewrite Hg, Hu. cbn [negb]. change (secret_at_hand previous s) with
    ((au_kind (sv_auth s) =s "none") || (au_action (sv_auth s) =s "replace")
     || ((au_action (sv_auth s) =s "keep") && negb (prior_token previous (sv_id s) =s ""))).
  rewrite andb_true_iff, <- (auth_issues_nil base (sv_auth s)), <- Hd by done.
  destruct (draft_secret _ _) as [token|]; cbn [mbind option_bind];
    [destruct (draft_servers _ _ _); cbn; [by split; eauto|]|].
  - split; [by intros [? ?]|by intros [_ [? ?]]].
  - split; [by intros [? ?]|by intros [[? ?] _]].
Qed.

Lemma draft_servers_length previous l seen l' : draft_servers previous l seen = Some l' -> List.length l' = List.length l.
Proof.
  revert seen l'. induction l as [|s l IH]; intros seen l'; cbn [draft_servers]; [by intros [= <-]|].
  destruct (_ || _); [done|]. destruct (negb _); [done|]. destruct (draft_secret _ _); [|done]. cbn [mbind option_bind].
  destruct (draft_servers _ _ _) as [rest|] eqn:E; [|done]. intros [= <-]. cbn. by erewrite IH.
Qed.
Lemma sort_servers_length l : List.length (sort_servers l) = List.length l.
Proof. unfold sort_servers. by rewrite length_map, (Permutation_length (sort_by_key_perm _)), length_map. Qed.

(** C40: a document the located validation finds valid decodes, and a draft with
    it is accepted exactly when the secret of each server is at hand.  So the only request
    that is told to be valid and then refused is one for a secret the server
    does not have: a bearer token to keep that was never given, or one to
    remove while the server still wants a bearer token. *)
Theorem valid_document_needs_secrets v inference previous :
  mv_valid (ValidateMCPDocumentJSON v) = true -> inference_ok inference = true ->
  exists d servers, MCPDocument_of_json v = Some d /\ d = mkMCPDocument MCPDocumentSchemaID (Some servers)
    /\ if forallb (secret_at_hand previous) servers
       then exists draft, validateDraft (mkSnapshot inference d None) previous = inr draft
                          /\ List.length (servers_of draft) = List.length servers
       else validateDraft (mkSnapshot inference d None) previous = inl invalid.
Proof.
  unfold ValidateMCPDocumentJSON, document_issues, MCPDocument_of_json.
  destruct (into_struct set_raw_document v _) as [[schema found]|]; [|done]. cbn [mbind option_bind rd_schema rd_servers].
  destruct (_ ++ _) as [|e es] eqn:E; [|done]. intros _.
  rewrite !app_nil, !issue_nil in E. destruct E as (_ & Hs & Hn & Hl).
  apply negb_false_iff, String.eqb_eq in Hs as ->. destruct found as [l|]; [|done]. change (default [] (Some l)) with l in Hl.
  apply (servers_issues_nil previous) in Hl as (servers & Hq & Hlen & Hd). rewrite Hq. cbn [mbind option_bind].
  unfold inference_ok. intros [[Hm He]%andb_true_iff Hsp]%andb_true_iff.
  eexists _, servers. split; [done|]. split; [done|].
  unfold validateDraft, requested_servers. cbn -[validSpeed]. unfold id. rewrite Hlen, Hm, He, Hn.
  replace (negb (valid_text_pointer (in_speed inference) 100)) with false
    by (symmetry; destruct (in_speed inference); [apply andb_true_iff in Hsp as [Hsp _]; unfold valid_text_pointer; by rewrite Hsp|done]).
  replace (match in_speed inference with Some s => negb (validSpeed s) | None => false end) with false
    by (symmetry; destruct (in_speed inference); [apply andb_true_iff in Hsp as [_ Hsp]; by rewrite Hsp|done]).
  destruct (draft_servers previous servers ∅) as [l'|] eqn:El.
  - rewrite (proj1 Hd) by eauto. eexists. split; [done|]. cbn. rewrite sort_servers_length, <- Hlen. by eapply draft_servers_length.
  - destruct (forallb _ _); [|done]. by destruct (proj2 Hd eq_refl).
Qed.
End Documents.

(** ** Concrete documents *)
#[local] Existing Instance demo_settings.
Definition demo_server_json (id action secret : string) : json :=
  JObj [("id", JStr id); ("name", JStr "Tools"); ("enabled", JBool true); ("transport", JStr "sse");
        ("url", JStr "https://tools.example/mcp"); ("timeoutMs", JNum "30000");
        ("auth", JObj (("kind", JStr "bearer") :: ("secretAction", JStr action) :: (if secret =s "" then [] else [("secret", JStr secret)])))].
Definition demo_document_json (l : list json) : json := JObj [("schemaId", JStr MCPDocumentSchemaID); ("servers", JArr l)].
Definition no_settings_yet : privateSnapshot := mkPrivate (Some []) (mkInference None None None).
Lemma valid_document_needs_secrets_witness :
  let v := demo_document_json [demo_server_json "b" "replace" "token"; demo_server_json "a" "replace" "other"] in
  mv_valid (ValidateMCPDocumentJSON v) = true /\
  exists d servers, MCPDocument_of_json v = Some d /\ d = mkMCPDocument MCPDocumentSchemaID (Some servers)
    /\ if forallb (secret_at_hand no_settings_yet) servers
       then exists draft, validateDraft (mkSnapshot (mkInference None None None) d None) no_settings_yet = inr draft
                          /\ List.length (servers_of draft) = List.length servers
       else validateDraft (mkSnapshot (mkInference None None None) d None) no_settings_yet = inl invalid.
Proof.
  split; [by vm_compute|]. apply (valid_document_needs_secrets _ (mkInference None None None) no_settings_yet); by vm_compute.
Defined.
(** The validation passes a bearer server whose secret is to be removed;
    [validateDraft] refuses it whatever there was before. *)
Lemma removed_bearer_refused :
  let v := demo_document_json [demo_server_json "tools" "remove" ""] in
  mv_valid (ValidateMCPDocumentJSON v) = true
  /\ exists d, MCPDocument_of_json v = Some d
       /\ forall previous, validateDraft (mkSnapshot (mkInference None None None) d None) previous = inl invalid.
Proof. split; [by vm_compute|]. eexists. split; [by vm_compute|]. intros previous. reflexivity. Qed.
(** Every fault of a document is named, in the order of its pointer. *)
Example located_faults :
  List.map (fun e => (ve_path e, ve_code e))
    (mv_errors (ValidateMCPDocumentJSON (JObj [("schemaId", JStr "v1"); ("extra/x", JNull); ("servers", JArr [JObj [("id", JStr "a")]])])))
  = [("/mcpDocument/extra~1x", "unknown_field"); ("/mcpDocument/schemaId", "unsupported_schema");
     ("/mcpDocument/servers/0/auth", "required"); ("/mcpDocument/servers/0/enabled", "required");
     ("/mcpDocument/servers/0/name", "invalid_name"); ("/mcpDocument/servers/0/name", "required");
     ("/mcpDocument/servers/0/timeoutMs", "invalid_timeout"); ("/mcpDocument/servers/0/timeoutMs", "required");
     ("/mcpDocument/servers/0/transport", "unsupported_transport"); ("/mcpDocument/servers/0/transport", "required");
     ("/mcpDocument/servers/0/url", "invalid_url"); ("/mcpDocument/servers/0/url", "required")].
Proof. vm_compute. reflexivity. Qed.
