(* ===== verification/Credential.v ===== *)
(** * The Cursor credential, [adapters/cursor/auth_backend.go] and the adapter slot of [adapters/cursor/managed.go]
    The credential file, the rollback marker beside it, and the adapter that
    runs with the credential.  A replacement is provisional until [Finalize]:
    the marker holds what a restart restores.  Every operation on a file may
    fail before or after it took effect, and the process may crash there. *)
From stdpp Require Import base tactics list strings gmap.
From Stdlib Require Import ZArith Lia Ascii String.
From S2P Require Import Prelude Json Wire Instant TranscriptView Auth Settings SettingsManager.
Open Scope string_scope.
Open Scope list_scope.
Open Scope Z_scope.
Open Scope harness_scope.

(** ** State *)
(** What settings configure a worker with, [configured]: an MCP server by its
    transport, URL and headers. *)
Record MCPServerConfig := mkServerConfig { mc_type : string; mc_url : string; mc_authorization : option string }.
Record NativeConfig := mkNativeConfig { nc_model : string; nc_params : gmap string string; nc_servers : gmap string MCPServerConfig }.
#[export] Instance MCPServerConfig_eq_dec : EqDecision MCPServerConfig.
Proof. solve_decision. Defined.
#[export] Instance NativeConfig_eq_dec : EqDecision NativeConfig.
Proof. solve_decision. Defined.
Definition configured_server (s : RuntimeMCPServer) : MCPServerConfig :=
  mkServerConfig (if rs_transport s =s "sse" then "sse" else "http") (rs_url s)
    (if rs_token s =s "" then None else Some ("Bearer " +:+ rs_token s)).
Definition configured (settings : RuntimeConfig) : NativeConfig :=
  mkNativeConfig (rt_model settings) (rt_params settings)
    (foldl (fun m s => <[rs_id s := configured_server s]> m) ∅ (rt_servers settings)).
(** An adapter: its generation, and the secret and the settings it was built
    with. *)
Record NativeAdapter := mkAdapter { generation : nat; api_key : string; native_config : NativeConfig }.
#[export] Instance NativeAdapter_eq_dec : EqDecision NativeAdapter.
Proof. solve_decision. Defined.
Record Backend := mkBackend {
  credentialFile : option string; rollbackMarker : option string;
  current : option NativeAdapter; closed : bool; generations : nat; config : NativeConfig }.
#[export] Instance backend_eta : Eta Backend := fun b =>
  mkBackend (credentialFile b) (rollbackMarker b) (current b) (closed b) (generations b) (config b).

(** ** File operations that may fail or not return *)
Inductive effect := Done | Refused | DoneThenFailed | CrashBefore | CrashAfter.
Inductive outcome (X : Type) := Crashed | Answered (x : X).
Arguments Crashed {X}.
Arguments Answered {X} x.
(** What the environment decides: the n-th file operation, the n-th reading of
    [ctx.Err()], whether the n-th adapter can be built. *)
Record BackendEnv := mkBackendEnv { io_effect : nat -> effect; ctx_done : nat -> bool; buildable : nat -> bool }.
Record Turns := mkTurns { n_io : nat; n_ctx : nat; n_build : nat }.
Definition C (X : Type) : Type := BackendEnv -> Turns -> Backend -> outcome X * Turns * Backend.
#[export] Instance C_ret : MRet C := fun X x env n b => (Answered x, n, b).
#[export] Instance C_bind : MBind C := fun X Y k p env n b =>
  match p env n b with
  | (Answered x, n', b') => k x env n' b'
  | (Crashed, n', b') => (Crashed, n', b')
  end.
Definition peek {X} (f : Backend -> X) : C X := fun env n b => (Answered (f b), n, b).
Definition put (f : Backend -> Backend) : C unit := fun env n b => (Answered tt, n, f b).
(** One operation on a file; [true] is an error. *)
Definition file_op (f : Backend -> Backend) : C bool := fun env n b =>
  let n' := mkTurns (S (n_io n)) (n_ctx n) (n_build n) in
  match io_effect env (n_io n) with
  | Done => (Answered false, n', f b)
  | Refused => (Answered true, n', b)
  | DoneThenFailed => (Answered true, n', f b)
  | CrashBefore => (Crashed, n', b)
  | CrashAfter => (Crashed, n', f b)
  end.
Definition ctx_failed : C bool := fun env n b => (Answered (ctx_done env (n_ctx n)), mkTurns (n_io n) (S (n_ctx n)) (n_build n), b).

(** ** Secrets on disk *)
Definition valid_secret (s : string) : bool :=
  negb (s =s "") && (byte_length s <=? 16 * 1024) && negb (containsControl s).
Definition trim_suffix (suffix : ascii) (s : string) : string :=
  let n := String.length s in
  match n with
  | O => s
  | S k => if String.substring k 1 s =s String suffix "" then String.substring 0 k s else s
  end.
Definition newline : ascii := ascii_of_N 10.
Definition carriage : ascii := ascii_of_N 13.
(** The secret a file holds: [None] is an error, [Some None] no file. *)
Definition secret_of (file : option string) : option (option string) :=
  match file with
  | None => Some None
  | Some raw => let s := trim_suffix carriage (trim_suffix newline raw) in if valid_secret s then Some (Some s) else None
  end.
Definition readPrivateSecret (file : Backend -> option string) : C (option (option string)) :=
  err ← file_op (fun b => b);
  if (err : bool) then mret None else raw ← peek file; mret (secret_of raw).
Definition writePrivateSecret (write : option string -> Backend -> Backend) (s : string) : C bool :=
  if negb (valid_secret s) then mret true else file_op (write (Some s)).
Definition restorePrivateSecret (write : option string -> Backend -> Backend) (s : string) (existed : bool) : C bool :=
  if existed then writePrivateSecret write s else file_op (write None).
Definition credential_write (o : option string) (b : Backend) : Backend := b <| credentialFile := o |>.
Definition marker_write (o : option string) (b : Backend) : Backend := b <| rollbackMarker := o |>.

Definition writeRollbackMarker (s : string) (existed : bool) : C bool :=
  writePrivateSecret marker_write (if existed then "1" +:+ s else "0").
Definition removeRollbackMarker : C bool := file_op (marker_write None).
Definition recoverInterruptedReplacement : C bool :=
  marker ← readPrivateSecret rollbackMarker;
  match marker with
  | None => mret true
  | Some None => mret false
  | Some (Some m) =>
      err ← (if m =s "0" then restorePrivateSecret credential_write "" false
             else if String.prefix "1" m && (1 <? byte_length m)
             then restorePrivateSecret credential_write (String.substring 1 (String.length m - 1) m) true
             else mret true);
      if (err : bool) then mret true else removeRollbackMarker
  end.

(** ** The managed adapter *)
(** [New] of an adapter. *)
Definition build (settings : NativeConfig) (secret : string) : C (option NativeAdapter) := fun env n b =>
  let n' := mkTurns (n_io n) (n_ctx n) (S (n_build n)) in
  if buildable env (n_build n) then (Answered (Some (mkAdapter (generations b) secret settings)), n', b <| generations ::= S |>)
  else (Answered None, n', b).
Definition Prepare (secret : string) : C (option NativeAdapter) := settings ← peek config; build settings secret.
Definition ConfigureApplied (settings : RuntimeConfig) : C unit := put (fun b => b <| config := configured settings |>).
(** [inl] is an error, [inr] the adapter that was replaced. *)
Definition Exchange (replacement : NativeAdapter) : C (unit + option NativeAdapter) :=
  b ← peek id;
  if closed b then mret (inl tt) else put (fun b => b <| current := Some replacement |>) ;; mret (inr (current b)).
Definition Restore (expected prior : option NativeAdapter) : C bool :=
  b ← peek id;
  if closed b || negb (bool_decide (current b = expected)) then mret true
  else put (fun b => b <| current := prior |>) ;; mret false.
Definition Swap (replacement : NativeAdapter) : C bool :=
  e ← Exchange replacement; mret (match e with inl _ => true | inr _ => false end).
(** The prior adapter's [Close] may report an error. *)
Definition Deactivate : C bool :=
  prior ← peek current; put (fun b => b <| current := None |>) ;;
  match prior with Some _ => file_op (fun b => b) | None => mret false end.
(** The adapter a request runs on, if there is one. *)
Definition managed_adapter : C (option NativeAdapter) := b ← peek id; mret (if closed b then None else current b).
Definition NativeReady (b : Backend) : bool := negb (closed b) && match current b with Some _ => true | None => false end.
(** The adapter is replaced by one with other settings; [models] is the catalog
    a new one answers with.  The answers are whether a rollback failed, and
    whether there was an error. *)
Definition RestartSettings (settings : RuntimeConfig) (models : NativeAdapter -> option (list string)) : C (bool * bool) :=
  b ← peek id;
  match current b with
  | None => mret (false, true)
  | Some prior =>
      if closed b then mret (false, true) else
      put (fun b => b <| current := None |>) ;;
      ended ← ctx_failed;
      candidate ← (if (ended : bool) then mret None else
        built ← build (configured settings) (api_key prior);
        mret (match built with
              | Some adapter =>
                  match models adapter with Some ids => if one_of (rt_model settings) ids then Some adapter else None | None => None end
              | None => None
              end));
      match candidate with
      | Some adapter => put (fun b => b <| current := Some adapter |> <| config := configured settings |>) ;; mret (false, false)
      | None =>
          restored ← build (native_config prior) (api_key prior);
          match restored with
          | None => mret (true, true)
          | Some adapter => put (fun b => b <| current := Some adapter |>) ;; mret (false, true)
          end
      end
  end.
(** [seed] is the seed file, if one is configured, and what it holds. *)
Definition Bootstrap (seed : option (option string)) (firstRun : bool) : C (option bool) :=
  err ← recoverInterruptedReplacement;
  if (err : bool) then mret None else
  stored ← readPrivateSecret credentialFile;
  match stored with
  | None => mret None
  | Some found =>
      seeded ← match found, firstRun, seed with
        | None, true, Some content =>
            s ← readPrivateSecret (fun _ => content);
            match s with
            | None => mret None
            | Some (Some secret) =>
                err ← writePrivateSecret credential_write secret; mret (if (err : bool) then None else Some (Some secret))
            | Some None => mret (Some None)
            end
        | _, _, _ => mret (Some found)
        end;
      match seeded with
      | None => mret None
      | Some None => mret (Some false)
      | Some (Some secret) =>
          built ← Prepare secret;
          match built with
          | None => mret None
          | Some adapter => err ← Swap adapter; mret (if (err : bool) then None else Some true)
          end
      end
  end.
(** The directory is synced too, and an error of that is not looked at. *)
Definition remove_credential : C bool := fun env n b =>
  match file_op (credential_write None) env n b with
  | (Answered true, n', b') =>
      (Answered match io_effect env (n_io n) with DoneThenFailed => false | _ => true end, n', b')
  | other => other
  end.
Definition BackendLogout : C bool :=
  err ← remove_credential;
  if (err : bool) then mret true else Deactivate.

(** The secret of the context, or the stored one, as the provider's probe
    answers it. *)
Definition Probe (from_context : string) (answer : string -> ProbeResult) : C ProbeResult :=
  if negb (from_context =s "") then mret (answer from_context) else
  stored ← readPrivateSecret credentialFile;
  mret match stored with
    | None => ProbeUnavailable
    | Some None => ProbeUnauthenticated
    | Some (Some secret) => answer secret
    end.

(** ** A replacement *)
Record authReplacement := mkReplacement {
  rp_adapter : option NativeAdapter; rp_prior : option NativeAdapter; rp_secret : string; rp_previous : string;
  rp_had : bool; rp_committed : bool; rp_finalized : bool; rp_rolled : bool; rp_closed : bool }.
#[export] Instance authReplacement_eta : Eta authReplacement := fun r =>
  mkReplacement (rp_adapter r) (rp_prior r) (rp_secret r) (rp_previous r) (rp_had r) (rp_committed r) (rp_finalized r) (rp_rolled r) (rp_closed r).
Definition PrepareReplacement (secret : string) : C (option authReplacement) :=
  e ← ctx_failed;
  if (e : bool) then mret None else
  built ← Prepare secret;
  match built with
  | None => mret None
  | Some adapter =>
      e ← ctx_failed;
      if (e : bool) then mret None else mret (Some (mkReplacement (Some adapter) None secret "" false false false false false))
  end.
Definition rollbackLocked (r : authReplacement) : C (bool * authReplacement) :=
  if rp_finalized r || rp_rolled r then mret (false, r) else
  '(failed, r) ← (if rp_committed r then
      moved ← Restore (rp_adapter r) (rp_prior r);
      let r' := if (moved : bool) then r else r <| rp_adapter := None |> in
      err ← restorePrivateSecret credential_write (rp_previous r) (rp_had r);
      mret (moved || err, r')
    else mret (false, r <| rp_adapter := None |>));
  if (failed : bool) then mret (true, r) else
  err ← removeRollbackMarker;
  if (err : bool) then mret (true, r) else mret (false, r <| rp_rolled := true |>).
(** After a failure, with the marker removed or the replacement rolled back. *)
Definition commit_failed (r : authReplacement) : C (bool * authReplacement) := removeRollbackMarker ;; mret (true, r).
Definition commit_rollback (r : authReplacement) : C (bool * authReplacement) := '(_, r) ← rollbackLocked r; mret (true, r).
Definition Commit (r : authReplacement) : C (bool * authReplacement) :=
  match rp_adapter r with
  | None => mret (true, r)
  | Some adapter =>
      if rp_closed r || rp_committed r || rp_finalized r || rp_rolled r then mret (true, r) else
      e ← ctx_failed;
      if (e : bool) then mret (true, r) else
      stored ← readPrivateSecret credentialFile;
      match stored with
      | None => mret (true, r)
      | Some found =>
          let r := r <| rp_previous := default "" found |> <| rp_had := match found with Some _ => true | None => false end |> in
          err ← writeRollbackMarker (rp_previous r) (rp_had r);
          if (err : bool) then mret (true, r) else
          e ← ctx_failed;
          if (e : bool) then commit_failed r else
          x ← Exchange adapter;
          match x with
          | inl _ => commit_failed r
          | inr prior =>
              let r := r <| rp_prior := prior |> <| rp_committed := true |> in
              e ← ctx_failed;
              if (e : bool) then commit_rollback r else
              err ← writePrivateSecret credential_write (rp_secret r);
              if (err : bool) then commit_rollback r else
              e ← ctx_failed;
              if (e : bool) then commit_rollback r else mret (false, r)
          end
      end
  end.
Definition Rollback (r : authReplacement) : C (bool * authReplacement) := rollbackLocked r.
Definition Finalize (r : authReplacement) : C (bool * authReplacement) :=
  if rp_closed r || negb (rp_committed r) || rp_rolled r then mret (true, r) else
  if rp_finalized r then mret (false, r) else
  err ← removeRollbackMarker;
  if (err : bool) then mret (true, r)
  else mret (false, r <| rp_finalized := true |> <| rp_adapter := None |> <| rp_prior := None |>).
Definition CloseReplacement (r : authReplacement) : C (bool * authReplacement) :=
  if rp_closed r then mret (false, r) else
  let r := r <| rp_closed := true |> in
  if rp_committed r && negb (rp_finalized r) && negb (rp_rolled r) then rollbackLocked r
  else mret (false, r <| rp_adapter := None |>).

(** All of it at once. *)
Definition Replace (secret : string) : C bool :=
  prepared ← PrepareReplacement secret;
  match prepared with
  | None => mret true
  | Some r =>
      '(err, r) ← Commit r;
      '(err, r) ← (if (err : bool) then '(_, r) ← Rollback r; mret (true, r) else
        e ← ctx_failed;
        if (e : bool) then '(_, r) ← Rollback r; mret (true, r) else Finalize r);
      CloseReplacement r ;; mret err
  end.

(** ** The calls the manager makes on one replacement
    Commit, then [Finalize] or [Rollback]; or [Rollback] alone; and [Close]
    last.  The answers are those of the commit, of the second call and of
    [Close], [true] an error. *)
Inductive plan := PlanClose | PlanRollback | PlanCommit (finalize : bool).
Definition session (p : plan) (r : authReplacement) : C (bool * bool * bool) :=
  match p with
  | PlanClose => '(e, _) ← CloseReplacement r; mret (false, false, e)
  | PlanRollback => '(e1, r) ← Rollback r; '(e2, _) ← CloseReplacement r; mret (false, e1, e2)
  | PlanCommit finalize =>
      '(e0, r) ← Commit r;
      '(e1, r) ← (if negb e0 && finalize then Finalize r else Rollback r);
      '(e2, _) ← CloseReplacement r;
      mret (e0, e1, e2)
  end.
(** What a restart makes of the files: the secret that is stored after
    [recoverInterruptedReplacement]; [None] is a refusal to start. *)
Definition recovered (b : Backend) : option (option string) :=
  match secret_of (rollbackMarker b) with
  | None => None
  | Some None => secret_of (credentialFile b)
  | Some (Some m) =>
      if m =s "0" then Some None
      else if String.prefix "1" m && (1 <? byte_length m) then Some (Some (String.substring 1 (String.length m - 1) m))
      else None
  end.

(** ** The worker of the node settings *)
#[export] Instance managed_applier : RuntimeApplier Backend NativeConfig := {
  native := configured;
  managed := config;
  worker b := native_config <$> current b;
  restarts c b rollbackFailed err b' := exists models env n n', RestartSettings c models env n b = (Answered (rollbackFailed, err), n', b');
  boots c b := exists env n n' b0, ConfigureApplied c env n b0 = (Answered tt, n', b);
  logs_in b b' := exists secret adapter env n n1 n2 b1, Prepare secret env n b = (Answered (Some adapter), n1, b1)
    /\ Swap adapter env n1 b1 = (Answered false, n2, b');
  logs_out b b' := exists env n n', Deactivate env n b = (Answered false, n', b') }.
