(* ===== verification/CredentialFacts.v ===== *)
(** * What a credential replacement leaves on disk *)
From stdpp Require Import base tactics list strings gmap.
From Stdlib Require Import ZArith Lia Ascii String.
From S2P Require Import Prelude Json Parse ParseFacts Wire Instant TranscriptView TranscriptFacts Auth Settings SettingsManager Credential.
Open Scope string_scope.
Open Scope list_scope.
Open Scope Z_scope.
Open Scope harness_scope.

(** ** Secrets *)
Lemma substring_last s c : exists k c', String.length (String c s) = S k /\ String.substring k 1 (String c s) = String c' ""
  /\ c' ∈ list_ascii_of_string (String c s).
Proof.
  revert c. induction s as [|c1 s IH]; intros c; [exists 0%nat, c; split_and!; [done..|by left]|].
  destruct (IH c1) as (k & c' & Hl & Hs & Hin). exists (S k), c'. cbn [String.length] in *. split; [by rewrite Hl|].
  split; [exact Hs|by right].
Qed.
Lemma trim_suffix_id c s : c ∉ list_ascii_of_string s -> trim_suffix c s = s.
Proof.
  destruct s as [|c0 s]; [done|]. intros Hc. unfold trim_suffix. destruct (substring_last s c0) as (k & c' & -> & -> & Hin).
  destruct (String.eqb_spec (String c' "") (String c "")) as [[= ->]|]; [by destruct Hc|done].
Qed.
Lemma no_control s c : containsControl s = false -> c ∈ [ascii_of_N 0; ascii_of_N 13; ascii_of_N 10] -> c ∉ list_ascii_of_string s.
Proof.
  unfold containsControl. intros H Hc Hin. assert (existsb (fun c => List.existsb (Ascii.eqb c) [ascii_of_N 0; ascii_of_N 13; ascii_of_N 10]) (list_ascii_of_string s) = true) as E; [|congruence].
  apply existsb_exists. exists c. split; [by apply list_elem_of_In|]. apply existsb_exists. exists c. split; [by apply list_elem_of_In|apply Ascii.eqb_refl].
Qed.
Lemma secret_of_valid s : valid_secret s = true -> secret_of (Some s) = Some (Some s).
Proof.
  intros Hv. pose proof Hv as H. unfold valid_secret in H. apply andb_prop in H as [_ Hc%negb_true_iff]. unfold secret_of.
  rewrite !trim_suffix_id; [by rewrite Hv| |]; [|rewrite trim_suffix_id]; eapply no_control; try done; set_solver.
Qed.
Lemma secret_of_Some f s : secret_of f = Some (Some s) -> valid_secret s = true.
Proof. unfold secret_of. destruct f as [raw|]; [|done]. destruct (valid_secret _) eqn:E; [|done]. by intros [= <-]. Qed.

(** ** Weakest preconditions, crashes included *)
Definition wpc {X} (env : BackendEnv) (p : C X) (Q : X -> Backend -> Prop) (Qc : Backend -> Prop) (b : Backend) : Prop :=
  forall n, match p env n b with (Answered x, _, b') => Q x b' | (Crashed, _, b') => Qc b' end.
Section Wpc.
Context (env : BackendEnv).
Lemma wpc_ret {X} (x : X) Q Qc b : Q x b -> wpc env (mret x) Q Qc b.
Proof. by intros H n. Qed.
Lemma wpc_bind {X Y} (p : C X) (k : X -> C Y) Q Qc b : wpc env p (fun x => wpc env (k x) Q Qc) Qc b -> wpc env (p ≫= k) Q Qc b.
Proof. intros H n. unfold mbind, C_bind. specialize (H n). destruct (p env n b) as [[[|x] n'] b']; [done|]. apply H. Qed.
Lemma wpc_mono {X} (p : C X) (Q Q' : X -> Backend -> Prop) (Qc Qc' : Backend -> Prop) b :
  wpc env p Q Qc b -> (forall x b', Q x b' -> Q' x b') -> (forall b', Qc b' -> Qc' b') -> wpc env p Q' Qc' b.
Proof. intros H HQ Hc n. specialize (H n). destruct (p env n b) as [[[|x] n'] b']; auto. Qed.
Lemma wpc_peek {X} (f : Backend -> X) Q Qc b : Q (f b) b -> wpc env (peek f) Q Qc b.
Proof. by intros H n. Qed.
Lemma wpc_put f Q Qc b : Q tt (f b) -> wpc env (put f) Q Qc b.
Proof. by intros H n. Qed.
Lemma wpc_ctx (Q : bool -> Backend -> Prop) Qc b : (forall e, Q e b) -> wpc env ctx_failed Q Qc b.
Proof. intros H n. apply H. Qed.
Lemma wpc_file_op f (Q : bool -> Backend -> Prop) (Qc : Backend -> Prop) b :
  Q true b -> Qc b -> Q false (f b) -> Q true (f b) -> Qc (f b) -> wpc env (file_op f) Q Qc b.
Proof. intros ????? n. unfold file_op. by destruct (io_effect env (n_io n)). Qed.
Lemma wpc_read file (Q : option (option string) -> Backend -> Prop) (Qc : Backend -> Prop) b :
  Q None b -> Qc b -> Q (secret_of (file b)) b -> wpc env (readPrivateSecret file) Q Qc b.
Proof.
  intros H1 H2 H3. apply wpc_bind, wpc_file_op; try done; [by apply wpc_ret|apply wpc_bind, wpc_peek, wpc_ret, H3|by apply wpc_ret].
Qed.
Lemma wpc_write write s (Q : bool -> Backend -> Prop) (Qc : Backend -> Prop) b :
  Q true b -> Qc b -> (valid_secret s = true -> Q false (write (Some s) b) /\ Q true (write (Some s) b) /\ Qc (write (Some s) b)) ->
  wpc env (writePrivateSecret write s) Q Qc b.
Proof.
  intros H1 H2 H3. unfold writePrivateSecret. destruct (valid_secret s); cbn [negb]; [|by apply wpc_ret].
  destruct (H3 eq_refl) as (? & ? & ?). by apply wpc_file_op.
Qed.
End Wpc.

(** ** Provisional replacements *)
Definition marker_of (prev : option string) : string := match prev with Some s => "1" +:+ s | None => "0" end.
Definition valid_prev (prev : option string) : Prop := match prev with Some s => valid_secret s = true | None => True end.
Definition saved (r : authReplacement) : option string := if rp_had r then Some (rp_previous r) else None.
Definition marked (prev : option string) (b : Backend) : Prop :=
  rollbackMarker b = Some (marker_of prev) /\ valid_secret (marker_of prev) = true.
(** As long as a replacement is not final, the files recover the secret that
    was stored before it. *)
Record provisional (prev : option string) (r : authReplacement) (b : Backend) : Prop := mkProvisional {
  pv_open : rp_finalized r = false;
  pv_saved : rp_committed r = true -> saved r = prev;
  pv_valid : valid_prev prev;
  pv_marker : rollbackMarker b = None \/ marked prev b;
  pv_rolled : rp_rolled r = true -> rollbackMarker b = None;
  pv_uncommitted : rp_committed r = false -> secret_of (credentialFile b) = Some prev;
  pv_stored : rollbackMarker b = None -> secret_of (credentialFile b) = Some prev }.
Lemma recovered_unmarked b : rollbackMarker b = None -> recovered b = secret_of (credentialFile b).
Proof. unfold recovered. by intros ->. Qed.
Lemma recovered_marked prev b : valid_prev prev -> marked prev b -> recovered b = Some prev.
Proof.
  intros Hp [Hm Hv]. unfold recovered. rewrite Hm, secret_of_valid by done. destruct prev as [s|]; [|done].
  cbn [marker_of]. change ("1" +:+ s) with (String "1" s).
  assert (s <> "") as Hs by (intros ->; done). destruct s as [|c s]; [done|].
  cbn [String.eqb Ascii.eqb Bool.eqb String.prefix]. change (String.prefix "" (String c s)) with true.
  assert (1 <? byte_length (String "1" (String c s)) = true) as -> by (apply Z.ltb_lt; unfold byte_length; cbn [String.length]; lia).
  cbn [andb]. f_equal. f_equal. change (String.substring 0 (String.length (String c s)) (String c s) = String c s). apply substring_all.
Qed.
Lemma provisional_recovered prev r b : provisional prev r b -> recovered b = Some prev.
Proof.
  intros [_ _ Hv [Hm|Hm] _ _ Hst]; [by rewrite recovered_unmarked; [apply Hst|]|by apply recovered_marked].
Qed.
(** The files alone decide it. *)
Lemma provisional_files prev r b b' : provisional prev r b -> credentialFile b' = credentialFile b -> rollbackMarker b' = rollbackMarker b ->
  provisional prev r b'.
Proof. intros [H1 H2 H3 H4 H5 H6 H7] E1 E2. split; unfold marked in *; rewrite ?E1, ?E2; done. Qed.
Definition restored (prev : option string) (b : Backend) : Prop := rollbackMarker b = None /\ secret_of (credentialFile b) = Some prev.
Lemma wpc_restore_adapter env expected prior (Q : bool -> Backend -> Prop) Qc b :
  (forall e b', credentialFile b' = credentialFile b -> rollbackMarker b' = rollbackMarker b -> Q e b') -> wpc env (Restore expected prior) Q Qc b.
Proof.
  intros H. apply wpc_bind, wpc_peek. change (id b) with b. destruct (closed b || _); [by apply wpc_ret, H|].
  apply wpc_bind, wpc_put, wpc_ret. by apply H.
Qed.
Lemma wpc_restore_secret env prev r b (Q : bool -> Backend -> Prop) (Qc : Backend -> Prop) : saved r = prev -> valid_prev prev ->
  (forall e b', (b' = b /\ e = true) \/ (exists f, b' = credential_write f b /\ secret_of f = Some prev) -> Q e b' /\ Qc b') ->
  wpc env (restorePrivateSecret credential_write (rp_previous r) (rp_had r)) Q Qc b.
Proof.
  unfold saved. intros Hs Hv H. unfold restorePrivateSecret. destruct (rp_had r); subst prev.
  - apply wpc_write; [apply H; by left|apply (H true); by left|]. intros Hval.
    assert (secret_of (Some (rp_previous r)) = Some (Some (rp_previous r))) as Hf by (by apply secret_of_valid).
    assert (forall e, Q e (credential_write (Some (rp_previous r)) b) /\ Qc (credential_write (Some (rp_previous r)) b)) as Hw
      by (intros e; apply H; right; by exists (Some (rp_previous r))).
    split_and!; [apply Hw..|apply (Hw true)].
  - assert (forall e, Q e (credential_write None b) /\ Qc (credential_write None b)) as Hw by (intros e; apply H; right; by exists None).
    apply wpc_file_op; [apply H; by left|apply (H true); by left|apply Hw..|apply (Hw true)].
Qed.
Lemma wpc_rollback env prev r b : provisional prev r b ->
  wpc env (rollbackLocked r) (fun x b' => provisional prev x.2 b' /\ rp_closed x.2 = rp_closed r /\ (x.1 = false -> restored prev b'))
    (fun b' => recovered b' = Some prev) b.
Proof.
  intros Hpv. unfold rollbackLocked. rewrite (pv_open _ _ _ Hpv). cbn [orb]. destruct (rp_rolled r) eqn:Hr.
  { apply wpc_ret. split_and!; [done..|]. intros _. pose proof (pv_rolled _ _ _ Hpv Hr) as Hm. split; [done|by apply (pv_stored _ _ _ Hpv)]. }
  apply wpc_bind. destruct (rp_committed r) eqn:Hc.
  - apply wpc_bind, wpc_restore_adapter. intros moved b1 F1 F2. set (r' := if moved then r else r <| rp_adapter := None |>).
    assert (rp_finalized r' = false /\ rp_committed r' = true /\ saved r' = saved r /\ rp_rolled r' = false /\ rp_closed r' = rp_closed r) as (G1 & G2 & G3 & G4 & G5)
      by (subst r'; destruct moved; split_and!; try done; apply Hpv).
    pose proof (provisional_files _ _ _ b1 Hpv F1 F2) as Hpv1.
    apply wpc_bind, (wpc_restore_secret env prev); [by apply (pv_saved _ _ _ Hpv)|apply Hpv|]. intros e b2 Hb.
    assert (saved r' = prev) as G3' by (rewrite G3; by apply (pv_saved _ _ _ Hpv)).
    assert (provisional prev r' b1) as Hpv1' by (destruct Hpv1; split; congruence || done).
    assert (provisional prev r' b2) as Hpv2.
    { destruct Hb as [[-> _]|(f & -> & Hf)]; [done|]. destruct Hpv1'. by split. }
    split; [|by eapply provisional_recovered]. apply wpc_ret. destruct (moved || e) eqn:Hfail.
    { apply wpc_ret. by split_and!. }
    apply orb_false_iff in Hfail as [-> ->]. destruct Hb as [[_ ?]|(f & -> & Hf)]; [done|].
    assert (provisional prev (r' <| rp_rolled := true |>) (marker_write None (credential_write f b1)) /\ restored prev (marker_write None (credential_write f b1))
      /\ provisional prev r' (marker_write None (credential_write f b1))) as (P1 & P2 & P3).
    { split_and!; [|done|]; destruct Hpv2; split; done || (by left). }
    apply wpc_bind, wpc_file_op; [apply wpc_ret; by split_and!|by eapply provisional_recovered|apply wpc_ret; by split_and!|apply wpc_ret; by split_and!|
      by eapply provisional_recovered].
  - apply wpc_ret. cbn iota. set (r' := r <| rp_adapter := None |>).
    assert (secret_of (credentialFile b) = Some prev) as Hcred by (by apply (pv_uncommitted _ _ _ Hpv)).
    assert (provisional prev r' b) as Hpv' by (destruct Hpv; by split).
    assert (provisional prev (r' <| rp_rolled := true |>) (marker_write None b) /\ provisional prev r' (marker_write None b)) as (P1 & P3).
    { split; destruct Hpv'; split; done || (by left). }
    apply wpc_bind, wpc_file_op; [apply wpc_ret; by split_and!|by eapply provisional_recovered|apply wpc_ret; by split_and!|apply wpc_ret; by split_and!|
      by eapply provisional_recovered].
Qed.

(** ** Commit *)
Record committed_as (new : string) (r : authReplacement) (b : Backend) : Prop := mkCommitted {
  co_flags : rp_committed r = true /\ rp_rolled r = false /\ rp_finalized r = false;
  co_stored : credentialFile b = Some new /\ valid_secret new = true }.
Definition uncommitted (r : authReplacement) : Prop := rp_committed r = false /\ rp_rolled r = false /\ rp_finalized r = false.
Lemma wpc_commit_rollback env prev r b : provisional prev r b ->
  wpc env (commit_rollback r) (fun x b' => x.1 = true /\ provisional prev x.2 b' /\ rp_closed x.2 = rp_closed r) (fun b' => recovered b' = Some prev) b.
Proof.
  intros Hpv. apply wpc_bind. eapply wpc_mono; [by apply wpc_rollback| |done]. intros [e r'] b' (H1 & H2 & _). by apply wpc_ret.
Qed.
Lemma wpc_commit_failed env prev r b : provisional prev r b -> uncommitted r ->
  wpc env (commit_failed r) (fun x b' => x.1 = true /\ provisional prev x.2 b' /\ rp_closed x.2 = rp_closed r) (fun b' => recovered b' = Some prev) b.
Proof.
  intros Hpv (Hc & Hr & Hf). assert (provisional prev r (marker_write None b)) as Hpv'.
  { pose proof (pv_uncommitted _ _ _ Hpv Hc). destruct Hpv. split; done || (by left). }
  apply wpc_bind, wpc_file_op; try (apply wpc_ret; by split_and!); by eapply provisional_recovered.
Qed.
Lemma wpc_commit env prev r b : rollbackMarker b = None -> secret_of (credentialFile b) = Some prev -> uncommitted r ->
  wpc env (Commit r) (fun x b' => provisional prev x.2 b' /\ rp_closed x.2 = rp_closed r
      /\ (x.1 = false -> committed_as (rp_secret r) x.2 b' /\ rp_closed r = false))
    (fun b' => recovered b' = Some prev) b.
Proof.
  intros Hm Hs Hun. assert (valid_prev prev) as Hv by (destruct prev as [s|]; [by eapply secret_of_Some|done]).
  pose proof Hun as (Hc & Hr & Hf).
  assert (forall r1, uncommitted r1 -> provisional prev r1 b) as Hpv.
  { intros r1 (? & ? & ?). split; try done; try congruence; by left. }
  assert (wpc env (mret (true, r)) (fun x b' => provisional prev x.2 b' /\ rp_closed x.2 = rp_closed r
      /\ (x.1 = false -> committed_as (rp_secret r) x.2 b' /\ rp_closed r = false)) (fun b' => recovered b' = Some prev) b) as Hno
    by (apply wpc_ret; split_and!; [by apply Hpv|done|done]).
  unfold Commit. destruct (rp_adapter r) as [adapter|]; [|done]. rewrite Hc, Hr, Hf, !orb_false_r.
  destruct (rp_closed r) eqn:Hcl; [done|]. apply wpc_bind, wpc_ctx. intros [|]; [done|].
  apply wpc_bind, wpc_read; [done|by eapply provisional_recovered, Hpv|]. rewrite Hs.
  set (r1 := r <| rp_previous := default "" prev |> <| rp_had := match prev with Some _ => true | None => false end |>).
  assert (uncommitted r1 /\ saved r1 = prev /\ rp_closed r1 = false) as (Hun1 & Hs1 & Hcl1) by (by destruct prev).
  assert (forall x b', x.1 = true /\ provisional prev x.2 b' /\ rp_closed x.2 = rp_closed r1 ->
    provisional prev x.2 b' /\ rp_closed x.2 = false /\ (x.1 = false -> committed_as (rp_secret r) x.2 b' /\ false = false)) as Hfail.
  { intros x b' (H1 & H2 & H3). split_and!; [done|congruence|]. by rewrite H1. }
  assert ((if rp_had r1 then "1" +:+ rp_previous r1 else "0") = marker_of prev) as Emark by (by destruct prev).
  apply wpc_bind. unfold writeRollbackMarker. rewrite Emark.
  assert (recovered b = Some prev) as Hrec by (by eapply provisional_recovered, Hpv).
  assert (provisional prev r1 b) as Hpv1 by (by apply Hpv).
  apply wpc_write; [apply wpc_ret; by split_and!|exact Hrec|]. intros Hvm. set (b1 := marker_write (Some (marker_of prev)) b).
  assert (marked prev b1) as Hm1 by done.
  assert (forall r2, rp_finalized r2 = false -> rp_rolled r2 = false -> saved r2 = prev -> provisional prev r2 b1) as Hpb.
  { intros r2 ???. split; try done; [by right|congruence]. }
  split_and!; [|apply wpc_ret; split_and!; [by apply Hpb|done|done]|by apply recovered_marked].
  apply wpc_bind, wpc_ctx. intros [|].
  { eapply wpc_mono; [apply wpc_commit_failed; [by apply Hpb|done]|apply Hfail|done]. }
  apply wpc_bind. unfold Exchange. apply wpc_bind, wpc_peek. change (id b1) with b1. destruct (closed b1).
  { apply wpc_ret. eapply wpc_mono; [apply wpc_commit_failed; [by apply Hpb|done]|apply Hfail|done]. }
  apply wpc_bind, wpc_put, wpc_ret. set (b2 := b1 <| current := Some adapter |>).
  set (r2 := r1 <| rp_prior := current b1 |> <| rp_committed := true |>).
  assert (provisional prev r2 b2) as Hpv2.
  { apply (provisional_files _ _ b1); [|done..]. by apply Hpb. }
  apply wpc_bind, wpc_ctx. intros [|].
  { eapply wpc_mono; [by apply wpc_commit_rollback|apply Hfail|done]. }
  change (rp_secret r2) with (rp_secret r). apply wpc_bind, wpc_write.
  { eapply wpc_mono; [by apply wpc_commit_rollback|apply Hfail|done]. }
  { by eapply provisional_recovered. }
  intros Hvs. set (b3 := credential_write (Some (rp_secret r)) b2).
  assert (provisional prev r2 b3) as Hpv3 by (destruct Hpv2; by split).
  split_and!; [|eapply wpc_mono; [by apply wpc_commit_rollback|apply Hfail|done]|by eapply provisional_recovered].
  apply wpc_bind, wpc_ctx. intros [|].
  { eapply wpc_mono; [by apply wpc_commit_rollback|apply Hfail|done]. }
  apply wpc_ret. split_and!; [done..|]. intros _. split; [|done]. by split.
Qed.

(** ** The end of a session *)
Definition either (prev : option string) (new : string) (b : Backend) : Prop := recovered b = Some prev \/ recovered b = Some (Some new).
(** After a failed [Finalize] the marker may be gone: a rollback writes the
    previous secret back with nothing to fall back on. *)
Lemma wpc_rollback_unmarked env prev new r b : rollbackMarker b = None -> credentialFile b = Some new -> valid_secret new = true ->
  rp_committed r = true -> rp_finalized r = false -> rp_rolled r = false -> saved r = prev -> valid_prev prev ->
  wpc env (rollbackLocked r) (fun _ b' => either prev new b') (either prev new) b.
Proof.
  intros Hm Hn Hv Hc Hf Hr Hs Hp. unfold rollbackLocked. rewrite Hf, Hr, Hc. cbn [orb].
  assert (forall b', rollbackMarker b' = None -> (secret_of (credentialFile b') = Some prev \/ credentialFile b' = Some new) -> either prev new b') as He.
  { intros b' E1 [E2|E2]; [left|right]; rewrite recovered_unmarked by done; [done|]. rewrite E2. by apply secret_of_valid. }
  apply wpc_bind, wpc_bind, wpc_restore_adapter. intros moved b1 F1 F2.
  apply wpc_bind, (wpc_restore_secret env prev); [done..|]. intros e b2 Hb.
  assert (rollbackMarker b2 = None /\ (secret_of (credentialFile b2) = Some prev \/ credentialFile b2 = Some new)) as [G1 G2].
  { destruct Hb as [[-> _]|(f & -> & Hfs)]; (split; [by cbn; rewrite F2|]); [right; by rewrite F1|left; exact Hfs]. }
  split; [|by apply He]. apply wpc_ret. destruct (moved || e); [by apply wpc_ret, He|].
  apply wpc_bind, wpc_file_op; [by apply wpc_ret, He|by apply He|by apply wpc_ret, He|by apply wpc_ret, He|by apply He].
Qed.
Lemma wpc_close env prev r b : provisional prev r b ->
  wpc env (CloseReplacement r) (fun _ b' => recovered b' = Some prev /\ (restored prev b -> restored prev b')) (fun b' => recovered b' = Some prev) b.
Proof.
  intros Hpv. pose proof (provisional_recovered _ _ _ Hpv) as Hrec. unfold CloseReplacement. destruct (rp_closed r); [by apply wpc_ret|].
  set (r1 := r <| rp_closed := true |>). destruct (_ && _) eqn:E; [|by apply wpc_ret].
  assert (provisional prev r1 b) as Hpv1 by (destruct Hpv; by split).
  assert (wpc env (rollbackLocked r1) (fun _ b' => restored prev b -> restored prev b') (fun _ => True) b) as Hkeep.
  { apply andb_prop in E as [[Hc Hf%negb_true_iff]%andb_prop Hr%negb_true_iff]. unfold rollbackLocked. rewrite Hf, Hr, Hc. cbn [orb].
    apply wpc_bind, wpc_bind, wpc_restore_adapter. intros moved b1 F1 F2.
    apply wpc_bind, (wpc_restore_secret env prev); [by apply (pv_saved _ _ _ Hpv)|apply Hpv|]. intros e b2 Hb. split; [|done].
    assert (restored prev b -> restored prev b2) as H2.
    { intros [R1 R2]. unfold restored. destruct Hb as [[-> _]|(f & -> & Hfs)]; [by rewrite F1, F2|split; [by cbn; rewrite F2|exact Hfs]]. }
    apply wpc_ret. destruct (moved || e); [by apply wpc_ret|].
    assert (restored prev b -> restored prev (marker_write None b2)) as H3 by (intros H; split; [done|apply H2, H]).
    apply wpc_bind, wpc_file_op; try done; by apply wpc_ret. }
  intros n. specialize (Hkeep n). pose proof (wpc_rollback env prev r1 b Hpv1 n) as H.
  destruct (rollbackLocked r1 env n b) as [[[|x] n'] b']; [done|]. split; [|done]. by eapply provisional_recovered, (proj1 H).
Qed.
Lemma wpc_close_finalized env (Q : bool * authReplacement -> Backend -> Prop) Qc r b : rp_finalized r = true ->
  (forall x, Q x b) -> wpc env (CloseReplacement r) Q Qc b.
Proof.
  intros Hf H. unfold CloseReplacement. destruct (rp_closed r); [by apply wpc_ret|]. change (rp_finalized (r <| rp_closed := true |>)) with (rp_finalized r).
  rewrite Hf, andb_false_r. cbn [negb andb]. by apply wpc_ret.
Qed.
Lemma wpc_finalize env prev new r b : provisional prev r b -> committed_as new r b -> rp_closed r = false ->
  wpc env (Finalize r) (fun x b' =>
      if x.1 then x.2 = r /\ committed_as new r b' /\ (provisional prev r b' \/ rollbackMarker b' = None)
      else rp_finalized x.2 = true /\ restored (Some new) b')
    (either prev new) b.
Proof.
  intros Hpv Hco Hcl. pose proof Hco as [(Hc & Hr & Hf) [Hn Hv]]. unfold Finalize. rewrite Hcl, Hc, Hr, Hf. cbn [orb negb]. apply wpc_bind.
  assert (secret_of (credentialFile b) = Some (Some new)) as Hsn by (rewrite Hn; by apply secret_of_valid).
  assert (recovered (marker_write None b) = Some (Some new)) as Hrn by (by rewrite recovered_unmarked).
  assert (either prev new b) as Hold by (left; by eapply provisional_recovered).
  apply wpc_file_op; [apply wpc_ret|exact Hold|apply wpc_ret|apply wpc_ret|by right]; cbn [fst snd]; (split; [done|]).
  - split; [done|by left].
  - by split.
  - split; [by split|by right].
Qed.
Lemma wpc_close_unmarked env prev new r b : provisional prev r b \/ rollbackMarker b = None ->
  committed_as new r b -> saved r = prev -> valid_prev prev ->
  wpc env (CloseReplacement r) (fun _ b' => either prev new b') (either prev new) b.
Proof.
  intros [Hpv|Hm] [(Hc & Hr & Hf) [Hn Hv]] Hs Hp.
  - eapply wpc_mono; [by apply wpc_close| |]; cbn beta; [intros _ b' [H _]|intros b' H]; by left.
  - unfold CloseReplacement. destruct (rp_closed r).
    + apply wpc_ret. right. rewrite recovered_unmarked, Hn by done. by apply secret_of_valid.
    + change (rp_committed (r <| rp_closed := true |>)) with (rp_committed r). change (rp_finalized (r <| rp_closed := true |>)) with (rp_finalized r).
      change (rp_rolled (r <| rp_closed := true |>)) with (rp_rolled r). rewrite Hc, Hr, Hf. cbn [andb negb].
      by apply wpc_rollback_unmarked.
Qed.

(** What a session leaves: [e1] is the answer of its second call. *)
Definition session_leaves (p : plan) (prev : option string) (new : string) (x : bool * bool * bool) (b : Backend) : Prop :=
  let '(e0, e1, _) := x in
  if match p with PlanCommit finalize => negb e0 && finalize | _ => false end
  then either prev new b /\ (e1 = false -> restored (Some new) b)
  else recovered b = Some prev /\ (e1 = false -> p <> PlanClose -> restored prev b).
Lemma wpc_session env p prev r b : rollbackMarker b = None -> secret_of (credentialFile b) = Some prev -> uncommitted r ->
  wpc env (session p r) (session_leaves p prev (rp_secret r))
    (fun b' => either prev (rp_secret r) b' /\ (p <> PlanCommit true -> recovered b' = Some prev)) b.
Proof.
  intros Hm Hs Hun. pose proof Hun as (Hc & Hr & Hf).
  assert (valid_prev prev) as Hv by (destruct prev as [s|]; [by eapply secret_of_Some|done]).
  assert (provisional prev r b) as Hpv by (split; try done; try congruence; by left).
  assert (forall r1 b1 e0, provisional prev r1 b1 -> (match p with PlanCommit finalize => negb e0 && finalize | _ => false end = false) ->
    wpc env ('(e1, r) ← Rollback r1; '(e2, _) ← CloseReplacement r; mret (e0, e1, e2)) (session_leaves p prev (rp_secret r))
      (fun b' => recovered b' = Some prev) b1) as Hback.
  { intros r1 b1 e0 Hp1 He0. apply wpc_bind. eapply wpc_mono; [by apply wpc_rollback| |done]. intros [e1 r2] b2 (P2 & _ & R2). cbn [fst snd] in *.
    apply wpc_bind. eapply wpc_mono; [by apply wpc_close| |done]. intros [e2 r3] b3 [R3 K3]. apply wpc_ret. unfold session_leaves. rewrite He0.
    split; [done|]. intros -> _. by apply K3, R2. }
  assert (forall b', recovered b' = Some prev -> either prev (rp_secret r) b' /\ (p <> PlanCommit true -> recovered b' = Some prev)) as Hcrash
    by (intros b' H; split; [by left|done]).
  unfold session. destruct p as [| |finalize].
  - apply wpc_bind. eapply wpc_mono; [by apply wpc_close| |exact Hcrash]. intros [e r2] b2 [R2 _]. apply wpc_ret. by split.
  - eapply wpc_mono; [by apply (Hback r b false)|done|exact Hcrash].
  - apply wpc_bind. eapply wpc_mono; [by apply wpc_commit| |exact Hcrash]. intros [e0 r1] b1 (P1 & C1 & K1). cbn [fst snd] in *.
    destruct (negb e0 && finalize) eqn:Ef.
    + apply andb_prop in Ef as [->%negb_true_iff ->]. destruct (K1 eq_refl) as [K2 K3]. rewrite K3 in C1.
      apply wpc_bind. eapply wpc_mono; [by eapply wpc_finalize| |by split]. intros [e1 r2] b2 H2. cbn [fst snd] in H2. apply wpc_bind. destruct e1.
      * destruct H2 as (-> & H2 & H3). eapply wpc_mono; [apply (wpc_close_unmarked env prev (rp_secret r)); [exact H3|exact H2| |done]| |by split].
        { apply (pv_saved _ _ _ P1), K2. }
        clear H3.
        intros [e2 r3] b3 H3. apply wpc_ret. by split.
      * destruct H2 as [F2 R2]. apply wpc_close_finalized; [done|]. intros [e2 r3]. apply wpc_ret. split; [|done].
        right. rewrite recovered_unmarked; apply R2.
    + eapply wpc_mono; [by apply Hback|done|exact Hcrash].
Qed.

(** ** Restarts *)
Lemma secret_of_None f : secret_of f = Some None -> f = None.
Proof. unfold secret_of. destruct f as [raw|]; [|done]. by destruct (valid_secret _). Qed.
Lemma wpc_recover env v b : recovered b = Some v ->
  wpc env recoverInterruptedReplacement (fun e b' => recovered b' = Some v /\ (e = false -> restored v b')) (fun b' => recovered b' = Some v) b.
Proof.
  intros Hrec. apply wpc_bind, wpc_read; [by apply wpc_ret|done|]. pose proof Hrec as H. unfold recovered in H.
  destruct (secret_of (rollbackMarker b)) as [[m|]|] eqn:Em; [| |done].
  2:{ apply wpc_ret. split; [done|]. intros _. split; [by apply secret_of_None|done]. }
  assert (forall b1, rollbackMarker b1 = rollbackMarker b -> recovered b1 = Some v) as Hsame.
  { intros b1 E. rewrite <- Hrec. unfold recovered. by rewrite E, Em. }
  assert (forall b1, rollbackMarker b1 = rollbackMarker b -> secret_of (credentialFile b1) = Some v ->
    wpc env removeRollbackMarker (fun e b' => recovered b' = Some v /\ (e = false -> restored v b')) (fun b' => recovered b' = Some v) b1) as Hrem.
  { intros b1 E1 E2. apply wpc_file_op; [split; [by apply Hsame|done]|by apply Hsame|split; [by rewrite recovered_unmarked|done]|
      split; [by rewrite recovered_unmarked|done]|by rewrite recovered_unmarked]. }
  assert (forall p : C bool, wpc env p (fun e b1 => rollbackMarker b1 = rollbackMarker b /\ (e = false -> secret_of (credentialFile b1) = Some v))
      (fun b1 => rollbackMarker b1 = rollbackMarker b) b ->
    wpc env (err ← p; if (err : bool) then mret true else removeRollbackMarker)
      (fun e b' => recovered b' = Some v /\ (e = false -> restored v b')) (fun b' => recovered b' = Some v) b) as Hdone.
  { intros p Hp. apply wpc_bind. eapply wpc_mono; [exact Hp| |exact Hsame]. intros [|] b1 [E1 E2]; [apply wpc_ret; split; [by apply Hsame|done]|].
    apply Hrem; [done|by apply E2]. }
  apply Hdone. destruct (m =s "0"); [injection H as <-; by apply wpc_file_op|].
  destruct (String.prefix "1" m && (1 <? byte_length m)); [|done]. injection H as <-.
  apply wpc_write; [done..|]. intros Hv. split_and!; try done. intros _. by apply secret_of_valid.
Qed.
(** A start of the process up to the end of its recovery, or to its crash. *)
Definition restart (b : Backend) (env : BackendEnv) : Backend := (recoverInterruptedReplacement env (mkTurns 0 0 0) b).2.
Lemma restart_recovered env b v : recovered b = Some v -> recovered (restart b env) = Some v.
Proof.
  intros H. pose proof (wpc_recover env v b H (mkTurns 0 0 0)) as Hw. unfold restart.
  destruct (recoverInterruptedReplacement env (mkTurns 0 0 0) b) as [[[|e] n] b']; [done|apply Hw].
Qed.
Lemma restarts_recovered envs b v : recovered b = Some v -> recovered (foldl restart b envs) = Some v.
Proof. revert b. induction envs as [|env envs IH]; intros b H; [done|]. by apply IH, restart_recovered. Qed.

(** C36: a replacement is all or nothing across crashes.  Whatever file operation
    fails or crashes during the calls the manager makes on a replacement, and
    however many restarts crash during their own recovery, the first recovery
    that completes leaves the previous secret or the new one: the new one if
    [Finalize] succeeded, the previous one unless [Finalize] was called. *)
Theorem credential_crash_safe env p prev r b n o n' b' :
  rollbackMarker b = None -> secret_of (credentialFile b) = Some prev -> uncommitted r -> session p r env n b = (o, n', b') ->
  exists stored, recovered b' = Some stored
    /\ (stored = prev \/ stored = Some (rp_secret r) /\ p = PlanCommit true)
    /\ (forall e, p = PlanCommit true -> o = Answered (false, false, e) -> stored = Some (rp_secret r))
    /\ (forall envs last m m' b2, recoverInterruptedReplacement last m (foldl restart b' envs) = (Answered false, m', b2) ->
          rollbackMarker b2 = None /\ secret_of (credentialFile b2) = Some stored).
Proof.
  intros Hm Hs Hun E. pose proof (wpc_session env p prev r b Hm Hs Hun n) as H. rewrite E in H.
  assert (exists stored, recovered b' = Some stored /\ (stored = prev \/ stored = Some (rp_secret r) /\ p = PlanCommit true)
    /\ (forall e, p = PlanCommit true -> o = Answered (false, false, e) -> stored = Some (rp_secret r))) as (stored & H1 & H2 & H3).
  { destruct o as [|[[e0 e1] e2]].
    - destruct H as [Hei Hno]. destruct (decide (recovered b' = Some prev)) as [Hp|Hp]; [exists prev; split_and!; [exact Hp|by left|done]|].
      destruct Hei as [?|Hn]; [done|]. exists (Some (rp_secret r)). split_and!; [done| |done]. right. split; [done|].
      destruct p as [| |[]]; try done; by destruct Hp; apply Hno.
    - unfold session_leaves in H. destruct (match p with PlanCommit finalize => negb e0 && finalize | _ => false end) eqn:Ep.
      + destruct p as [| |[]]; try done; [|by rewrite andb_false_r in Ep]. destruct e0; [done|]. destruct H as [Hei Hok]. destruct e1.
        * destruct Hei as [Hp|Hn]; [exists prev|exists (Some (rp_secret r))]; split_and!; auto; by intros e _ [=].
        * destruct (Hok eq_refl) as [K1 K2]. exists (Some (rp_secret r)). split_and!; [by rewrite recovered_unmarked|by right|done].
      + exists prev. split_and!; [apply H|by left|]. intros e -> [= -> -> _]. done. }
  exists stored. split_and!; [done..|]. intros envs last m m' b2 Er.
  pose proof (wpc_recover last stored (foldl restart b' envs) (restarts_recovered envs b' stored H1) m) as Hw. rewrite Er in Hw.
  by apply (proj2 Hw).
Qed.

(** ** What a replacement and a logout do not undo *)
Definition demo_config : NativeConfig := mkNativeConfig "model" ∅ ∅.
(** The marker is one byte longer than the secret it holds: a stored secret of
    the longest admitted length can never be replaced. *)
Lemma longest_secret_stuck env r b s : credentialFile b = Some s -> valid_secret s = true -> byte_length s = 16 * 1024 ->
  wpc env (Commit r) (fun x b' => x.1 = true /\ b' = b) (fun b' => b' = b) b.
Proof.
  intros Hs Hv Hl. unfold Commit. destruct (rp_adapter r) as [adapter|]; [|by apply wpc_ret].
  destruct (_ || rp_rolled r); [by apply wpc_ret|]. apply wpc_bind, wpc_ctx. intros [|]; [by apply wpc_ret|].
  apply wpc_bind, wpc_read; [by apply wpc_ret|done|]. rewrite Hs, secret_of_valid by done. apply wpc_bind.
  apply wpc_write; [by apply wpc_ret|done|]. intros Hm. exfalso. change (valid_secret (String "1" s) = true) in Hm. revert Hm.
  unfold valid_secret. rewrite !andb_true_iff, Z.leb_le. intros [[_ Hm] _]. unfold byte_length in *. cbn [String.length] in Hm. lia.
Qed.
(** A failed rollback leaves its marker; the logout after it succeeds and keeps
    the marker, and the next start restores the credential. *)
Definition demo_stuck_marker : BackendEnv :=
  mkBackendEnv (fun k => if Nat.eqb k 4 then Refused else Done) (fun k => Nat.eqb k 3) (fun _ => true).
Lemma logout_leaves_marker :
  let '(o, _, b1) := session (PlanCommit true)
    (mkReplacement (Some (mkAdapter 1 "new-key" demo_config)) None "new-key" "" false false false false false) demo_stuck_marker (mkTurns 0 0 0)
    (mkBackend (Some "old-key") None (Some (mkAdapter 0 "old-key" demo_config)) false 2 demo_config) in
  let '(answer, _, b2) := BackendLogout (mkBackendEnv (fun _ => Done) (fun _ => false) (fun _ => true)) (mkTurns 0 0 0) b1 in
  let '(started, _, b3) := Bootstrap None false (mkBackendEnv (fun _ => Done) (fun _ => false) (fun _ => true)) (mkTurns 0 0 0) b2 in
  o = Answered (true, true, true) /\ answer = Answered false /\ credentialFile b2 = None /\ started = Answered (Some true)
  /\ credentialFile b3 = Some "old-key".
Proof. vm_compute. repeat split. Qed.

(** ** A crash right after the new secret was written *)
Definition demo_crash : BackendEnv :=
  mkBackendEnv (fun k => if Nat.eqb k 2 then CrashAfter else Done) (fun _ => false) (fun _ => true).
Definition demo_calm : BackendEnv := mkBackendEnv (fun _ => Done) (fun _ => false) (fun _ => true).
Definition demo_backend : Backend := mkBackend (Some "old-key") None (Some (mkAdapter 0 "old-key" demo_config)) false 1 demo_config.
Definition demo_replacement : authReplacement :=
  mkReplacement (Some (mkAdapter 1 "new-key" demo_config)) None "new-key" "" false false false false false.
Definition demo_crashed : Backend := (session (PlanCommit true) demo_replacement demo_crash (mkTurns 0 0 0) demo_backend).2.
Lemma credential_crash_safe_witness :
  credentialFile demo_crashed = Some "new-key"
  /\ credentialFile (restart (restart demo_crashed demo_crash) demo_calm) = Some "old-key"
  /\ exists stored, recovered demo_crashed = Some stored
    /\ (stored = Some "old-key" \/ stored = Some "new-key" /\ PlanCommit true = PlanCommit true)
    /\ (forall e, PlanCommit true = PlanCommit true -> @Crashed (bool * bool * bool) = Answered (false, false, e) -> stored = Some "new-key")
    /\ (forall envs last m m' b2, recoverInterruptedReplacement last m (foldl restart demo_crashed envs) = (Answered false, m', b2) ->
          rollbackMarker b2 = None /\ secret_of (credentialFile b2) = Some stored).
Proof.
  split; [vm_compute; reflexivity|]. split; [vm_compute; reflexivity|].
  apply (credential_crash_safe demo_crash (PlanCommit true) (Some "old-key") demo_replacement demo_backend (mkTurns 0 0 0)
    Crashed (session (PlanCommit true) demo_replacement demo_crash (mkTurns 0 0 0) demo_backend).1.2 demo_crashed);
    [reflexivity|vm_compute; reflexivity|vm_compute; split_and!; reflexivity|vm_compute; reflexivity].
Defined.

(** ** The worker of the node settings *)
Lemma restart_settings c models env n b rollbackFailed err n' b' :
  RestartSettings c models env n b = (Answered (rollbackFailed, err), n', b') ->
  if err then config b' = config b /\ native_config <$> current b' = (if rollbackFailed then None else native_config <$> current b)
  else config b' = configured c /\ native_config <$> current b' = Some (configured c).
Proof.
  unfold RestartSettings, build, mbind, C_bind, peek, put, mret, C_ret, id, ctx_failed. intros H.
  destruct (current b) as [prior|] eqn:Ec; [|injection H as <- <- _ <-; by rewrite Ec].
  destruct (closed b); [injection H as <- <- _ <-; by rewrite Ec|].
  repeat (case_match; simplify_eq/=; try done).
Qed.
#[export] Instance managed_lawful : LawfulApplier Backend NativeConfig.
Proof.
  split.
  - intros c b rb b' (models & env & n & n' & H). exact (restart_settings _ _ _ _ _ _ _ _ _ H).
  - intros c b b' (models & env & n & n' & H). exact (restart_settings _ _ _ _ _ _ _ _ _ H).
  - intros c b b' (models & env & n & n' & H). exact (restart_settings _ _ _ _ _ _ _ _ _ H).
  - intros c b (env & n & n' & b0 & H). by injection H as _ <-.
  - intros b b' (secret & adapter & env & n & n1 & n2 & b1 & H1 & H2).
    unfold Prepare, build, Swap, Exchange, mbind, C_bind, peek, put, mret, C_ret in *. repeat (case_match; simplify_eq/=; try done).
  - intros b b' (env & n & n' & H). unfold Deactivate, mbind, C_bind, peek, put, mret, C_ret, file_op in *.
    repeat (case_match; simplify_eq/=; try done).
Qed.
(** The process starts the stored credential's worker before it hands the
    applied settings over ([cmd/harness-node/main.go]): the worker keeps the
    settings of the configuration file. *)
Lemma worker_starts_unconfigured :
  let start := mkBackend (Some "key") None None false 0 (mkNativeConfig "startup-model" ∅ ∅) in
  let '(started, n, b1) := Bootstrap None false demo_calm (mkTurns 0 0 0) start in
  let '(_, _, b2) := ConfigureApplied (mkRuntimeConfig "applied-model" ∅ []) demo_calm n b1 in
  started = Answered (Some true) /\ nc_model (config b2) = "applied-model"
  /\ (fun a => nc_model (native_config a)) <$> current b2 = Some "startup-model".
Proof. vm_compute. repeat split. Qed.
(** A replacement prepared before the settings change, and committed after,
    brings the old settings back. *)
Lemma prepared_worker_is_stale :
  let '(prepared, n1, b1) := PrepareReplacement "new-key" demo_calm (mkTurns 0 0 0) demo_backend in
  let '(restarted, n2, b2) := RestartSettings (mkRuntimeConfig "applied-model" ∅ []) (fun _ => Some ["applied-model"]) demo_calm n1 b1 in
  restarted = Answered (false, false) /\ (fun a => nc_model (native_config a)) <$> current b2 = Some "applied-model"
  /\ match prepared with
     | Answered (Some r) =>
         let '(committed, _, b3) := session (PlanCommit true) r demo_calm n2 b2 in
         committed = Answered (false, false, false) /\ (fun a => nc_model (native_config a)) <$> current b3 = Some "model"
     | _ => False
     end.
Proof. vm_compute. repeat split. Qed.
