(* ===== verification/SettingsRuns.v ===== *)
(** * The applied settings across runs
    The invariant of [apply_step]: which tasks hold the gate and own a pending
    operation, what the file holds, and what the worker was built with. *)
From stdpp Require Import base tactics list strings gmap.
From Stdlib Require Import ZArith Lia Ascii String.
From S2P Require Import Prelude Json Wire Instant TranscriptView Auth AuthSystem AuthSections Settings SettingsManager SettingsFacts Credential CredentialFacts.
Open Scope string_scope.
Open Scope list_scope.
Open Scope Z_scope.
Open Scope harness_scope.



(** ** The invariant *)
Section Runs.
Context `{SettingsNode} {W N : Type} `{RuntimeApplier W N} `{!LawfulApplier W N} (initial : string).
Notation system := (ApplySystem W).








End Runs.

(** ** A change of the settings *)
#[local] Existing Instance demo_settings.
Notation system := (ApplySystem Backend).
